(* ===== verification/_CoqProject ===== *)
-Q . S2P
Prelude.v
Str.v
Net.v
Extern.v
Instances.v
UriValidate.v
UpstreamFilter.v
Config.v
HostPolicy.v
Headers.v
Limits.v
RateLimit.v
Privilege.v
Balance.v
AbSplit.v
Rewrite.v
Resolver.v
StaticFile.v
Logging.v
Geoip.v
Proxy.v
Handler.v
Entry.v
Flight.v
Dial.v
Tls.v
Acme.v
Wire.v
Listener.v
Broadcast.v
Server.v
StreamProxy.v
System.v
Main.v
Issuance.v
Renewal.v
HotSwap.v
Serving.v
Conformance.v
Integration.v
