(* ===== verification/Prelude.v ===== *)
(** * flexd: a verification library for the hardened web server

    flexd is an HTTP/1.1, HTTP/2 and HTTP/3 server and reverse proxy: a request goes
    through security checks, host policy, rewrites and routing to a static file, a
    redirect or an upstream pool; around that are configuration loading, TLS and ACME
    certificates, TCP and mail listeners, and startup, reload and shutdown.  This
    library models that code from its Rust sources (src/src) and proves what makes it
    correct.

    ** How the parts call each other, and where they are

    Each file models one source module and opens with what it holds; operations keep
    the names of the Rust functions ([Type_new] for [Type::new]).

    - [Prelude], [Str], [Net], [Extern], [Instances]: not of the program.  Outcomes
      ([res]: Ok, Err, or no return at all, by a panic or a wait that does not end), traces ([Tr]: the events of an effectful function and
      its outcome), byte strings and the parts of Rust's [str], [char] and [u64] that
      the sources use, IP addresses with their parser and printer, the interfaces to
      third-party crates ([http], [ipnetwork], [regex], [flate2]), and concrete
      instances of these interfaces for the examples.
    - [Config] (config.rs): the configuration schema, validation, loading.
    - [UriValidate], [UpstreamFilter], [HostPolicy], [Headers], [Limits], [RateLimit],
      [Privilege] (security/*.rs): the guards.
    - [Balance] (balance.rs), [AbSplit] (absplit.rs), [Rewrite] (rewrite.rs),
      [Resolver] (resolver.rs), [StaticFile] (static_file.rs), [Logging]
      (logging.rs), [Geoip] (geoip.rs), [Proxy] (proxy.rs): the services of a block.
    - [Handler] (handler.rs): the request pipeline, which calls all of the above.
    - [Entry]: the contract of the two entry points of the handler.  [Flight]: the
      proxied requests of a listener interleaved.  [Dial] (proxy.rs, resolver.rs): what
      the pooled client dials for them.
    - [Tls] (tls.rs), [Acme] (acme.rs): acceptors; issuance and renewal decisions.
      [Issuance]: the challenge store between issuance and requests, and the files
      between issuance and reloads.  [Renewal]: the renewal task over time.  [HotSwap]:
      a renewed certificate in the running server.
    - [Wire], [Listener], [Server], [System] (server.rs): per-connection protocol code;
      TCP and QUIC listeners with their start, reload and accept arms and the requests
      of their connections; startup and the signal handler; and all the tasks of a
      running server interleaved.  [StreamProxy]: the accept loop of a stream block and
      its clients.  What a listener promises to the
      process that runs it is the class [Listener.Reloadable] with its laws, which both
      kinds of listener satisfy and against which [System] is proved; the channels
      between the tasks are the class [Broadcast.Broadcast].  [Serving] runs [System]
      and the requests of [Flight] together: the services that starts and reloads make,
      and the connections that hold on to them.
    - [Main] (main.rs): the command line.
    - [Conformance], [Integration] (the test modules, src/tests/integration.rs): the
      unit, property-based and integration tests of the crate, run on the definitions.

    ** Modelling choices

    Strings are lists of bytes; a machine integer is a [Z] whose wrap-around is
    written out where the source can overflow (release builds do not check), and an
    instant is a number of nanoseconds.  Shared state (balancer pools, the sticky
    table, the DNS cache, the connection counter, the challenge store) is passed
    explicitly; where threads interleave, the atomic steps are a relation and the
    theorems are about every reachable state ([Limits], [Balance], [Resolver],
    [AbSplit], [Flight], [Dial], [StreamProxy], [System], [Serving]).
    Effects on the outside (the calls of a privilege drop, the messages and writes of
    an issuance, startup) are traces.  What a crate, the operating system, a CA or a
    peer answers is an argument: an interface of operations, with the documented
    behaviour the code relies on as a class of laws, and an instance that satisfies it.

    ** What is proved

    - Requests: nothing reaches a backend or a file without passing every gate
      ([Handler.process_gate]); location selection; failover, which tries the servers in
      order, goes on exactly after an answer that permits it and ends with the status
      of its last answer ([Handler.failover_ok]); CONNECT and what it dials, the HTTP/3
      authority rule, the decompression bound, response headers.
    - Proxying: hop-by-hop and attribution headers in both directions; what upstream
      responses are accepted.
    - Guards: what a validated URI excludes and that validation ends; restricted
      ranges as address blocks, and the gate over the printed forms of an address;
      every address the resolver returns was vetted; a file served lies beneath the
      root; the host policies; the reset tracker, sound and complete; the privilege
      drop and the order of its calls; the connection cap over all interleavings.
    - Balancing: each strategy's candidate order, fairness of round-robin over a
      period; exact A/B weights and stickiness.  Requests that interleave, and go away
      at any moment, each end with the outcome the failover specification gives, the
      gauges count exactly those awaiting a server, and each has ended after a bounded
      number of its own steps unless an upstream's body stalls ([Flight]); likewise the
      clients of a stream block ([StreamProxy]).
    - The network: with plain server addresses every address dialled, reused from the
      pool or tunnelled to is one the SSRF policy admits, under any interleaving of
      lookups, requests and client calls ([Dial.dialled_allowed]).
    - Configuration: [Config_load] returns exactly the well-formed configurations
      ([Config.wf_config] is the specification), and whatever signals arrive only such
      a configuration is installed.
    - Certificates: at most five attempts with their waits; a challenge announced to
      the CA is answered by every listener of the block from then on; the disk changes
      only after the CA issued and ends with mode 0600 ([Issuance]); once the reload of
      a renewal has settled, every TLS listener of the block serves the new chain
      ([HotSwap]); renewal starts within one pause of the window and has as many
      attempts as the window has pauses ([Renewal]).
    - Connections: the bare-LF screen against its specification, the reader that
      loses nothing, the mail session's replies, the HTTP/2 kill switch, the HTTP/3
      body limit and stream, which protocol a connection speaks under which settings.
    - Entry points: one response and one consistent log line per request and no panic,
      for ASCII paths and rewrites ([Entry.handle_answers] names what else it assumes);
      no server contacted or dialled outside the block's pools and the SSRF policy.
    - Startup: all binds, then the privilege drop, then service; ACME sockets served
      only with a certificate, but bound before it is there; on success everything configured is served once;
      nothing without a valid configuration ([Main]).
    - The running server ([System]): it refines a six-rule specification in which a
      validated configuration is published and each listener adopts its block whole;
      connections keep their block, and those of HTTP and QUIC listeners never outnumber
      the cap; no reload is lost, whatever the channel merges; shutdown ends admission at
      once and every task after a bounded number of its own steps, except a renewal that
      is inside an issuance; a reload equals a restart of the
      listener ([Listener.reload_is_restart]), but not of a QUIC endpoint's
      certificate.
    - Requests across reloads ([Serving]): each connection is served by the one service
      its loop had when it was accepted, with the balancer, sticky table and DNS cache
      of that service; whatever reloads happen, requests in flight end against the pools
      of the block they came in under, the gauges of every service, replaced or not,
      stay exact, a service nobody points at gets no request any more, and requests
      never keep the server from a step.
    - The program's own tests pass on the definitions ([Conformance], [Integration]).

    Some theorems record where the code does less than its comments say; their names
    end in [_gap], [_gaps], [_collide], [_panics], [_plaintext], [_keeps_cert] or
    [_never_renewed], or they are the examples next to the operation.

    ** Fuel

    [Str.utf8_chunks], [Str.show] and [Server.replace] consume a byte or a digit per
    step, and their fuel is the length (or the number of binary digits).
    [Wire.mail_loop] has the length of the input, and each line takes a byte; its
    theorem shows the loop ends for one of the code's reasons.  [Acme.issue_loop] has
    five units for five attempts.  [Server.remove_loop] has one more than the vector's
    length, and equals a stable partition ([Server.remove_block_spec]).

    [System.work] is no fuel but a bound: the steps the tasks have left before they
    wait again.

    [Flight.flight_work] likewise bounds the steps a request has left.

    ** Not modelled

    The tokio runtime, sockets and timers as such, rustls, hyper, quinn, h3, clap and
    instant-acme themselves, serde and TOML parsing, log messages other than the access
    log and its clock, the tracing subscriber, the byte copies of tunnels and relayed
    streams, and the non-Unix and non-Linux branches: they are crates, I/O or not built
    on the target, and the code under src/ only calls them.  lib.rs declares modules.

    Simplified: in [System] a connection is the listener it was accepted by and its end;
    [Serving] adds the proxied requests, which come in over a live connection and may go
    away at any moment, also with their connection, without saying which connection each
    one belongs to; the other requests of a connection run without interruption in
    [Listener] and [Handler], with the interleavings inside them treated where they
    matter ([Balance], [AbSplit], [Resolver], [Dial]); a ranking by [Balance.candidates]
    reads the gauges at one moment (what the source does instead is in
    [Balance.least_conn_race_gap]); [Flight] selects an A/B group in one step ([AbSplit]
    has its two locks); [Dial] speaks of targets that start with a slash or a question
    mark; in [Renewal] a turn carries the outcome of its issuance, whose inside is
    [Acme], and in [System] an issuance is a state the renewal task stays in until it is
    over; a stream or mail connection is in [System] only a number, which nothing bounds; startup is complete before the first step of [System]; that a QUIC endpoint
    closes its connections when its loop stops is a closing like any other there.  Two
    unit tests of crates alone are not in [Conformance]. *)

From Stdlib Require Export ZArith Lia Ascii String.
From stdpp Require Export base tactics numbers list strings gmap.
#[export] Set Default Goal Selector "!".
#[export] Set Warnings "-notation-overridden,-notation-incompatible-prefix,-clear-no-such-hyp".

Open Scope Z_scope.
Open Scope list_scope.

(** ** Byte strings

    A Rust [str] or [[u8]] is the list of its bytes (an [ascii] is eight bits).
    String literals are read as byte strings through a coercion. *)

Abbreviation str := (list ascii).
Coercion list_ascii_of_string : string >-> list.

(** A table of literals. *)
Definition strs (l : list string) : list str := map list_ascii_of_string l.

(** The value of a byte as an integer in [0, 256). *)
Definition u8 (c : ascii) : Z := Z.of_N (N_of_ascii c).

(** The byte of value [z mod 256]. *)
Definition byte (z : Z) : ascii := ascii_of_N (Z.to_N (z mod 256)).

(** ** Machine integers: values in Z, arithmetic wrapped as in a release build. *)

Definition U8_MAX : Z := 2 ^ 8 - 1.
Definition U16_MAX : Z := 2 ^ 16 - 1.
Definition U32_MAX : Z := 2 ^ 32 - 1.
Definition U64_MAX : Z := 2 ^ 64 - 1.
Definition wrap32 (z : Z) : Z := z mod 2 ^ 32.
Definition wrap64 (z : Z) : Z := z mod 2 ^ 64.

Definition is_u8 (z : Z) : Prop := 0 <= z <= U8_MAX.
Definition is_u16 (z : Z) : Prop := 0 <= z <= U16_MAX.
Definition is_u32 (z : Z) : Prop := 0 <= z <= U32_MAX.
Definition is_u64 (z : Z) : Prop := 0 <= z <= U64_MAX.

(** ** Outcomes

    [res E A] is what a Rust function returning [Result<A, E>] can do: return
    [Ok], return [Err], panic (a slice off a character boundary), or, when it is
    async, await something that never comes. *)

Inductive NoReturn : Type := Panicked | Unfinished.
Inductive res (E A : Type) : Type :=
  | Ok (a : A)
  | Err (e : E)
  | Never (why : NoReturn).
Arguments Ok {E A} a.
Arguments Err {E A} e.
Arguments Never {E A} why.
Abbreviation Panic := (Never Panicked).
Abbreviation Hang := (Never Unfinished).

(** The [?] operator. *)
Definition res_bind {E A B} (m : res E A) (k : A -> res E B) : res E B :=
  match m with
  | Ok a => k a
  | Err e => Err e
  | Never why => Never why
  end.

Declare Scope flexd_scope.
Delimit Scope flexd_scope with flexd.
Notation "'let?' x ':=' m 'in' k" := (res_bind m (fun x => k))
  (at level 10, x pattern, m at level 100, k at level 200, only parsing) : flexd_scope.
Notation "'guard!' b 'else' e ';' k" := (if (b : bool) then k else Err e)
  (at level 10, b at level 100, e at level 100, k at level 200, only parsing) : flexd_scope.
Open Scope flexd_scope.

(** [Option::ok_or] and [Result::map_err]. *)
Definition ok_or {E A} (o : option A) (e : E) : res E A :=
  match o with Some a => Ok a | None => Err e end.
Definition map_err {E F A} (f : E -> F) (m : res E A) : res F A :=
  match m with Ok a => Ok a | Err e => Err (f e) | Never why => Never why end.
Definition res_map {E A B} (f : A -> B) (m : res E A) : res E B :=
  res_bind m (fun a => Ok (f a)).
Definition is_ok {E A} (m : res E A) : bool :=
  match m with Ok _ => true | _ => false end.
Definition is_err {E A} (m : res E A) : bool :=
  match m with Err _ => true | _ => false end.

(** Run a check on every element in order, stopping at the first failure (a
    [for] loop whose body uses [?]). *)
Fixpoint for_each {E A} (f : A -> res E unit) (l : list A) : res E unit :=
  match l with
  | [] => Ok tt
  | x :: r => let? _ := f x in for_each f r
  end.

(** The first [Some] of a list of attempts ([Iterator::find_map]). *)
Fixpoint find_map {A B} (f : A -> option B) (l : list A) : option B :=
  match l with
  | [] => None
  | x :: r => match f x with Some y => Some y | None => find_map f r end
  end.

(** The first element that satisfies a test ([Iterator::find]). *)
Fixpoint find_first {A} (f : A -> bool) (l : list A) : option A :=
  match l with
  | [] => None
  | x :: r => if f x then Some x else find_first f r
  end.

Definition sum_Z (l : list Z) : Z := foldr Z.add 0 l.

(** ** Traces

    [Tr V E A] is an effectful function run to its end: the events of type [V] it
    caused, in order, and its outcome. *)

Definition Tr (V E A : Type) : Type := list V * res E A.

Section traces.
Context {V E : Type}.
Definition t_lift {A} (r : res E A) : Tr V E A := ([], r).
Definition t_emit (e : V) : Tr V E unit := ([e], Ok tt).
(** [bail!] with [e] unless [b]. *)
Definition t_ensure (b : bool) (e : E) : Tr V E unit := t_lift (if b then Ok tt else Err e).
Definition t_bind {A B} (m : Tr V E A) (k : A -> Tr V E B) : Tr V E B :=
  match snd m with
  | Ok a => (fst m ++ fst (k a), snd (k a))
  | Err e => (fst m, Err e)
  | Never why => (fst m, Never why)
  end.
Fixpoint t_each {A} (f : A -> Tr V E unit) (l : list A) : Tr V E unit :=
  match l with
  | [] => t_lift (Ok tt)
  | x :: r => t_bind (f x) (fun _ => t_each f r)
  end.
End traces.
Notation "'do!' x ':=' m 'in' k" := (t_bind m (fun x => k))
  (at level 10, x pattern, m at level 100, k at level 200, only parsing) : flexd_scope.

(** ** Automation *)

Create HintDb flexd.
Create Rewrite HintDb http.

(** Split the [res_bind]s of a hypothesis [m = Ok _]. *)
Ltac res_inv :=
  repeat match goal with
  | H : res_bind ?m _ = Ok _ |- _ =>
      let E := fresh "E" in destruct m eqn:E; cbn [res_bind] in H; [|discriminate H..]
  | H : (if ?b then _ else Err _) = Ok _ |- _ =>
      let E := fresh "E" in destruct b eqn:E; [|discriminate H]
  | H : (if ?b then Err _ else _) = Ok _ |- _ =>
      let E := fresh "E" in destruct b eqn:E; [discriminate H|]
  | H : Ok _ = Ok _ |- _ => injection H as H; subst
  | H : Err _ = Ok _ |- _ => discriminate H
  | H : Never _ = Ok _ |- _ => discriminate H
  | H : Err _ = Err _ |- _ => injection H as H; subst
  | u : unit |- _ => destruct u
  end.

(** Turn the boolean tests of the hypotheses into propositions. *)
Ltac b2p :=
  repeat match goal with
  | H : context [negb _ = true] |- _ => rewrite negb_true_iff in H
  | H : context [negb _ = false] |- _ => rewrite negb_false_iff in H
  | H : _ && _ = true |- _ => apply andb_true_iff in H as [??]
  | H : _ || _ = false |- _ => apply orb_false_iff in H as [??]
  | H : bool_decide _ = true |- _ => apply bool_decide_eq_true in H
  | H : bool_decide _ = false |- _ => apply bool_decide_eq_false in H
  | H : (_ =? _) = true |- _ => apply Z.eqb_eq in H
  | H : (_ =? _) = false |- _ => apply Z.eqb_neq in H
  | H : (_ <? _) = true |- _ => apply Z.ltb_lt in H
  | H : (_ <? _) = false |- _ => apply Z.ltb_ge in H
  | H : (_ <=? _) = true |- _ => apply Z.leb_le in H
  | H : (_ <=? _) = false |- _ => apply Z.leb_gt in H
  end.

(** Decide a closed proposition by computation. *)
Ltac vm_decide :=
  match goal with |- ?P => apply (bool_decide_unpack P); vm_compute; exact I end.

(** ** Generic lemmas *)

Lemma res_bind_ok {E A B} (m : res E A) (k : A -> res E B) b :
  res_bind m k = Ok b <-> exists a, m = Ok a /\ k a = Ok b.
Proof. destruct m; cbn; naive_solver. Qed.

Lemma map_err_ok {E F A} (f : E -> F) (m : res E A) a : map_err f m = Ok a <-> m = Ok a.
Proof. destruct m; cbn; naive_solver. Qed.
Lemma is_ok_unit {E} (m : res E unit) : is_ok m = true -> m = Ok tt.
Proof. by destruct m as [[]| |]. Qed.

(** An outcome that is a return. *)
Definition total {E A} (m : res E A) : Prop := match m with Never _ => False | _ => True end.

Lemma total_ok {E A} (a : A) : total (Ok (E := E) a).
Proof. done. Qed.
Lemma total_err {E A} (e : E) : total (Err (A := A) e).
Proof. done. Qed.
Lemma total_ok_or {E A} (o : option A) (e : E) : total (ok_or o e).
Proof. by destruct o. Qed.
Lemma total_map_err {E F A} (f : E -> F) (m : res E A) : total m -> total (map_err f m).
Proof. by destruct m as [| |[]]. Qed.
Lemma total_bind {E A B} (m : res E A) (k : A -> res E B) :
  total m -> (forall a, m = Ok a -> total (k a)) -> total (res_bind m k).
Proof. destruct m as [| |[]]; cbn; [by auto|done..]. Qed.
Lemma total_if {E A} (b : bool) (m n : res E A) : total m -> total n -> total (if b then m else n).
Proof. by destruct b. Qed.
#[export] Hint Resolve total_ok total_err total_ok_or total_map_err total_bind total_if : flexd.

Lemma for_each_ok {E A} (f : A -> res E unit) l :
  for_each f l = Ok tt <-> Forall (fun x => f x = Ok tt) l.
Proof.
  induction l as [|x r IH]; cbn; [by split|].
  rewrite Forall_cons, <- IH, res_bind_ok. split.
  - by intros ([] & ? & ?).
  - intros [??]. by exists tt.
Qed.

Lemma for_each_unit_ok {E A} (f : A -> res E unit) l u :
  for_each f l = Ok u -> Forall (fun x => f x = Ok tt) l.
Proof. destruct u. apply for_each_ok. Qed.

Lemma find_first_Some {A} (f : A -> bool) l x :
  find_first f l = Some x <->
  exists l1 l2, l = l1 ++ x :: l2 /\ f x = true /\ Forall (fun y => f y = false) l1.
Proof.
  induction l as [|y r IH]; cbn.
  - split; [done|]. intros (l1 & l2 & H & _). by destruct l1.
  - destruct (f y) eqn:Ey.
    + split.
      * intros [= ->]. exists [], r. by rewrite Forall_nil.
      * intros ([|z l1] & l2 & H & Hx & Hf); injection H as -> ->; [done|].
        apply Forall_cons in Hf as [??]. congruence.
    + rewrite IH. split.
      * intros (l1 & l2 & -> & Hx & Hf). exists (y :: l1), l2. by rewrite Forall_cons.
      * intros ([|z l1] & l2 & H & Hx & Hf); injection H as -> ->; [congruence|].
        apply Forall_cons in Hf as [??]. eauto.
Qed.

Lemma find_first_None {A} (f : A -> bool) l :
  find_first f l = None <-> Forall (fun y => f y = false) l.
Proof.
  induction l as [|y r IH]; cbn; [by rewrite Forall_nil|].
  rewrite Forall_cons. destruct (f y); naive_solver.
Qed.

Lemma find_first_elem {A} (f : A -> bool) l x :
  find_first f l = Some x -> x ∈ l /\ f x = true.
Proof. intros (l1 & l2 & -> & ? & _)%find_first_Some. split; [set_solver|done]. Qed.

Lemma find_map_Some {A B} (f : A -> option B) l y :
  find_map f l = Some y <->
  exists l1 x l2, l = l1 ++ x :: l2 /\ f x = Some y /\ Forall (fun z => f z = None) l1.
Proof.
  induction l as [|z r IH]; cbn.
  - split; [done|]. intros ([|? l1] & x & l2 & H & _); discriminate H.
  - destruct (f z) as [w|] eqn:Ez.
    + split.
      * intros [= ->]. exists [], z, r. by rewrite Forall_nil.
      * intros ([|v l1] & x & l2 & H & Hx & Hf); injection H as -> ->; [congruence|].
        apply Forall_cons in Hf as [??]. congruence.
    + rewrite IH. split.
      * intros (l1 & x & l2 & -> & Hx & Hf). exists (z :: l1), x, l2. by rewrite Forall_cons.
      * intros ([|v l1] & x & l2 & H & Hx & Hf); injection H as -> ->; [congruence|].
        apply Forall_cons in Hf as [??]. naive_solver.
Qed.

Lemma find_map_None {A B} (f : A -> option B) l :
  find_map f l = None <-> Forall (fun z => f z = None) l.
Proof.
  induction l as [|z r IH]; cbn; [by rewrite Forall_nil|].
  rewrite Forall_cons. destruct (f z); naive_solver.
Qed.

Lemma existsb_bool_elem {A} (f : A -> bool) l :
  existsb f l = true <-> exists x, x ∈ l /\ f x = true.
Proof.
  rewrite existsb_exists. split; intros (x & Hx & Hf); exists x;
    (split; [by apply list_elem_of_In|done]).
Qed.

Lemma existsb_false_Forall {A} (f : A -> bool) l :
  existsb f l = false <-> Forall (fun x => f x = false) l.
Proof.
  induction l as [|x r IH]; cbn; [by rewrite Forall_nil|].
  rewrite Forall_cons, orb_false_iff. naive_solver.
Qed.

Lemma sum_list_with_insert {A} (f : A -> nat) l i x y :
  l !! i = Some x ->
  (sum_list_with f (<[i := y]> l) + f x = sum_list_with f l + f y)%nat.
Proof.
  revert i. induction l as [|z l IH]; intros [|i] Hi; try done.
  - injection Hi as ->. cbn. lia.
  - specialize (IH i Hi). change (<[S i:=y]> (z :: l)) with (z :: <[i:=y]> l). cbn [sum_list_with]. lia.
Qed.

Lemma u8_range c : 0 <= u8 c < 256.
Proof.
  unfold u8. pose proof (N_ascii_bounded c). lia.
Qed.

Lemma byte_u8 c : byte (u8 c) = c.
Proof.
  unfold byte. rewrite Z.mod_small by apply u8_range. unfold u8.
  by rewrite N2Z.id, ascii_N_embedding.
Qed.

Lemma u8_byte z : 0 <= z < 256 -> u8 (byte z) = z.
Proof.
  intros Hz. unfold byte, u8. rewrite Z.mod_small by lia.
  rewrite N_ascii_embedding by lia. lia.
Qed.

#[global] Instance u8_inj : Inj (=) (=) u8.
Proof. intros c d H. by rewrite <- (byte_u8 c), <- (byte_u8 d), H. Qed.

#[export] Hint Resolve u8_range : flexd.

(** Masking the high bits of a [w]-bit value rounds it down. *)
Lemma land_high w k s :
  0 <= k <= w -> 0 <= s < 2 ^ w -> Z.land s (2 ^ w - 2 ^ k) = s / 2 ^ k * 2 ^ k.
Proof.
  intros Hk Hs.
  replace (2 ^ w - 2 ^ k) with (Z.shiftl (Z.ones (w - k)) k).
  2:{ rewrite Z.shiftl_mul_pow2, Z.ones_equiv by lia. unfold Z.pred.
      rewrite Z.mul_add_distr_r, <- Z.pow_add_r by lia. replace (w - k + k) with w by lia. lia. }
  rewrite <- Z.shiftr_div_pow2, <- Z.shiftl_mul_pow2 by lia.
  apply Z.bits_inj'. intros i Hi. rewrite Z.land_spec.
  destruct (decide (i < k)).
  - rewrite !Z.shiftl_spec_low by lia. apply andb_false_r.
  - rewrite !Z.shiftl_spec_high by lia. rewrite Z.shiftr_spec by lia.
    replace (i - k + k) with i by lia.
    destruct (decide (i < w)).
    + rewrite Z.ones_spec_low by lia. apply andb_true_r.
    + rewrite Z.ones_spec_high, andb_false_r by lia. symmetry.
      rewrite <- (Z.mod_small s (2 ^ w)) by lia. apply Z.mod_pow2_bits_high. lia.
Qed.

(** ** Lemmas on traces *)

Section trace_lemmas.
Context {V E : Type}.

Lemma t_bind_events {A B} (P : list V -> Prop) (m : Tr V E A) (k : A -> Tr V E B) :
  (forall a b, P a -> P b -> P (a ++ b)) ->
  P (fst m) -> (forall x, snd m = Ok x -> P (fst (k x))) -> P (fst (t_bind m k)).
Proof. intros Happ Hm Hk. unfold t_bind. destruct (snd m); cbn; auto. Qed.

Lemma t_bind_ok {A B} (m : Tr V E A) (k : A -> Tr V E B) b :
  snd (t_bind m k) = Ok b ->
  exists a, snd m = Ok a /\ snd (k a) = Ok b /\ fst (t_bind m k) = fst m ++ fst (k a).
Proof. unfold t_bind. destruct (snd m); cbn; [eauto|done..]. Qed.

(** No event of the trace is a [p]. *)
Definition quiet (p : V -> bool) (tr : list V) : Prop := existsb p tr = false.

Lemma quiet_app p a b : quiet p a -> quiet p b -> quiet p (a ++ b).
Proof. unfold quiet. intros Ha Hb. by rewrite existsb_app, Ha, Hb. Qed.

Lemma quiet_elem p tr e : quiet p tr -> e ∈ tr -> p e = false.
Proof. unfold quiet. rewrite existsb_false_Forall, Forall_forall. auto. Qed.

Lemma t_each_quiet {A} p (f : A -> Tr V E unit) l :
  (forall x, x ∈ l -> quiet p (fst (f x))) -> quiet p (fst (t_each f l)).
Proof.
  induction l as [|x l IH]; intros Hf; cbn [t_each]; [done|].
  apply t_bind_events; [apply quiet_app|apply Hf; set_solver|]. intros _ _. apply IH. set_solver.
Qed.
End trace_lemmas.
#[export] Hint Resolve quiet_app : flexd.
