(* ===== verification/Str.v ===== *)
(** * The Rust string and number operations the program uses

    Byte-exact definitions of the [str], slice and integer-parsing operations of
    the standard library that the source calls, with their specifications.  A
    [str] is its UTF-8 bytes. *)

From S2P Require Import Prelude.

(** ** ASCII *)

Definition is_ascii_byte (c : ascii) : bool := u8 c <? 128.
Definition is_ascii (s : str) : bool := forallb is_ascii_byte s.

(** [u8::to_ascii_lowercase] and [u8::to_ascii_uppercase]. *)
Definition lower_byte (c : ascii) : ascii :=
  if (65 <=? u8 c) && (u8 c <=? 90) then byte (u8 c + 32) else c.
Definition upper_byte (c : ascii) : ascii :=
  if (97 <=? u8 c) && (u8 c <=? 122) then byte (u8 c - 32) else c.

(** [str::to_ascii_lowercase], [str::eq_ignore_ascii_case]. *)
Definition to_ascii_lowercase (s : str) : str := map lower_byte s.
Definition eq_ignore_ascii_case (s t : str) : bool :=
  bool_decide (to_ascii_lowercase s = to_ascii_lowercase t).

(** ** Searching and splitting *)

(** [str::strip_prefix], [starts_with], [ends_with], [contains]. *)
Fixpoint strip_prefix (p s : str) : option str :=
  match p, s with
  | [], _ => Some s
  | a :: p', b :: s' => if decide (a = b) then strip_prefix p' s' else None
  | _ :: _, [] => None
  end.
Definition starts_with (s p : str) : bool :=
  match strip_prefix p s with Some _ => true | None => false end.
Definition ends_with (s p : str) : bool := starts_with (rev s) (rev p).
Fixpoint contains (s p : str) : bool :=
  starts_with s p ||
  match s with [] => false | _ :: s' => contains s' p end.

(** [str::contains(char)] and [str::find(char)] for an ASCII character. *)
Definition contains_char (s : str) (c : ascii) : bool :=
  existsb (fun b => bool_decide (b = c)) s.
Fixpoint find_char (s : str) (c : ascii) : option nat :=
  match s with
  | [] => None
  | b :: s' => if decide (b = c) then Some O else S <$> find_char s' c
  end.

(** [str::split(char)], [str::rsplit_once(char)], [matches(char).count()]. *)
Fixpoint split (s : str) (c : ascii) : list str :=
  match s with
  | [] => [[]]
  | b :: s' =>
      if decide (b = c) then [] :: split s' c
      else match split s' c with
           | w :: ws => (b :: w) :: ws
           | [] => [[b]]
           end
  end.
Fixpoint rsplit_once (s : str) (c : ascii) : option (str * str) :=
  match s with
  | [] => None
  | b :: s' =>
      match rsplit_once s' c with
      | Some (l, r) => Some (b :: l, r)
      | None => if decide (b = c) then Some ([], s') else None
      end
  end.
Definition count_char (s : str) (c : ascii) : nat :=
  length (List.filter (fun b => bool_decide (b = c)) s).

(** [[str]::join]. *)
Fixpoint join (sep : str) (l : list str) : str :=
  match l with
  | [] => []
  | [x] => x
  | x :: r => x ++ sep ++ join sep r
  end.

(** [&s[i..j]] on bytes. *)
Definition slice (s : str) (i j : nat) : str := take (j - i) (drop i s).

(** ** UTF-8 *)

Definition is_cont (c : ascii) : bool := (128 <=? u8 c) && (u8 c <? 192).

(** [str::is_char_boundary]; slicing a [str] off a boundary panics. *)
Definition is_char_boundary (s : str) (i : nat) : bool :=
  match s !! i with
  | Some c => negb (is_cont c)
  | None => bool_decide (i = length s)
  end.
Definition str_slice {E} (s : str) (i j : nat) : res E str :=
  if is_char_boundary s i && is_char_boundary s j && bool_decide (i <= j)%nat
  then Ok (slice s i j) else Panic.

(** The second byte allowed after a lead byte (no overlong form, surrogate or
    value past U+10FFFF). *)
Definition second_ok (lead b : Z) : bool :=
  if lead =? 224 then (160 <=? b) && (b <? 192)
  else if lead =? 237 then (128 <=? b) && (b <? 160)
  else if lead =? 240 then (144 <=? b) && (b <? 192)
  else if lead =? 244 then (128 <=? b) && (b <? 144)
  else (128 <=? b) && (b <? 192).

(** Bytes of the sequence at the front, and whether they form a character; an
    invalid front gives the length of its maximal ill-formed part. *)
Definition utf8_next (s : str) : nat * bool :=
  match s with
  | [] => (0%nat, true)
  | b0 :: s1 =>
      let lead := u8 b0 in
      let cont (o : option ascii) := match o with Some c => is_cont c | None => false end in
      let snd_ok := match s1 !! 0%nat with Some c => second_ok lead (u8 c) | None => false end in
      if lead <? 128 then (1%nat, true)
      else if (194 <=? lead) && (lead <? 224) then
        if snd_ok then (2%nat, true) else (1%nat, false)
      else if (224 <=? lead) && (lead <? 240) then
        if snd_ok then if cont (s1 !! 1%nat) then (3%nat, true) else (2%nat, false)
        else (1%nat, false)
      else if (240 <=? lead) && (lead <? 245) then
        if snd_ok then
          if cont (s1 !! 1%nat) then
            if cont (s1 !! 2%nat) then (4%nat, true) else (3%nat, false)
          else (2%nat, false)
        else (1%nat, false)
      else (1%nat, false)
  end.

(** The sequences of a byte string, each with its validity; the length bounds
    the number of sequences. *)
Fixpoint utf8_chunks_fuel (fuel : nat) (s : str) : list (str * bool) :=
  match fuel, s with
  | O, _ | _, [] => []
  | S f, _ =>
      let '(n, ok) := utf8_next s in
      (take n s, ok) :: utf8_chunks_fuel f (drop n s)
  end.
Definition utf8_chunks (s : str) : list (str * bool) := utf8_chunks_fuel (length s) s.

(** [str::from_utf8] succeeds, [str::chars] (each as its bytes),
    [String::from_utf8_lossy]. *)
Definition utf8_valid (s : str) : bool := forallb snd (utf8_chunks s).
Definition from_utf8 (s : str) : option str := if utf8_valid s then Some s else None.
Definition chars (s : str) : list str := map fst (utf8_chunks s).
Definition REPLACEMENT : str := [byte 239; byte 191; byte 189].
Definition from_utf8_lossy (s : str) : str :=
  concat (map (fun ch : str * bool => if snd ch then fst ch else REPLACEMENT) (utf8_chunks s)).

(** ** Case mapping of [str::to_lowercase] and [to_uppercase]

    ASCII characters map by [am]; what Unicode's tables give for another
    character (which for the final sigma depends on the string and the position)
    is the parameter [uc]. *)
Section case_mapping.
Variable am : ascii -> ascii.
Variable uc : str -> nat -> str -> str.

Fixpoint map_chars (s : str) (i : nat) (cs : list str) : list str :=
  match cs with
  | [] => []
  | c :: r =>
      (if is_ascii c then map am c else uc s i c)
      :: map_chars s (i + length c) r
  end.
Definition map_case (s : str) : str := concat (map_chars s 0 (chars s)).
End case_mapping.

(** Unicode's case tables beyond ASCII. *)
Class Unicode : Type := {
  uc_lower : str -> nat -> str -> str;
  uc_upper : str -> nat -> str -> str;
}.

(** [str::to_lowercase], [str::to_uppercase]. *)
Definition to_lowercase {U : Unicode} (s : str) : str := map_case lower_byte uc_lower s.
Definition to_uppercase {U : Unicode} (s : str) : str := map_case upper_byte uc_upper s.

(** ** White space ([char::is_whitespace]) and [str::trim] *)

Definition whitespace_chars : list str :=
  map (fun z => [byte z]) [9; 10; 11; 12; 13; 32]
  ++ [[byte 194; byte 133]; [byte 194; byte 160]; [byte 225; byte 154; byte 128]]
  ++ map (fun z => [byte 226; byte 128; byte z])
       [128; 129; 130; 131; 132; 133; 134; 135; 136; 137; 138; 168; 169; 175]
  ++ [[byte 226; byte 129; byte 159]; [byte 227; byte 128; byte 128]].
Definition is_whitespace (c : str) : bool := bool_decide (c ∈ whitespace_chars).

Fixpoint drop_while {A} (f : A -> bool) (l : list A) : list A :=
  match l with
  | [] => []
  | x :: r => if f x then drop_while f r else l
  end.
Definition trim (s : str) : str :=
  concat (rev (drop_while is_whitespace (rev (drop_while is_whitespace (chars s))))).

(** ** Integers *)

(** [char::to_digit]. *)
Definition digit_of (radix : Z) (c : ascii) : option Z :=
  let z := u8 c in
  let d :=
    if (48 <=? z) && (z <=? 57) then Some (z - 48)
    else if (97 <=? z) && (z <=? 122) then Some (z - 97 + 10)
    else if (65 <=? z) && (z <=? 90) then Some (z - 65 + 10)
    else None in
  match d with Some v => if v <? radix then Some v else None | None => None end.

Fixpoint digits_value (radix : Z) (acc : Z) (s : str) : option Z :=
  match s with
  | [] => Some acc
  | c :: r =>
      match digit_of radix c with
      | Some d => digits_value radix (acc * radix + d) r
      | None => None
      end
  end.

(** [uN::from_str_radix] (and [FromStr], with radix 10): an optional [+], at
    least one digit, and a value within the type. *)
Definition from_str_radix (max radix : Z) (s : str) : option Z :=
  let ds := match s with
            | c :: (_ :: _) as r => if decide (c = "+"%char) then tl s else s
            | _ => s
            end in
  match ds with
  | [] => None
  | _ =>
      match digits_value radix 0 ds with
      | Some v => if v <=? max then Some v else None
      | None => None
      end
  end.
Definition parse_uint (max : Z) (s : str) : option Z := from_str_radix max 10 s.

(** Decimal [Display] of an unsigned integer: enough fuel is one unit per bit. *)
Definition digit_char (d : Z) : ascii := byte (48 + d).
Fixpoint show_fuel (fuel : nat) (z : Z) : str :=
  match fuel with
  | O => []
  | S f => if z <? 10 then [digit_char z]
           else show_fuel f (z / 10) ++ [digit_char (z mod 10)]
  end.
Definition show (z : Z) : str := show_fuel (S (Z.to_nat (Z.log2 z))) z.

(** Compare the value of a literal byte. *)
Ltac u8_lia :=
  repeat match goal with
  | |- context [u8 (Ascii ?a ?b ?c ?d ?e ?f ?g ?h)] =>
      let v := eval vm_compute in (u8 (Ascii a b c d e f g h)) in
      change (u8 (Ascii a b c d e f g h)) with v
  end; lia.

(** ** Specifications of searching and splitting *)

Lemma strip_prefix_Some p s r : strip_prefix p s = Some r <-> s = p ++ r.
Proof.
  revert s. induction p as [|a p IH]; intros s; cbn; [naive_solver|].
  destruct s as [|b s]; [naive_solver|].
  case_decide as E; [subst; rewrite IH|]; naive_solver.
Qed.

Lemma strip_prefix_app p s : strip_prefix p (p ++ s) = Some s.
Proof. by apply strip_prefix_Some. Qed.

Lemma starts_with_spec s p : starts_with s p = true <-> exists r, s = p ++ r.
Proof.
  unfold starts_with. destruct (strip_prefix p s) as [r|] eqn:E.
  - apply strip_prefix_Some in E. naive_solver.
  - split; [done|]. intros [r ->]. by rewrite strip_prefix_app in E.
Qed.

Lemma ends_with_spec s p : ends_with s p = true <-> exists l, s = l ++ p.
Proof.
  unfold ends_with. rewrite starts_with_spec. split.
  - intros [r H]. exists (rev r). apply (f_equal (@rev ascii)) in H.
    by rewrite rev_involutive, rev_app_distr, rev_involutive in H.
  - intros [l ->]. exists (rev l). apply rev_app_distr.
Qed.

Lemma contains_spec s p : contains s p = true <-> exists l r, s = l ++ p ++ r.
Proof.
  induction s as [|b s IH]; cbn.
  - rewrite orb_false_r, starts_with_spec. split.
    + intros [r H]. by exists [], r.
    + intros (l & r & H). symmetry in H. apply app_eq_nil in H as [-> H]. eauto.
  - rewrite orb_true_iff, starts_with_spec, IH. split.
    + intros [[r H]|(l & r & ->)]; [by exists [], r|by exists (b :: l), r].
    + intros ([|b' l] & r & H); [left; by exists r|].
      injection H as -> ->. right. eauto.
Qed.

Lemma contains_false s p : contains s p = false <-> forall l r, s <> l ++ p ++ r.
Proof.
  rewrite <- not_true_iff_false, contains_spec. naive_solver.
Qed.

Lemma contains_char_spec s c : contains_char s c = true <-> c ∈ s.
Proof.
  unfold contains_char. rewrite existsb_bool_elem. split.
  - intros (x & Hx & E). b2p. by subst.
  - intros H. exists c. split; [done|]. by apply bool_decide_eq_true.
Qed.

Lemma contains_char_false s c : contains_char s c = false <-> c ∉ s.
Proof. by rewrite <- not_true_iff_false, contains_char_spec. Qed.

Lemma find_char_Some s c i :
  find_char s c = Some i <-> exists l r, s = l ++ c :: r /\ length l = i /\ c ∉ l.
Proof.
  revert i. induction s as [|b s IH]; intros i; cbn.
  - split; [done|]. intros ([|? ?] & r & H & _); discriminate H.
  - case_decide as E; [subst b|].
    + split.
      * intros [= <-]. exists [], s. split_and!; [done..|apply not_elem_of_nil].
      * intros ([|b' l] & r & H & <- & Hn); [done|].
        injection H as -> ->. set_solver.
    + rewrite fmap_Some. split.
      * intros (j & (l & r & -> & <- & Hn)%IH & ->). exists (b :: l), r. set_solver.
      * intros ([|b' l] & r & H & <- & Hn); injection H as -> ->; [done|].
        exists (length l). split; [|done]. apply IH. exists l, r. set_solver.
Qed.

Lemma find_char_None s c : find_char s c = None <-> c ∉ s.
Proof.
  induction s as [|b s IH]; cbn; [set_solver|].
  case_decide as E; [set_solver|]. rewrite fmap_None, IH. set_solver.
Qed.

Lemma rsplit_once_None s c : rsplit_once s c = None <-> c ∉ s.
Proof.
  induction s as [|b s IH]; cbn; [set_solver|].
  destruct (rsplit_once s c) as [[l r]|] eqn:E.
  - split; [done|]. intros H. assert (c ∉ s) as Hc%IH by set_solver. done.
  - case_decide as Eb; [set_solver|]. split; [|done].
    intros _. assert (c ∉ s) by (by apply IH). set_solver.
Qed.

Lemma rsplit_once_Some s c l r :
  rsplit_once s c = Some (l, r) <-> s = l ++ c :: r /\ c ∉ r.
Proof.
  revert l r. induction s as [|b s IH]; intros l r; cbn.
  - split; [done|]. intros [H _]. by destruct l.
  - destruct (rsplit_once s c) as [[l' r']|] eqn:E.
    + destruct (proj1 (IH _ _) eq_refl) as [-> Hn]. split.
      * by intros [= <- <-].
      * intros [H Hc]. destruct l as [|b' l].
        { injection H as -> <-. set_solver. }
        injection H as -> H. cbn.
        assert (Some (l', r') = Some (l, r)) as [= -> ->] by (apply IH; done). done.
    + apply rsplit_once_None in E. case_decide as Eb; [subst b|].
      * split.
        -- by intros [= <- <-].
        -- intros [H Hc]. destruct l as [|b' l]; [by injection H as <-|].
           injection H as -> ->. set_solver.
      * split; [done|]. intros [H Hc]. destruct l as [|b' l]; [by injection H as -> ->|].
        injection H as -> ->. set_solver.
Qed.

Lemma count_char_app s t c : count_char (s ++ t) c = (count_char s c + count_char t c)%nat.
Proof. unfold count_char. by rewrite List.filter_app, length_app. Qed.

Lemma count_char_0 s c : count_char s c = 0%nat <-> c ∉ s.
Proof.
  induction s as [|b s IH]; [cbn; set_solver|].
  unfold count_char in *. cbn. case_bool_decide; cbn; set_solver.
Qed.

Lemma split_cons s c : exists w ws, split s c = w :: ws.
Proof.
  induction s as [|b s (w & ws & IH)]; cbn; [eauto|].
  case_decide; [eauto|]. rewrite IH. eauto.
Qed.

Lemma split_join s c : join [c] (split s c) = s.
Proof.
  induction s as [|b s IH]; [done|]. cbn.
  destruct (split_cons s c) as (w & ws & E). rewrite E in *.
  case_decide as Eb; [subst b; cbn in *; by rewrite IH|].
  destruct ws as [|w' ws]; cbn in *; by rewrite IH.
Qed.

Lemma split_no_sep s c : Forall (fun w => c ∉ w) (split s c).
Proof.
  induction s as [|b s IH]; cbn; [repeat constructor; set_solver|].
  destruct (split_cons s c) as (w & ws & E). rewrite E in *.
  apply Forall_cons in IH as [Hw Hws].
  case_decide as Eb; repeat constructor; set_solver.
Qed.

(** ** UTF-8 facts *)

Lemma utf8_next_len s : s <> [] -> (1 <= fst (utf8_next s) <= length s)%nat.
Proof.
  destruct s as [|b0 s1]; [done|]. intros _. cbn [utf8_next].
  repeat case_match; cbn in *; simplify_eq; try lia;
    repeat match goal with H : ?l !! _ = Some _ |- _ => apply lookup_lt_Some in H end; lia.
Qed.

Lemma utf8_chunks_fuel_enough f s :
  (length s <= f)%nat -> utf8_chunks_fuel f s = utf8_chunks_fuel (length s) s.
Proof.
  unfold utf8_chunks.
  assert (forall n f g t, (length t <= n)%nat -> (length t <= f)%nat -> (length t <= g)%nat ->
    utf8_chunks_fuel f t = utf8_chunks_fuel g t) as Hall.
  { intros n. induction n as [|n IH]; intros f' g t Hn Hf Hg.
    - destruct t; [by destruct f', g|cbn in *; lia].
    - destruct t as [|b t]; [by destruct f', g|].
      destruct f' as [|f']; [cbn in *; lia|]. destruct g as [|g]; [cbn in *; lia|].
      pose proof (utf8_next_len (b :: t) ltac:(done)) as Hl. cbn [utf8_chunks_fuel].
      destruct (utf8_next (b :: t)) as [k ok] eqn:E. cbn [fst] in Hl. f_equal.
      apply IH; rewrite length_drop; cbn in *; lia. }
  intros H. apply (Hall (length s)); lia.
Qed.

Lemma utf8_chunks_eq s :
  s <> [] ->
  utf8_chunks s =
    (take (fst (utf8_next s)) s, snd (utf8_next s)) :: utf8_chunks (drop (fst (utf8_next s)) s).
Proof.
  intros Hs. pose proof (utf8_next_len s Hs) as Hl.
  unfold utf8_chunks at 1. destruct s as [|b t]; [done|]. cbn [length utf8_chunks_fuel].
  destruct (utf8_next (b :: t)) as [k ok]. cbn [fst snd] in *. f_equal.
  apply utf8_chunks_fuel_enough. rewrite length_drop. cbn in *. lia.
Qed.

(** Induction over the sequences of a byte string. *)
Lemma utf8_ind (P : str -> Prop) :
  P [] ->
  (forall s, s <> [] -> P (drop (fst (utf8_next s)) s) -> P s) ->
  forall s, P s.
Proof.
  intros Hnil Hstep s. remember (length s) as n eqn:Hn. revert s Hn.
  induction n as [n IH] using lt_wf_ind. intros s ->.
  destruct (decide (s = [])) as [->|Hs]; [done|]. apply Hstep; [done|].
  pose proof (utf8_next_len s Hs). eapply IH; [|done]. rewrite length_drop. lia.
Qed.

Lemma concat_chunks s : concat (map fst (utf8_chunks s)) = s.
Proof.
  induction s as [|s Hs IH] using utf8_ind; [done|].
  rewrite utf8_chunks_eq by done. cbn. by rewrite IH, take_drop.
Qed.

Lemma concat_chars s : concat (chars s) = s.
Proof. apply concat_chunks. Qed.

Lemma is_ascii_cons c s : is_ascii (c :: s) = is_ascii_byte c && is_ascii s.
Proof. done. Qed.

Lemma is_ascii_app s t : is_ascii (s ++ t) = is_ascii s && is_ascii t.
Proof. apply forallb_app. Qed.

Lemma is_ascii_lookup s i c : is_ascii s = true -> s !! i = Some c -> is_ascii_byte c = true.
Proof.
  unfold is_ascii. rewrite forallb_forall. intros H Hi. apply H.
  apply list_elem_of_In. by eapply list_elem_of_lookup_2.
Qed.

Lemma ascii_not_cont c : is_ascii_byte c = true -> is_cont c = false.
Proof.
  unfold is_ascii_byte, is_cont. intros H. b2p.
  apply andb_false_iff. left. apply Z.leb_gt. lia.
Qed.

(** An ASCII string can be sliced anywhere. *)
Lemma ascii_boundary s i :
  is_ascii s = true -> (i <= length s)%nat -> is_char_boundary s i = true.
Proof.
  intros Hs Hi. unfold is_char_boundary. destruct (s !! i) as [c|] eqn:E.
  - by rewrite (ascii_not_cont c) by (by eapply is_ascii_lookup).
  - apply lookup_ge_None in E. apply bool_decide_eq_true. lia.
Qed.

Lemma str_slice_ascii {E} s i j :
  is_ascii s = true -> (i <= j <= length s)%nat -> @str_slice E s i j = Ok (slice s i j).
Proof.
  intros Hs Hij. unfold str_slice. rewrite !ascii_boundary by (done || lia).
  by rewrite bool_decide_eq_true_2 by lia.
Qed.

Lemma ascii_not_second lead c : is_ascii_byte c = true -> second_ok lead (u8 c) = false.
Proof.
  unfold is_ascii_byte, second_ok. intros H. b2p.
  repeat case_match; apply andb_false_iff; left; apply Z.leb_gt; lia.
Qed.

Lemma utf8_next_ascii c s : is_ascii_byte c = true -> utf8_next (c :: s) = (1%nat, true).
Proof. unfold is_ascii_byte, utf8_next. by intros ->. Qed.

(** A sequence never crosses an ASCII byte. *)
Lemma utf8_next_app l c r :
  l <> [] -> is_ascii_byte c = true -> utf8_next (l ++ c :: r) = utf8_next l.
Proof.
  intros Hl Hc. destruct l as [|b0 l]; [done|]. cbn [app utf8_next].
  pose proof (ascii_not_cont c Hc) as Hcont.
  pose proof (ascii_not_second (u8 b0) c Hc) as Hsec.
  destruct l as [|b1 [|b2 [|b3 l]]]; cbn; rewrite ?Hcont, ?Hsec; done.
Qed.

Lemma utf8_chunks_app l c r :
  is_ascii_byte c = true ->
  utf8_chunks (l ++ c :: r) = utf8_chunks l ++ ([c], true) :: utf8_chunks r.
Proof.
  intros Hc. induction l as [|l Hl IH] using utf8_ind.
  - cbn [app]. rewrite utf8_chunks_eq by done. by rewrite utf8_next_ascii.
  - rewrite utf8_chunks_eq by (by destruct l). rewrite utf8_next_app by done.
    pose proof (utf8_next_len l Hl).
    rewrite take_app_le, drop_app_le by lia. rewrite IH.
    by rewrite (utf8_chunks_eq l Hl).
Qed.

(** An ASCII byte is only ever a character of its own. *)
Lemma chars_ascii_single s x c :
  x ∈ chars s -> c ∈ x -> is_ascii_byte c = true -> x = [c].
Proof.
  unfold chars. induction s as [|s Hs IH] using utf8_ind; [set_solver|].
  rewrite utf8_chunks_eq by done. cbn [map fst]. intros [->|Hx]%elem_of_cons Hc Ha; [|by apply IH].
  clear IH. apply list_elem_of_split in Hc as (l & r & Hs').
  assert (s = l ++ c :: (r ++ drop (fst (utf8_next s)) s)) as Es.
  { rewrite <- (take_drop (fst (utf8_next s)) s) at 1. rewrite Hs'. by rewrite <- app_assoc. }
  assert (length l < fst (utf8_next s))%nat as Hl.
  { apply (f_equal length) in Hs'. rewrite length_take, length_app in Hs'. cbn in Hs'. lia. }
  destruct (decide (l = [])) as [->|Hne].
  - rewrite Es. rewrite Es at 1. cbn [app]. by rewrite utf8_next_ascii.
  - exfalso. rewrite Es, utf8_next_app in Hl by done. pose proof (utf8_next_len l Hne). lia.
Qed.

Lemma utf8_chunks_ascii s r :
  is_ascii s = true -> utf8_chunks (s ++ r) = map (fun c => ([c], true)) s ++ utf8_chunks r.
Proof.
  induction s as [|c s IH]; intros H; [done|]. cbn in H. b2p.
  pose proof (utf8_chunks_app [] c (s ++ r) ltac:(done)) as E. cbn in *.
  rewrite E. by rewrite IH.
Qed.

Lemma chars_ascii s : is_ascii s = true -> chars s = map (fun c => [c]) s.
Proof.
  intros H. unfold chars. rewrite <- (app_nil_r s) at 1.
  rewrite utf8_chunks_ascii by done. by rewrite app_nil_r, map_map.
Qed.

Lemma utf8_valid_ascii s : is_ascii s = true -> utf8_valid s = true.
Proof.
  intros H. unfold utf8_valid. rewrite <- (app_nil_r s).
  rewrite utf8_chunks_ascii by done. rewrite app_nil_r.
  rewrite forallb_forall. intros x (c & <- & _)%in_map_iff. done.
Qed.

Lemma utf8_valid_app_ascii l c r :
  is_ascii_byte c = true -> utf8_valid (l ++ c :: r) = utf8_valid l && utf8_valid r.
Proof.
  intros H. unfold utf8_valid. rewrite utf8_chunks_app by done.
  by rewrite forallb_app.
Qed.

(** ** Case mapping facts *)

Lemma map_chars_app am uc s i cs ds :
  map_chars am uc s i (cs ++ ds) =
  map_chars am uc s i cs ++ map_chars am uc s (i + length (concat cs))%nat ds.
Proof.
  revert i. induction cs as [|c cs IH]; intros i; cbn; [by rewrite Nat.add_0_r|].
  rewrite IH, length_app. by rewrite Nat.add_assoc.
Qed.

Lemma map_chars_ascii am uc s i p :
  is_ascii p = true -> concat (map_chars am uc s i (map (fun c => [c]) p)) = map am p.
Proof.
  revert i. induction p as [|c p IH]; intros i H; [done|]. cbn in *. b2p.
  rewrite IH by done. unfold is_ascii. cbn.
  by match goal with E : is_ascii_byte c = true |- _ => rewrite E end.
Qed.

(** Every ASCII part of a string is a part of its case mapping, mapped. *)
Lemma map_case_contains am uc l p r :
  is_ascii p = true -> p <> [] ->
  exists l' r', map_case am uc (l ++ p ++ r) = l' ++ map am p ++ r'.
Proof.
  intros Hp Hne. unfold map_case. set (s := l ++ p ++ r).
  assert (chars s = chars l ++ map (fun c => [c]) p ++ chars r) as ->.
  { subst s. unfold chars. destruct p as [|c p]; [done|].
    cbn in Hp. b2p. cbn [app]. rewrite utf8_chunks_app by done.
    rewrite utf8_chunks_ascii by done. rewrite !map_app. cbn.
    by rewrite map_app, map_map. }
  rewrite !map_chars_app, !concat_app, map_chars_ascii by done. eauto.
Qed.

Lemma map_case_ascii am uc s : is_ascii s = true -> map_case am uc s = map am s.
Proof.
  intros H. unfold map_case. rewrite chars_ascii by done. by apply map_chars_ascii.
Qed.

Section unicode_facts.
Context {U : Unicode}.

Lemma to_lowercase_contains l p r :
  is_ascii p = true -> p <> [] ->
  exists l' r', to_lowercase (l ++ p ++ r) = l' ++ to_ascii_lowercase p ++ r'.
Proof. apply map_case_contains. Qed.

Lemma to_lowercase_ascii s : is_ascii s = true -> to_lowercase s = to_ascii_lowercase s.
Proof. apply map_case_ascii. Qed.
End unicode_facts.

Lemma lower_byte_ascii c : is_ascii_byte c = true -> is_ascii_byte (lower_byte c) = true.
Proof.
  unfold is_ascii_byte, lower_byte. intros H. case_match eqn:E; [|done].
  b2p. rewrite u8_byte by lia. apply Z.ltb_lt. lia.
Qed.

Lemma lower_byte_idemp c : lower_byte (lower_byte c) = lower_byte c.
Proof.
  unfold lower_byte at 2 3. case_match eqn:E; unfold lower_byte; [|by rewrite E].
  b2p. rewrite u8_byte by lia. case_match eqn:E'; [b2p; lia|done].
Qed.

Lemma to_ascii_lowercase_idemp s : to_ascii_lowercase (to_ascii_lowercase s) = to_ascii_lowercase s.
Proof.
  unfold to_ascii_lowercase. rewrite map_map. apply map_ext. apply lower_byte_idemp.
Qed.

Lemma to_ascii_lowercase_app s t :
  to_ascii_lowercase (s ++ t) = to_ascii_lowercase s ++ to_ascii_lowercase t.
Proof. apply map_app. Qed.

(** ** Integer facts *)

Lemma digit_of_range radix c d : digit_of radix c = Some d -> 0 <= d < radix.
Proof.
  unfold digit_of. intros H. repeat case_match; simplify_eq; b2p; lia.
Qed.

Lemma digit_of_char d radix : 0 <= d < 10 -> d < radix -> digit_of radix (digit_char d) = Some d.
Proof.
  intros Hd Hr. unfold digit_of, digit_char. rewrite u8_byte by lia.
  rewrite (proj2 (Z.leb_le 48 (48 + d))), (proj2 (Z.leb_le (48 + d) 57)) by lia.
  cbn [andb]. replace (48 + d - 48) with d by lia.
  by rewrite (proj2 (Z.ltb_lt d radix)).
Qed.

Lemma digits_value_app radix acc s t :
  digits_value radix acc (s ++ t) =
  match digits_value radix acc s with
  | Some v => digits_value radix v t
  | None => None
  end.
Proof.
  revert acc. induction s as [|c s IH]; intros acc; cbn; [done|].
  by destruct (digit_of radix c).
Qed.

Lemma digits_value_nonneg radix acc s v :
  0 <= radix -> 0 <= acc -> digits_value radix acc s = Some v -> 0 <= v.
Proof.
  intros Hr. revert acc. induction s as [|c s IH]; intros acc Ha; cbn; [intros; simplify_eq; lia|].
  destruct (digit_of radix c) as [d|] eqn:E; [|done].
  apply digit_of_range in E. apply IH. nia.
Qed.

Lemma from_str_radix_range max radix s v :
  0 <= radix -> from_str_radix max radix s = Some v -> 0 <= v <= max.
Proof.
  unfold from_str_radix. intros Hr H. cbv zeta in H.
  match type of H with context [match ?d with [] => None | _ => _ end] => destruct d as [|c r] end; [done|].
  destruct (digits_value radix 0 (c :: r)) as [w|] eqn:E; [|done].
  apply digits_value_nonneg in E; [|lia..]. case_match eqn:El; simplify_eq. b2p. lia.
Qed.

Lemma parse_uint_range max s v : parse_uint max s = Some v -> 0 <= v <= max.
Proof. apply from_str_radix_range. lia. Qed.

Lemma show_fuel_value f z :
  0 <= z < 2 ^ Z.of_nat f -> digits_value 10 0 (show_fuel f z) = Some z.
Proof.
  revert z. induction f as [|f IH]; intros z Hz.
  - cbn in *. f_equal. lia.
  - cbn [show_fuel]. case_match eqn:E; b2p.
    + cbn [digits_value]. by rewrite digit_of_char by lia.
    + rewrite digits_value_app, IH.
      2:{ rewrite Nat2Z.inj_succ, Z.pow_succ_r in Hz by lia.
          split; [apply Z.div_pos; lia|]. apply Z.div_lt_upper_bound; lia. }
      cbn [digits_value].
      rewrite digit_of_char by (pose proof (Z.mod_pos_bound z 10); lia).
      f_equal. pose proof (Z.div_mod z 10). lia.
Qed.

Lemma show_fuel_digits f z :
  0 <= z -> Forall (fun c => 48 <= u8 c <= 57) (show_fuel f z).
Proof.
  revert z. induction f as [|f IH]; intros z Hz; cbn [show_fuel]; [constructor|].
  case_match eqn:E; b2p.
  - repeat constructor; unfold digit_char; rewrite u8_byte; lia.
  - apply Forall_app. split; [apply IH, Z.div_pos; lia|].
    pose proof (Z.mod_pos_bound z 10).
    repeat constructor; unfold digit_char; rewrite u8_byte; lia.
Qed.

Lemma show_digits z : 0 <= z -> Forall (fun c => 48 <= u8 c <= 57) (show z).
Proof. apply show_fuel_digits. Qed.

Lemma show_nonempty z : show z <> [].
Proof.
  unfold show. cbn [show_fuel]. case_match; [done|]. by intros [_ ?]%app_eq_nil.
Qed.

Lemma show_value z : 0 <= z -> digits_value 10 0 (show z) = Some z.
Proof.
  intros Hz. apply show_fuel_value. rewrite Nat2Z.inj_succ, Z2Nat.id by apply Z.log2_nonneg.
  destruct (decide (z = 0)) as [->|]; [done|].
  pose proof (Z.log2_spec z). lia.
Qed.

(** Printing then parsing an integer within the type gives it back. *)
Lemma parse_show max z : 0 <= z <= max -> parse_uint max (show z) = Some z.
Proof.
  intros Hz. unfold parse_uint, from_str_radix.
  pose proof (show_digits z ltac:(lia)) as Hd. pose proof (show_nonempty z) as Hn.
  pose proof (show_value z ltac:(lia)) as Hv.
  destruct (show z) as [|c r] eqn:E; [done|].
  apply Forall_cons in Hd as [Hc _].
  assert (c <> "+"%char) as Hplus by (intros ->; vm_compute in Hc; naive_solver).
  assert ((match r with [] => c :: r | _ :: _ => if decide (c = "+"%char) then tl (c :: r) else c :: r end) = c :: r) as Hr.
  { destruct r; [done|]. by rewrite decide_False. }
  rewrite Hr, Hv. by rewrite (proj2 (Z.leb_le z max)) by lia.
Qed.

Lemma show_not_elem z c : 0 <= z -> ~ (48 <= u8 c <= 57) -> c ∉ show z.
Proof.
  intros Hz Hc Hin. pose proof (show_digits z Hz) as Hd.
  rewrite Forall_forall in Hd. by apply Hc, Hd.
Qed.

Lemma show_ascii z : 0 <= z -> is_ascii (show z) = true.
Proof.
  intros Hz. unfold is_ascii. rewrite forallb_forall. intros c Hc.
  pose proof (show_digits z Hz) as Hd. rewrite Forall_forall in Hd.
  specialize (Hd c (proj2 (list_elem_of_In _ _) Hc)). unfold is_ascii_byte. apply Z.ltb_lt. lia.
Qed.

#[export] Hint Resolve parse_uint_range show_ascii show_nonempty : flexd.
