(* ===== verification/Net.v ===== *)
(** * IP addresses: the part of [std::net] the program uses

    Addresses, their classification, and the textual forms accepted by
    [IpAddr::from_str] and produced by [Display]. *)

From S2P Require Import Prelude.
From S2P Require Import Str.

(** [Ipv4Addr] as its octets, [Ipv6Addr] as its segments. *)
Inductive Ipv4Addr : Type := V4Octets (a b c d : Z).
Inductive Ipv6Addr : Type := V6Segments (s0 s1 s2 s3 s4 s5 s6 s7 : Z).
Inductive IpAddr : Type := V4 (ip : Ipv4Addr) | V6 (ip : Ipv6Addr).
Record SocketAddr : Type := mkSocketAddr { sa_ip : IpAddr; sa_port : Z }.

#[global] Instance Ipv4Addr_eq_dec : EqDecision Ipv4Addr.
Proof. solve_decision. Defined.
#[global] Instance Ipv6Addr_eq_dec : EqDecision Ipv6Addr.
Proof. solve_decision. Defined.
#[global] Instance IpAddr_eq_dec : EqDecision IpAddr.
Proof. solve_decision. Defined.
#[global] Instance SocketAddr_eq_dec : EqDecision SocketAddr.
Proof. solve_decision. Defined.

Definition octets (ip : Ipv4Addr) : list Z :=
  let '(V4Octets a b c d) := ip in [a; b; c; d].
Definition segments (ip : Ipv6Addr) : list Z :=
  let '(V6Segments s0 s1 s2 s3 s4 s5 s6 s7) := ip in [s0; s1; s2; s3; s4; s5; s6; s7].

(** Every octet is a u8, every segment a u16. *)
Definition ip_wf (ip : IpAddr) : Prop :=
  match ip with
  | V4 v4 => Forall is_u8 (octets v4)
  | V6 v6 => Forall is_u16 (segments v6)
  end.

(** ** Classification *)

Definition v4_is_private (ip : Ipv4Addr) : bool :=
  let '(V4Octets a b _ _) := ip in
  (a =? 10) || ((a =? 172) && (16 <=? b) && (b <=? 31)) || ((a =? 192) && (b =? 168)).
Definition v4_is_loopback (ip : Ipv4Addr) : bool := let '(V4Octets a _ _ _) := ip in a =? 127.
Definition v4_is_link_local (ip : Ipv4Addr) : bool :=
  let '(V4Octets a b _ _) := ip in (a =? 169) && (b =? 254).
Definition v4_is_multicast (ip : Ipv4Addr) : bool :=
  let '(V4Octets a _ _ _) := ip in (224 <=? a) && (a <=? 239).
Definition v4_is_broadcast (ip : Ipv4Addr) : bool :=
  bool_decide (ip = V4Octets 255 255 255 255).
Definition v4_is_unspecified (ip : Ipv4Addr) : bool := bool_decide (ip = V4Octets 0 0 0 0).
Definition v4_is_documentation (ip : Ipv4Addr) : bool :=
  let '(V4Octets a b c _) := ip in
  ((a =? 192) && (b =? 0) && (c =? 2)) || ((a =? 198) && (b =? 51) && (c =? 100))
  || ((a =? 203) && (b =? 0) && (c =? 113)).

Definition to_ipv4_mapped (ip : Ipv6Addr) : option Ipv4Addr :=
  let '(V6Segments s0 s1 s2 s3 s4 s5 s6 s7) := ip in
  if bool_decide ([s0; s1; s2; s3; s4; s5] = [0; 0; 0; 0; 0; 65535])
  then Some (V4Octets (Z.shiftr s6 8) (Z.land s6 255) (Z.shiftr s7 8) (Z.land s7 255))
  else None.
(** [Ipv4Addr::to_ipv6_mapped], the inverse. *)
Definition to_ipv6_mapped (ip : Ipv4Addr) : Ipv6Addr :=
  let '(V4Octets a b c d) := ip in
  V6Segments 0 0 0 0 0 65535 (a * 256 + b) (c * 256 + d).

Definition v6_is_loopback (ip : Ipv6Addr) : bool := bool_decide (ip = V6Segments 0 0 0 0 0 0 0 1).
Definition v6_is_unspecified (ip : Ipv6Addr) : bool := bool_decide (ip = V6Segments 0 0 0 0 0 0 0 0).
Definition v6_is_multicast (ip : Ipv6Addr) : bool :=
  let '(V6Segments s0 _ _ _ _ _ _ _) := ip in Z.land s0 65280 =? 65280.

(** ** Parsing: [core::net::parser], a reader over the remaining bytes *)

Fixpoint span_digits (radix : Z) (s : str) : str * str :=
  match s with
  | c :: r => match digit_of radix c with
              | Some _ => let '(d, t) := span_digits radix r in (c :: d, t)
              | None => ([], s)
              end
  | [] => ([], [])
  end.

(** [read_number]: at most [max_digits] digits, value at most [max]. *)
Definition read_number (radix max : Z) (max_digits : nat) (allow_zero_prefix : bool) (s : str)
  : option (Z * str) :=
  let '(ds, rest) := span_digits radix s in
  if bool_decide (max_digits < length ds)%nat then None
  else if bool_decide (ds = []) then None
  else if negb allow_zero_prefix && bool_decide (head ds = Some "0"%char)
          && bool_decide (1 < length ds)%nat then None
  else match digits_value radix 0 ds with
       | Some v => if v <=? max then Some (v, rest) else None
       | None => None
       end.

Definition read_given_char (c : ascii) (s : str) : option str :=
  match s with
  | b :: r => if decide (b = c) then Some r else None
  | [] => None
  end.

(** [read_separator]: the separator is read before every item but the first. *)
Definition read_separator {A} (sep : ascii) (index : nat) (inner : str -> option (A * str)) (s : str)
  : option (A * str) :=
  match index with
  | O => inner s
  | _ => match read_given_char sep s with Some r => inner r | None => None end
  end.

Definition read_octet (index : nat) (s : str) : option (Z * str) :=
  read_separator "." index (read_number 10 U8_MAX 3 false) s.

Definition read_ipv4_addr (s : str) : option (Ipv4Addr * str) :=
  match read_octet 0 s with
  | Some (a, s) => match read_octet 1 s with
    | Some (b, s) => match read_octet 2 s with
      | Some (c, s) => match read_octet 3 s with
        | Some (d, s) => Some (V4Octets a b c d, s)
        | None => None end
      | None => None end
    | None => None end
  | None => None
  end.

(** [read_groups]: up to [limit - i] more groups from index [i]; the groups read,
    whether the last two came from an embedded IPv4 address, and the rest. *)
Fixpoint read_groups_from (todo i limit : nat) (s : str) : list Z * bool * str :=
  match todo with
  | O => ([], false, s)
  | S todo' =>
      let v4 := if (i <? limit - 1)%nat then read_separator ":" i read_ipv4_addr s else None in
      match v4 with
      | Some (V4Octets a b c d, s') => ([a * 256 + b; c * 256 + d], true, s')
      | None =>
          match read_separator ":" i (read_number 16 U16_MAX 4 true) s with
          | Some (g, s') =>
              let '(gs, v, s'') := read_groups_from todo' (S i) limit s' in (g :: gs, v, s'')
          | None => ([], false, s)
          end
      end
  end.
Definition read_groups (limit : nat) (s : str) : list Z * bool * str :=
  read_groups_from limit 0 limit s.

Definition ipv6_of_segments (l : list Z) : option Ipv6Addr :=
  match l with
  | [s0; s1; s2; s3; s4; s5; s6; s7] => Some (V6Segments s0 s1 s2 s3 s4 s5 s6 s7)
  | _ => None
  end.

Definition read_ipv6_addr (s : str) : option (Ipv6Addr * str) :=
  let '(hd, hd_v4, s1) := read_groups 8 s in
  if bool_decide (length hd = 8)%nat then (fun a => (a, s1)) <$> ipv6_of_segments hd
  else if hd_v4 then None
  else match read_given_char ":" s1 with
       | Some s2 => match read_given_char ":" s2 with
         | Some s3 =>
             let limit := (8 - (length hd + 1))%nat in
             let '(tl, _, s4) := read_groups limit s3 in
             (fun a => (a, s4)) <$>
               ipv6_of_segments (hd ++ replicate (8 - length hd - length tl) 0 ++ tl)
         | None => None end
       | None => None
       end.

(** [IpAddr::from_str]: the whole input must be consumed. *)
Definition parse_ip (s : str) : option IpAddr :=
  match read_ipv4_addr s with
  | Some (v4, []) => Some (V4 v4)
  | Some (_, _ :: _) => None
  | None => match read_ipv6_addr s with
            | Some (v6, []) => Some (V6 v6)
            | _ => None
            end
  end.

(** ** Display *)

Definition hex_char (d : Z) : ascii := if d <? 10 then byte (48 + d) else byte (87 + d).
Fixpoint show_hex_fuel (fuel : nat) (z : Z) : str :=
  match fuel with
  | O => []
  | S f => if z <? 16 then [hex_char z] else show_hex_fuel f (z / 16) ++ [hex_char (z mod 16)]
  end.
Definition show_hex (z : Z) : str := show_hex_fuel 4 z.

Definition show_ipv4 (ip : Ipv4Addr) : str := join "." (map show (octets ip)).

(** The first longest run of zero segments: (start, length). *)
Fixpoint longest_zeros (i : nat) (l : list Z) (cur best : nat * nat) : nat * nat :=
  match l with
  | [] => best
  | z :: r =>
      if z =? 0 then
        let cur' := (if bool_decide (snd cur = 0)%nat then i else fst cur, S (snd cur)) in
        longest_zeros (S i) r cur' (if bool_decide (snd best < snd cur')%nat then cur' else best)
      else longest_zeros (S i) r (0%nat, 0%nat) best
  end.
Definition show_ipv6 (ip : Ipv6Addr) : str :=
  match to_ipv4_mapped ip with
  | Some v4 => "::ffff:" ++ show_ipv4 v4
  | None =>
      let segs := segments ip in
      let '(start, len) := longest_zeros 0 segs (0%nat, 0%nat) (0%nat, 0%nat) in
      if bool_decide (1 < len)%nat then
        join ":" (map show_hex (take start segs)) ++ "::"
        ++ join ":" (map show_hex (drop (start + len) segs))
      else join ":" (map show_hex segs)
  end.
Definition show_ip (ip : IpAddr) : str :=
  match ip with V4 v4 => show_ipv4 v4 | V6 v6 => show_ipv6 v6 end.

(** ** Concrete forms *)

Example parse_v4 : parse_ip "192.168.1.10" = Some (V4 (V4Octets 192 168 1 10)).
Proof. vm_compute. reflexivity. Qed.
Example parse_v4_octal : parse_ip "192.168.01.10" = None.
Proof. vm_compute. reflexivity. Qed.
Example parse_v6_loopback : parse_ip "::1" = Some (V6 (V6Segments 0 0 0 0 0 0 0 1)).
Proof. vm_compute. reflexivity. Qed.
Example parse_v6_mapped :
  parse_ip "::ffff:127.0.0.1" = Some (V6 (to_ipv6_mapped (V4Octets 127 0 0 1))).
Proof. vm_compute. reflexivity. Qed.
Example parse_v6_full :
  parse_ip "fd12:3456::1" = Some (V6 (V6Segments 64786 13398 0 0 0 0 0 1)).
Proof. vm_compute. reflexivity. Qed.
Example parse_bracketed : parse_ip "[::1]" = None.
Proof. vm_compute. reflexivity. Qed.
Example parse_hostname : parse_ip "backend.internal" = None.
Proof. vm_compute. reflexivity. Qed.
Example show_v6_forms :
  map show_ipv6 [V6Segments 8193 3512 0 0 1 0 0 1; V6Segments 0 0 0 0 0 0 0 1;
                 to_ipv6_mapped (V4Octets 10 0 0 1); V6Segments 1 0 2 0 3 0 4 0]
  = strs ["2001:db8::1:0:0:1"; "::1"; "::ffff:10.0.0.1"; "1:0:2:0:3:0:4:0"]%string.
Proof. vm_compute. reflexivity. Qed.

(** ** Facts *)

Lemma octets_bounds a b c d :
  Forall is_u8 (octets (V4Octets a b c d)) ->
  is_u8 a /\ is_u8 b /\ is_u8 c /\ is_u8 d.
Proof. cbn. rewrite !Forall_cons. tauto. Qed.

Lemma span_digits_app radix ds rest :
  Forall (fun c => is_Some (digit_of radix c)) ds ->
  match rest with c :: _ => digit_of radix c = None | [] => True end ->
  span_digits radix (ds ++ rest) = (ds, rest).
Proof.
  intros Hds Hr. induction Hds as [|c ds [v Hc] _ IH]; cbn.
  - destruct rest as [|c r]; [done|]. cbn. by rewrite Hr.
  - by rewrite Hc, IH.
Qed.

Lemma is_digit_digit_of c : 48 <= u8 c <= 57 -> is_Some (digit_of 10 c).
Proof.
  intros Hc. replace c with (digit_char (u8 c - 48)).
  - rewrite digit_of_char by lia. eauto.
  - unfold digit_char. replace (48 + (u8 c - 48)) with (u8 c) by lia. apply byte_u8.
Qed.

Lemma show_u8_shape z :
  is_u8 z ->
  (length (show z) <= 3)%nat /\
  (head (show z) = Some "0"%char -> length (show z) = 1%nat).
Proof.
  intros [H0 H1]. unfold U8_MAX in H1.
  assert (forallb (fun n => let s := show (Z.of_nat n) in
     (length s <=? 3)%nat && (negb (bool_decide (head s = Some "0"%char)) || (length s =? 1)%nat))
     (seq 0 256) = true) as Hall by (vm_compute; reflexivity).
  rewrite forallb_forall in Hall. specialize (Hall (Z.to_nat z)).
  rewrite Z2Nat.id in Hall by lia. cbv zeta in Hall.
  assert (In (Z.to_nat z) (seq 0 256)) as Hin by (apply in_seq; lia).
  specialize (Hall Hin). apply andb_true_iff in Hall as [Hl Hh]. apply Nat.leb_le in Hl.
  split; [done|]. intros Hz. rewrite bool_decide_eq_true_2 in Hh by done. by apply Nat.eqb_eq.
Qed.

Lemma read_number_show z rest :
  is_u8 z -> match rest with c :: _ => digit_of 10 c = None | [] => True end ->
  read_number 10 U8_MAX 3 false (show z ++ rest) = Some (z, rest).
Proof.
  intros Hz Hr. pose proof Hz as [H0 H1]. destruct (show_u8_shape z Hz) as [Hl Hh].
  unfold read_number. rewrite span_digits_app; [|eapply Forall_impl; [apply show_digits; lia|apply is_digit_digit_of]|done].
  rewrite bool_decide_eq_false_2 by lia. rewrite bool_decide_eq_false_2 by apply show_nonempty.
  rewrite show_value by lia. rewrite (proj2 (Z.leb_le z U8_MAX)) by lia.
  cbn [negb andb]. destruct (bool_decide (head (show z) = Some "0"%char)) eqn:E; [|done].
  b2p. specialize (Hh E). by rewrite bool_decide_eq_false_2 by lia.
Qed.

(** Printing then parsing an IPv4 address, up to a following non-digit. *)
Lemma read_ipv4_show ip rest :
  Forall is_u8 (octets ip) ->
  match rest with c :: _ => digit_of 10 c = None | [] => True end ->
  read_ipv4_addr (show_ipv4 ip ++ rest) = Some (ip, rest).
Proof.
  destruct ip as [a b c d]. intros (? & ? & ? & ?)%octets_bounds Hr.
  unfold show_ipv4, read_ipv4_addr, read_octet. cbn [octets map join read_separator].
  rewrite <- !app_assoc. cbn [app list_ascii_of_string].
  rewrite read_number_show by done. cbn [read_given_char]. rewrite decide_True by done.
  rewrite read_number_show by done. cbn [read_given_char]. rewrite decide_True by done.
  rewrite read_number_show by done. cbn [read_given_char]. rewrite decide_True by done.
  by rewrite read_number_show.
Qed.

Lemma parse_show_ipv4 ip : Forall is_u8 (octets ip) -> parse_ip (show_ipv4 ip) = Some (V4 ip).
Proof.
  intros H. unfold parse_ip. rewrite <- (app_nil_r (show_ipv4 ip)).
  by rewrite read_ipv4_show.
Qed.

Lemma show_ipv4_not_elem ip c :
  Forall is_u8 (octets ip) -> ~ (48 <= u8 c <= 57) -> c <> "."%char -> c ∉ show_ipv4 ip.
Proof.
  destruct ip as [a b d e]. intros ([? _] & [? _] & [? _] & [? _])%octets_bounds Hc Hd.
  unfold show_ipv4. cbn [octets map join app list_ascii_of_string].
  pose proof (show_not_elem a c). pose proof (show_not_elem b c).
  pose proof (show_not_elem d c). pose proof (show_not_elem e c).
  rewrite !not_elem_of_app, !not_elem_of_cons, !not_elem_of_app, !not_elem_of_cons.
  rewrite !not_elem_of_app, !not_elem_of_cons. naive_solver.
Qed.

Lemma to_ipv4_to_ipv6_mapped ip :
  Forall is_u8 (octets ip) -> to_ipv4_mapped (to_ipv6_mapped ip) = Some ip.
Proof.
  destruct ip as [a b c d]. intros ([? ?] & [? ?] & [? ?] & [? ?])%octets_bounds.
  unfold U8_MAX in *.
  unfold to_ipv4_mapped, to_ipv6_mapped. rewrite bool_decide_eq_true_2 by done.
  change 255 with (Z.ones 8). rewrite !Z.land_ones, !Z.shiftr_div_pow2 by lia.
  change (2 ^ 8) with 256.
  rewrite !Z.div_add_l, !Z.div_small, !Z.add_0_r by lia.
  rewrite (Z.add_comm (a * 256)), (Z.add_comm (c * 256)), !Z.mod_add, !Z.mod_small by lia.
  done.
Qed.

(** The dotted IPv4-mapped form parses to the mapped address. *)
Lemma parse_ip_mapped ip :
  Forall is_u8 (octets ip) ->
  parse_ip ("::ffff:" ++ show_ipv4 ip) = Some (V6 (to_ipv6_mapped ip)).
Proof.
  intros Hwf. destruct ip as [a b c d]. unfold parse_ip.
  assert (forall t, read_ipv4_addr ("::ffff:" ++ t) = None) as -> by (intros; reflexivity).
  unfold read_ipv6_addr.
  assert (forall t, read_groups 8 ("::ffff:" ++ t) = ([], false, "::ffff:" ++ t)) as ->
    by (intros; reflexivity).
  cbn [length bool_decide_eq_true_1]. rewrite bool_decide_eq_false_2 by done.
  assert (forall t, read_given_char ":" ("::ffff:" ++ t) = Some (":ffff:" ++ t)) as ->
    by (intros; reflexivity).
  assert (forall t, read_given_char ":" (":ffff:" ++ t) = Some ("ffff:" ++ t)) as ->
    by (intros; reflexivity).
  change (8 - (0 + 1))%nat with 7%nat.
  assert (read_groups 7 ("ffff:" ++ show_ipv4 (V4Octets a b c d))
          = ([65535; a * 256 + b; c * 256 + d], true, [])) as ->; [|done].
  unfold read_groups. cbn [read_groups_from].
  change (0 <? 7 - 1)%nat with true. cbn iota. cbn [read_separator].
  assert (forall t, read_ipv4_addr ("ffff:" ++ t) = None) as -> by (intros; reflexivity).
  assert (forall t, read_number 16 U16_MAX 4 true ("ffff:" ++ t) = Some (65535, ":" ++ t)) as ->
    by (intros; reflexivity).
  change (1 <? 7 - 1)%nat with true. cbn iota. cbn [read_separator].
  assert (forall t, read_given_char ":" (":" ++ t) = Some t) as -> by (intros; reflexivity).
  rewrite <- (app_nil_r (show_ipv4 _)). by rewrite read_ipv4_show.
Qed.

(** The IPv4 address inside a mapped one is well formed. *)
Lemma mapped_wf v6 v4 :
  Forall is_u16 (segments v6) -> to_ipv4_mapped v6 = Some v4 -> Forall is_u8 (octets v4).
Proof.
  destruct v6 as [s0 s1 s2 s3 s4 s5 s6 s7]. unfold to_ipv4_mapped. cbn [segments]. intros Hwf E.
  case_match; [|done]. injection E as <-. rewrite !Forall_cons in Hwf.
  destruct Hwf as (_ & _ & _ & _ & _ & _ & [? ?] & [? ?] & _). unfold U16_MAX in *. cbn [octets].
  change 255 with (Z.ones 8). rewrite !Z.land_ones, !Z.shiftr_div_pow2 by lia.
  change (2 ^ 8) with 256 in *. change (2 ^ 16) with 65536 in *.
  repeat constructor; unfold U8_MAX; Z.div_mod_to_equations; lia.
Qed.
