(* ===== verification/Extern.v ===== *)
(** * Interfaces to the third-party crates the program calls

    The crates [http], [ipnetwork], [regex] and [flate2] are not part of the
    program.  Each is an interface of operations, with the documented behaviour
    the program relies on as a class of laws; every definition that uses a crate
    takes its interface as an argument.  [Instances] gives concrete ones. *)

From S2P Require Import Prelude.
From S2P Require Import Str.
From S2P Require Import Net.

(** ** The data of the [http] crate *)

(** A [StatusCode] is its number. *)
Definition OK_200 : Z := 200.
Definition MOVED_PERMANENTLY : Z := 301.
Definition BAD_REQUEST : Z := 400.
Definition FORBIDDEN : Z := 403.
Definition NOT_FOUND : Z := 404.
Definition METHOD_NOT_ALLOWED : Z := 405.
Definition PAYLOAD_TOO_LARGE : Z := 413.
Definition REQUEST_HEADER_FIELDS_TOO_LARGE : Z := 431.
Definition INTERNAL_SERVER_ERROR : Z := 500.
Definition NOT_IMPLEMENTED : Z := 501.
Definition BAD_GATEWAY : Z := 502.
Definition SERVICE_UNAVAILABLE : Z := 503.
Definition GATEWAY_TIMEOUT : Z := 504.

Inductive Method : Type :=
  | GET | HEAD | POST | PUT | DELETE | PATCH | OPTIONS | CONNECT | TRACE
  | Extension (name : str).
#[global] Instance Method_eq_dec : EqDecision Method.
Proof. solve_decision. Defined.

Definition method_as_str (m : Method) : str :=
  match m with
  | GET => "GET" | HEAD => "HEAD" | POST => "POST" | PUT => "PUT" | DELETE => "DELETE"
  | PATCH => "PATCH" | OPTIONS => "OPTIONS" | CONNECT => "CONNECT" | TRACE => "TRACE"
  | Extension s => s
  end.

Inductive Version : Type := HTTP_09 | HTTP_10 | HTTP_11 | HTTP_2 | HTTP_3.
#[global] Instance Version_eq_dec : EqDecision Version.
Proof. solve_decision. Defined.

(** ** The operations of the [http] crate

    A header name is its lower-case text, a header value its bytes. *)
Class HttpLib : Type := {
  HeaderMap : Type;
  hm_new : HeaderMap;
  hm_iter : HeaderMap -> list (str * str);
  hm_len : HeaderMap -> nat;
  hm_get : HeaderMap -> str -> option str;
  hm_get_all : HeaderMap -> str -> list str;
  hm_contains_key : HeaderMap -> str -> bool;
  hm_insert : HeaderMap -> str -> str -> HeaderMap;
  hm_remove : HeaderMap -> str -> HeaderMap;
  HeaderName_from_bytes : str -> option str;
  HeaderValue_from_str : str -> option str;
  HeaderValue_to_str : str -> option str;
  StatusCode_from_u16 : Z -> option Z;
  canonical_reason : Z -> option str;
  Uri : Type;
  uri_path : Uri -> str;
  uri_query : Uri -> option str;
  uri_authority : Uri -> option str;
  uri_path_and_query : Uri -> option str;
  uri_to_string : Uri -> str;
  Uri_parse : str -> option Uri;
  PathAndQuery : Type;
  PathAndQuery_parse : str -> option PathAndQuery;
  uri_with_path_and_query : Uri -> PathAndQuery -> option Uri;
}.

(** Header values that [to_str] accepts: visible ASCII, space and tab. *)
Definition visible_ascii (c : ascii) : bool :=
  ((32 <=? u8 c) && (u8 c <? 127)) || (u8 c =? 9).

(** What the documentation of the crate says of them. *)
Class HttpLaws (H : HttpLib) : Prop := {
  hm_iter_get_all : forall m k v, (k, v) ∈ hm_iter m <-> v ∈ hm_get_all m k;
  hm_get_head : forall m k, hm_get m k = head (hm_get_all m k);
  hm_contains_get_all : forall m k, hm_contains_key m k = bool_decide (hm_get_all m k <> []);
  hm_len_iter : forall m, hm_len m = length (hm_iter m);
  hm_new_get_all : forall k, hm_get_all hm_new k = [];
  hm_insert_eq : forall m k v, hm_get_all (hm_insert m k v) k = [v];
  hm_insert_ne : forall m k k' v, k <> k' -> hm_get_all (hm_insert m k v) k' = hm_get_all m k';
  hm_remove_eq : forall m k, hm_get_all (hm_remove m k) k = [];
  hm_remove_ne : forall m k k', k <> k' -> hm_get_all (hm_remove m k) k' = hm_get_all m k';
  HeaderName_lower : forall s n, HeaderName_from_bytes s = Some n -> n = to_ascii_lowercase s;
  HeaderValue_from_str_bytes : forall s v, HeaderValue_from_str s = Some v -> v = s;
  HeaderValue_to_str_bytes : forall v s, HeaderValue_to_str v = Some s -> s = v;
  HeaderValue_to_str_visible :
    forall v, is_Some (HeaderValue_to_str v) <-> forallb visible_ascii v = true;
  HeaderValue_from_str_visible :
    forall s, forallb visible_ascii s = true -> HeaderValue_from_str s = Some s;
  StatusCode_from_u16_range :
    forall z, StatusCode_from_u16 z = if (100 <=? z) && (z <=? 999) then Some z else None;
}.

(** ** Requests and responses *)

Record Parts {H : HttpLib} : Type := mkParts {
  p_method : Method;
  p_uri : Uri;
  p_version : Version;
  p_headers : HeaderMap;
}.
Record Response {H : HttpLib} : Type := mkResponse {
  r_status : Z;
  r_headers : HeaderMap;
  r_body : str;
}.

Section http_ops.
Context {H : HttpLib}.

Definition set_headers (p : Parts) (h : HeaderMap) : Parts :=
  mkParts H (p_method p) (p_uri p) (p_version p) h.
Definition set_uri (p : Parts) (u : Uri) : Parts :=
  mkParts H (p_method p) u (p_version p) (p_headers p).

(** [Response::new]: status 200, no headers. *)
Definition Response_new (body : str) : Response := mkResponse H OK_200 hm_new body.
Definition with_status (r : Response) (s : Z) : Response := mkResponse H s (r_headers r) (r_body r).
Definition with_header (r : Response) (k v : str) : Response :=
  mkResponse H (r_status r) (hm_insert (r_headers r) k v) (r_body r).
End http_ops.

(** ** Bodies (http_body_util)

    A body as it arrives, of a request or of an upstream's response: its bytes until it
    is complete, breaks off with an error, or stalls, with nothing more ever coming. *)
Inductive BodyEnd : Type := Complete | Broken | Stalls.
Record Incoming : Type := mkIncoming { in_bytes : str; in_end : BodyEnd }.

(** [Limited::new(body, max).collect().await]. *)
Inductive CollectError : Type := LengthLimitError | BodyError.
Definition collect (max : Z) (i : Incoming) : res CollectError str :=
  if max <? Z.of_nat (length (in_bytes i)) then Err LengthLimitError
  else match in_end i with
  | Complete => Ok (in_bytes i)
  | Broken => Err BodyError
  | Stalls => Hang
  end.

Lemma collect_ok max i bytes :
  collect max i = Ok bytes <-> in_end i = Complete /\ bytes = in_bytes i /\ Z.of_nat (length bytes) <= max.
Proof.
  unfold collect. destruct (max <? Z.of_nat (length (in_bytes i))) eqn:E; b2p.
  - split; [done|]. intros (_ & -> & ?). lia.
  - destruct (in_end i); split; try done; [by intros [= <-]|by intros (_ & -> & _)|by intros []..].
Qed.

(** It never returns only when the body stalls before its limit. *)
Lemma collect_hang max i :
  (exists why, collect max i = Never why)
  <-> collect max i = Hang.
Proof. unfold collect. repeat case_match; naive_solver. Qed.
Lemma collect_stalls max i :
  collect max i = Hang <-> in_end i = Stalls /\ Z.of_nat (length (in_bytes i)) <= max.
Proof.
  unfold collect. destruct (max <? Z.of_nat (length (in_bytes i))) eqn:E; b2p.
  - split; [done|]. intros [_ ?]. lia.
  - destruct (in_end i); naive_solver.
Qed.

(** ** Other crates *)

(** [ipnetwork::IpNetwork]: parsing a CIDR and membership. *)
Class IpNetLib : Type := {
  IpNetwork : Type;
  IpNetwork_parse : str -> option IpNetwork;
  net_contains : IpNetwork -> IpAddr -> bool;
}.

(** [regex::Regex]. *)
Class RegexLib : Type := {
  Regex : Type;
  Regex_new : str -> option Regex;
  is_match : Regex -> str -> bool;
  regex_replace : Regex -> str -> str -> str;
}.

(** [flate2::read::GzDecoder]: the bytes it yields before its end or its first
    error, and whether it stops with an error. *)
Class GzLib : Type := { gz_decode : str -> str * bool }.

(** ** Laws in the form the proofs use *)

Section http_facts.
Context {H : HttpLib} {L : HttpLaws H}.

Lemma hm_get_insert m k v : hm_get (hm_insert m k v) k = Some v.
Proof. by rewrite hm_get_head, hm_insert_eq. Qed.

Lemma hm_get_insert_ne m k k' v : k <> k' -> hm_get (hm_insert m k v) k' = hm_get m k'.
Proof. intros Hn. by rewrite !hm_get_head, hm_insert_ne. Qed.

Lemma hm_get_remove m k : hm_get (hm_remove m k) k = None.
Proof. by rewrite hm_get_head, hm_remove_eq. Qed.

Lemma hm_get_remove_ne m k k' : k <> k' -> hm_get (hm_remove m k) k' = hm_get m k'.
Proof. intros Hn. by rewrite !hm_get_head, hm_remove_ne. Qed.

Lemma hm_get_None m k : hm_get m k = None <-> hm_get_all m k = [].
Proof. rewrite hm_get_head. by destruct (hm_get_all m k). Qed.

Lemma hm_contains_false m k : hm_contains_key m k = false <-> hm_get_all m k = [].
Proof.
  rewrite hm_contains_get_all, bool_decide_eq_false.
  destruct (hm_get_all m k); naive_solver.
Qed.

Lemma hm_contains_get m k : hm_contains_key m k = true <-> is_Some (hm_get m k).
Proof.
  rewrite hm_contains_get_all, hm_get_head, bool_decide_eq_true.
  destruct (hm_get_all m k); cbn; split; intros Hk; try done; try (by destruct Hk); eauto.
Qed.

(** Removing a key leaves nothing under it and never adds values. *)
Lemma hm_remove_get_all m k k' :
  hm_get_all (hm_remove m k) k' = if decide (k = k') then [] else hm_get_all m k'.
Proof. case_decide as E; [subst; apply hm_remove_eq|by apply hm_remove_ne]. Qed.
End http_facts.

#[export] Hint Rewrite @hm_get_insert @hm_get_remove @hm_insert_eq @hm_remove_eq
  using typeclasses eauto : http.
