(* ===== verification/Instances.v ===== *)
(** * Concrete instances of the crate interfaces

    A header map as an association list, CIDR blocks on IPv4, literal-substring
    regexes and the identity outside ASCII for case mapping: enough to evaluate
    the definitions, and the proof that the documented laws can hold together. *)

From S2P Require Import Prelude.
From S2P Require Import Str.
From S2P Require Import Net.
From S2P Require Import Extern.

(** ** Case mapping: the identity outside ASCII *)

Definition id_unicode : Unicode := {| uc_lower _ _ c := c; uc_upper _ _ c := c |}.

(** ** Headers as an association list *)

Definition assoc_get_all (m : list (str * str)) (k : str) : list str :=
  omap (fun p => if decide (p.1 = k) then Some p.2 else None) m.
Definition assoc_remove (m : list (str * str)) (k : str) : list (str * str) :=
  filter (fun p => p.1 <> k) m.

(** The characters of a token (RFC 9110, 5.6.2). *)
Definition tchar (c : ascii) : bool :=
  let n := u8 c in
  ((48 <=? n) && (n <=? 57)) || ((65 <=? n) && (n <=? 90)) || ((97 <=? n) && (n <=? 122))
  || contains_char "!#$%&'*+-.^_`|~" c.

(** An origin-form request target split at its first question mark. *)
Record SimpleUri : Type := mkUri { su_authority : option str; su_path : str; su_query : option str }.

Definition split_query (s : str) : str * option str :=
  match find_char s "?" with
  | Some i => (take i s, Some (drop (i + 1) s))
  | None => (s, None)
  end.

(** The authority of an http URI ends at the first slash, question mark or hash. *)
Definition ends_authority (c : ascii) : bool := contains_char "/?#" c.
Fixpoint split_authority (s : str) : str * str :=
  match s with
  | [] => ([], [])
  | c :: r => if ends_authority c then ([], s) else let '(a, t) := split_authority r in (c :: a, t)
  end.

Definition show_uri (u : SimpleUri) : str :=
  default [] (su_authority u) ++ su_path u
  ++ match su_query u with Some q => "?"%char :: q | None => [] end.

Definition assoc_http : HttpLib := {|
  HeaderMap := list (str * str);
  hm_new := [];
  hm_iter m := m;
  hm_len m := length m;
  hm_get m k := head (assoc_get_all m k);
  hm_get_all := assoc_get_all;
  hm_contains_key m k := bool_decide (assoc_get_all m k <> []);
  hm_insert m k v := assoc_remove m k ++ [(k, v)];
  hm_remove := assoc_remove;
  HeaderName_from_bytes s :=
    if negb (bool_decide (s = [])) && forallb tchar s then Some (to_ascii_lowercase s) else None;
  HeaderValue_from_str s :=
    if forallb (fun c => ((32 <=? u8 c) && negb (u8 c =? 127)) || (u8 c =? 9)) s then Some s else None;
  HeaderValue_to_str v := if forallb visible_ascii v then Some v else None;
  StatusCode_from_u16 z := if (100 <=? z) && (z <=? 999) then Some z else None;
  canonical_reason z := if z =? 200 then Some ("OK" : str) else None;
  Uri := SimpleUri;
  uri_path := su_path;
  uri_query := su_query;
  uri_authority := su_authority;
  uri_path_and_query u := Some (su_path u ++ match su_query u with Some q => "?"%char :: q | None => [] end);
  uri_to_string := show_uri;
  Uri_parse s :=
    match strip_prefix "http://" s with
    | Some t => let '(a, t) := split_authority t in let '(p, q) := split_query t in Some (mkUri (Some a) p q)
    | None =>
        if starts_with s "/" then let '(p, q) := split_query s in Some (mkUri None p q)
        else Some (mkUri (Some s) [] None)
    end;
  PathAndQuery := str * option str;
  PathAndQuery_parse s :=
    if starts_with s "/" && forallb visible_ascii s then Some (split_query s) else None;
  uri_with_path_and_query u pq := Some (mkUri (su_authority u) pq.1 pq.2);
|}.

Lemma assoc_get_all_elem m k v : v ∈ assoc_get_all m k <-> (k, v) ∈ m.
Proof.
  unfold assoc_get_all. rewrite list_elem_of_omap. split.
  - intros ([k' v'] & Hin & Hv). cbn in Hv. case_decide; naive_solver.
  - intros Hin. exists (k, v). cbn. by rewrite decide_True.
Qed.

Lemma assoc_get_all_app m n k : assoc_get_all (m ++ n) k = assoc_get_all m k ++ assoc_get_all n k.
Proof. apply omap_app. Qed.

Lemma assoc_remove_get_all m k k' :
  assoc_get_all (assoc_remove m k) k' = if decide (k = k') then [] else assoc_get_all m k'.
Proof.
  unfold assoc_get_all, assoc_remove.
  induction m as [|[a v] m IH]; [by case_decide|].
  rewrite filter_cons. cbn [fst]. destruct (decide (a <> k)) as [Hn|Hn]; cbn [omap list_omap fst snd];
    rewrite IH; repeat case_decide; naive_solver.
Qed.

#[export] Instance assoc_laws : HttpLaws assoc_http.
Proof.
  split; cbn -[assoc_get_all assoc_remove decide]; try done.
  - intros. by rewrite assoc_get_all_elem.
  - intros m k v. rewrite assoc_get_all_app, assoc_remove_get_all, decide_True by done.
    cbn. by rewrite decide_True.
  - intros m k k' v Hn. rewrite assoc_get_all_app, assoc_remove_get_all, decide_False by done.
    cbn. rewrite decide_False by done. apply app_nil_r.
  - intros m k. rewrite assoc_remove_get_all. by rewrite decide_True.
  - intros m k k' Hn. rewrite assoc_remove_get_all. by rewrite decide_False.
  - intros s n. case_match; naive_solver.
  - intros s v. case_match; naive_solver.
  - intros s v. case_match; naive_solver.
  - intros v. case_match; split; try done; intros []; congruence.
  - intros s Hs. assert (forallb (fun c => ((32 <=? u8 c) && negb (u8 c =? 127)) || (u8 c =? 9)) s = true) as ->;
      [|done].
    revert Hs. rewrite !forallb_forall. intros Hs c Hc. specialize (Hs c Hc). unfold visible_ascii in Hs.
    apply orb_true_iff in Hs as [Hs|Hs]; apply orb_true_iff; [left|by right].
    b2p. apply andb_true_iff. split; [by apply Z.leb_le|]. apply negb_true_iff, Z.eqb_neq. lia.
Qed.

(** ** CIDR blocks: an address and a prefix length *)

Definition bits_of (l : list Z) (w : Z) : Z := foldl (fun acc x => acc * 2 ^ w + x) 0 l.
Definition in_cidr (base ip : IpAddr) (len : Z) : bool :=
  match base, ip with
  | V4 b, V4 a => bits_of (octets a) 8 / 2 ^ (32 - len) =? bits_of (octets b) 8 / 2 ^ (32 - len)
  | V6 b, V6 a => bits_of (segments a) 16 / 2 ^ (128 - len) =? bits_of (segments b) 16 / 2 ^ (128 - len)
  | _, _ => false
  end.

Definition cidr_nets : IpNetLib := {|
  IpNetwork := IpAddr * Z;
  IpNetwork_parse s :=
    match rsplit_once s "/" with
    | Some (a, l) =>
        match parse_ip a, parse_uint U8_MAX l with
        | Some ip, Some len =>
            if len <=? (match ip with V4 _ => 32 | V6 _ => 128 end) then Some (ip, len) else None
        | _, _ => None
        end
    | None => match parse_ip s with
              | Some ip => Some (ip, match ip with V4 _ => 32 | V6 _ => 128 end)
              | None => None
              end
    end;
  net_contains net ip := in_cidr net.1 ip net.2;
|}.

Example cidr_contains :
  match @IpNetwork_parse cidr_nets "10.0.0.0/8" with
  | Some n => @net_contains cidr_nets n (V4 (V4Octets 10 1 2 3))
              && negb (@net_contains cidr_nets n (V4 (V4Octets 11 1 2 3)))
  | None => false
  end = true.
Proof. vm_compute. reflexivity. Qed.

(** ** Regexes that match a literal substring; an open bracket does not compile *)

Definition literal_regex : RegexLib := {|
  Regex := str;
  Regex_new s := if contains_char s "[" then None else Some s;
  is_match r s := contains s r;
  regex_replace r s rep :=
    match list_find (fun i => starts_with (drop i s) r = true) (seq 0 (S (length s))) with
    | Some (_, i) => take i s ++ rep ++ drop (i + length r) s
    | None => s
    end;
|}.

Example literal_replace :
  @regex_replace literal_regex ("/old" : str) "/a/old/b" "/new" = ("/a/new/b" : str).
Proof. vm_compute. reflexivity. Qed.

(** ** A decoder that stores its input *)

Definition stored_gz : GzLib := {| gz_decode s := (s, false) |}.
