(* ===== verification/UriValidate.v ===== *)
(** * Request-URI validation (src/src/security/uri_validate.rs)

    [validate_uri] and its private percent-decoder, and the control-character
    helpers.  Theorems: what an accepted URI cannot contain, that validation
    never panics on ASCII, and the inputs it lets through or panics on. *)

From S2P Require Import Prelude.
From S2P Require Import Str.
From S2P Require Import Extern.
From S2P Require Import Instances.

Definition FRACTION_SLASH : str := [byte 226; byte 129; byte 132].
Definition DIVISION_SLASH : str := [byte 226; byte 136; byte 149].

Section uri_validate.
Context {U : Unicode}.

(** The private [url_decode]: a ['%'] with fewer than two bytes after it is kept. *)
Fixpoint url_decode_bytes (s : str) : option str :=
  match s with
  | [] => Some []
  | c :: t =>
      match t with
      | c1 :: c2 :: r =>
          if decide (c = "%"%char) then
            match from_str_radix U8_MAX 16 (from_utf8_lossy [c1; c2]) with
            | Some b => (fun d => byte b :: d) <$> url_decode_bytes r
            | None => None
            end
          else (fun d => c :: d) <$> url_decode_bytes t
      | _ => (fun d => c :: d) <$> url_decode_bytes t
      end
  end.
Definition url_decode (s : str) : option str :=
  match url_decode_bytes s with Some d => from_utf8 d | None => None end.

(** One turn of the loop over [bytes]: [i] is the position. *)
Definition scan_at (uri : str) (i : nat) : res (Z * str) unit :=
  if bool_decide (uri !! i = Some "%"%char) && bool_decide (i + 2 < length uri)%nat then
    let? raw := str_slice uri i (i + 3) in
    let seq := to_lowercase raw in
    if bool_decide (seq = "%c0") || bool_decide (seq = "%c1") || bool_decide (seq = "%e0")
    then Err (BAD_REQUEST, "overlong UTF-8 encoding in URI" : str)
    else if bool_decide (seq = "%ed") && bool_decide (i + 6 < length uri)%nat then
      let? raw := str_slice uri (i + 3) (i + 6) in
      match strip_prefix "%" (to_lowercase raw) with
      | Some hex =>
          let byte_val := default 0 (from_str_radix U8_MAX 16 hex) in
          if (160 <=? byte_val) && (byte_val <=? 191)
          then Err (BAD_REQUEST, "invalid surrogate half in URI" : str) else Ok tt
      | None => Ok tt
      end
    else Ok tt
  else Ok tt.

Definition validate_uri (uri : str) : res (Z * str) unit :=
  let lower := to_lowercase uri in
  if contains lower "%00" then Err (BAD_REQUEST, "null byte in URI" : str)
  else if contains lower "%2e%2e%2f" || contains lower "%2e%2e\"
  then Err (BAD_REQUEST, "encoded traversal in URI" : str)
  else if contains lower "%252e%252e%252f"
  then Err (BAD_REQUEST, "double-encoded traversal in URI" : str)
  else if contains lower "%0b" then Err (BAD_REQUEST, "vertical tab in URI" : str)
  else if contains_char uri "\" then Err (BAD_REQUEST, "backslash in URI" : str)
  else if contains uri FRACTION_SLASH || contains uri DIVISION_SLASH
  then Err (BAD_REQUEST, "unicode slash variant in URI" : str)
  else if contains lower "%c0%ae" || contains lower "%e0%40%ae"
  then Err (BAD_REQUEST, "overlong UTF-8 in URI" : str)
  else
    let? _ := for_each (scan_at uri) (seq 0 (length uri)) in
    match url_decode uri with
    | None => Err (BAD_REQUEST, "invalid percent encoding" : str)
    | Some _ => Ok tt
    end.
End uri_validate.

(** ** Control characters *)

Definition has_control_chars (s : str) : bool :=
  existsb (fun c : str =>
    match c with
    | [b] => ((u8 b <? 32) && negb (u8 b =? 9)) || (u8 b =? 127)
    | _ => false
    end) (chars s).

Definition strip_control_chars (s : str) : str :=
  concat (List.filter (fun c : str =>
    match c with
    | [b] => negb (((u8 b <? 32) && negb (u8 b =? 9)) || (u8 b =? 127)
                   || (u8 b =? 10) || (u8 b =? 13))
    | _ => true
    end) (chars s)).

(** ** What an accepted URI cannot contain *)

(** No part of [u] equals [pat] up to ASCII case. *)
Definition free_of (u pat : str) : Prop :=
  forall l p r, u = l ++ p ++ r -> to_ascii_lowercase p <> pat.

Lemma lower_ascii_inv p pat :
  is_ascii pat = true -> to_ascii_lowercase p = pat -> is_ascii p = true.
Proof.
  intros Ha <-. induction p as [|c p IH]; [done|]. cbn [to_ascii_lowercase map] in Ha.
  rewrite is_ascii_cons in *. b2p. rewrite IH, andb_true_r by done.
  match goal with H : is_ascii_byte (lower_byte c) = true |- _ => revert H end.
  unfold is_ascii_byte, lower_byte. case_match eqn:E; [|done]. b2p.
  intros _. apply Z.ltb_lt. lia.
Qed.

Lemma contains_lower_free {U : Unicode} u pat :
  is_ascii pat = true -> pat <> [] -> contains (to_lowercase u) pat = false -> free_of u pat.
Proof.
  intros Ha Hne Hc l p r -> Hp.
  assert (p <> []) as Hp0 by (intros ->; by apply Hne).
  destruct (to_lowercase_contains l p r) as (l' & r' & E); [by eapply lower_ascii_inv|done|].
  rewrite E, Hp in Hc. rewrite contains_false in Hc. by eapply Hc.
Qed.

Lemma slice_middle (l p r : str) : slice (l ++ p ++ r) (length l) (length l + length p) = p.
Proof.
  unfold slice. rewrite drop_app_length. replace (length l + length p - length l)%nat with (length p) by lia.
  apply take_app_length.
Qed.

Lemma to_ascii_lowercase_length s : length (to_ascii_lowercase s) = length s.
Proof. apply length_map. Qed.

(** The escapes the loop refuses. *)
Definition overlong_leads : list str := strs ["%c0"; "%c1"; "%e0"]%string.

Lemma scan_at_ok {U : Unicode} l p r :
  length p = 3%nat -> scan_at (l ++ p ++ r) (length l) = Ok tt ->
  to_ascii_lowercase p ∉ overlong_leads.
Proof.
  intros Hl Hok Hin.
  assert (is_ascii p = true) as Ha.
  { eapply lower_ascii_inv; [|done]. unfold overlong_leads in Hin. cbn in Hin.
    rewrite !elem_of_cons, elem_of_nil in Hin. by destruct Hin as [-> | [-> | [-> | []]]]. }
  assert (exists q, p = "%"%char :: q) as [q ->].
  { destruct p as [|c q]; [done|]. exists q. f_equal.
    assert (lower_byte c = "%"%char) as Hc.
    { unfold overlong_leads in Hin. cbn in Hin. rewrite !elem_of_cons, elem_of_nil in Hin. naive_solver. }
    revert Hc. unfold lower_byte. case_match eqn:E; [|done]. b2p. intros Hc%(f_equal u8).
    rewrite u8_byte in Hc by lia. change (u8 "%"%char) with 37 in Hc. lia. }
  unfold scan_at in Hok. set (u := l ++ ("%"%char :: q) ++ r) in *.
  assert (u !! length l = Some "%"%char) as Hu.
  { subst u. rewrite lookup_app_r, Nat.sub_diag by lia. done. }
  rewrite (bool_decide_eq_true_2 (u !! _ = _)) in Hok by done.
  rewrite bool_decide_eq_true_2 in Hok by (subst u; rewrite !length_app, Hl; lia).
  cbn [andb] in Hok. unfold str_slice in Hok.
  case_match eqn:Eb; [|done]. cbn [res_bind] in Hok.
  assert (slice u (length l) (length l + 3) = "%"%char :: q) as Es.
  { rewrite <- Hl. apply slice_middle. }
  rewrite Es, to_lowercase_ascii in Hok by done.
  unfold overlong_leads in Hin. cbn [strs map] in Hin. rewrite !elem_of_cons, elem_of_nil in Hin.
  destruct Hin as [Hp | [Hp | [Hp | []]]]; rewrite Hp in Hok; vm_compute in Hok; done.
Qed.

(** [validate_uri] returns [Ok] exactly when every check passes. *)
Lemma validate_uri_ok_inv {U : Unicode} u :
  validate_uri u = Ok tt ->
  Forall (fun pat => contains (to_lowercase u) pat = false)
    (strs ["%00"; "%2e%2e%2f"; "%2e%2e\"; "%252e%252e%252f"; "%0b"; "%c0%ae"; "%e0%40%ae"]%string)
  /\ contains_char u "\" = false
  /\ contains u FRACTION_SLASH = false /\ contains u DIVISION_SLASH = false
  /\ Forall (fun i => scan_at u i = Ok tt) (seq 0 (length u))
  /\ (exists d, url_decode u = Some d).
Proof.
  unfold validate_uri. intros H. res_inv. b2p.
  repeat match goal with H : _ || _ = false |- _ => apply orb_false_iff in H as [? ?] end.
  destruct (url_decode u) as [d|] eqn:Ed; [|done].
  match goal with E : for_each _ _ = Ok _ |- _ => apply for_each_unit_ok in E end.
  split_and!; eauto. cbn [strs map]. repeat constructor; done.
Qed.

(** C24. An accepted request URI holds no encoded NUL or vertical tab, no fully
    encoded [../] (single or double), no overlong lead byte escape, no backslash
    or Unicode slash, in any letter case, and it percent-decodes to valid UTF-8. *)
Theorem validate_uri_sound {U : Unicode} u :
  validate_uri u = Ok tt ->
  Forall (free_of u)
    (strs ["%00"; "%0b"; "%2e%2e%2f"; "%2e%2e\"; "%252e%252e%252f";
           "%c0"; "%c1"; "%e0"]%string)
  /\ ("\"%char ∉ u)
  /\ (forall l r, u <> l ++ (FRACTION_SLASH ++ r)) /\ (forall l r, u <> l ++ (DIVISION_SLASH ++ r))
  /\ (exists d, url_decode u = Some d /\ utf8_valid d = true).
Proof.
  intros (Hlow & Hback & Hf & Hd & Hscan & d & Hdec)%validate_uri_ok_inv.
  rewrite contains_char_false in Hback. rewrite contains_false in Hf, Hd.
  cbn [strs map] in Hlow. rewrite !Forall_cons in Hlow.
  assert (forall pat, pat ∈ overlong_leads -> length pat = 3%nat -> free_of u pat) as Hlead.
  { intros pat Hin Hl l p r -> Hp. rewrite Forall_seq in Hscan.
    assert (length p = 3%nat) as Hlp by (by rewrite <- to_ascii_lowercase_length, Hp).
    apply (scan_at_ok l p r Hlp); [|by rewrite Hp].
    apply Hscan. rewrite !length_app. lia. }
  split_and!; [|done..|].
  - destruct_and! Hlow. cbn [strs map]. rewrite !Forall_cons.
    split_and!; [eauto using contains_lower_free..| | | |by constructor];
      apply Hlead; by vm_decide.
  - exists d. split; [done|]. unfold url_decode, from_utf8 in Hdec.
    repeat case_match; by simplify_eq.
Qed.

(** Outcomes that are [Ok] or a 400. *)
Definition refusal_400 {A} (m : res (Z * str) A) : Prop :=
  (exists a, m = Ok a) \/ exists why, m = Err (BAD_REQUEST, why).

Lemma for_each_refusal {A} (f : A -> res (Z * str) unit) l :
  Forall (fun x => refusal_400 (f x)) l -> refusal_400 (for_each f l).
Proof.
  induction 1 as [|x l Hd _ IH]; cbn; [left; eauto|].
  destruct Hd as [[[] Hx]|[why Hx]]; rewrite Hx; cbn; [done|].
  right. eauto.
Qed.

Lemma scan_at_ascii {U : Unicode} u i : is_ascii u = true -> refusal_400 (scan_at u i).
Proof.
  intros Ha. unfold scan_at.
  destruct (bool_decide _ && bool_decide _) eqn:E1; [b2p|by left; eauto].
  rewrite str_slice_ascii by (done || lia). cbn [res_bind].
  case_match; [right; eauto|].
  destruct (bool_decide _ && bool_decide _) eqn:E2; [b2p|by left; eauto].
  rewrite str_slice_ascii by (done || lia). cbn [res_bind].
  repeat case_match; ((left; eauto; fail) || (right; eauto)).
Qed.

(** On an ASCII request URI validation never panics, and a refusal is
    always a 400 with a reason. *)
Theorem validate_uri_ascii_total {U : Unicode} u :
  is_ascii u = true ->
  validate_uri u = Ok tt \/ exists why, validate_uri u = Err (BAD_REQUEST, why).
Proof.
  intros Ha.
  assert (refusal_400 (validate_uri u)) as [[[] H]|H]; [|by left|by right].
  unfold validate_uri. cbv zeta.
  repeat (case_match; [right; eauto; fail|]).
  assert (refusal_400 (for_each (scan_at u) (seq 0 (length u)))) as [[[] Hf]|[why Hf]].
  - apply for_each_refusal, Forall_forall. intros i _. by apply scan_at_ascii.
  - rewrite Hf. cbn [res_bind]. case_match; [left; eauto|right; eauto].
  - rewrite Hf. right. eauto.
Qed.

(** On any request, a refusal is a 400. *)
Lemma validate_uri_err {U : Unicode} u st why : validate_uri u = Err (st, why) -> st = BAD_REQUEST.
Proof.
  assert (forall i e, scan_at u i = Err e -> fst e = BAD_REQUEST) as Hs.
  { intros i e. unfold scan_at, str_slice. repeat (case_match; cbn [res_bind]); intros [= <-]; done. }
  unfold validate_uri. cbv zeta. repeat (case_match; [by intros [= <- _]|]).
  destruct (for_each _ _) as [|e|] eqn:Ef; cbn [res_bind]; [case_match; [done|by intros [= <- _]]| |done].
  intros [= ->]. revert Ef. induction (seq 0 (length u)) as [|i r IH]; cbn [for_each]; [done|].
  destruct (scan_at u i) as [|e|] eqn:Ei; cbn [res_bind]; [done| |done]. intros [= ->]. exact (Hs i _ Ei).
Qed.

(** A percent sign followed by one ASCII byte and a two-byte character makes
    validation slice off a character boundary: the call panics instead of
    returning 400 (the hypothesis says what Unicode lower-casing gives for that
    character). *)
Theorem validate_uri_panics {U : Unicode} :
  uc_lower ("/%a" ++ [byte 195; byte 169]) 3 [byte 195; byte 169] = [byte 195; byte 169] ->
  validate_uri ("/%a" ++ [byte 195; byte 169]) = Panic.
Proof.
  intros Hc. unfold validate_uri.
  assert (to_lowercase ("/%a" ++ [byte 195; byte 169]) = "/%a" ++ [byte 195; byte 169]) as ->.
  { unfold to_lowercase, map_case.
    change (chars ("/%a" ++ [byte 195; byte 169]))
      with [["/"%char]; ["%"%char]; ["a"%char]; [byte 195; byte 169]].
    cbn [map_chars]. change (is_ascii [byte 195; byte 169]) with false.
    cbn -[byte u8]. cbn -[byte u8] in Hc. rewrite Hc. vm_compute. reflexivity. }
  vm_compute. reflexivity.
Qed.

(** The percent decoder takes a sign for a digit, so [%+0] decodes to NUL and
    [%+a] to a line feed although [%00] is refused, a truncated escape at the end
    is kept, and an encoded dot-dot before a literal slash is accepted. *)
Theorem validate_uri_gaps {U : Unicode} :
  validate_uri "/%+0" = Ok tt /\ url_decode "/%+0" = Some ["/"%char; byte 0]
  /\ validate_uri "/%+a" = Ok tt /\ url_decode "/%+a" = Some ["/"%char; byte 10]
  /\ validate_uri "/x%4" = Ok tt /\ url_decode "/x%4" = Some ("/x%4" : str)
  /\ validate_uri "/%2e%2e/etc/passwd" = Ok tt
  /\ url_decode "/%2e%2e/etc/passwd" = Some ("/../etc/passwd" : str).
Proof. split_and!; vm_compute; reflexivity. Qed.

(** ** The theorems at concrete inputs *)

Lemma validate_uri_sound_witness :
  @validate_uri id_unicode "/a%20b" = Ok tt
  /\ (exists d, url_decode "/a%20b" = Some d /\ utf8_valid d = true).
Proof.
  assert (@validate_uri id_unicode "/a%20b" = Ok tt) as H by (vm_compute; reflexivity).
  split; [exact H|]. exact (proj2 (proj2 (proj2 (proj2 (@validate_uri_sound id_unicode "/a%20b" H))))).
Defined.

Lemma validate_uri_ascii_total_witness :
  @validate_uri id_unicode "/a%00b" = Ok tt
  \/ exists why, @validate_uri id_unicode "/a%00b" = Err (BAD_REQUEST, why).
Proof. apply (@validate_uri_ascii_total id_unicode "/a%00b"). vm_compute. reflexivity. Defined.

Lemma validate_uri_panics_witness :
  @validate_uri id_unicode ("/%a" ++ [byte 195; byte 169]) = Panic.
Proof. apply (@validate_uri_panics id_unicode). reflexivity. Defined.
