(* ===== verification/UpstreamFilter.v ===== *)
(** * SSRF filtering of upstream and CONNECT targets
    (src/src/security/upstream_filter.rs)

    Authority splitting, the restricted ranges, the allowlist decision and the
    gate on configured upstream addresses.  Theorems: the ranges against a CIDR
    table, the decision, IPv4-mapped addresses, and the gate on every textual
    form of an address. *)

From S2P Require Import Prelude.
From S2P Require Import Str.
From S2P Require Import Net.
From S2P Require Import Extern.
From S2P Require Import Instances.

Definition split_host_port (addr : str) : str * option Z :=
  match strip_prefix "[" addr with
  | Some rest =>
      match find_char rest "]" with
      | Some e =>
          let host := take e rest in
          let port := match strip_prefix ":" (drop (e + 1) rest) with
                      | Some p => parse_uint U16_MAX p
                      | None => None
                      end in
          (host, port)
      | None => (addr, None)
      end
  | None =>
      if bool_decide (1 < count_char addr ":")%nat then (addr, None)
      else match rsplit_once addr ":" with
           | Some (host, port) =>
               match parse_uint U16_MAX port with
               | Some p => (host, Some p)
               | None => (addr, None)
               end
           | None => (addr, None)
           end
  end.

Definition restricted_v4 (v4 : Ipv4Addr) : bool :=
  v4_is_private v4 || v4_is_loopback v4 || v4_is_link_local v4 || v4_is_multicast v4
  || v4_is_broadcast v4 || v4_is_unspecified v4 || v4_is_documentation v4
  || (let '(V4Octets a _ _ _) := v4 in a =? 0)
  || (let '(V4Octets a b _ _) := v4 in (a =? 100) && (Z.land b 192 =? 64)).

Definition restricted_v6 (v6 : Ipv6Addr) : bool :=
  match to_ipv4_mapped v6 with
  | Some mapped => restricted_v4 mapped
  | None =>
      let '(V6Segments s0 _ _ _ _ _ _ _) := v6 in
      v6_is_loopback v6 || v6_is_multicast v6 || v6_is_unspecified v6
      || (Z.land s0 65024 =? 64512) || (Z.land s0 65472 =? 65152)
  end.

Definition is_restricted (ip : IpAddr) : bool :=
  match ip with V4 v4 => restricted_v4 v4 | V6 v6 => restricted_v6 v6 end.

(** The address judged besides [ip] itself: an IPv4-mapped address as IPv4. *)
Definition canonical (ip : IpAddr) : IpAddr :=
  match ip with
  | V6 v6 => match to_ipv4_mapped v6 with Some v4 => V4 v4 | None => ip end
  | V4 _ => ip
  end.

Section filter.
Context {N : IpNetLib}.

Definition ip_allowed (ip : IpAddr) (allowed_networks : list IpNetwork) : bool :=
  if negb (is_restricted ip) then true
  else existsb (fun net => net_contains net ip || net_contains net (canonical ip)) allowed_networks.

Definition parse_networks (allowed : option (list str)) : list IpNetwork :=
  omap IpNetwork_parse (default [] allowed).

Definition is_upstream_allowed (addr : str) (allowed_networks : option (list str)) : res str unit :=
  let '(host, _) := split_host_port addr in
  match parse_ip host with
  | Some ip =>
      if negb (ip_allowed ip (parse_networks allowed_networks))
      then Err ("Upstream " ++ addr
                ++ " is in a restricted range and not in upstream_allowed_networks")
      else Ok tt
  | None => Ok tt
  end.
End filter.

(** ** The restricted ranges as CIDR blocks *)

Definition v4_bits (ip : Ipv4Addr) : Z :=
  let '(V4Octets a b c d) := ip in ((a * 256 + b) * 256 + c) * 256 + d.
(** [ip] lies in the block of the first [len] bits of [base]. *)
Definition in_block (ip base : Ipv4Addr) (len : Z) : bool :=
  v4_bits ip / 2 ^ (32 - len) =? v4_bits base / 2 ^ (32 - len).
Definition restricted_v4_blocks : list (Ipv4Addr * Z) :=
  [ (V4Octets 10 0 0 0, 8); (V4Octets 172 16 0 0, 12); (V4Octets 192 168 0 0, 16);
    (V4Octets 127 0 0 0, 8); (V4Octets 169 254 0 0, 16); (V4Octets 224 0 0 0, 4);
    (V4Octets 255 255 255 255, 32); (V4Octets 192 0 2 0, 24); (V4Octets 198 51 100 0, 24);
    (V4Octets 203 0 113 0, 24); (V4Octets 0 0 0 0, 8); (V4Octets 100 64 0 0, 10) ].
(** The IPv6 ranges, on the first segment. *)
Definition restricted_v6_range (v6 : Ipv6Addr) : Prop :=
  let '(V6Segments s0 _ _ _ _ _ _ _) := v6 in
  v6 = V6Segments 0 0 0 0 0 0 0 1 \/ v6 = V6Segments 0 0 0 0 0 0 0 0
  \/ 65280 <= s0 <= 65535        (* ff00::/8 *)
  \/ 64512 <= s0 <= 65023        (* fc00::/7 *)
  \/ 65152 <= s0 <= 65215.       (* fe80::/10 *)

Lemma u8_land_192 b : is_u8 b -> (Z.land b 192 =? 64) = (b / 64 =? 1).
Proof.
  intros [H0 H1]. unfold U8_MAX in H1. change (Z.land b 192) with (Z.land b (2 ^ 8 - 2 ^ 6)).
  rewrite (land_high 8 6 b) by lia.
  apply eq_true_iff_eq. rewrite !Z.eqb_eq. change (2 ^ 6) with 64. lia.
Qed.

Lemma u16_masks s :
  is_u16 s ->
  (Z.land s 65280 =? 65280) = (65280 <=? s)
  /\ (Z.land s 65024 =? 64512) = ((64512 <=? s) && (s <=? 65023))
  /\ (Z.land s 65472 =? 65152) = ((65152 <=? s) && (s <=? 65215)).
Proof.
  intros [H0 H1]. unfold U16_MAX in H1.
  change (Z.land s 65280) with (Z.land s (2 ^ 16 - 2 ^ 8)).
  change (Z.land s 65024) with (Z.land s (2 ^ 16 - 2 ^ 9)).
  change (Z.land s 65472) with (Z.land s (2 ^ 16 - 2 ^ 6)).
  rewrite (land_high 16 8 s), (land_high 16 9 s), (land_high 16 6 s) by lia.
  change (2 ^ 8) with 256. change (2 ^ 9) with 512. change (2 ^ 6) with 64.
  split_and!; apply eq_true_iff_eq; rewrite ?andb_true_iff, !Z.eqb_eq, !Z.leb_le;
    Z.div_mod_to_equations; lia.
Qed.

(** The twelve blocks, each against its test on the octets. *)
Lemma blocks_spec a b c d :
  Forall is_u8 (octets (V4Octets a b c d)) ->
  map (fun p => in_block (V4Octets a b c d) (fst p) (snd p)) restricted_v4_blocks =
  [ a =? 10; (a =? 172) && (b / 16 =? 1); (a =? 192) && (b =? 168); a =? 127;
    (a =? 169) && (b =? 254); a / 16 =? 14;
    (a =? 255) && (b =? 255) && (c =? 255) && (d =? 255);
    (a =? 192) && (b =? 0) && (c =? 2); (a =? 198) && (b =? 51) && (c =? 100);
    (a =? 203) && (b =? 0) && (c =? 113); a =? 0; (a =? 100) && (b / 64 =? 1) ].
Proof.
  intros ([? ?] & [? ?] & [? ?] & [? ?])%octets_bounds. unfold U8_MAX in *.
  unfold restricted_v4_blocks. cbn [map fst snd]. unfold in_block, v4_bits.
  repeat match goal with
  | |- context [2 ^ (32 - ?n)] => let v := eval vm_compute in (2 ^ (32 - n)) in
                                  change (2 ^ (32 - n)) with v
  end.
  repeat (apply (f_equal2 (@cons bool)); [|]); [..|reflexivity];
    (apply eq_true_iff_eq; rewrite ?andb_true_iff, !Z.eqb_eq; Z.div_mod_to_equations; lia).
Qed.

(** An IPv4 address is in one of the blocks. *)
Definition in_restricted_block (ip : Ipv4Addr) : Prop :=
  Exists (fun blk => in_block ip (fst blk) (snd blk) = true) restricted_v4_blocks.

Lemma Exists_true_map {A} (f : A -> bool) l :
  Exists (fun x => f x = true) l <-> Exists (fun b => b = true) (map f l).
Proof. induction l; cbn; rewrite ?Exists_nil, ?Exists_cons; tauto. Qed.

Lemma V4Octets_eq a b c d a' b' c' d' :
  V4Octets a b c d = V4Octets a' b' c' d' <-> a = a' /\ b = b' /\ c = c' /\ d = d'.
Proof. naive_solver. Qed.

Lemma restricted_v4_spec ip :
  Forall is_u8 (octets ip) -> restricted_v4 ip = true <-> in_restricted_block ip.
Proof.
  intros Hwf. unfold in_restricted_block. rewrite Exists_true_map.
  destruct ip as [a b c d]. rewrite blocks_spec by done.
  rewrite !Exists_cons, Exists_nil.
  apply octets_bounds in Hwf as ([? ?] & [? ?] & [? ?] & [? ?]). unfold U8_MAX in *.
  unfold restricted_v4, v4_is_private, v4_is_loopback, v4_is_link_local, v4_is_multicast,
    v4_is_broadcast, v4_is_unspecified, v4_is_documentation.
  rewrite u8_land_192 by (split; unfold U8_MAX; lia).
  rewrite !orb_true_iff, !andb_true_iff, !bool_decide_eq_true, !Z.eqb_eq, !Z.leb_le.
  rewrite !V4Octets_eq.
  assert (b / 16 = 1 <-> 16 <= b <= 31) as -> by (Z.div_mod_to_equations; lia).
  assert (a / 16 = 14 <-> 224 <= a <= 239) as -> by (Z.div_mod_to_equations; lia).
  tauto.
Qed.

Lemma restricted_v6_range_spec s0 s1 s2 s3 s4 s5 s6 s7 :
  is_u16 s0 ->
  (v6_is_loopback (V6Segments s0 s1 s2 s3 s4 s5 s6 s7)
   || v6_is_multicast (V6Segments s0 s1 s2 s3 s4 s5 s6 s7)
   || v6_is_unspecified (V6Segments s0 s1 s2 s3 s4 s5 s6 s7)
   || (Z.land s0 65024 =? 64512) || (Z.land s0 65472 =? 65152)) = true
  <-> restricted_v6_range (V6Segments s0 s1 s2 s3 s4 s5 s6 s7).
Proof.
  intros Hs. destruct (u16_masks s0 Hs) as (Hm & Hu & Hl). destruct Hs as [? ?].
  unfold U16_MAX in *. unfold restricted_v6_range, v6_is_loopback, v6_is_multicast, v6_is_unspecified.
  rewrite Hm, Hu, Hl, !orb_true_iff, !andb_true_iff, !bool_decide_eq_true, !Z.leb_le.
  assert (65280 <= s0 <= 65535 <-> 65280 <= s0) as -> by lia. tauto.
Qed.

(** C23. The bit tests decide exactly the published blocks: an IPv4 address is
    restricted iff it lies in one of the twelve CIDR blocks, an IPv4-mapped IPv6
    address iff its embedded IPv4 form does, any other IPv6 address iff it is
    loopback, unspecified, multicast, unique-local or link-local. *)
Theorem is_restricted_ranges ip :
  ip_wf ip ->
  is_restricted ip = true <->
  match canonical ip with
  | V4 v4 => in_restricted_block v4
  | V6 v6 => restricted_v6_range v6
  end.
Proof.
  destruct ip as [v4|v6]; cbn [is_restricted canonical ip_wf]; [apply restricted_v4_spec|].
  intros Hwf. unfold restricted_v6. destruct (to_ipv4_mapped v6) as [v4|] eqn:E.
  - apply restricted_v4_spec. by eapply mapped_wf.
  - destruct v6 as [s0 s1 s2 s3 s4 s5 s6 s7]. cbn [segments] in Hwf.
    apply Forall_cons in Hwf as [Hs _]. by apply restricted_v6_range_spec.
Qed.

Section filter_facts.
Context {N : IpNetLib}.

Lemma ip_allowed_spec ip nets :
  ip_allowed ip nets = true <->
  is_restricted ip = false
  \/ exists net, net ∈ nets /\ (net_contains net ip = true \/ net_contains net (canonical ip) = true).
Proof.
  unfold ip_allowed. destruct (is_restricted ip); cbn [negb]; [|tauto].
  rewrite existsb_bool_elem. setoid_rewrite orb_true_iff. naive_solver.
Qed.

Lemma parse_networks_elem net l :
  net ∈ parse_networks l <-> exists c, c ∈ default [] l /\ IpNetwork_parse c = Some net.
Proof. unfold parse_networks. by rewrite list_elem_of_omap. Qed.

(** Whether an address is restricted depends on its canonical form only. *)
Lemma is_restricted_canonical ip : is_restricted ip = is_restricted (canonical ip).
Proof.
  destruct ip as [v4|v6]; [done|]. cbn. unfold restricted_v6.
  destruct (to_ipv4_mapped v6) eqn:E; [done|]. cbn. unfold restricted_v6. by rewrite E.
Qed.

(** The IPv4-mapped form of an address is admitted whenever the address is,
    and an allowlist that covers neither form refuses both. *)
Theorem ip_allowed_mapped v4 nets :
  Forall is_u8 (octets v4) ->
  (ip_allowed (V4 v4) nets = true -> ip_allowed (V6 (to_ipv6_mapped v4)) nets = true)
  /\ is_restricted (V6 (to_ipv6_mapped v4)) = is_restricted (V4 v4)
  /\ (ip_allowed (V6 (to_ipv6_mapped v4)) nets = true ->
      (forall net, net ∈ nets -> net_contains net (V6 (to_ipv6_mapped v4)) = false) ->
      ip_allowed (V4 v4) nets = true).
Proof.
  intros Hwf.
  assert (canonical (V6 (to_ipv6_mapped v4)) = V4 v4) as Hc
    by (cbn; by rewrite to_ipv4_to_ipv6_mapped).
  assert (is_restricted (V6 (to_ipv6_mapped v4)) = is_restricted (V4 v4)) as Hr
    by (rewrite is_restricted_canonical; by rewrite Hc).
  rewrite !ip_allowed_spec, Hc, Hr. cbn [canonical]. naive_solver congruence.
Qed.
End filter_facts.

(** ** Authority forms *)

Lemma split_plain_port host port :
  ":"%char ∉ host -> head host <> Some "["%char -> is_u16 port ->
  split_host_port (host ++ ":" ++ show port) = (host, Some port).
Proof.
  intros Hh Hb [Hp0 Hp1]. unfold split_host_port.
  assert (strip_prefix "[" (host ++ ":" ++ show port) = None) as ->.
  { destruct host as [|c host]; [done|]. cbn in *. rewrite decide_False; congruence. }
  assert (":"%char ∉ show port) as Hs by (apply show_not_elem; [done|u8_lia]).
  rewrite bool_decide_eq_false_2.
  2:{ rewrite !count_char_app. apply count_char_0 in Hh, Hs. rewrite Hh, Hs. change (count_char ":" ":") with 1%nat. lia. }
  assert (rsplit_once (host ++ ":" ++ show port) ":" = Some (host, show port)) as ->
    by (by apply rsplit_once_Some).
  by rewrite parse_show.
Qed.

Lemma split_plain host :
  ":"%char ∉ host -> head host <> Some "["%char -> split_host_port host = (host, None).
Proof.
  intros Hh Hb. unfold split_host_port.
  assert (strip_prefix "[" host = None) as ->.
  { destruct host as [|c host]; [done|]. cbn in *. rewrite decide_False; congruence. }
  rewrite bool_decide_eq_false_2 by (apply count_char_0 in Hh; rewrite Hh; lia).
  by rewrite (proj2 (rsplit_once_None host ":")).
Qed.

Lemma find_close h r : "]"%char ∉ h -> find_char (h ++ "]" ++ r) "]" = Some (length h).
Proof. intros Hh. apply find_char_Some. by exists h, r. Qed.

Lemma split_bracket_port h port :
  "]"%char ∉ h -> is_u16 port ->
  split_host_port ("[" ++ h ++ "]:" ++ show port) = (h, Some port).
Proof.
  intros Hh Hp. unfold split_host_port. rewrite strip_prefix_app.
  change (h ++ "]:" ++ show port) with (h ++ "]" ++ (":" ++ show port)).
  rewrite find_close by done. rewrite take_app_length. f_equal.
  rewrite drop_app_ge by lia. replace (length h + 1 - length h)%nat with 1%nat by lia.
  cbn [app drop list_ascii_of_string]. cbn [strip_prefix]. rewrite decide_True by done.
  by rewrite parse_show.
Qed.

Lemma split_bracket h : "]"%char ∉ h -> split_host_port ("[" ++ h ++ "]") = (h, None).
Proof.
  intros Hh. unfold split_host_port. rewrite strip_prefix_app.
  rewrite <- (app_nil_r (h ++ "]")), <- app_assoc, find_close by done.
  rewrite take_app_length. f_equal. rewrite drop_app_ge by lia.
  by replace (length h + 1 - length h)%nat with 1%nat by lia.
Qed.

Lemma split_bare_v6 s :
  (1 < count_char s ":")%nat -> head s <> Some "["%char -> split_host_port s = (s, None).
Proof.
  intros Hc Hb. unfold split_host_port.
  assert (strip_prefix "[" s = None) as ->.
  { destruct s as [|c s]; [done|]. cbn in *. rewrite decide_False; congruence. }
  by rewrite bool_decide_eq_true_2.
Qed.

(** Every authority form splits into its host and port: [host:port], [host],
    [[v6]:port], [[v6]], and a bare IPv6 literal is all host. *)
Theorem split_host_port_forms host v6 port :
  ":"%char ∉ host -> head host <> Some "["%char ->
  "]"%char ∉ v6 -> head v6 <> Some "["%char -> (1 < count_char v6 ":")%nat -> is_u16 port ->
  split_host_port (host ++ ":" ++ show port) = (host, Some port)
  /\ split_host_port host = (host, None)
  /\ split_host_port ("[" ++ v6 ++ "]:" ++ show port) = (v6, Some port)
  /\ split_host_port ("[" ++ v6 ++ "]") = (v6, None)
  /\ split_host_port v6 = (v6, None).
Proof.
  intros. split_and!; auto using split_plain_port, split_plain, split_bracket_port,
    split_bracket, split_bare_v6.
Qed.

Section gate.
Context {N : IpNetLib}.

Lemma is_upstream_allowed_literal addr host port ip nets :
  split_host_port addr = (host, port) -> parse_ip host = Some ip ->
  is_upstream_allowed addr nets = Ok tt <-> ip_allowed ip (parse_networks nets) = true.
Proof.
  intros Hs Hp. unfold is_upstream_allowed. rewrite Hs, Hp.
  destruct (ip_allowed ip (parse_networks nets)); cbn; split; congruence.
Qed.

Lemma is_upstream_allowed_name addr host port nets :
  split_host_port addr = (host, port) -> parse_ip host = None ->
  is_upstream_allowed addr nets = Ok tt.
Proof. intros Hs Hp. unfold is_upstream_allowed. by rewrite Hs, Hp. Qed.

Lemma show_ipv4_not c v4 :
  Forall is_u8 (octets v4) -> ~ (48 <= u8 c <= 57) -> c <> "."%char -> c ∉ show_ipv4 v4.
Proof. intros. by apply show_ipv4_not_elem. Qed.

Lemma upstream_allowed_plain v4 port nets :
  Forall is_u8 (octets v4) -> is_u16 port ->
  is_upstream_allowed (show_ipv4 v4 ++ ":" ++ show port) nets = Ok tt
  <-> ip_allowed (V4 v4) (parse_networks nets) = true.
Proof.
  intros Hwf Hp.
  eapply is_upstream_allowed_literal; [apply split_plain_port|by apply parse_show_ipv4]; [..|done].
  - apply show_ipv4_not; [done|u8_lia|done].
  - intros Hhd. assert ("["%char ∈ show_ipv4 v4) as Hin.
    { destruct (show_ipv4 v4); [done|]. injection Hhd as ->. set_solver. }
    revert Hin. apply show_ipv4_not; [done|u8_lia|done].
Qed.

(** The gate on a configured upstream: an IPv4 literal, and its mapped form in
    brackets, with any port, passes exactly when the address itself is admitted
    by the allowlist. *)
Theorem is_upstream_allowed_v4 v4 port nets :
  Forall is_u8 (octets v4) -> is_u16 port ->
  (is_upstream_allowed (show_ipv4 v4 ++ ":" ++ show port) nets = Ok tt
   <-> ip_allowed (V4 v4) (parse_networks nets) = true)
  /\ (is_upstream_allowed ("[" ++ ("::ffff:" ++ show_ipv4 v4) ++ "]:" ++ show port) nets = Ok tt
      <-> ip_allowed (V6 (to_ipv6_mapped v4)) (parse_networks nets) = true).
Proof.
  intros Hwf Hp. split; [by apply upstream_allowed_plain|].
  eapply is_upstream_allowed_literal; [apply split_bracket_port|by apply parse_ip_mapped]; [|done].
  rewrite not_elem_of_app. split; [by vm_decide|]. apply show_ipv4_not; [done|u8_lia|done].
Qed.
End gate.

(** The gate looks for a literal where [split_host_port] sees the host: user
    information before it hides one. *)
Lemma userinfo_gap {N : IpNetLib} : is_upstream_allowed "user@127.0.0.1:80" None = Ok tt.
Proof. vm_compute. reflexivity. Qed.

(** ** The theorems at concrete inputs *)

Lemma is_restricted_ranges_witness :
  is_restricted (V4 (V4Octets 100 64 0 1)) = true <-> in_restricted_block (V4Octets 100 64 0 1).
Proof. apply (is_restricted_ranges (V4 (V4Octets 100 64 0 1))). vm_decide. Defined.

Lemma ip_allowed_mapped_witness :
  is_restricted (V6 (to_ipv6_mapped (V4Octets 127 0 0 1))) = is_restricted (V4 (V4Octets 127 0 0 1)).
Proof. apply (@ip_allowed_mapped cidr_nets (V4Octets 127 0 0 1) []). vm_decide. Defined.

Lemma split_host_port_forms_witness :
  split_host_port ("backend" ++ ":" ++ show 8080) = ("backend" : str, Some 8080)
  /\ split_host_port ("[" ++ "fe80::1" ++ "]:" ++ show 8080) = ("fe80::1" : str, Some 8080).
Proof.
  destruct (split_host_port_forms "backend" "fe80::1" 8080) as (H1 & _ & H3 & _);
    [vm_decide..|].
  split; [exact H1|exact H3].
Defined.

Lemma is_upstream_allowed_v4_witness :
  @is_upstream_allowed cidr_nets (show_ipv4 (V4Octets 10 0 0 1) ++ ":" ++ show 80)
    (Some (strs ["10.0.0.0/8"]%string)) = Ok tt.
Proof.
  apply (@is_upstream_allowed_v4 cidr_nets (V4Octets 10 0 0 1) 80); [vm_decide..|].
  vm_compute. reflexivity.
Defined.
