(* ===== verification/Config.v ===== *)
(** * Configuration schema and start-up validation (src/src/config.rs)

    The records mirror the structs field by field (each field prefixed by its
    struct), the [default_*] functions are the serde defaults, and
    [Config_validate] is the gate that runs before any socket is bound.  What
    the checks consult outside the program (CIDR and regex parsers, the file
    system, the effective uid) is an argument. *)

From S2P Require Import Prelude.
From S2P Require Import Str.
From S2P Require Import Net.
From S2P Require Import Extern.
From S2P Require Import Instances.
From S2P Require Import UpstreamFilter.

(** ** Schema *)

Inductive WorkerProcesses : Type := Auto (s : str) | Count (n : Z).

Record TimeoutSettings : Type := mkTimeouts {
  ts_idle : Z;
  ts_request : Z;
  ts_keepalive : Z;
  ts_proxy_read : Z;
}.

Record GlobalSettings : Type := mkGlobal {
  gs_worker_processes : WorkerProcesses;
  gs_error_log : str;
  gs_pid_file : option str;
  gs_user : option str;
  gs_timeouts : option TimeoutSettings;
}.

Record ListenDirective : Type := mkListen {
  ld_port : Z;
  ld_protocol : str;
  ld_address : option str;
}.

Record WebhookConfig : Type := mkWebhook {
  wh_url : str;
  wh_timeout : Z;
  wh_auth_header : option str;
}.

Record EabConfig : Type := mkEab { eab_kid : str; eab_hmac_key : str }.

Record AcmeConfig : Type := mkAcme {
  ac_enabled : bool;
  ac_email : str;
  ac_ca_endpoint : str;
  ac_staging : bool;
  ac_domains : list str;
  ac_challenge_types : list str;
  ac_dns_webhook : option WebhookConfig;
  ac_eab : option EabConfig;
  ac_renewal_window : Z;
  ac_http_challenge_port : option Z;
  ac_agree_tos : bool;
  ac_ca_root : option str;
  ac_cert_dir : str;
  ac_renewal_check_interval_secs : option Z;
}.

Record SslSettings : Type := mkSsl {
  ssl_certificate : option str;
  ssl_certificate_key : option str;
  ssl_acme : option AcmeConfig;
  ssl_protocols : list str;
}.

Record UpstreamServer : Type := mkServer { us_address : str; us_weight : Z }.

Record UpstreamRef : Type := mkUpstream {
  ur_name : str;
  ur_servers : list UpstreamServer;
  ur_strategy : str;
}.

Record Handler : Type := mkHandler {
  h_type : str;
  h_root : option str;
  h_upstream : option UpstreamRef;
  h_target : option str;
  h_status : option Z;
  h_ab_split : option str;
}.

Record Location : Type := mkLocation {
  loc_pattern : str;
  loc_match_type : str;
  loc_handler : Handler;
}.

Record RewriteRule : Type := mkRewrite { rw_pattern : str; rw_replacement : str; rw_flag : str }.

Record AbGroup : Type := mkAbGroup { ag_name : str; ag_upstream : str; ag_weight : Z }.

Record AbSplit : Type := mkAbSplit { ab_name : str; ab_sticky : bool; ab_groups : list AbGroup }.

Record ResetRateLimit : Type := mkResetRate { rr_count : Z; rr_window_seconds : Z }.

Record StreamBlock : Type := mkStream {
  sb_listen : ListenDirective;
  sb_upstream : UpstreamRef;
  sb_ssl : option SslSettings;
}.

Record MailBlock : Type := mkMail {
  mb_listen : list ListenDirective;
  mb_protocol : str;
  mb_upstream : UpstreamRef;
  mb_ssl : option SslSettings;
  mb_auth_required : bool;
  mb_max_line_length : option Z;
}.

Record HttpBlock : Type := mkHttp {
  hb_listen : list ListenDirective;
  hb_server_name : list str;
  hb_root : option str;
  hb_ssl : option SslSettings;
  hb_http2 : bool;
  hb_http3 : bool;
  hb_locations : list Location;
  hb_rewrites : list RewriteRule;
  hb_geoip_db : option str;
  hb_ab_splits : list AbSplit;
  hb_access_log : str;
  hb_max_header_size : option Z;
  hb_max_body_size : option Z;
  hb_reject_ambiguous_framing : bool;
  hb_normalize_headers_before_proxy : bool;
  hb_http2_max_reset_rate : option ResetRateLimit;
  hb_http3_max_dynamic_table_size : option Z;
  hb_host_header_policy : str;
  hb_allowed_hosts : option (list str);
  hb_reject_headers_with_control_chars : bool;
  hb_allow_connect : bool;
  hb_connect_upstream : option UpstreamRef;
  hb_connect_allowed_targets : option (list str);
  hb_trusted_proxies : option (list str);
  hb_upstream_allowed_networks : option (list str);
  hb_max_header_count : option Z;
  hb_max_decompression_ratio : option Z;
  hb_max_decompression_size : option Z;
  hb_upstreams : list UpstreamRef;
  hb_dns_cache_ttl_seconds : option Z;
  hb_hsts_max_age : option Z;
  hb_max_upstream_response_size : option Z;
}.

Record Config : Type := mkConfig {
  cfg_global : GlobalSettings;
  cfg_http : list HttpBlock;
  cfg_stream : list StreamBlock;
  cfg_mail : option MailBlock;
}.

(** ** Defaults *)

Definition default_worker_processes : WorkerProcesses := Auto "auto".
Definition default_error_log : str := "./logs/error.log".
Definition default_idle_timeout : Z := 75.
Definition default_request_timeout : Z := 30.
Definition default_keepalive_timeout : Z := 75.
Definition default_proxy_read_timeout : Z := 60.
Definition TimeoutSettings_default : TimeoutSettings :=
  mkTimeouts default_idle_timeout default_request_timeout default_keepalive_timeout
    default_proxy_read_timeout.
Definition default_strict : str := "strict".
Definition default_access_log : str := "./logs/access.log".
Definition default_tcp : str := "tcp".
Definition default_tls_protocols : list str := strs ["TLSv1.2"; "TLSv1.3"]%string.
Definition default_acme_cert_dir : str := "./acme".
Definition default_acme_endpoint : str := "https://acme-v02.api.letsencrypt.org/directory".
Definition default_challenge_types : list str := strs ["http-01"; "tls-alpn-01"]%string.
Definition default_renewal_window : Z := 30.
Definition default_webhook_timeout : Z := 30.
Definition default_prefix : str := "prefix".
Definition default_break : str := "break".
Definition default_round_robin : str := "round-robin".
Definition default_weight : Z := 1.

(** A block with only its listeners, every other field at its serde default. *)
Definition HttpBlock_default (listen : list ListenDirective) : HttpBlock :=
  {| hb_listen := listen; hb_server_name := []; hb_root := None; hb_ssl := None;
     hb_http2 := true; hb_http3 := false; hb_locations := []; hb_rewrites := [];
     hb_geoip_db := None; hb_ab_splits := []; hb_access_log := default_access_log;
     hb_max_header_size := None; hb_max_body_size := None;
     hb_reject_ambiguous_framing := true; hb_normalize_headers_before_proxy := true;
     hb_http2_max_reset_rate := None; hb_http3_max_dynamic_table_size := None;
     hb_host_header_policy := default_strict; hb_allowed_hosts := None;
     hb_reject_headers_with_control_chars := true; hb_allow_connect := false;
     hb_connect_upstream := None; hb_connect_allowed_targets := None;
     hb_trusted_proxies := None; hb_upstream_allowed_networks := None;
     hb_max_header_count := None; hb_max_decompression_ratio := None;
     hb_max_decompression_size := None; hb_upstreams := [];
     hb_dns_cache_ttl_seconds := None; hb_hsts_max_age := None;
     hb_max_upstream_response_size := None |}.

(** ** Errors of validation, one per [bail!] or [with_context] *)

Inductive ConfigError : Type :=
  | AbWeights (split : str) (total : Z)
  | AbUnknownUpstream (split group upstream : str)
  | BadListenAddress (addr : str)
  | UnknownStrategy (upstream strategy : str)
  | ZeroWeight (upstream server : str)
  | BadLocationRegex (pattern : str)
  | UnknownMatchType (mt : str)
  | UnknownAbSplit (pattern split : str)
  | NoUpstreamServers (pattern : str)
  | BadRewritePattern (pattern : str)
  | UnknownFlag (pattern flag : str)
  | BadTrustedCidr (cidr : str)
  | EmptyConnectTarget
  | BadHostPolicy (policy : str)
  | ListPolicyNeedsHosts
  | BadAllowedCidr (cidr : str)
  | UpstreamRefused (upstream server : str)
  | ProhibitedTls (proto : str)
  | UnsupportedTls (proto : str)
  | AcmeNoEmail
  | AcmeNoTos
  | AcmeDomain (domain : str)
  | AcmeStagingProd
  | AcmePrivilegedPort (port : Z)
  | SecretMissing (what path : str)
  | SecretNotFile (what path : str)
  | SecretPerms (what path : str) (perms : Z)
  | AcmeEmptyKid
  | AcmeCaRootMissing (path : str)
  | AcmeNoWebhook
  | CertMissing (path : str)
  | KeyMissing (path : str)
  | ConnectWithoutUpstream
  | StreamPort (i : nat) (port : Z)
  | StreamNoName (i : nat)
  | StreamNoServers (i : nat) (name : str)
  | StreamAddress (i : nat) (addr : str)
  | MailPort (port : Z)
  | MailNoName
  | ReadFailed (path : str)
  | JsonFailed
  | TomlFailed.

(** ** What validation reads outside the program *)

(** [fs::metadata]: whether the path is a regular file, and its mode bits. *)
Record Metadata : Type := mkMetadata { md_is_file : bool; md_mode : Z }.

Record Env : Type := mkEnv {
  env_exists : str -> bool;                       (* Path::exists *)
  env_metadata : str -> option Metadata;          (* fs::metadata *)
  env_euid_root : bool;                           (* nix::unistd::Uid::effective().is_root() *)
  env_read_to_string : str -> option str;         (* fs::read_to_string *)
  env_json : str -> option Config;                (* serde_json::from_str *)
  env_toml : str -> option Config;                (* toml::from_str *)
}.

(** [ensure b e]: one [if !b { bail!(e) }]. *)
Definition ensure (b : bool) (e : ConfigError) : res ConfigError unit :=
  if b then Ok tt else Err e.

(** A [str] matched against literals. *)
Definition one_of (s : str) (l : list string) : bool := bool_decide (s ∈ strs l).

Definition opt_each {A} (f : A -> res ConfigError unit) (o : option A) : res ConfigError unit :=
  match o with Some x => f x | None => Ok tt end.

Definition matches_wildcard (pattern domain : str) : bool :=
  if starts_with pattern "*." then
    ends_with domain (drop 1 pattern) || bool_decide (domain = drop 2 pattern)
  else bool_decide (pattern = domain).

Section validate.
Context {U : Unicode} {N : IpNetLib} {R : RegexLib}.
Variable E : Env.

Definition ab_total_weight (s : AbSplit) : Z := wrap32 (sum_Z (map ag_weight (ab_groups s))).

Definition validate_ab_split (hb : HttpBlock) (s : AbSplit) : res ConfigError unit :=
  let? _ := ensure (ab_total_weight s =? 100) (AbWeights (ab_name s) (ab_total_weight s)) in
  for_each (fun g =>
    ensure (existsb (fun u => bool_decide (ur_name u = ag_upstream g)) (hb_upstreams hb))
      (AbUnknownUpstream (ab_name s) (ag_name g) (ag_upstream g))) (ab_groups s).

Definition validate_listen (ld : ListenDirective) : res ConfigError unit :=
  opt_each (fun addr => ensure (bool_decide (is_Some (parse_ip addr))) (BadListenAddress addr))
    (ld_address ld).

Definition check_upstream (u : UpstreamRef) : res ConfigError unit :=
  let? _ := ensure (one_of (ur_strategy u) ["round-robin"; "least-conn"; "ip-hash"]%string)
              (UnknownStrategy (ur_name u) (ur_strategy u)) in
  for_each (fun s => ensure (negb (us_weight s =? 0)) (ZeroWeight (ur_name u) (us_address s)))
    (ur_servers u).

Definition has_servers (u : option UpstreamRef) : bool :=
  match u with Some u => negb (bool_decide (ur_servers u = [])) | None => false end.

Definition validate_location (hb : HttpBlock) (l : Location) : res ConfigError unit :=
  let? _ :=
    if one_of (loc_match_type l) ["exact"; "prefix"]%string then Ok tt
    else if bool_decide (loc_match_type l = "regex") then
      ensure (bool_decide (is_Some (Regex_new (loc_pattern l)))) (BadLocationRegex (loc_pattern l))
    else Err (UnknownMatchType (loc_match_type l)) in
  let h := loc_handler l in
  if one_of (h_type h) ["proxy"; "reverse_proxy"]%string then
    match h_ab_split h with
    | Some split_name =>
        ensure (existsb (fun s => bool_decide (ab_name s = split_name)) (hb_ab_splits hb))
          (UnknownAbSplit (loc_pattern l) split_name)
    | None =>
        ensure (has_servers (h_upstream h) || has_servers (head (hb_upstreams hb)))
          (NoUpstreamServers (loc_pattern l))
    end
  else Ok tt.

Definition validate_rewrite (r : RewriteRule) : res ConfigError unit :=
  let? _ := ensure (bool_decide (is_Some (Regex_new (rw_pattern r)))) (BadRewritePattern (rw_pattern r)) in
  ensure (one_of (rw_flag r) ["break"; "last"; "redirect"; "permanent"]%string)
    (UnknownFlag (rw_pattern r) (rw_flag r)).

Definition validate_cidrs (err : str -> ConfigError) (l : option (list str)) : res ConfigError unit :=
  opt_each (for_each (fun c => ensure (bool_decide (is_Some (IpNetwork_parse c))) (err c))) l.

Definition validate_connect_targets (l : option (list str)) : res ConfigError unit :=
  opt_each (for_each (fun t => ensure (negb (bool_decide (trim t = []))) EmptyConnectTarget)) l.

Definition validate_host_policy (hb : HttpBlock) : res ConfigError unit :=
  let? _ := ensure (one_of (hb_host_header_policy hb) ["strict"; "any"; "list"]%string)
              (BadHostPolicy (hb_host_header_policy hb)) in
  ensure (negb (bool_decide (hb_host_header_policy hb = "list")
                && bool_decide (default [] (hb_allowed_hosts hb) = [])
                && bool_decide (hb_server_name hb = [])))
    ListPolicyNeedsHosts.

(** The address gate applied when a configuration is loaded; narrower than
    [UpstreamFilter.is_upstream_allowed], which runs when an upstream is used. *)
Definition load_time_private (ip : IpAddr) : bool :=
  match ip with
  | V4 v4 => v4_is_private v4 || v4_is_loopback v4 || v4_is_link_local v4 || v4_is_multicast v4
  | V6 v6 => v6_is_loopback v6 || v6_is_multicast v6
  end.

Definition validate_upstream_address (addr : str) (allowed_networks : option (list str)) : bool :=
  let host := match rsplit_once addr ":" with Some (host, _) => host | None => addr end in
  match parse_ip host with
  | Some ip =>
      if load_time_private ip then
        match allowed_networks with
        | Some networks =>
            existsb (fun cidr => match IpNetwork_parse cidr with
                                 | Some net => net_contains net ip
                                 | None => false
                                 end) networks
        | None => false
        end
      else true
  | None => true
  end.

Definition validate_upstream_addresses (hb : HttpBlock) : res ConfigError unit :=
  for_each (fun u => for_each (fun s =>
    ensure (validate_upstream_address (us_address s) (hb_upstream_allowed_networks hb))
      (UpstreamRefused (ur_name u) (us_address s))) (ur_servers u)) (hb_upstreams hb).

Definition validate_tls_protocol (proto : str) : res ConfigError unit :=
  let p := to_uppercase proto in
  if one_of p ["TLSV1.2"; "TLSV1.3"]%string then Ok tt
  else if one_of p ["SSLV3"; "TLSV1.0"; "TLSV1.1"]%string then Err (ProhibitedTls proto)
  else Err (UnsupportedTls proto).

Definition check_secret_file (path what : str) : res ConfigError unit :=
  match env_metadata E path with
  | None => Err (SecretMissing what path)
  | Some meta =>
      if negb (md_is_file meta) then Err (SecretNotFile what path)
      else let perms := Z.land (md_mode meta) 511 in
           if negb (Z.land perms 63 =? 0) then Err (SecretPerms what path perms) else Ok tt
  end.

Definition validate_acme (hb : HttpBlock) (acme : AcmeConfig) : res ConfigError unit :=
  if negb (ac_enabled acme) then Ok tt else
  guard! negb (bool_decide (ac_email acme = [])) else AcmeNoEmail;
  guard! ac_agree_tos acme else AcmeNoTos;
  let? _ := for_each (fun domain =>
    ensure (existsb (fun s => bool_decide (s = domain) || matches_wildcard s domain) (hb_server_name hb))
      (AcmeDomain domain)) (ac_domains acme) in
  guard! negb (ac_staging acme
               && contains (ac_ca_endpoint acme) "acme-v02.api.letsencrypt.org"
               && negb (contains (ac_ca_endpoint acme) "staging")) else AcmeStagingProd;
  let challenge_port := default 80 (ac_http_challenge_port acme) in
  guard! negb ((challenge_port <? 1024) && negb (env_euid_root E))
    else AcmePrivilegedPort challenge_port;
  let? _ := opt_each (fun webhook =>
    opt_each (fun p => check_secret_file p "dns_webhook.auth_header") (wh_auth_header webhook))
    (ac_dns_webhook acme) in
  let? _ := opt_each (fun eab =>
    guard! negb (bool_decide (eab_kid eab = [])) else AcmeEmptyKid;
    check_secret_file (eab_hmac_key eab) "eab.hmac_key") (ac_eab acme) in
  let? _ := opt_each (fun ca => ensure (env_exists E ca) (AcmeCaRootMissing ca)) (ac_ca_root acme) in
  ensure (negb (existsb (fun c : str => bool_decide (c = "dns-01")) (ac_challenge_types acme)
                && bool_decide (ac_dns_webhook acme = None))) AcmeNoWebhook.

Definition validate_ssl (hb : HttpBlock) (ssl : SslSettings) : res ConfigError unit :=
  let? _ := for_each validate_tls_protocol (ssl_protocols ssl) in
  let? _ := opt_each (validate_acme hb) (ssl_acme ssl) in
  let? _ := opt_each (fun c => ensure (env_exists E c) (CertMissing c)) (ssl_certificate ssl) in
  opt_each (fun k => ensure (env_exists E k) (KeyMissing k)) (ssl_certificate_key ssl).

(** One iteration of the loop over the HTTP blocks. *)
Definition validate_http (hb : HttpBlock) : res ConfigError unit :=
  let? _ := for_each (validate_ab_split hb) (hb_ab_splits hb) in
  let? _ := for_each validate_listen (hb_listen hb) in
  let? _ := for_each check_upstream (hb_upstreams hb) in
  let? _ := for_each (fun l => opt_each check_upstream (h_upstream (loc_handler l))) (hb_locations hb) in
  let? _ := opt_each check_upstream (hb_connect_upstream hb) in
  let? _ := for_each (validate_location hb) (hb_locations hb) in
  let? _ := for_each validate_rewrite (hb_rewrites hb) in
  let? _ := validate_cidrs BadTrustedCidr (hb_trusted_proxies hb) in
  let? _ := validate_connect_targets (hb_connect_allowed_targets hb) in
  let? _ := validate_host_policy hb in
  let? _ := validate_cidrs BadAllowedCidr (hb_upstream_allowed_networks hb) in
  let? _ := validate_upstream_addresses hb in
  let? _ := opt_each (validate_ssl hb) (hb_ssl hb) in
  ensure (negb (hb_allow_connect hb && bool_decide (hb_connect_upstream hb = None)))
    ConnectWithoutUpstream.

Definition validate_stream (p : nat * StreamBlock) : res ConfigError unit :=
  let '(i, sb) := p in
  guard! negb (ld_port (sb_listen sb) <? 1) else StreamPort i (ld_port (sb_listen sb));
  guard! negb (bool_decide (ur_name (sb_upstream sb) = [])) else StreamNoName i;
  guard! negb (bool_decide (ur_servers (sb_upstream sb) = []))
    else StreamNoServers i (ur_name (sb_upstream sb));
  opt_each (fun addr => ensure (bool_decide (is_Some (parse_ip addr))) (StreamAddress i addr))
    (ld_address (sb_listen sb)).

Definition validate_mail (mail : MailBlock) : res ConfigError unit :=
  let? _ := for_each (fun ld => ensure (negb (ld_port ld <? 1)) (MailPort (ld_port ld)))
              (mb_listen mail) in
  ensure (negb (bool_decide (ur_name (mb_upstream mail) = []))) MailNoName.

Definition Config_validate (c : Config) : res ConfigError unit :=
  let? _ := for_each validate_http (cfg_http c) in
  let? _ := for_each validate_stream (imap pair (cfg_stream c)) in
  opt_each validate_mail (cfg_mail c).

(** [Config::load]. *)
Definition Config_load (path : str) : res ConfigError Config :=
  let? content := ok_or (env_read_to_string E path) (ReadFailed path) in
  let trimmed := trim content in
  if starts_with trimmed "{" then
    let? config := ok_or (env_json E trimmed) JsonFailed in
    let? _ := Config_validate config in
    Ok config
  else
    let? config := ok_or (env_toml E content) TomlFailed in
    let? _ := Config_validate config in
    Ok config.
End validate.

(** [resolve_upstream]: a shared pool by name. *)
Definition resolve_upstream (hb : HttpBlock) (name : str) : option UpstreamRef :=
  find_first (fun u => bool_decide (ur_name u = name)) (hb_upstreams hb).

(** ** What a validated configuration satisfies *)

Section spec.
Context {U : Unicode} {N : IpNetLib} {R : RegexLib}.
Variable E : Env.

Definition wf_split (hb : HttpBlock) (s : AbSplit) : Prop :=
  sum_Z (map ag_weight (ab_groups s)) mod 2 ^ 32 = 100
  /\ (forall g, g ∈ ab_groups s -> exists u, u ∈ hb_upstreams hb /\ ur_name u = ag_upstream g).

Definition wf_address (addr : option str) : Prop :=
  forall a, addr = Some a -> is_Some (parse_ip a).

Definition wf_pool (u : UpstreamRef) : Prop :=
  ur_strategy u ∈ strs ["round-robin"; "least-conn"; "ip-hash"]%string
  /\ (forall s, s ∈ ur_servers u -> us_weight s <> 0).

(** Every pool an HTTP block can send traffic to. *)
Inductive pool_of (hb : HttpBlock) : UpstreamRef -> Prop :=
  | pool_shared u : u ∈ hb_upstreams hb -> pool_of hb u
  | pool_inline l u : l ∈ hb_locations hb -> h_upstream (loc_handler l) = Some u -> pool_of hb u
  | pool_connect u : hb_connect_upstream hb = Some u -> pool_of hb u.

Definition has_server (u : option UpstreamRef) : Prop :=
  exists r, u = Some r /\ ur_servers r <> [].

Definition wf_location (hb : HttpBlock) (l : Location) : Prop :=
  let h := loc_handler l in
  (loc_match_type l ∈ strs ["exact"; "prefix"]%string
   \/ loc_match_type l = "regex" /\ is_Some (Regex_new (loc_pattern l)))
  /\ (h_type h ∈ strs ["proxy"; "reverse_proxy"]%string ->
      (forall n, h_ab_split h = Some n -> exists s, s ∈ hb_ab_splits hb /\ ab_name s = n)
      /\ (h_ab_split h = None ->
          has_server (h_upstream h) \/ has_server (head (hb_upstreams hb)))).

Definition wf_rewrite (r : RewriteRule) : Prop :=
  is_Some (Regex_new (rw_pattern r))
  /\ rw_flag r ∈ strs ["break"; "last"; "redirect"; "permanent"]%string.

Definition wf_cidrs (l : option (list str)) : Prop :=
  forall cs c, l = Some cs -> c ∈ cs -> is_Some (IpNetwork_parse c).

Definition wf_host_policy (hb : HttpBlock) : Prop :=
  hb_host_header_policy hb ∈ strs ["strict"; "any"; "list"]%string
  /\ (hb_host_header_policy hb = "list" ->
      default [] (hb_allowed_hosts hb) <> [] \/ hb_server_name hb <> []).

(** A secret file: regular, none of the six group and other mode bits set. *)
Definition secret_file (path : str) : Prop :=
  exists m, env_metadata E path = Some m /\ md_is_file m = true
    /\ (forall i, 0 <= i < 6 -> Z.testbit (md_mode m) i = false).

Definition wf_acme (hb : HttpBlock) (a : AcmeConfig) : Prop :=
  ac_enabled a = true ->
  ac_email a <> [] /\ ac_agree_tos a = true
  /\ (forall d, d ∈ ac_domains a ->
        exists s, s ∈ hb_server_name hb /\ (s = d \/ matches_wildcard s d = true))
  /\ (ac_staging a = true -> contains (ac_ca_endpoint a) "acme-v02.api.letsencrypt.org" = true ->
      contains (ac_ca_endpoint a) "staging" = true)
  /\ (default 80 (ac_http_challenge_port a) < 1024 -> env_euid_root E = true)
  /\ (forall w p, ac_dns_webhook a = Some w -> wh_auth_header w = Some p -> secret_file p)
  /\ (forall eab, ac_eab a = Some eab -> eab_kid eab <> [] /\ secret_file (eab_hmac_key eab))
  /\ (forall ca, ac_ca_root a = Some ca -> env_exists E ca = true)
  /\ ((("dns-01" : str) ∈ ac_challenge_types a) -> ac_dns_webhook a <> None).

Definition wf_ssl (hb : HttpBlock) (s : SslSettings) : Prop :=
  (forall p, p ∈ ssl_protocols s -> to_uppercase p ∈ strs ["TLSV1.2"; "TLSV1.3"]%string)
  /\ (forall a, ssl_acme s = Some a -> wf_acme hb a)
  /\ (forall c, ssl_certificate s = Some c -> env_exists E c = true)
  /\ (forall k, ssl_certificate_key s = Some k -> env_exists E k = true).

Definition wf_http (hb : HttpBlock) : Prop :=
  (forall s, s ∈ hb_ab_splits hb -> wf_split hb s)
  /\ (forall ld, ld ∈ hb_listen hb -> wf_address (ld_address ld))
  /\ (forall u, pool_of hb u -> wf_pool u)
  /\ (forall l, l ∈ hb_locations hb -> wf_location hb l)
  /\ (forall r, r ∈ hb_rewrites hb -> wf_rewrite r)
  /\ wf_cidrs (hb_trusted_proxies hb)
  /\ (forall ts t, hb_connect_allowed_targets hb = Some ts -> t ∈ ts -> trim t <> [])
  /\ wf_host_policy hb
  /\ wf_cidrs (hb_upstream_allowed_networks hb)
  /\ (forall u s, u ∈ hb_upstreams hb -> s ∈ ur_servers u ->
        validate_upstream_address (us_address s) (hb_upstream_allowed_networks hb) = true)
  /\ (forall ssl, hb_ssl hb = Some ssl -> wf_ssl hb ssl)
  /\ (hb_allow_connect hb = true -> hb_connect_upstream hb <> None).

Definition wf_config (c : Config) : Prop :=
  (forall hb, hb ∈ cfg_http c -> wf_http hb)
  /\ (forall i sb, cfg_stream c !! i = Some sb ->
        1 <= ld_port (sb_listen sb) /\ ur_name (sb_upstream sb) <> []
        /\ ur_servers (sb_upstream sb) <> [] /\ wf_address (ld_address (sb_listen sb)))
  /\ (forall m, cfg_mail c = Some m ->
        (forall ld, ld ∈ mb_listen m -> 1 <= ld_port ld) /\ ur_name (mb_upstream m) <> []).
End spec.

(** ** Lemmas: the combinators as propositions *)

Lemma ensure_ok b e : ensure b e = Ok tt <-> b = true.
Proof. by destruct b. Qed.

Lemma bail_ok (b : bool) e (k : res ConfigError unit) :
  (if b then k else Err e) = Ok tt <-> b = true /\ k = Ok tt.
Proof. destruct b; naive_solver. Qed.

Lemma seq_ok (m k : res ConfigError unit) :
  (let? _ := m in k) = Ok tt <-> m = Ok tt /\ k = Ok tt.
Proof. destruct m as [[]| |]; cbn; naive_solver. Qed.

Lemma opt_each_ok {A} (f : A -> res ConfigError unit) o :
  opt_each f o = Ok tt <-> forall x, o = Some x -> f x = Ok tt.
Proof. destruct o; naive_solver. Qed.

Lemma each_ok {A} (f : A -> res ConfigError unit) l :
  for_each f l = Ok tt <-> forall x, x ∈ l -> f x = Ok tt.
Proof. by rewrite for_each_ok, Forall_forall. Qed.

Lemma one_of_spec s l : one_of s l = true <-> s ∈ strs l.
Proof. apply bool_decide_eq_true. Qed.

Lemma exists_named {A} (f : A -> str) l n :
  existsb (fun x => bool_decide (f x = n)) l = true <-> exists x, x ∈ l /\ f x = n.
Proof. rewrite existsb_bool_elem. by setoid_rewrite bool_decide_eq_true. Qed.

Lemma named_or_wildcard l d :
  existsb (fun s => bool_decide (s = d) || matches_wildcard s d) l = true
  <-> exists s, s ∈ l /\ (s = d \/ matches_wildcard s d = true).
Proof.
  rewrite existsb_bool_elem. setoid_rewrite orb_true_iff. by setoid_rewrite bool_decide_eq_true.
Qed.

Lemma low_bits_zero m :
  Z.land (Z.land m 511) 63 = 0 <-> forall i, 0 <= i < 6 -> Z.testbit m i = false.
Proof.
  rewrite <- Z.land_assoc. change (Z.land 511 63) with (Z.ones 6). split.
  - intros H i Hi. assert (Z.testbit (Z.land m (Z.ones 6)) i = false) as Hb
      by (rewrite H; apply Z.bits_0).
    rewrite Z.land_spec, Z.ones_spec_low in Hb by lia. by rewrite andb_true_r in Hb.
  - intros H. apply Z.bits_inj'. intros i Hi. rewrite Z.land_spec, Z.bits_0.
    destruct (decide (i < 6)); [rewrite H by lia; done|].
    rewrite Z.ones_spec_high by lia. apply andb_false_r.
Qed.

Lemma listen_ok addr e :
  opt_each (fun a => ensure (bool_decide (is_Some (parse_ip a))) (e a)) addr = Ok tt
  <-> wf_address addr.
Proof.
  rewrite opt_each_ok. unfold wf_address. setoid_rewrite ensure_ok.
  by setoid_rewrite bool_decide_eq_true.
Qed.

Lemma check_upstream_ok u : check_upstream u = Ok tt <-> wf_pool u.
Proof.
  unfold check_upstream, wf_pool. rewrite seq_ok, ensure_ok, one_of_spec, each_ok.
  setoid_rewrite ensure_ok. setoid_rewrite negb_true_iff. by setoid_rewrite Z.eqb_neq.
Qed.

Lemma ab_split_ok hb s : validate_ab_split hb s = Ok tt <-> wf_split hb s.
Proof.
  unfold validate_ab_split, wf_split. rewrite seq_ok, ensure_ok, Z.eqb_eq, each_ok.
  setoid_rewrite ensure_ok. by setoid_rewrite exists_named.
Qed.

Lemma has_servers_spec u : has_servers u = true <-> has_server u.
Proof.
  unfold has_server. destruct u as [r|]; cbn.
  - rewrite negb_true_iff, bool_decide_eq_false. naive_solver.
  - naive_solver.
Qed.

Lemma pools_ok hb :
  (for_each check_upstream (hb_upstreams hb) = Ok tt
   /\ for_each (fun l => opt_each check_upstream (h_upstream (loc_handler l))) (hb_locations hb) = Ok tt
   /\ opt_each check_upstream (hb_connect_upstream hb) = Ok tt)
  <-> forall u, pool_of hb u -> wf_pool u.
Proof.
  rewrite !each_ok, opt_each_ok. setoid_rewrite opt_each_ok. setoid_rewrite check_upstream_ok. split.
  - intros (Hs & Hi & Hc) u [?|??? ?|?]; eauto.
  - intros H. split_and!; intros; apply H; [by apply pool_shared|by eapply pool_inline|by apply pool_connect].
Qed.

Section parts.
Context {U : Unicode} {N : IpNetLib} {R : RegexLib}.
Variable E : Env.

Lemma location_ok hb l : validate_location hb l = Ok tt <-> wf_location hb l.
Proof.
  unfold validate_location, wf_location. rewrite seq_ok. apply Morphisms_Prop.and_iff_morphism.
  - destruct (one_of _ _) eqn:E1.
    + apply one_of_spec in E1. naive_solver.
    + assert (loc_match_type l ∉ strs ["exact"; "prefix"]%string)
        by (intros Hin; apply one_of_spec in Hin; congruence).
      case_bool_decide; [rewrite ensure_ok, bool_decide_eq_true|]; naive_solver.
  - destruct (one_of (h_type _) _) eqn:E1.
    + apply one_of_spec in E1. destruct (h_ab_split _) as [n|].
      * rewrite ensure_ok, exists_named. naive_solver.
      * rewrite ensure_ok, orb_true_iff, !has_servers_spec. naive_solver.
    + split; [|done]. intros _ Hin. apply one_of_spec in Hin. congruence.
Qed.

Lemma rewrite_ok r : validate_rewrite r = Ok tt <-> wf_rewrite r.
Proof.
  unfold validate_rewrite, wf_rewrite.
  by rewrite seq_ok, !ensure_ok, bool_decide_eq_true, one_of_spec.
Qed.

Lemma cidrs_ok e l : validate_cidrs e l = Ok tt <-> wf_cidrs l.
Proof.
  unfold validate_cidrs, wf_cidrs. rewrite opt_each_ok. setoid_rewrite each_ok.
  setoid_rewrite ensure_ok. setoid_rewrite bool_decide_eq_true. naive_solver.
Qed.

Lemma connect_targets_ok l :
  validate_connect_targets l = Ok tt
  <-> forall ts t, l = Some ts -> t ∈ ts -> trim t <> [].
Proof.
  unfold validate_connect_targets. rewrite opt_each_ok. setoid_rewrite each_ok.
  setoid_rewrite ensure_ok. setoid_rewrite negb_true_iff. setoid_rewrite bool_decide_eq_false.
  naive_solver.
Qed.

Lemma host_policy_ok hb : validate_host_policy hb = Ok tt <-> wf_host_policy hb.
Proof.
  unfold validate_host_policy, wf_host_policy. rewrite seq_ok, !ensure_ok, one_of_spec.
  rewrite negb_true_iff, !andb_false_iff, !bool_decide_eq_false.
  destruct (decide (hb_host_header_policy hb = "list")), (decide (default [] (hb_allowed_hosts hb) = []));
    naive_solver.
Qed.

Lemma addresses_ok hb :
  validate_upstream_addresses hb = Ok tt
  <-> forall u s, u ∈ hb_upstreams hb -> s ∈ ur_servers u ->
        validate_upstream_address (us_address s) (hb_upstream_allowed_networks hb) = true.
Proof.
  unfold validate_upstream_addresses. rewrite each_ok. setoid_rewrite each_ok.
  setoid_rewrite ensure_ok. naive_solver.
Qed.

Lemma check_secret_file_ok path what : check_secret_file E path what = Ok tt <-> secret_file E path.
Proof.
  unfold check_secret_file, secret_file. destruct (env_metadata E path) as [m|]; [|naive_solver].
  setoid_rewrite <- low_bits_zero.
  destruct (md_is_file m) eqn:Ef; cbn [negb].
  2:{ split; [done|]. intros (m' & [= <-] & Hf & _). congruence. }
  destruct (Z.land (Z.land (md_mode m) 511) 63 =? 0) eqn:Ez; cbn [negb]; b2p.
  - split; [eauto|done].
  - split; [done|]. intros (m' & [= <-] & _ & Hz). by destruct Ez.
Qed.

Lemma tls_protocol_ok p :
  validate_tls_protocol p = Ok tt <-> to_uppercase p ∈ strs ["TLSV1.2"; "TLSV1.3"]%string.
Proof.
  unfold validate_tls_protocol. rewrite <- one_of_spec.
  destruct (one_of _ ["TLSV1.2"; _]%string); [done|]. by destruct (one_of _ _).
Qed.

Lemma acme_ok hb a : validate_acme E hb a = Ok tt <-> wf_acme E hb a.
Proof.
  unfold validate_acme, wf_acme. destruct (ac_enabled a); cbn [negb]; [|naive_solver].
  cbv zeta.
  repeat (rewrite bail_ok || rewrite seq_ok).
  rewrite !each_ok, !opt_each_ok, !ensure_ok.
  setoid_rewrite opt_each_ok. setoid_rewrite ensure_ok. setoid_rewrite bail_ok.
  setoid_rewrite check_secret_file_ok. setoid_rewrite named_or_wildcard.
  setoid_rewrite negb_true_iff. setoid_rewrite bool_decide_eq_false.
  rewrite !andb_false_iff, !negb_false_iff, !bool_decide_eq_false, Z.ltb_ge.
  rewrite (existsb_false_Forall _ (ac_challenge_types a)), Forall_forall.
  setoid_rewrite bool_decide_eq_false.
  split.
  - intros (? & ? & ? & Hst & Hport & ? & ? & ? & Hdns). intros _. split_and!; try done.
    + intros. destruct Hst as [[?|?]|?]; congruence.
    + intros. destruct Hport; [lia|done].
    + naive_solver.
    + intros Hin ?. destruct Hdns as [Hd|?]; [by eapply Hd|done].
  - intros H. destruct (H eq_refl) as (? & ? & ? & Hst & Hport & ? & ? & ? & Hdns). split_and!; try done.
    + destruct (ac_staging a), (contains _ "acme-v02.api.letsencrypt.org"); auto.
    + destruct (decide (default 80 (ac_http_challenge_port a) < 1024)); [auto|left; lia].
    + naive_solver.
    + destruct (decide (ac_dns_webhook a = None)); [left|by right]. intros c Hc ->. by apply Hdns.
Qed.

Lemma ssl_ok hb s : validate_ssl E hb s = Ok tt <-> wf_ssl E hb s.
Proof.
  unfold validate_ssl, wf_ssl. rewrite !seq_ok, each_ok, !opt_each_ok.
  setoid_rewrite tls_protocol_ok. setoid_rewrite acme_ok. by setoid_rewrite ensure_ok.
Qed.

Lemma http_ok hb : validate_http E hb = Ok tt <-> wf_http E hb.
Proof.
  unfold validate_http, wf_http. rewrite !seq_ok, ensure_ok.
  rewrite <- pools_ok, host_policy_ok, !cidrs_ok, connect_targets_ok, addresses_ok.
  rewrite (each_ok (validate_ab_split hb)), (each_ok validate_listen), (each_ok (validate_location hb)),
    (each_ok validate_rewrite), (opt_each_ok (validate_ssl E hb)).
  setoid_rewrite ab_split_ok. setoid_rewrite location_ok. setoid_rewrite rewrite_ok.
  setoid_rewrite ssl_ok. unfold validate_listen at 1. setoid_rewrite listen_ok.
  rewrite negb_true_iff, andb_false_iff, bool_decide_eq_false.
  destruct (hb_allow_connect hb); [|naive_solver]. naive_solver.
Qed.

Lemma stream_ok i sb :
  validate_stream (i, sb) = Ok tt
  <-> 1 <= ld_port (sb_listen sb) /\ ur_name (sb_upstream sb) <> []
      /\ ur_servers (sb_upstream sb) <> [] /\ wf_address (ld_address (sb_listen sb)).
Proof.
  unfold validate_stream. rewrite !bail_ok, listen_ok.
  by rewrite !negb_true_iff, Z.ltb_ge, !bool_decide_eq_false.
Qed.

Lemma mail_ok m :
  validate_mail m = Ok tt
  <-> (forall ld, ld ∈ mb_listen m -> 1 <= ld_port ld) /\ ur_name (mb_upstream m) <> [].
Proof.
  unfold validate_mail. rewrite seq_ok, each_ok, ensure_ok. setoid_rewrite ensure_ok.
  setoid_rewrite negb_true_iff. setoid_rewrite Z.ltb_ge. by rewrite bool_decide_eq_false.
Qed.
End parts.

(** ** Properties *)

Section properties.
Context {U : Unicode} {N : IpNetLib} {R : RegexLib}.
Variable E : Env.

(** [Config::validate] accepts exactly the well-formed configurations: every
    reference resolves, every keyword is known, every CIDR, regex and address
    parses, weights are right, and the TLS and ACME invariants (staging
    isolation, privileged port, 0600 secret files, webhook for dns-01) hold. *)
Lemma Config_validate_spec c : Config_validate E c = Ok tt <-> wf_config E c.
Proof.
  unfold Config_validate, wf_config. rewrite !seq_ok, !each_ok, opt_each_ok.
  setoid_rewrite http_ok. setoid_rewrite mail_ok.
  apply Morphisms_Prop.and_iff_morphism; [done|]. apply Morphisms_Prop.and_iff_morphism; [|done]. split.
  - intros H i sb Hi. apply (stream_ok i sb), H. by apply (elem_of_lookup_imap_2 pair).
  - intros H [i sb] (j & sb' & [= -> ->] & Hj)%elem_of_lookup_imap. by apply (stream_ok j sb'), (H j).
Qed.


Lemma load_time_restricted v4 : load_time_private (V4 v4) = true -> is_restricted (V4 v4) = true.
Proof. cbn. unfold restricted_v4. rewrite !orb_true_iff. tauto. Qed.

Lemma existsb_networks ip networks :
  existsb (fun cidr => match IpNetwork_parse cidr with
                       | Some net => net_contains net ip
                       | None => false
                       end) networks
  = existsb (fun net => net_contains net ip) (parse_networks (Some networks)).
Proof.
  unfold parse_networks. cbn [default].
  induction networks as [|c r IH]; cbn; [done|].
  destruct (IpNetwork_parse c) eqn:Ec; cbn; by rewrite IH.
Qed.

(** The gate on upstream addresses at load time, on an IPv4 literal with a port:
    private, loopback, link-local and multicast addresses need an allowlisted
    network; it never refuses what the gate at use time admits. *)
Theorem load_gate_v4 v4 port nets :
  Forall is_u8 (octets v4) -> is_u16 port ->
  let addr := show_ipv4 v4 ++ ":" ++ show port in
  (validate_upstream_address addr nets = true
   <-> load_time_private (V4 v4) = false
       \/ (exists net, net ∈ parse_networks nets /\ net_contains net (V4 v4) = true))
  /\ (is_upstream_allowed addr nets = Ok tt -> validate_upstream_address addr nets = true).
Proof.
  intros Hwf Hp addr.
  assert (validate_upstream_address addr nets = true
    <-> load_time_private (V4 v4) = false
        \/ (exists net, net ∈ parse_networks nets /\ net_contains net (V4 v4) = true)) as Hload.
  { unfold validate_upstream_address, addr.
    rewrite (proj2 (rsplit_once_Some _ _ (show_ipv4 v4) (show port))).
    2:{ split; [done|]. apply show_not_elem; [apply Hp|u8_lia]. }
    rewrite parse_show_ipv4 by done. rewrite <- existsb_bool_elem.
    destruct (load_time_private (V4 v4)); [|tauto].
    destruct nets as [l|]; [rewrite existsb_networks|]; naive_solver. }
  split; [done|]. rewrite Hload. intros Ha.
  apply upstream_allowed_plain in Ha; [|done..].
  destruct (load_time_private (V4 v4)) eqn:Hl; [right|by left].
  unfold ip_allowed in Ha. rewrite (load_time_restricted _ Hl) in Ha. cbn [negb canonical] in Ha.
  apply existsb_bool_elem in Ha as (net & Hin & Hc). exists net. by rewrite orb_diag in Hc.
Qed.

(** The load-time gate splits at the last colon, so a bracketed IPv6 loopback
    address and the carrier-grade NAT range are accepted at load time and refused
    only when the upstream is used. *)
Theorem load_gate_gaps :
  validate_upstream_address "[::1]:80" None = true
  /\ is_err (is_upstream_allowed "[::1]:80" None) = true
  /\ validate_upstream_address "100.64.0.1:80" None = true
  /\ is_err (is_upstream_allowed "100.64.0.1:80" None) = true
  /\ validate_upstream_address "127.0.0.1:80" None = false.
Proof. split_and!; vm_compute; reflexivity. Qed.
End properties.

(** Release builds wrap the [u32] sum of weights: 2^32 - 1 and 101 pass for 100. *)
Example ab_weights_wrap :
  ab_total_weight (mkAbSplit "s" false [mkAbGroup "a" "u" 4294967295; mkAbGroup "b" "u" 101]) = 100.
Proof. reflexivity. Qed.

Lemma load_gate_v4_witness :
  @validate_upstream_address cidr_nets (show_ipv4 (V4Octets 10 0 0 1) ++ ":" ++ show 80)
    (Some (strs ["10.0.0.0/8"]%string)) = true.
Proof.
  apply (@load_gate_v4 cidr_nets (V4Octets 10 0 0 1) 80); [vm_decide..|].
  vm_compute. reflexivity.
Defined.
