(* ===== verification/HostPolicy.v ===== *)
(** * Host header policy (src/src/security/host_policy.rs)

    [matches_name] and [validate_host].  Theorems: exactly which Host values a
    block accepts under each policy, and that a port never changes the answer. *)

From S2P Require Import Prelude.
From S2P Require Import Str.
From S2P Require Import UpstreamFilter.
From S2P Require Import Config.
From S2P Require Import Instances.

Section host_policy.
Context {U : Unicode}.

Definition matches_name (host pattern0 : str) : bool :=
  let pattern := to_lowercase pattern0 in
  if bool_decide (host = pattern) then true
  else match strip_prefix "*." pattern with
       | Some rest =>
           let suffix := drop 1 pattern in
           ends_with host suffix || bool_decide (host = rest)
       | None => false
       end.

Definition validate_host (host : option str) (block : HttpBlock) : bool :=
  if bool_decide (hb_host_header_policy block = "any") then true
  else if bool_decide (hb_host_header_policy block = "list") then
    match host with
    | None => false
    | Some host =>
        let '(host_only, _) := split_host_port host in
        let host_only := to_lowercase host_only in
        let in_allowed :=
          match hb_allowed_hosts block with
          | Some hosts => existsb (fun h => eq_ignore_ascii_case h host_only) hosts
          | None => false
          end in
        in_allowed || existsb (matches_name host_only) (hb_server_name block)
    end
  else
    match host with
    | None => false
    | Some host =>
        let '(host_only, _) := split_host_port host in
        let host_only := to_lowercase host_only in
        existsb (matches_name host_only) (hb_server_name block)
    end.

(** ** Specification *)

(** [covers p n]: the lower-case pattern [p] covers the name [n]: literally, or as
    [*.rest] with [n] the name [rest] or [prefix.rest]. *)
Inductive covers (p n : str) : Prop :=
  | covers_exact : n = p -> covers p n
  | covers_apex : p = "*." ++ n -> covers p n
  | covers_sub prefix rest : p = "*." ++ rest -> n = prefix ++ "." ++ rest -> covers p n.

Lemma matches_name_spec n p : matches_name n p = true <-> covers (to_lowercase p) n.
Proof.
  unfold matches_name. cbv zeta. generalize (to_lowercase p) as q. intros q.
  case_bool_decide as Hq; [split; [intros _; by apply covers_exact|done]|].
  destruct (strip_prefix "*." q) as [rest|] eqn:Es.
  - apply strip_prefix_Some in Es as ->. rewrite orb_true_iff, ends_with_spec, bool_decide_eq_true. split.
    + intros [[l Hl]| ->]; [by eapply covers_sub|by apply covers_apex].
    + intros [?|Hp|pre r Hp ->]; [done|right; by simplify_list_eq|left].
      exists pre. by simplify_list_eq.
  - split; [done|]. intros [?|Hp|pre r Hp _]; [done|..];
      subst q; by rewrite strip_prefix_app in Es.
Qed.

Lemma exists_covers n l :
  existsb (matches_name n) l = true <-> exists p, p ∈ l /\ covers (to_lowercase p) n.
Proof. rewrite existsb_bool_elem. by setoid_rewrite matches_name_spec. Qed.

(** A block accepts a Host header exactly when its policy is [any], or the
    header is present and its lower-cased name, without port or brackets, is
    covered by a [server_name] pattern, or, under [list], equals an allowed host.
    A wildcard covers whole labels only. *)
Theorem validate_host_spec host block :
  validate_host host block = true
  <-> hb_host_header_policy block = "any"
      \/ (exists h, host = Some h
          /\ let n := to_lowercase (fst (split_host_port h)) in
             (exists p, p ∈ hb_server_name block /\ covers (to_lowercase p) n)
             \/ (hb_host_header_policy block = "list"
                 /\ exists a, a ∈ default [] (hb_allowed_hosts block)
                              /\ eq_ignore_ascii_case a n = true)).
Proof.
  unfold validate_host. case_bool_decide as H1; [tauto|].
  destruct host as [h|].
  2:{ split; [by case_bool_decide|]. intros [?|(h & [=] & _)]; done. }
  assert (forall P : str -> Prop, (exists x, Some h = Some x /\ P x) <-> P h) as Hx.
  { intros P. split; [by intros (x & [= ->] & ?)|eauto]. }
  rewrite Hx. cbv zeta. destruct (split_host_port h) as [n port]. cbn [fst].
  case_bool_decide as H2.
  - rewrite orb_true_iff, exists_covers.
    destruct (hb_allowed_hosts block) as [l|]; cbn [default].
    + rewrite existsb_bool_elem. tauto.
    + split; [intros [?|?]; [done|tauto]|].
      intros [?|[?|(_ & a & Ha & _)]]; [done|tauto|]. cbn in Ha. set_solver.
  - rewrite exists_covers. tauto.
Qed.

(** A port in the Host header never changes the answer, for names and for
    bracketed IPv6 literals. *)
Theorem validate_host_port host v6 port block :
  ":"%char ∉ host -> head host <> Some "["%char ->
  "]"%char ∉ v6 -> head v6 <> Some "["%char -> (1 < count_char v6 ":")%nat -> is_u16 port ->
  validate_host (Some (host ++ ":" ++ show port)) block = validate_host (Some host) block
  /\ validate_host (Some ("[" ++ v6 ++ "]:" ++ show port)) block
     = validate_host (Some ("[" ++ v6 ++ "]")) block.
Proof.
  intros. unfold validate_host.
  by rewrite split_plain_port, split_plain, split_bracket_port, split_bracket.
Qed.
End host_policy.

Definition example_block : HttpBlock :=
  HttpBlock_default [].

Lemma validate_host_port_witness :
  @validate_host id_unicode (Some ("a.example" ++ ":" ++ show 8080)) example_block
  = @validate_host id_unicode (Some ("a.example" : str)) example_block.
Proof. apply (@validate_host_port id_unicode "a.example" "fe80::1" 8080); vm_decide. Defined.

(** A wildcard needs a label boundary. *)
Example wildcard_boundary :
  @matches_name id_unicode "www.example.com" "*.Example.com" = true
  /\ @matches_name id_unicode "evilexample.com" "*.example.com" = false.
Proof. vm_compute. done. Qed.
