(* ===== verification/Headers.v ===== *)
(** * Header hygiene at the proxy boundary (src/src/security/headers.rs)

    Hop-by-hop stripping, trusted-proxy attribution, log redaction and the
    control-character check, over the header-map interface.  Theorems: exactly
    which headers survive stripping, what an upstream sees of the client's
    attribution headers, and that no sensitive value is logged. *)

From S2P Require Import Prelude.
From S2P Require Import Str.
From S2P Require Import Net.
From S2P Require Import Extern.
From S2P Require Import Instances.

Definition HOP_BY_HOP : list str :=
  strs ["connection"; "keep-alive"; "transfer-encoding"; "te";
        "trailer"; "upgrade"; "proxy-authorization"; "proxy-authenticate"]%string.
Definition NOMINATION_EXEMPT : list str := strs ["host"; "content-length"]%string.
Definition ATTRIBUTION : list str :=
  strs ["x-forwarded-for"; "forwarded"; "x-real-ip"; "x-forwarded-host"; "x-forwarded-proto"]%string.
Definition SENSITIVE : list str :=
  strs ["authorization"; "cookie"; "proxy-authorization"; "set-cookie"]%string.

Section headers.
Context {H : HttpLib}.

(** The names the Connection header nominates. *)
Definition nominated (headers : HeaderMap) : list str :=
  filter (fun t => t <> [] /\ t ∉ NOMINATION_EXEMPT)
    (map (fun t => to_ascii_lowercase (trim t))
      (mjoin (map (fun s => split s ",") (omap HeaderValue_to_str (hm_get_all headers "connection"))))).

Definition remove_token (headers : HeaderMap) (token : str) : HeaderMap :=
  match HeaderName_from_bytes token with
  | Some name => hm_remove headers name
  | None => headers
  end.

Definition strip_hop_by_hop (headers : HeaderMap) : HeaderMap :=
  foldl hm_remove (foldl remove_token headers (nominated headers)) HOP_BY_HOP.

Definition normalize_headers (headers : HeaderMap) : HeaderMap := strip_hop_by_hop headers.

(** Insert a value computed from text, if it is a legal header value. *)
Definition insert_str (headers : HeaderMap) (k s : str) : HeaderMap :=
  match HeaderValue_from_str s with
  | Some v => hm_insert headers k v
  | None => headers
  end.

Context {N : IpNetLib}.

(** The X-Forwarded-For text a trusted peer sent, if any. *)
Definition prior_xff (headers : HeaderMap) : option str :=
  let joined := join ", " (omap HeaderValue_to_str (hm_get_all headers "x-forwarded-for")) in
  if bool_decide (joined = []) then None else Some joined.

Definition is_trusted (client : IpAddr) (trusted_proxies : list IpNetwork) : bool :=
  existsb (fun n => net_contains n client) trusted_proxies.

Definition apply_forwarding_policy (headers : HeaderMap) (client : IpAddr) (scheme : str)
    (original_host : option str) (trusted_proxies : list IpNetwork) : HeaderMap :=
  let trusted := is_trusted client trusted_proxies in
  let '(headers, prior) :=
    if trusted then (headers, prior_xff headers)
    else (foldl hm_remove headers ATTRIBUTION, None) in
  let xff := match prior with
             | Some prev => prev ++ ", " ++ show_ip client
             | None => show_ip client
             end in
  let headers := insert_str headers "x-forwarded-for" xff in
  let headers := if negb (hm_contains_key headers "x-real-ip")
                 then insert_str headers "x-real-ip" (show_ip client) else headers in
  let headers := if negb (hm_contains_key headers "x-forwarded-proto")
                 then insert_str headers "x-forwarded-proto" scheme else headers in
  if negb (hm_contains_key headers "x-forwarded-host") then
    match original_host with
    | Some host => hm_insert headers "x-forwarded-host" host
    | None => headers
    end
  else headers.

Definition redact_sensitive_headers {U : Unicode} (headers : HeaderMap) : list (str * str) :=
  map (fun '(name, value) =>
    let name_str := to_lowercase name in
    (name_str,
     if bool_decide (name_str ∈ SENSITIVE) then ("[REDACTED]" : str)
     else default ("[INVALID]" : str) (HeaderValue_to_str value))) (hm_iter headers).

Definition validate_header_values (headers : HeaderMap) : bool :=
  forallb (fun '(_, v) =>
    match HeaderValue_to_str v with
    | Some s => negb (contains_char s (byte 13)) && negb (contains_char s (byte 10))
    | None => false
    end) (hm_iter headers).
End headers.

(** ** Removing a list of names *)

Section facts.
Context {H : HttpLib} {L : HttpLaws H}.

Lemma removes_get_all (ks : list str) m k :
  hm_get_all (foldl hm_remove m ks) k = if decide (k ∈ ks) then [] else hm_get_all m k.
Proof.
  revert m. induction ks as [|a ks IH]; intros m; cbn [foldl].
  - rewrite decide_False by set_solver. done.
  - rewrite IH, hm_remove_get_all. repeat case_decide; set_solver.
Qed.

(** The header names the tokens stand for. *)
Definition token_names (ts : list str) : list str := omap HeaderName_from_bytes ts.

Lemma remove_tokens_eq ts m :
  foldl remove_token m ts = foldl hm_remove m (token_names ts).
Proof.
  revert m. induction ts as [|t ts IH]; intros m; cbn [foldl]; [done|].
  unfold remove_token at 2. cbn. destruct (HeaderName_from_bytes t); cbn; apply IH.
Qed.

Lemma nominated_spec m t :
  t ∈ nominated m
  <-> (t <> [] /\ t ∉ NOMINATION_EXEMPT)
      /\ (exists v s w, v ∈ hm_get_all m "connection" /\ HeaderValue_to_str v = Some s
                        /\ w ∈ split s "," /\ t = to_ascii_lowercase (trim w)).
Proof.
  unfold nominated. rewrite list_elem_of_filter. split.
  - intros [Hne (w & -> & (ws & Hw & (s & -> & (v & Hv & Hs)%list_elem_of_omap)%list_elem_of_fmap)%list_elem_of_join)%list_elem_of_fmap].
    split; [done|]. by exists v, s, w.
  - intros (Hne & v & s & w & Hv & Hs & Hw & ->). split; [done|].
    apply list_elem_of_fmap. exists w. split; [done|]. apply list_elem_of_join.
    exists (split s ","). split; [done|]. apply list_elem_of_fmap. exists s. split; [done|].
    apply list_elem_of_omap. by exists v.
Qed.

Lemma strip_get_all m k :
  hm_get_all (strip_hop_by_hop m) k
  = if decide (k ∈ HOP_BY_HOP \/ k ∈ token_names (nominated m)) then [] else hm_get_all m k.
Proof.
  unfold strip_hop_by_hop. rewrite removes_get_all, remove_tokens_eq, removes_get_all.
  repeat case_decide; tauto.
Qed.

Lemma exempt_not_nominated m k :
  k ∈ NOMINATION_EXEMPT -> k ∉ token_names (nominated m).
Proof.
  intros Hk (t & Ht & Hn)%list_elem_of_omap. apply nominated_spec in Ht as ([_ Hex] & v & s & w & _ & _ & _ & ->).
  apply HeaderName_lower in Hn. rewrite to_ascii_lowercase_idemp in Hn. congruence.
Qed.
End facts.

(** ** Printed addresses are legal header values *)

Lemma forallb_app {A} (f : A -> bool) l r : forallb f (l ++ r) = forallb f l && forallb f r.
Proof. apply List.forallb_app. Qed.

Lemma forallb_join f sep l :
  forallb f sep = true -> (forall x, x ∈ l -> forallb f x = true) -> forallb f (join sep l) = true.
Proof.
  intros Hs. induction l as [|x [|y r] IH]; intros Hl; [done|apply Hl; set_solver|].
  change (join sep (x :: y :: r)) with (x ++ sep ++ join sep (y :: r)).
  rewrite !forallb_app, Hs, (Hl x), IH by set_solver. done.
Qed.

Lemma visible_show z : 0 <= z -> forallb visible_ascii (show z) = true.
Proof.
  intros Hz. apply forallb_forall. intros c Hc%list_elem_of_In.
  pose proof (show_digits z Hz) as Hd. rewrite Forall_forall in Hd. specialize (Hd c Hc).
  unfold visible_ascii. apply orb_true_iff. left. apply andb_true_iff.
  split; [apply Z.leb_le|apply Z.ltb_lt]; lia.
Qed.

Lemma visible_hex_char d : 0 <= d < 16 -> visible_ascii (hex_char d) = true.
Proof.
  intros Hd. unfold hex_char, visible_ascii. case_match; b2p; rewrite u8_byte by lia;
    apply orb_true_iff; left; apply andb_true_iff; split; (apply Z.leb_le || apply Z.ltb_lt); lia.
Qed.

Lemma visible_show_hex f z : 0 <= z -> forallb visible_ascii (show_hex_fuel f z) = true.
Proof.
  revert z. induction f as [|f IH]; intros z Hz; [done|]. cbn [show_hex_fuel].
  case_match; b2p.
  - cbn [forallb]. by rewrite visible_hex_char by lia.
  - rewrite forallb_app. rewrite IH by (apply Z.div_pos; lia). cbn [forallb].
    by rewrite visible_hex_char by (apply Z.mod_pos_bound; lia).
Qed.

Lemma visible_show_ipv4 v4 : Forall is_u8 (octets v4) -> forallb visible_ascii (show_ipv4 v4) = true.
Proof.
  intros Hwf. apply forallb_join; [done|]. intros x (z & -> & Hz)%list_elem_of_fmap.
  rewrite Forall_forall in Hwf. apply visible_show. by apply Hwf in Hz as [??].
Qed.

Lemma visible_segments l :
  Forall is_u16 l -> forallb visible_ascii (join ":" (map show_hex l)) = true.
Proof.
  intros Hwf. apply forallb_join; [done|]. intros x (z & -> & Hz)%list_elem_of_fmap.
  rewrite Forall_forall in Hwf. apply visible_show_hex. by apply Hwf in Hz as [??].
Qed.

Lemma visible_show_ip ip : ip_wf ip -> forallb visible_ascii (show_ip ip) = true.
Proof.
  destruct ip as [v4|v6]; cbn [ip_wf show_ip]; [apply visible_show_ipv4|].
  intros Hwf. unfold show_ipv6. destruct (to_ipv4_mapped v6) as [v4|] eqn:E.
  - rewrite forallb_app, visible_show_ipv4; [done|]. by eapply mapped_wf.
  - destruct (longest_zeros _ _ _ _) as [start len].
    case_bool_decide; [|by apply visible_segments].
    rewrite !forallb_app, !visible_segments; [done|by apply Forall_drop|by apply Forall_take].
Qed.

(** ** Properties *)

Section properties.
Context {H : HttpLib} {L : HttpLaws H}.

(** C20. Stripping removes every hop-by-hop header and every header a Connection
    value nominates, never Host or Content-Length, and touches nothing else. *)
Theorem strip_hop_by_hop_spec m :
  (forall k, k ∈ HOP_BY_HOP -> hm_get_all (strip_hop_by_hop m) k = [])
  /\ (forall v s w n, v ∈ hm_get_all m "connection" -> HeaderValue_to_str v = Some s ->
        w ∈ split s "," -> trim w <> [] ->
        HeaderName_from_bytes (to_ascii_lowercase (trim w)) = Some n -> n ∉ NOMINATION_EXEMPT ->
        hm_get_all (strip_hop_by_hop m) n = [])
  /\ (forall k, k ∈ NOMINATION_EXEMPT -> hm_get_all (strip_hop_by_hop m) k = hm_get_all m k)
  /\ (forall k, k ∉ HOP_BY_HOP -> k ∉ token_names (nominated m) ->
        hm_get_all (strip_hop_by_hop m) k = hm_get_all m k).
Proof.
  setoid_rewrite strip_get_all. split_and!.
  - intros k Hk. by rewrite decide_True by (by left).
  - intros v s w n Hv Hs Hw Ht Hn He. apply decide_True. right.
    apply list_elem_of_omap. exists (to_ascii_lowercase (trim w)). split; [|done].
    apply nominated_spec. split; [|eauto 10]. split.
    + intros E. destruct (trim w); done.
    + apply HeaderName_lower in Hn. rewrite to_ascii_lowercase_idemp in Hn. by subst n.
  - intros k Hk. apply decide_False. intros [Hh|Hn].
    + assert (Forall (fun k => k ∉ HOP_BY_HOP) NOMINATION_EXEMPT) as Hd by vm_decide.
      rewrite Forall_forall in Hd. by apply (Hd k).
    + by eapply exempt_not_nominated.
  - intros k Hh Hn. apply decide_False. tauto.
Qed.

Context {N : IpNetLib}.

Lemma insert_str_get_all m k s k' :
  forallb visible_ascii s = true ->
  hm_get_all (insert_str m k s) k' = if decide (k = k') then [s] else hm_get_all m k'.
Proof.
  intros Hs. unfold insert_str. rewrite HeaderValue_from_str_visible by done.
  case_decide as E; [subst; apply hm_insert_eq|by apply hm_insert_ne].
Qed.

(** What a key holds once a default is filled in. *)
Definition keep (vs d : list str) : list str := match vs with [] => d | _ => vs end.

(** Insertion of a header that is absent. *)
Lemma insert_absent_get_all m k s k' :
  forallb visible_ascii s = true ->
  hm_get_all (if negb (hm_contains_key m k) then insert_str m k s else m) k'
  = if decide (k = k') then keep (hm_get_all m k) [s] else hm_get_all m k'.
Proof.
  intros Hs. rewrite hm_contains_get_all. case_bool_decide as E; cbn [negb].
  - case_decide as Ed; [subst; by destruct (hm_get_all m k')|done].
  - rewrite insert_str_get_all by done. case_decide as Ed; [subst; by rewrite E|done].
Qed.

Lemma insert_absent_host m (host : option str) k k' :
  hm_get_all (if negb (hm_contains_key m k) then
                match host with Some h => hm_insert m k h | None => m end
              else m) k'
  = if decide (k = k') then keep (hm_get_all m k) (option_list host) else hm_get_all m k'.
Proof.
  rewrite hm_contains_get_all. case_bool_decide as E; cbn [negb].
  - case_decide as Ed; [subst; by destruct (hm_get_all m k')|done].
  - destruct host as [h|]; cbn [option_list];
      (case_decide as Ed; [subst; rewrite E; cbn; rewrite ?hm_insert_eq; done|]).
    + by apply hm_insert_ne.
    + done.
Qed.
End properties.

Section attribution.
Context {H : HttpLib} {L : HttpLaws H} {N : IpNetLib}.

(** The header map after the attribution step, read key by key: an absent
    attribution header gets its default. *)
Definition filled (m : HeaderMap) (client : IpAddr) (scheme : str) (host : option str)
    (xff : str) (k : str) : list str :=
  if decide (k = "x-forwarded-for") then [xff]
  else if decide (k = "x-real-ip") then keep (hm_get_all m k) [show_ip client]
  else if decide (k = "x-forwarded-proto") then keep (hm_get_all m k) [scheme]
  else if decide (k = "x-forwarded-host") then keep (hm_get_all m k) (option_list host)
  else hm_get_all m k.

Lemma fill_get_all m client scheme host xff k :
  forallb visible_ascii xff = true -> forallb visible_ascii (show_ip client) = true ->
  forallb visible_ascii scheme = true ->
  let m1 := insert_str m "x-forwarded-for" xff in
  let m2 := if negb (hm_contains_key m1 "x-real-ip")
            then insert_str m1 "x-real-ip" (show_ip client) else m1 in
  let m3 := if negb (hm_contains_key m2 "x-forwarded-proto")
            then insert_str m2 "x-forwarded-proto" scheme else m2 in
  hm_get_all (if negb (hm_contains_key m3 "x-forwarded-host") then
                match host with Some h => hm_insert m3 "x-forwarded-host" h | None => m3 end
              else m3) k = filled m client scheme host xff k.
Proof.
  intros Hx Hc Hs m1 m2 m3. rewrite insert_absent_host.
  unfold m3. rewrite !(insert_absent_get_all m2) by done.
  unfold m2. rewrite !(insert_absent_get_all m1) by done.
  unfold m1. rewrite !insert_str_get_all by done. unfold filled. clear m1 m2 m3.
  assert (NoDup (strs ["x-forwarded-for"; "x-real-ip"; "x-forwarded-proto"; "x-forwarded-host"]%string))
    as Hnd by vm_decide.
  unfold strs in Hnd. cbn [map] in Hnd. revert Hnd.
  generalize (list_ascii_of_string "x-forwarded-for"), (list_ascii_of_string "x-real-ip"),
    (list_ascii_of_string "x-forwarded-proto"), (list_ascii_of_string "x-forwarded-host").
  intros a b c d. rewrite !NoDup_cons, !not_elem_of_cons.
  intros ((? & ? & ? & _) & (? & ? & _) & (? & _) & _).
  repeat (case_decide; try subst; try done).
Qed.

Lemma prior_xff_visible m prev : prior_xff m = Some prev -> forallb visible_ascii prev = true.
Proof.
  unfold prior_xff. case_bool_decide; [done|]. intros [= <-]. apply forallb_join; [done|].
  intros x (v & _ & Hx)%list_elem_of_omap. pose proof (HeaderValue_to_str_bytes _ _ Hx) as ->.
  apply HeaderValue_to_str_visible. eauto.
Qed.

(** Attribution touches no other header. *)
Lemma forwarding_policy_other m client scheme host nets k :
  ip_wf client -> forallb visible_ascii scheme = true -> k ∉ ATTRIBUTION ->
  hm_get_all (apply_forwarding_policy m client scheme host nets) k = hm_get_all m k.
Proof.
  intros Hwf Hs Hk. pose proof (visible_show_ip _ Hwf) as Hv.
  assert (forall n : str, n ∈ ATTRIBUTION -> k <> n) as Hne by (intros n Hn ->; done).
  assert (forall m' xff, hm_get_all m' k = hm_get_all m k ->
    filled m' client scheme host xff k = hm_get_all m k) as Hf.
  { intros m' xff Hm. unfold filled. rewrite !decide_False; [done|apply Hne; vm_decide..]. }
  unfold apply_forwarding_policy. destruct (is_trusted client nets).
  - rewrite fill_get_all; [by apply Hf| |done..].
    destruct (prior_xff m) as [prev|] eqn:E; [|done].
    by rewrite !forallb_app, Hv, (prior_xff_visible m).
  - rewrite fill_get_all by done. apply Hf. rewrite removes_get_all. by rewrite decide_False.
Qed.

(** Attribution from an untrusted client is rewritten from scratch: whatever it
    sent, the upstream sees its address in X-Forwarded-For and X-Real-IP, the
    scheme of the connection and the original Host, no Forwarded header, and
    every other header unchanged. *)
Theorem forwarding_untrusted m client scheme host nets k :
  is_trusted client nets = false -> ip_wf client -> forallb visible_ascii scheme = true ->
  hm_get_all (apply_forwarding_policy m client scheme host nets) k =
    if decide (k = "x-forwarded-for" \/ k = "x-real-ip") then [show_ip client]
    else if decide (k = "x-forwarded-proto") then [scheme]
    else if decide (k = "x-forwarded-host") then option_list host
    else if decide (k = "forwarded") then []
    else hm_get_all m k.
Proof.
  intros Ht Hwf Hs. unfold apply_forwarding_policy. rewrite Ht.
  pose proof (visible_show_ip _ Hwf) as Hv. rewrite fill_get_all by done.
  unfold filled. rewrite removes_get_all.
  destruct (decide (k ∈ ATTRIBUTION)) as [Hin|Hin].
  - unfold ATTRIBUTION, strs in Hin. cbn [map] in Hin. rewrite !elem_of_cons, elem_of_nil in Hin.
    repeat case_decide; try done; tauto.
  - assert (forall n : str, n ∈ ATTRIBUTION -> k <> n) as Hne by (intros n Hn ->; done).
    repeat case_decide; try done; exfalso; destruct_or?;
      match goal with E : k = _ |- _ => apply (Hne _) in E; [done|vm_decide] end.
Qed.

(** Attribution from a trusted proxy is kept: its X-Forwarded-For text gets the
    client address appended, and the other attribution headers are only filled in
    when absent. *)
Theorem forwarding_trusted m client scheme host nets :
  is_trusted client nets = true -> ip_wf client -> forallb visible_ascii scheme = true ->
  let m' := apply_forwarding_policy m client scheme host nets in
  (forall prev, prior_xff m = Some prev ->
     hm_get_all m' "x-forwarded-for" = [prev ++ ", " ++ show_ip client])
  /\ (prior_xff m = None -> hm_get_all m' "x-forwarded-for" = [show_ip client])
  /\ (forall k : str, k ∈ ATTRIBUTION -> k <> "x-forwarded-for" -> hm_get_all m k <> [] ->
        hm_get_all m' k = hm_get_all m k)
  /\ (forall k : str, k ∉ ATTRIBUTION -> hm_get_all m' k = hm_get_all m k).
Proof.
  intros Ht Hwf Hs m'. pose proof (visible_show_ip _ Hwf) as Hv.
  assert (forall k, hm_get_all m' k = filled m client scheme host
    match prior_xff m with Some prev => prev ++ ", " ++ show_ip client | None => show_ip client end k) as Hm.
  { intros k. unfold m', apply_forwarding_policy. rewrite Ht. apply fill_get_all; [|done..].
    destruct (prior_xff m) as [prev|] eqn:E; [|done].
    by rewrite !forallb_app, Hv, (prior_xff_visible m). }
  split_and!.
  - intros prev E. by rewrite Hm, E.
  - intros E. by rewrite Hm, E.
  - intros k Hk Hne Hm0. rewrite Hm. unfold filled. destruct (hm_get_all m k); [done|].
    by repeat case_decide.
  - intros k Hk. by apply forwarding_policy_other.
Qed.

(** What flexd itself says in an attribution header. *)
Definition own_attribution (client : IpAddr) (scheme : str) (host : option str) (k : str) : list str :=
  if decide (k = "x-forwarded-for" \/ k = "x-real-ip") then [show_ip client]
  else if decide (k = "x-forwarded-proto") then [scheme]
  else if decide (k = "x-forwarded-host") then option_list host
  else [].

(** A header that is not there when the policy is applied is there afterwards only if
    flexd sets it, whoever the client is. *)
Lemma forwarding_absent m client scheme host nets k :
  ip_wf client -> forallb visible_ascii scheme = true -> hm_get_all m k = [] ->
  hm_get_all (apply_forwarding_policy m client scheme host nets) k = own_attribution client scheme host k.
Proof.
  intros Hwf Hs Hk. pose proof (visible_show_ip _ Hwf) as Hv. unfold own_attribution.
  destruct (is_trusted client nets) eqn:Et.
  2:{ rewrite forwarding_untrusted by done. by repeat case_decide. }
  unfold apply_forwarding_policy. rewrite Et, fill_get_all; [|destruct (prior_xff m) as [prev|] eqn:E; [|done];
    by rewrite !forallb_app, Hv, (prior_xff_visible m)|done..].
  unfold filled. rewrite Hk. cbn [keep].
  destruct (decide (k = "x-forwarded-for")) as [->|Hf].
  - rewrite decide_True by (by left). unfold prior_xff. by rewrite Hk.
  - repeat case_decide; try done; tauto.
Qed.

(** C21. Attribution headers say what flexd knows or a trusted proxy said.  From an
    untrusted client they are rewritten from scratch: its address, the scheme of the
    connection and the original Host, and no Forwarded.  From a trusted proxy the
    X-Forwarded-For text is kept with the client address appended, and the others are
    kept where present.  No other header changes. *)
Theorem forwarding_policy_spec m client scheme host nets :
  ip_wf client -> forallb visible_ascii scheme = true ->
  let m' := apply_forwarding_policy m client scheme host nets in
  (forall k : str, k ∉ ATTRIBUTION -> hm_get_all m' k = hm_get_all m k)
  /\ if is_trusted client nets then
       hm_get_all m' "x-forwarded-for"
         = [match prior_xff m with Some prev => prev ++ ", " ++ show_ip client | None => show_ip client end]
       /\ (forall k : str, k ∈ ATTRIBUTION -> k <> "x-forwarded-for" -> hm_get_all m k <> [] ->
             hm_get_all m' k = hm_get_all m k)
     else
       hm_get_all m' "x-forwarded-for" = [show_ip client] /\ hm_get_all m' "x-real-ip" = [show_ip client]
       /\ hm_get_all m' "x-forwarded-proto" = [scheme] /\ hm_get_all m' "x-forwarded-host" = option_list host
       /\ hm_get_all m' "forwarded" = [].
Proof.
  intros Hwf Hs m'. split; [intros k Hk; by apply forwarding_policy_other|].
  destruct (is_trusted client nets) eqn:Et.
  - destruct (forwarding_trusted m client scheme host nets Et Hwf Hs) as (H1 & H2 & H3 & _).
    fold m' in H1, H2, H3. split; [|done]. destruct (prior_xff m); auto.
  - unfold m'. split_and!; by rewrite forwarding_untrusted.
Qed.
End attribution.

Section logging.
Context {H : HttpLib} {L : HttpLaws H} {U : Unicode}.

(** Header values pass exactly when every byte is visible ASCII, space or tab, so
    none holds a carriage return or a line feed. *)
Lemma validate_header_values_spec m :
  validate_header_values m = true <-> forall k v, (k, v) ∈ hm_iter m -> forallb visible_ascii v = true.
Proof.
  unfold validate_header_values. rewrite forallb_forall. split.
  - intros Hall k v Hin. apply list_elem_of_In, Hall in Hin.
    apply HeaderValue_to_str_visible. by destruct (HeaderValue_to_str v).
  - intros Hall [k v] Hin. apply list_elem_of_In, Hall in Hin.
    pose proof (proj2 (HeaderValue_to_str_visible v) Hin) as [s Hs]. rewrite Hs.
    apply HeaderValue_to_str_bytes in Hs as ->. rewrite forallb_forall in Hin.
    apply andb_true_iff. split; apply negb_true_iff, contains_char_false; intros Hc%list_elem_of_In%Hin;
      revert Hc; vm_compute; done.
Qed.

(** Every logged pair is a header of the request, its value redacted when the
    lower-cased name is sensitive. *)
Lemma redact_sensitive_headers_spec m (n v : str) :
  (n, v) ∈ redact_sensitive_headers m <->
  exists k w, (k, w) ∈ hm_iter m /\ n = to_lowercase k
    /\ ((n ∈ SENSITIVE /\ v = "[REDACTED]")
        \/ (~ n ∈ SENSITIVE /\ v = default ("[INVALID]" : str) (HeaderValue_to_str w))).
Proof.
  unfold redact_sensitive_headers. rewrite list_elem_of_fmap. split.
  - intros ([k w] & [= -> ->] & Hin). exists k, w. case_bool_decide; tauto.
  - intros (k & w & Hin & -> & Hv). exists (k, w). split; [|done].
    case_bool_decide; destruct Hv as [[? ->]|[? ->]]; done.
Qed.
End logging.

(** ** The theorems at concrete inputs *)

Definition example_headers : @HeaderMap assoc_http :=
  [("connection" : str, "close, x-secret" : str); ("x-secret" : str, "token" : str);
   ("host" : str, "a.example" : str); ("x-forwarded-for" : str, "1.2.3.4" : str)].

Lemma strip_hop_by_hop_spec_witness :
  hm_get_all (strip_hop_by_hop example_headers) "x-secret" = []
  /\ hm_get_all (strip_hop_by_hop example_headers) "host" = ["a.example" : str].
Proof.
  destruct (strip_hop_by_hop_spec example_headers) as (_ & Hnom & Hex & _). split.
  - apply (Hnom "close, x-secret" "close, x-secret" " x-secret"); vm_decide.
  - rewrite Hex by vm_decide. vm_compute. reflexivity.
Defined.

Lemma forwarding_untrusted_witness :
  hm_get_all (@apply_forwarding_policy assoc_http cidr_nets example_headers
    (V4 (V4Octets 203 0 113 7)) "http" None []) "x-forwarded-for" = ["203.0.113.7" : str].
Proof.
  rewrite (@forwarding_untrusted assoc_http assoc_laws cidr_nets) by vm_decide.
  vm_compute. reflexivity.
Defined.

Lemma forwarding_trusted_witness :
  hm_get_all (@apply_forwarding_policy assoc_http cidr_nets example_headers
    (V4 (V4Octets 10 0 0 1)) "https" None [(V4 (V4Octets 10 0 0 0), 8)]) "x-forwarded-for"
  = [("1.2.3.4, 10.0.0.1" : str)].
Proof.
  refine (proj1 (@forwarding_trusted assoc_http assoc_laws cidr_nets example_headers
    (V4 (V4Octets 10 0 0 1)) "https" None [(V4 (V4Octets 10 0 0 0), 8)] _ _ _) "1.2.3.4" _);
    vm_decide.
Defined.

Lemma forwarding_policy_spec_witness :
  hm_get_all (@apply_forwarding_policy assoc_http cidr_nets example_headers
    (V4 (V4Octets 203 0 113 7)) "http" None []) "forwarded" = [].
Proof.
  refine (proj2 (proj2 (proj2 (proj2 (proj2 (@forwarding_policy_spec assoc_http assoc_laws cidr_nets example_headers
    (V4 (V4Octets 203 0 113 7)) "http" None [] _ _)))))); vm_decide.
Defined.
