(* ===== verification/Limits.v ===== *)
(** * Connection cap and memory pressure (src/src/security/limits.rs)

    The atomic counter is one shared word; a connection attempt is the sequence of
    its atomic operations, so two attempts interleave between them.  Theorems:
    over every interleaving no more than the cap is ever admitted and the counter
    accounts exactly for the tasks that touched it; the memory check fails open.
    The [f64] arithmetic is binary64 ([SpecFloat]). *)

From Stdlib Require Import Floats.SpecFloat.
From S2P Require Import Prelude.
From S2P Require Import Str.

Definition MAX_CONNECTIONS : Z := 10000.

(** ** The atomic operations, on the counter's value *)

(** [fetch_add(1)] and [fetch_sub(1)]: the previous value and the new one. *)
Definition fetch_add (c : Z) : Z * Z := (c, wrap64 (c + 1)).
Definition fetch_sub (c : Z) : Z * Z := (c, wrap64 (c - 1)).

Definition is_overloaded (c : Z) : bool := MAX_CONNECTIONS <=? c.

(** [acquire_connection] run without interference: the new counter, the answer. *)
Definition acquire_connection (c : Z) : Z * bool :=
  let '(prev, c) := fetch_add c in
  if MAX_CONNECTIONS <=? prev then
    let '(_, c) := fetch_sub c in (c, false)
  else (c, true).

Definition release_connection (c : Z) : Z := snd (fetch_sub c).
Definition get_active_connections (c : Z) : Z := c.

(** ** Interleaved attempts

    A task is idle, holds a slot, or has taken the failing branch and not yet
    given its increment back. *)
Inductive Phase : Type := Idle | Held | Backoff.
#[global] Instance Phase_eq_dec : EqDecision Phase.
Proof. solve_decision. Defined.

Record Shared : Type := mkShared { counter : Z; tasks : list Phase }.

(** The atomic steps of task [i]. *)
Inductive step : Shared -> Shared -> Prop :=
  | step_acquire_ok c ts i :
      ts !! i = Some Idle -> (MAX_CONNECTIONS <=? fst (fetch_add c)) = false ->
      step (mkShared c ts) (mkShared (snd (fetch_add c)) (<[i := Held]> ts))
  | step_acquire_over c ts i :
      ts !! i = Some Idle -> (MAX_CONNECTIONS <=? fst (fetch_add c)) = true ->
      step (mkShared c ts) (mkShared (snd (fetch_add c)) (<[i := Backoff]> ts))
  | step_back_off c ts i :
      ts !! i = Some Backoff ->
      step (mkShared c ts) (mkShared (snd (fetch_sub c)) (<[i := Idle]> ts))
  | step_release c ts i :
      ts !! i = Some Held ->
      step (mkShared c ts) (mkShared (release_connection c) (<[i := Idle]> ts)).

(** The server starts with [n] idle tasks and a zero counter. *)
Definition initial (n : nat) : Shared := mkShared 0 (replicate n Idle).
Definition reachable (n : nat) (s : Shared) : Prop := rtc step (initial n) s.

Fixpoint count (p : Phase) (ts : list Phase) : Z :=
  match ts with
  | [] => 0
  | q :: r => (if decide (q = p) then 1 else 0) + count p r
  end.

Lemma count_nonneg p ts : 0 <= count p ts <= Z.of_nat (length ts).
Proof. induction ts as [|q ts IH]; cbn [count length]; [lia|]. case_decide; lia. Qed.

Lemma count_replicate p n : p <> Idle -> count p (replicate n Idle) = 0.
Proof. intros Hp. induction n; cbn; [done|]. by rewrite decide_False. Qed.

Lemma count_insert p q r i ts :
  ts !! i = Some q ->
  count p (<[i := r]> ts)
  = count p ts - (if decide (q = p) then 1 else 0) + (if decide (r = p) then 1 else 0).
Proof.
  revert i. induction ts as [|t ts IH]; intros [|i] Hi; try done.
  - injection Hi as ->. cbn. lia.
  - change (<[S i := r]> (t :: ts)) with (t :: <[i := r]> ts). cbn [count].
    rewrite (IH i) by done. lia.
Qed.

Lemma two_phases ts : count Held ts + count Backoff ts <= Z.of_nat (length ts).
Proof. induction ts as [|q ts IH]; cbn [count length]; [lia|]. repeat case_decide; subst; try done; lia. Qed.

Lemma count_idle p ts : p <> Idle -> Forall (eq Idle) ts -> count p ts = 0.
Proof.
  intros Hp Hi. induction Hi as [|q ts <- _ IH]; cbn [count]; [done|].
  rewrite decide_False by congruence. by rewrite IH.
Qed.

(** The accounting invariant. *)
Definition inv (n : nat) (s : Shared) : Prop :=
  length (tasks s) = n
  /\ counter s = count Held (tasks s) + count Backoff (tasks s)
  /\ count Held (tasks s) <= MAX_CONNECTIONS.

Lemma inv_initial n : inv n (initial n).
Proof.
  split_and!; cbn; [apply length_replicate|by rewrite !count_replicate|].
  rewrite count_replicate by done. done.
Qed.

Lemma inv_step n s s' : Z.of_nat n < 2 ^ 64 -> inv n s -> step s s' -> inv n s'.
Proof.
  intros Hn (Hlen & Hc & Hmax) Hs. unfold inv.
  pose proof (two_phases (tasks s)) as Hb. pose proof (two_phases (tasks s')) as Hb'.
  pose proof (count_nonneg Held (tasks s)). pose proof (count_nonneg Backoff (tasks s)).
  pose proof (count_nonneg Held (tasks s')). pose proof (count_nonneg Backoff (tasks s')).
  destruct Hs as [c ts i Hi Hp|c ts i Hi Hp|c ts i Hi|c ts i Hi]; cbn [counter tasks] in *;
    unfold release_connection; cbn [fetch_add fetch_sub fst snd] in *; b2p;
    rewrite length_insert in *;
    rewrite !(count_insert _ _ _ _ _ Hi) in *;
    repeat (case_decide; try done);
    (split_and!; [done| |lia]); unfold wrap64; rewrite Z.mod_small; lia.
Qed.

Lemma reachable_inv n s : Z.of_nat n < 2 ^ 64 -> reachable n s -> inv n s.
Proof.
  intros Hn. unfold reachable. generalize (inv_initial n). generalize (initial n).
  intros s0 H0 Hr. induction Hr; eauto using inv_step.
Qed.

(** In every interleaving of connection attempts and releases at most 10000
    slots are held, the counter is the number of held slots plus the attempts
    still backing off, and it is zero again when every task is idle. *)
Theorem connection_cap n s :
  Z.of_nat n < 2 ^ 64 -> reachable n s ->
  count Held (tasks s) <= MAX_CONNECTIONS
  /\ get_active_connections (counter s) = count Held (tasks s) + count Backoff (tasks s)
  /\ (Forall (eq Idle) (tasks s) -> counter s = 0).
Proof.
  intros Hn Hr. destruct (reachable_inv n s Hn Hr) as (_ & Hc & Hm). split_and!; [done|done|].
  intros Hi. rewrite Hc. by rewrite !count_idle.
Qed.

Lemma connection_cap_witness :
  count Held (tasks (mkShared 1 [Held; Idle])) <= MAX_CONNECTIONS.
Proof.
  apply (connection_cap 2 (mkShared 1 [Held; Idle])); [done|].
  apply rtc_once. apply (step_acquire_ok 0 [Idle; Idle] 0); reflexivity.
Defined.

(** A single task: an attempt succeeds below the cap and changes nothing at it. *)
Lemma acquire_connection_spec c :
  0 <= c < 2 ^ 64 - 1 ->
  acquire_connection c = if is_overloaded c then (c, false) else (c + 1, true).
Proof.
  intros Hc. unfold acquire_connection, is_overloaded, wrap64. cbn [fetch_add fetch_sub].
  unfold wrap64. rewrite (Z.mod_small (c + 1)) by lia.
  replace (c + 1 - 1) with c by lia. by rewrite Z.mod_small by lia.
Qed.

(** ** Memory pressure *)

Definition MEMORY_PRESSURE_THRESHOLD : spec_float := S754_finite false 7205759403792794 (-57).

(** [u64 as f64], [/] and [<] on binary64. *)
Definition f64_of (z : Z) : spec_float := binary_normalize 53 1024 z 0 false.
Definition f64_div : spec_float -> spec_float -> spec_float := SFdiv 53 1024.

(** [str::lines] (the text after the last line feed counts when not empty). *)
Definition chomp (l : str) : str := if ends_with l [byte 13] then take (length l - 1) l else l.
Definition lines (s : str) : list str :=
  let ls := split s (byte 10) in
  map chomp (if bool_decide (last ls = Some []) then take (length ls - 1) ls else ls).

(** [str::split_whitespace]. *)
Fixpoint words (cs : list str) (cur : str) : list str :=
  match cs with
  | [] => if bool_decide (cur = []) then [] else [cur]
  | c :: r => if is_whitespace c
              then (if bool_decide (cur = []) then words r [] else cur :: words r [])
              else words r (cur ++ c)
  end.
Definition split_whitespace (s : str) : list str := words (chars s) [].

Definition meminfo_value (line : str) : Z :=
  default 0 (split_whitespace line !! 1%nat ≫= parse_uint U64_MAX).

(** The loop body: the last matching line of each kind wins. *)
Definition meminfo_line (acc : Z * Z) (line : str) : Z * Z :=
  let '(avail, total) := acc in
  (if starts_with line "MemAvailable:" then meminfo_value line else avail,
   if starts_with line "MemTotal:" then meminfo_value line else total).

(** [info] is the text of /proc/meminfo, if it can be read. *)
Definition check_memory_pressure (info : option str) (threshold : spec_float) : bool :=
  match info with
  | Some info =>
      let '(mem_available, mem_total) := foldl meminfo_line (0, 0) (lines info) in
      if 0 <? mem_total
      then SFltb (f64_div (f64_of mem_available) (f64_of mem_total)) threshold
      else false
  | None => false
  end.

(** Two kernels' worth of text: 10% and 1% available. *)
Definition meminfo (avail : string) : str :=
  "MemTotal:       16000000 kB" ++ byte 10 :: "MemAvailable:   " ++ avail ++ " kB" ++ [byte 10].
Example pressure_low : check_memory_pressure (Some (meminfo "1600000")) MEMORY_PRESSURE_THRESHOLD = false.
Proof. vm_compute. reflexivity. Qed.
Example pressure_high : check_memory_pressure (Some (meminfo "160000")) MEMORY_PRESSURE_THRESHOLD = true.
Proof. vm_compute. reflexivity. Qed.
(** At exactly 5% the server still admits connections. *)
Example pressure_edge : check_memory_pressure (Some (meminfo "800000")) MEMORY_PRESSURE_THRESHOLD = false.
Proof. vm_compute. reflexivity. Qed.
