(* ===== verification/RateLimit.v ===== *)
(** * HTTP/2 reset-flood tracking (src/src/security/rate_limit.rs)

    A [ResetTracker] is its limit, its window and the mutex-protected state; an
    instant is a number of nanoseconds.  Theorems: the tracker only fires after
    more than [max] resets within one window length, and always fires on a burst
    of [2 max + 1]; it counts in consecutive windows, so a burst of [max + 1]
    across a window boundary goes unnoticed. *)

From S2P Require Import Prelude.

Record WindowState : Type := mkWindow { ws_count : Z; ws_started : Z }.
Record ResetTracker : Type := mkTracker { rt_max : Z; rt_window : Z; rt_state : WindowState }.

(** [Instant::duration_since] saturates at zero. *)
Definition duration_since (now earlier : Z) : Z := Z.max 0 (now - earlier).

Definition ResetTracker_new (max window now : Z) : ResetTracker :=
  mkTracker max window (mkWindow 0 now).

Definition record_reset (t : ResetTracker) (now : Z) : ResetTracker * bool :=
  let st := rt_state t in
  let st := if rt_window t <? duration_since now (ws_started st) then mkWindow 0 now else st in
  let st := mkWindow (wrap64 (ws_count st + 1)) (ws_started st) in
  (mkTracker (rt_max t) (rt_window t) st, rt_max t <? ws_count st).

Definition current (t : ResetTracker) : Z := ws_count (rt_state t).

(** One connection's resets, in order: the tracker after them, the answers. *)
Fixpoint record_all (t : ResetTracker) (times : list Z) : ResetTracker * list bool :=
  match times with
  | [] => (t, [])
  | now :: r =>
      let '(t, b) := record_reset t now in
      let '(t, bs) := record_all t r in
      (t, b :: bs)
  end.

(** ** The window invariant

    [hist] are the resets recorded so far, latest first.  The state counts the
    most recent ones, all of them inside the window that started at [ws_started];
    no reset older than the window start is counted. *)
Fixpoint sorted_from (lo : Z) (times : list Z) : Prop :=
  match times with
  | [] => True
  | x :: r => lo <= x /\ sorted_from x r
  end.

Lemma sorted_from_weaken lo lo' times : lo' <= lo -> sorted_from lo times -> sorted_from lo' times.
Proof. destruct times; cbn; [done|]. intros ? [? ?]. split; [lia|done]. Qed.

Lemma sorted_from_elem lo times x : sorted_from lo times -> x ∈ times -> lo <= x.
Proof.
  revert lo. induction times as [|y r IH]; intros lo; [set_solver|].
  cbn. intros [? Hs] [->|Hx]%elem_of_cons; [done|]. pose proof (IH y Hs Hx). lia.
Qed.

Lemma sorted_from_last lo past now x : sorted_from lo (past ++ [now]) -> x ∈ past -> x <= now.
Proof.
  revert lo. induction past as [|y r IH]; intros lo; [set_solver|].
  cbn. intros [? Hs] [->|Hx]%elem_of_cons; [|by eapply IH].
  apply (sorted_from_elem y (r ++ [now]) now); [done|set_solver].
Qed.

Definition counts (t : ResetTracker) (hist : list Z) : Prop :=
  let n := Z.to_nat (current t) in
  0 <= current t /\ (n <= length hist)%nat
  /\ (forall x, x ∈ take n hist -> ws_started (rt_state t) <= x <= ws_started (rt_state t) + rt_window t).

(** Recording at a later time with room for one more count. *)
Lemma record_reset_counts t hist now :
  counts t hist -> 0 <= rt_window t -> ws_started (rt_state t) <= now ->
  Z.of_nat (length hist) + 1 < 2 ^ 64 ->
  let '(t', b) := record_reset t now in
  counts t' (now :: hist) /\ b = (rt_max t <? current t')
  /\ rt_max t' = rt_max t /\ rt_window t' = rt_window t
  /\ ws_started (rt_state t) <= ws_started (rt_state t') <= now
  /\ 1 <= current t'.
Proof.
  intros (Hc0 & Hlen & Hin) Hw Hnow Hsz. unfold record_reset, counts, current in *.
  cbn [rt_state rt_max rt_window ws_count ws_started].
  destruct (rt_window t <? duration_since now (ws_started (rt_state t))) eqn:E;
    unfold duration_since in E; b2p; cbn [ws_count ws_started]; unfold wrap64;
    rewrite Z.mod_small by lia; (split_and!; try done; try lia).
  - cbn [length]. lia.
  - change (Z.to_nat (0 + 1)) with 1%nat. cbn. intros x ->%list_elem_of_singleton. lia.
  - cbn [length]. lia.
  - replace (Z.to_nat (ws_count (rt_state t) + 1)) with (S (Z.to_nat (ws_count (rt_state t)))) by lia.
    cbn [firstn]. intros x [->|Hx]%elem_of_cons; [lia|by apply Hin].
Qed.

Lemma record_all_app t xs ys :
  record_all t (xs ++ ys)
  = let '(t1, bs) := record_all t xs in
    let '(t2, cs) := record_all t1 ys in (t2, bs ++ cs).
Proof.
  revert t. induction xs as [|x xs IH]; intros t; cbn [record_all app].
  - by destruct (record_all t ys).
  - destruct (record_reset t x) as [t1 b]. rewrite IH. destruct (record_all t1 xs) as [t2 bs].
    by destruct (record_all t2 ys).
Qed.

Lemma record_all_counts t hist times rest :
  counts t hist -> 0 <= rt_window t -> sorted_from (ws_started (rt_state t)) (times ++ rest) ->
  Z.of_nat (length hist) + Z.of_nat (length times) < 2 ^ 64 ->
  let t' := fst (record_all t times) in
  counts t' (rev times ++ hist) /\ rt_max t' = rt_max t /\ rt_window t' = rt_window t
  /\ sorted_from (ws_started (rt_state t')) rest.
Proof.
  revert t hist. induction times as [|x times IH]; intros t hist Hc Hw Hs Hsz; [done|].
  cbn [app sorted_from] in Hs. destruct Hs as [Hx Hs]. cbn [length] in Hsz. cbn [record_all].
  pose proof (record_reset_counts t hist x Hc Hw Hx ltac:(lia)) as Hr.
  destruct (record_reset t x) as [t1 b]. destruct Hr as (Hc1 & _ & Hm1 & Hw1 & Hst1 & _).
  destruct (IH t1 (x :: hist) Hc1) as (Hc2 & Hm2 & Hw2 & Hs2).
  - by rewrite Hw1.
  - apply (sorted_from_weaken x); [lia|done].
  - cbn [length]. lia.
  - destruct (record_all t1 times) as [t2 bs]. cbn [fst] in *.
    cbn [rev]. rewrite <- app_assoc. cbn [app]. split_and!; [done|congruence..|done].
Qed.

Lemma new_counts max window t0 : counts (ResetTracker_new max window t0) [].
Proof. unfold counts. cbn. split_and!; [done|lia|set_solver]. Qed.

(** The tracker never fires on a peer within its rate: when it answers true at
    [now], more than [max] of the resets recorded so far lie within one window
    length before [now]. *)
Theorem record_reset_sound max window t0 past now :
  0 <= window -> sorted_from t0 (past ++ [now]) -> Z.of_nat (length past) + 1 < 2 ^ 64 ->
  snd (record_reset (fst (record_all (ResetTracker_new max window t0) past)) now) = true ->
  exists old recent, past ++ [now] = old ++ recent
    /\ max < Z.of_nat (length recent)
    /\ (forall x, x ∈ recent -> now - window <= x <= now).
Proof.
  intros Hw Hs Hsz Hb.
  pose proof (record_all_counts (ResetTracker_new max window t0) [] past [now]
    (new_counts _ _ _) Hw Hs ltac:(cbn; lia)) as H.
  cbn zeta in H. rewrite app_nil_r in H.
  destruct (record_all _ past) as [t bs]. cbn [fst] in *.
  destruct H as (Hc & Hmax & Hwin & Hnow). cbn [sorted_from] in Hnow. cbn in Hmax, Hwin.
  pose proof (record_reset_counts t (rev past) now Hc ltac:(lia) (proj1 Hnow)
    ltac:(rewrite length_rev; lia)) as Hr.
  destruct (record_reset t now) as [t' b]. cbn [snd] in Hb. subst b.
  destruct Hr as ((_ & Hlen & Hin) & Hgt & Hm & Hw' & Hst & Hone). symmetry in Hgt. b2p.
  exists (rev (drop (Z.to_nat (current t')) (now :: rev past))),
    (rev (take (Z.to_nat (current t')) (now :: rev past))).
  split_and!.
  - rewrite <- rev_app_distr, take_drop. cbn [rev]. by rewrite rev_involutive.
  - rewrite length_rev, length_take. lia.
  - intros x Hx. rewrite list_elem_of_In, <- in_rev, <- list_elem_of_In in Hx.
    pose proof (Hin x Hx) as [H1 H2]. rewrite Hw', Hwin in *.
    assert (now ∈ take (Z.to_nat (current t')) (now :: rev past)) as [_ Hn]%Hin.
    { replace (Z.to_nat (current t')) with (S (Z.to_nat (current t' - 1))) by lia. cbn. set_solver. }
    split; [lia|].
    apply (subseteq_take _ _ x) in Hx. apply elem_of_cons in Hx as [->|Hx]; [lia|].
    rewrite list_elem_of_In, <- in_rev, <- list_elem_of_In in Hx. by eapply sorted_from_last.
Qed.

(** ** Bursts *)

(** Once the window started inside the burst, every further reset is counted. *)
Lemma burst_same_window t lo times :
  0 <= current t -> current t + Z.of_nat (length times) < 2 ^ 64 ->
  ws_started (rt_state t) <= lo -> sorted_from lo times ->
  (forall x, x ∈ times -> x <= ws_started (rt_state t) + rt_window t) ->
  times <> [] -> rt_max t < current t + Z.of_nat (length times) ->
  true ∈ snd (record_all t times).
Proof.
  revert t lo. induction times as [|now r IH]; intros t lo Hc Hsz Hst Hs Hin Hne Hmax; [done|].
  cbn [length] in *. destruct Hs as [Hlo Hs]. pose proof (Hin now ltac:(set_solver)) as Hnow.
  cbn [record_all]. unfold record_reset, current in *. unfold duration_since.
  replace (rt_window t <? _) with false by (symmetry; apply Z.ltb_ge; lia).
  unfold wrap64. rewrite Z.mod_small by lia. cbn [ws_count ws_started].
  destruct (rt_max t <? ws_count (rt_state t) + 1) eqn:E; b2p.
  { destruct (record_all _ r) as [t2 bs]. cbn [snd]. set_solver. }
  destruct r as [|y r]; [cbn [length] in *; lia|].
  pose proof (IH (mkTracker (rt_max t) (rt_window t)
    (mkWindow (ws_count (rt_state t) + 1) (ws_started (rt_state t)))) now) as IH'.
  cbn [rt_state ws_count ws_started rt_max rt_window] in IH'.
  destruct (record_all _ (y :: r)) as [t2 bs]. cbn [snd] in *. apply elem_of_cons. right.
  apply IH'; try done; try lia. intros x Hx. apply Hin. set_solver.
Qed.

Lemma burst_any_window t lo hi times :
  0 <= current t -> current t + Z.of_nat (length times) < 2 ^ 64 ->
  ws_started (rt_state t) <= lo -> sorted_from lo times ->
  (forall x, x ∈ times -> x <= hi) -> hi <= lo + rt_window t -> 0 <= rt_max t ->
  2 * rt_max t + 1 <= current t + Z.of_nat (length times) ->
  rt_max t + 1 <= Z.of_nat (length times) ->
  true ∈ snd (record_all t times).
Proof.
  revert t lo. induction times as [|now r IH]; intros t lo Hc Hsz Hst Hs Hin Hhi Hm0 H2 Hmax;
    [cbn in Hmax; lia|].
  cbn [length] in *. destruct Hs as [Hlo Hs]. pose proof (Hin now ltac:(set_solver)) as Hnow.
  cbn [record_all]. unfold record_reset, current in *.
  destruct (rt_window t <? duration_since now (ws_started (rt_state t))) eqn:Eroll; b2p;
    cbn [ws_count ws_started].
  - change (wrap64 (0 + 1)) with 1.
    destruct (rt_max t <? 1) eqn:E; b2p.
    { destruct (record_all _ r) as [t2 bs]. cbn [snd]. set_solver. }
    destruct r as [|y r]; [cbn [length] in *; lia|].
    pose proof (burst_same_window (mkTracker (rt_max t) (rt_window t) (mkWindow 1 now)) now (y :: r)) as IH'.
    unfold current in IH'. cbn [rt_state ws_count ws_started rt_max rt_window] in IH'.
    destruct (record_all _ (y :: r)) as [t2 bs]. cbn [snd] in *. apply elem_of_cons. right.
    apply IH'; try done; try lia. intros x Hx. pose proof (Hin x ltac:(set_solver)). lia.
  - unfold wrap64. rewrite Z.mod_small by lia.
    destruct (rt_max t <? ws_count (rt_state t) + 1) eqn:E; b2p.
    { destruct (record_all _ r) as [t2 bs]. cbn [snd]. set_solver. }
    pose proof (IH (mkTracker (rt_max t) (rt_window t)
      (mkWindow (ws_count (rt_state t) + 1) (ws_started (rt_state t)))) now) as IH'.
    cbn [rt_state ws_count ws_started rt_max rt_window] in IH'.
    destruct (record_all _ r) as [t2 bs]. cbn [snd] in *. apply elem_of_cons. right.
    apply IH'; try done; try lia. intros x Hx. apply Hin. set_solver.
Qed.

(** A reset flood is always caught: in any state reached by a connection, a
    burst of [2 max + 1] resets within one window length makes the tracker answer
    true during the burst. *)
Theorem record_reset_complete max window t0 past burst lo :
  0 <= max -> 0 <= window ->
  sorted_from t0 (past ++ burst) -> sorted_from lo burst -> (forall x, x ∈ past -> x <= lo) -> t0 <= lo ->
  (forall x, x ∈ burst -> x <= lo + window) ->
  2 * max + 1 <= Z.of_nat (length burst) ->
  Z.of_nat (length past) + Z.of_nat (length burst) < 2 ^ 64 ->
  true ∈ snd (record_all (fst (record_all (ResetTracker_new max window t0) past)) burst).
Proof.
  intros Hm Hw Hs Hb Hpast Hlo Hin Hlen Hsz.
  pose proof (record_all_counts (ResetTracker_new max window t0) [] past burst
    (new_counts _ _ _) Hw Hs ltac:(cbn; lia)) as H.
  cbn zeta in H. rewrite app_nil_r in H.
  destruct (record_all _ past) as [t bs]. cbn [fst] in *.
  destruct H as ((Hc & Hcl & _) & Hmax & Hwin & Hst). cbn in Hmax, Hwin. rewrite length_rev in Hcl.
  destruct burst as [|b0 burst]; [cbn in Hlen; lia|].
  cbn [sorted_from] in Hst, Hb.
  apply (burst_any_window t b0 (lo + window)); rewrite ?Hmax, ?Hwin; try lia; try done.
  cbn. split; [lia|]. apply Hst.
Qed.

(** C29. The tracker is sound and, for floods, complete.  When it fires, more than
    [max] of the resets recorded lie within one window length before; and a burst of
    [2 max + 1] resets within one window length, in any state a connection can be in,
    makes it fire during the burst. *)
Theorem record_reset_exact max window t0 past :
  0 <= max -> 0 <= window ->
  let t := fst (record_all (ResetTracker_new max window t0) past) in
  (forall now, sorted_from t0 (past ++ [now]) -> Z.of_nat (length past) + 1 < 2 ^ 64 ->
     snd (record_reset t now) = true ->
     exists old recent, past ++ [now] = old ++ recent
       /\ max < Z.of_nat (length recent) /\ (forall x, x ∈ recent -> now - window <= x <= now))
  /\ (forall burst lo, sorted_from t0 (past ++ burst) -> sorted_from lo burst ->
        (forall x, x ∈ past -> x <= lo) -> t0 <= lo -> (forall x, x ∈ burst -> x <= lo + window) ->
        2 * max + 1 <= Z.of_nat (length burst) -> Z.of_nat (length past) + Z.of_nat (length burst) < 2 ^ 64 ->
        true ∈ snd (record_all t burst)).
Proof.
  intros Hm Hw t. split; [intros now; by apply record_reset_sound|].
  intros burst lo. by apply record_reset_complete.
Qed.

(** The window is not sliding: with a limit of 2 in 10 ns, resets at 9, 10, 11
    and 12 ns, four within 3 ns, are never reported. *)
Theorem tumbling_window_gap :
  snd (record_all (ResetTracker_new 2 10 0) [9; 10; 11; 12]) = [false; false; false; false].
Proof. reflexivity. Qed.

(** ** The theorems at concrete inputs *)

Lemma record_reset_sound_witness :
  exists old recent, [1; 2] ++ [3] = old ++ recent
    /\ 2 < Z.of_nat (length recent) /\ (forall x, x ∈ recent -> 3 - 10 <= x <= 3).
Proof. apply (record_reset_sound 2 10 0 [1; 2] 3); cbn; try lia; try done. Defined.

Lemma record_reset_complete_witness :
  true ∈ snd (record_all (fst (record_all (ResetTracker_new 1 10 0) [9])) [10; 11; 12]).
Proof. apply (record_reset_complete 1 10 0 [9] [10; 11; 12] 10); cbn; try lia; set_solver by lia. Defined.

Lemma record_reset_exact_witness :
  true ∈ snd (record_all (fst (record_all (ResetTracker_new 1 10 0) [9])) [10; 11; 12]).
Proof.
  apply (proj2 (record_reset_exact 1 10 0 [9] ltac:(lia) ltac:(lia)) [10; 11; 12] 10); cbn; try lia; set_solver by lia.
Defined.
