(* ===== verification/Privilege.v ===== *)
(** * Dropping privileges after binding (src/src/security/privilege.rs)

    [drop_privileges] over an interface of the system calls it makes; the result
    carries the calls in order.  Theorem: after success the process has the
    account's ids and only its group and cannot become root again, and the calls
    are made in the only safe order. *)

From S2P Require Import Prelude.
From S2P Require Import Str.

(** The identity system calls: a call returns the new process or fails. *)
Class Unix : Type := {
  Process : Type;
  geteuid : Process -> Z;
  getegid : Process -> Z;
  getgroups : Process -> list Z;
  setgroups : list Z -> Process -> option Process;
  setgid : Z -> Process -> option Process;
  setuid : Z -> Process -> option Process;
}.

(** What the manual pages say a successful call changes and keeps. *)
Class UnixLaws (X : Unix) : Prop := {
  setgroups_groups gs p p' :
    setgroups gs p = Some p' ->
    getgroups p' = gs /\ getegid p' = getegid p /\ geteuid p' = geteuid p;
  setgid_gid g p p' :
    setgid g p = Some p' ->
    getegid p' = g /\ getgroups p' = getgroups p /\ geteuid p' = geteuid p;
  setuid_uid u p p' :
    setuid u p = Some p' ->
    geteuid p' = u /\ getgroups p' = getgroups p /\ getegid p' = getegid p;
}.

Record User : Type := mkUser { user_uid : Z; user_gid : Z }.

(** The calls made, in order, with their outcome. *)
Inductive Call : Type :=
  | CallSetgroups (gs : list Z) (ok : bool)
  | CallSetgid (g : Z) (ok : bool)
  | CallSetuid (u : Z) (ok : bool).

Inductive DropError : Type :=
  | LookupFailed | UserNotFound | SetgroupsFailed | SetgidFailed | SetuidFailed | CanRegainRoot.

Section drop.
Context {X : Unix}.

(** [lookup]: the outcome of [User::from_name], [None] for an error. *)
Definition drop_privileges (lookup : option (option User)) (p : Process)
    : res DropError Process * list Call :=
  if negb (geteuid p =? 0) then (Ok p, [])
  else match lookup with
  | None => (Err LookupFailed, [])
  | Some None => (Err UserNotFound, [])
  | Some (Some user) =>
      match setgroups [user_gid user] p with
      | None => (Err SetgroupsFailed, [CallSetgroups [user_gid user] false])
      | Some p =>
          let t1 := [CallSetgroups [user_gid user] true] in
          match setgid (user_gid user) p with
          | None => (Err SetgidFailed, t1 ++ [CallSetgid (user_gid user) false])
          | Some p =>
              let t2 := t1 ++ [CallSetgid (user_gid user) true] in
              match setuid (user_uid user) p with
              | None => (Err SetuidFailed, t2 ++ [CallSetuid (user_uid user) false])
              | Some p =>
                  let t3 := t2 ++ [CallSetuid (user_uid user) true] in
                  if negb (user_uid user =? 0) then
                    match setuid 0 p with
                    | Some _ => (Err CanRegainRoot, t3 ++ [CallSetuid 0 true])
                    | None => (Ok p, t3 ++ [CallSetuid 0 false])
                    end
                  else (Ok p, t3)
              end
          end
      end
  end.
End drop.

(** The order in which the calls may happen: each only after the previous one
    succeeded, nothing after a failure, and no second uid but the root probe. *)
Inductive safe_trace (user : User) : list Call -> Prop :=
  | st_none : safe_trace user []
  | st_groups b : safe_trace user [CallSetgroups [user_gid user] b]
  | st_gid b :
      safe_trace user [CallSetgroups [user_gid user] true; CallSetgid (user_gid user) b]
  | st_uid b :
      safe_trace user [CallSetgroups [user_gid user] true; CallSetgid (user_gid user) true;
                       CallSetuid (user_uid user) b]
  | st_probe b :
      safe_trace user [CallSetgroups [user_gid user] true; CallSetgid (user_gid user) true;
                       CallSetuid (user_uid user) true; CallSetuid 0 b].

Section properties.
Context {X : Unix} {L : UnixLaws X}.

(** C28. A root process that drops privileges successfully ends with the account's
    uid and gid and that group alone, and cannot set its uid to root again; the
    calls were groups, gid, uid, in that order, whatever failed; a process that
    is not root makes no call. *)
Theorem drop_privileges_spec user p :
  let '(r, calls) := drop_privileges (Some (Some user)) p in
  (geteuid p <> 0 -> r = Ok p /\ calls = [])
  /\ safe_trace user calls
  /\ (geteuid p = 0 -> forall p', r = Ok p' ->
        geteuid p' = user_uid user /\ getegid p' = user_gid user
        /\ getgroups p' = [user_gid user] /\ (user_uid user <> 0 -> setuid 0 p' = None)).
Proof.
  unfold drop_privileges. destruct (geteuid p =? 0) eqn:E0; cbn [negb]; b2p.
  2:{ split_and!; [done|constructor|done]. }
  destruct (setgroups _ p) as [p1|] eqn:E1; [|split_and!; [done|constructor|done]].
  destruct (setgid _ p1) as [p2|] eqn:E2; [|split_and!; [done|constructor|done]].
  destruct (setuid (user_uid user) p2) as [p3|] eqn:E3; [|split_and!; [done|constructor|done]].
  apply setgroups_groups in E1 as (Hg1 & _ & _). apply setgid_gid in E2 as (Hi2 & Hg2 & _).
  apply setuid_uid in E3 as (Hu3 & Hg3 & Hi3).
  destruct (user_uid user =? 0) eqn:Ez; cbn [negb]; b2p.
  - split_and!; [done|constructor|]. intros _ p' [= <-]. split_and!; congruence.
  - destruct (setuid 0 p3) eqn:E4; (split_and!; [done|constructor|]); [done|].
    intros _ p' [= <-]. by split_and!; try congruence.
Qed.
End properties.

(** ** A process with real, effective and saved ids *)

Record Ids : Type := mkIds { id_euid : Z; id_saved : Z; id_egid : Z; id_groups : list Z }.
Definition posix : Unix := {|
  Process := Ids;
  geteuid := id_euid;
  getegid := id_egid;
  getgroups := id_groups;
  setgroups gs p := if id_euid p =? 0 then Some (mkIds (id_euid p) (id_saved p) (id_egid p) gs) else None;
  setgid g p := if id_euid p =? 0 then Some (mkIds (id_euid p) (id_saved p) g (id_groups p)) else None;
  setuid u p :=
    if id_euid p =? 0 then Some (mkIds u u (id_egid p) (id_groups p))
    else if u =? id_saved p then Some (mkIds u (id_saved p) (id_egid p) (id_groups p)) else None;
|}.
#[export] Instance posix_laws : UnixLaws posix.
Proof.
  split; intros x p p'; cbn; repeat case_match; intros [= <-]; cbn; done.
Qed.

Lemma drop_privileges_spec_witness :
  let root := mkIds 0 0 0 [0; 4] in
  @setuid posix 0 (mkIds 33 33 33 [33]) = None
  /\ fst (@drop_privileges posix (Some (Some (mkUser 33 33))) root) = Ok (mkIds 33 33 33 [33]).
Proof.
  pose proof (@drop_privileges_spec posix posix_laws (mkUser 33 33) (mkIds 0 0 0 [0; 4])) as H.
  cbn in H. destruct H as (_ & _ & H).
  split; [exact (proj2 (proj2 (proj2 (H eq_refl _ eq_refl))) ltac:(done))|reflexivity].
Defined.
