(* ===== verification/Balance.v ===== *)
(** * Upstream load balancing (src/src/balance.rs)

    A pool is its round-robin cursor and its in-flight gauges, kept by pool name;
    selection returns the updated balancer with the ordered candidates.  Theorems:
    the candidates are always a permutation of the servers, a full turn of the
    cursor serves each server exactly its weight, least-conn lists the servers by
    weighted load, and the gauges count the live guards.  Gaps: where the cursor wraps
    around, a turn is unfair unless the weights divide 2^64; the least-conn comparator
    reads gauges that change while it sorts. *)

From Stdlib Require Import Permutation Sorting.Sorted.
From S2P Require Import Prelude.
From S2P Require Import Str.
From S2P Require Import Net.
From S2P Require Import Config.

Record PoolState : Type := mkPool { rr_cursor : Z; inflight : list Z }.
Record Balancer : Type := mkBalancer { pools : gmap str PoolState }.

(** A guard holds the pool it counts in: one of the balancer's, by name, or an
    ephemeral one nobody else sees ([None]). *)
Record InflightGuard : Type := mkGuard { ig_pool : option str; ig_idx : nat }.

Definition server_weight (s : UpstreamServer) : Z := Z.max (us_weight s) 1.

Definition weight_of (upstream : UpstreamRef) (idx : nat) : Z :=
  match ur_servers upstream !! idx with Some s => server_weight s | None => 1 end.

Definition total_weight (upstream : UpstreamRef) : Z :=
  Z.max (wrap64 (sum_Z (map server_weight (ur_servers upstream)))) 1.

Fixpoint point_loop (cumulative : Z) (i : nat) (servers : list UpstreamServer) (point : Z) : nat :=
  match servers with
  | [] => 0
  | s :: r =>
      let cumulative := wrap64 (cumulative + server_weight s) in
      if point <? cumulative then i else point_loop cumulative (S i) r point
  end.
Definition index_for_point (upstream : UpstreamRef) (point : Z) : nat :=
  point_loop 0 0 (ur_servers upstream) point.

Definition ring_order (primary n : nat) : list nat :=
  map (fun off => ((primary + off) mod n)%nat) (seq 0 n).

(** ** Construction *)

Definition fresh_pool (u : UpstreamRef) : PoolState := mkPool 0 (map (fun _ => 0) (ur_servers u)).
(** [entry().or_insert_with()]: the first pool of a name wins. *)
Definition add_pool (m : gmap str PoolState) (u : UpstreamRef) : gmap str PoolState :=
  match m !! ur_name u with Some _ => m | None => <[ur_name u := fresh_pool u]> m end.
Definition block_upstreams (block : HttpBlock) : list UpstreamRef :=
  hb_upstreams block
  ++ omap (fun l => h_upstream (loc_handler l)) (hb_locations block)
  ++ option_list (hb_connect_upstream block).
Definition Balancer_new (block : HttpBlock) : Balancer :=
  mkBalancer (foldl add_pool ∅ (block_upstreams block)).
Definition for_upstream (u : UpstreamRef) : Balancer :=
  mkBalancer {[ur_name u := fresh_pool u]}.

Definition pool (b : Balancer) (name : str) (servers : nat) : PoolState :=
  default (mkPool 0 (replicate servers 0)) (pools b !! name).

(** An update of a named pool; an ephemeral pool is dropped. *)
Definition set_pool (b : Balancer) (name : str) (p : PoolState) : Balancer :=
  match pools b !! name with
  | Some _ => mkBalancer (<[name := p]> (pools b))
  | None => b
  end.

(** ** Selection *)

(** [sort_by] is stable: insertion before the first strictly greater element. *)
Fixpoint insert_by (gt : nat -> nat -> bool) (x : nat) (l : list nat) : list nat :=
  match l with
  | [] => [x]
  | y :: r => if gt x y then y :: insert_by gt x r else x :: l
  end.
Definition stable_sort (gt : nat -> nat -> bool) (l : list nat) : list nat :=
  foldr (insert_by gt) [] l.

(** The weighted load of a server: (inflight + 1) and the weight. *)
Definition load (p : PoolState) (upstream : UpstreamRef) (i : nat) : Z * Z :=
  (wrap64 (default 0 (inflight p !! i) + 1), weight_of upstream i).
Definition load_gt (p : PoolState) (upstream : UpstreamRef) (a b : nat) : bool :=
  let '(la, wa) := load p upstream a in
  let '(lb, wb) := load p upstream b in
  wrap64 (lb * wa) <? wrap64 (la * wb).

Section candidates.
(** [DefaultHasher] of an address. *)
Variable hash_ip : IpAddr -> Z.

Definition candidates (b : Balancer) (upstream : UpstreamRef) (client : IpAddr)
    : Balancer * list nat :=
  let n := length (ur_servers upstream) in
  if bool_decide (n = 0%nat) then (b, [])
  else if bool_decide (n = 1%nat) then (b, [0%nat])
  else
    let p := pool b (ur_name upstream) n in
    if bool_decide (ur_strategy upstream = "least-conn") then
      (b, stable_sort (load_gt p upstream) (seq 0 n))
    else if bool_decide (ur_strategy upstream = "ip-hash") then
      let primary := index_for_point upstream (hash_ip client mod total_weight upstream) in
      (b, ring_order primary n)
    else
      let tick := rr_cursor p in
      let b := set_pool b (ur_name upstream) (mkPool (wrap64 (tick + 1)) (inflight p)) in
      let primary := index_for_point upstream (tick mod total_weight upstream) in
      (b, ring_order primary n).
End candidates.

(** ** In-flight accounting *)

Definition gauge_add (p : PoolState) (idx : nat) (d : Z) : PoolState :=
  mkPool (rr_cursor p) (alter (fun g => wrap64 (g + d)) idx (inflight p)).

Definition track (b : Balancer) (upstream : UpstreamRef) (idx : nat) : Balancer * InflightGuard :=
  let name := ur_name upstream in
  match pools b !! name with
  | Some p => (set_pool b name (gauge_add p idx 1), mkGuard (Some name) idx)
  | None => (b, mkGuard None idx)
  end.

(** [Drop for InflightGuard]. *)
Definition drop_guard (b : Balancer) (g : InflightGuard) : Balancer :=
  match ig_pool g with
  | Some name =>
      match pools b !! name with
      | Some p => set_pool b name (gauge_add p (ig_idx g) (-1))
      | None => b
      end
  | None => b
  end.

(** ** The ring sweeps every server once *)

Lemma ring_order_perm primary n : ring_order primary n ≡ₚ seq 0 n.
Proof.
  destruct (decide (n = 0%nat)) as [->|Hn]; [done|].
  symmetry. apply submseteq_length_Permutation.
  2:{ unfold ring_order. by rewrite length_map. }
  apply NoDup_submseteq; [apply NoDup_seq|].
  intros i Hi%elem_of_seq. unfold ring_order. apply list_elem_of_fmap.
  exists ((i + (n - primary mod n)) mod n)%nat. split.
  - pose proof (Nat.mod_upper_bound primary n Hn).
    rewrite Nat.Div0.add_mod_idemp_r.
    rewrite <- (Nat.Div0.add_mod_idemp_l primary).
    replace (primary mod n + (i + (n - primary mod n)))%nat with (i + 1 * n)%nat by lia.
    rewrite Nat.Div0.mod_add. symmetry. apply Nat.mod_small. lia.
  - apply elem_of_seq. pose proof (Nat.mod_upper_bound (i + (n - primary mod n)) n Hn). lia.
Qed.

Lemma insert_by_perm gt x l : insert_by gt x l ≡ₚ x :: l.
Proof.
  induction l as [|y r IH]; cbn; [done|]. destruct (gt x y); [|done].
  rewrite IH. apply perm_swap.
Qed.

Lemma stable_sort_perm gt l : stable_sort gt l ≡ₚ l.
Proof. induction l as [|x r IH]; cbn; [done|]. by rewrite insert_by_perm, IH. Qed.

Lemma candidates_perm hash b upstream client :
  snd (candidates hash b upstream client) ≡ₚ seq 0 (length (ur_servers upstream)).
Proof.
  unfold candidates. case_bool_decide as E0; [by rewrite E0|].
  case_bool_decide as E1; [by rewrite E1|].
  case_bool_decide; [apply stable_sort_perm|].
  case_bool_decide; apply ring_order_perm.
Qed.

(** Whatever the strategy, the state and the client, the candidates list every
    server of the pool exactly once: failover sweeps the whole pool and never
    tries a server twice. *)
Theorem candidates_permutation hash b upstream client :
  let order := snd (candidates hash b upstream client) in
  NoDup order /\ (forall i, i ∈ order <-> is_Some (ur_servers upstream !! i)).
Proof.
  cbv zeta. split.
  - rewrite candidates_perm. apply NoDup_seq.
  - intros i. rewrite candidates_perm, elem_of_seq, lookup_lt_is_Some. lia.
Qed.

(** ** Weighted round-robin *)

Lemma server_weight_pos s : 1 <= server_weight s.
Proof. unfold server_weight. lia. Qed.

Lemma sum_weights_nonneg l : Z.of_nat (length l) <= sum_Z (map server_weight l).
Proof.
  induction l as [|s l IH]; cbn [map length sum_Z foldr]; [done|].
  pose proof (server_weight_pos s). unfold sum_Z in IH. lia.
Qed.

Lemma total_weight_sum u :
  ur_servers u <> [] -> sum_Z (map server_weight (ur_servers u)) < 2 ^ 64 ->
  total_weight u = sum_Z (map server_weight (ur_servers u)).
Proof.
  intros Hne Hs. unfold total_weight, wrap64. pose proof (sum_weights_nonneg (ur_servers u)).
  destruct (ur_servers u) as [|s l]; [done|]. cbn [length] in *.
  rewrite Z.mod_small by lia. lia.
Qed.

Definition occurrences (i : nat) (l : list nat) : Z :=
  Z.of_nat (length (filter (fun j => j = i) l)).

Lemma occurrences_app i l k : occurrences i (l ++ k) = occurrences i l + occurrences i k.
Proof. unfold occurrences. rewrite filter_app, length_app. lia. Qed.

Lemma occurrences_perm i l k : l ≡ₚ k -> occurrences i l = occurrences i k.
Proof. unfold occurrences. by intros ->. Qed.

Lemma occurrences_const i j n :
  occurrences i (replicate n j) = if decide (j = i) then Z.of_nat n else 0.
Proof.
  unfold occurrences. induction n as [|n IH]; cbn [replicate]; [by case_decide|].
  rewrite filter_cons. repeat case_decide; cbn [length]; try done. lia.
Qed.

(** The points of [cum, cum + sum) map onto each server as often as its weight. *)
Lemma point_loop_counts servers cum j i :
  0 <= cum -> cum + sum_Z (map server_weight servers) < 2 ^ 64 ->
  occurrences i (map (point_loop cum j servers) (seqZ cum (sum_Z (map server_weight servers))))
  = match (if decide (j <= i)%nat then servers !! (i - j)%nat else None) with
    | Some s => server_weight s
    | None => 0
    end.
Proof.
  revert cum j. induction servers as [|s r IH]; intros cum j Hc Hs; cbn [map sum_Z foldr].
  - rewrite lookup_nil. by case_decide.
  - pose proof (server_weight_pos s) as Hw. pose proof (sum_weights_nonneg r) as Hr.
    cbn [map sum_Z foldr] in Hs. fold (sum_Z (map server_weight r)) in *.
    rewrite seqZ_app, map_app, occurrences_app by lia.
    assert (wrap64 (cum + server_weight s) = cum + server_weight s) as Hwr
      by (unfold wrap64; apply Z.mod_small; lia).
    assert (map (point_loop cum j (s :: r)) (seqZ cum (server_weight s))
            = replicate (Z.to_nat (server_weight s)) j) as ->.
    { symmetry. apply replicate_as_elem_of. split; [by rewrite length_map, length_seqZ|].
      intros x (p & -> & Hp%elem_of_seqZ)%list_elem_of_fmap. cbn. rewrite Hwr.
      by rewrite (proj2 (Z.ltb_lt _ _)) by lia. }
    assert (map (point_loop cum j (s :: r)) (seqZ (cum + server_weight s) (sum_Z (map server_weight r)))
            = map (point_loop (cum + server_weight s) (S j) r)
                (seqZ (cum + server_weight s) (sum_Z (map server_weight r)))) as ->.
    { apply map_ext_in. intros p Hp%list_elem_of_In%elem_of_seqZ. cbn. rewrite Hwr.
      by rewrite (proj2 (Z.ltb_ge _ _)) by lia. }
    rewrite occurrences_const, IH by lia.
    destruct (decide (j = i)) as [->|Hne].
    + rewrite (decide_False (P := (S i <= i)%nat)), (decide_True (P := (i <= i)%nat)) by lia.
      rewrite Nat.sub_diag. cbn. lia.
    + destruct (decide (S j <= i)%nat).
      * rewrite (decide_True (P := (j <= i)%nat)) by lia.
        replace (i - j)%nat with (S (i - S j)) by lia. apply Z.add_0_l.
      * rewrite (decide_False (P := (j <= i)%nat)) by lia. lia.
Qed.

Lemma index_for_point_counts u i :
  sum_Z (map server_weight (ur_servers u)) < 2 ^ 64 ->
  occurrences i (map (index_for_point u) (seqZ 0 (sum_Z (map server_weight (ur_servers u)))))
  = match ur_servers u !! i with Some s => server_weight s | None => 0 end.
Proof.
  intros Hs. pose proof (point_loop_counts (ur_servers u) 0 0 i ltac:(lia) ltac:(lia)) as H.
  rewrite decide_True, Nat.sub_0_r in H by lia. exact H.
Qed.

(** Residues of [w] consecutive ticks: every point once. *)
Lemma residues_perm c w :
  0 < w -> map (fun t => t mod w) (seqZ c w) ≡ₚ seqZ 0 w.
Proof.
  intros Hw. symmetry. apply submseteq_length_Permutation.
  2:{ by rewrite length_map, !length_seqZ. }
  apply NoDup_submseteq; [apply NoDup_seqZ|].
  intros p Hp%elem_of_seqZ. apply list_elem_of_fmap. exists (c + (p - c) mod w). split.
  - rewrite Z.add_mod_idemp_r by lia. replace (c + (p - c)) with p by lia.
    symmetry. apply Z.mod_small. lia.
  - apply elem_of_seqZ. pose proof (Z.mod_pos_bound (p - c) w Hw). lia.
Qed.

(** The first choices of [k] successive requests. *)
Fixpoint picks (hash : IpAddr -> Z) (b : Balancer) (u : UpstreamRef) (ip : IpAddr) (k : nat)
    : list nat :=
  match k with
  | O => []
  | S k =>
      let '(b, order) := candidates hash b u ip in
      option_list (head order) ++ picks hash b u ip k
  end.

Definition is_round_robin (u : UpstreamRef) : Prop :=
  ur_strategy u <> "least-conn" /\ ur_strategy u <> "ip-hash" /\ (2 <= length (ur_servers u))%nat.

Lemma point_loop_lt cum j servers p :
  (point_loop cum j servers p < j + length servers)%nat \/ point_loop cum j servers p = 0%nat.
Proof.
  revert cum j. induction servers as [|s r IH]; intros cum j; cbn [point_loop]; [by right|].
  case_match; cbn [length]; [left; lia|]. destruct (IH (wrap64 (cum + server_weight s)) (S j)); [left; lia|by right].
Qed.

Lemma head_ring_order primary n : (primary < n)%nat -> head (ring_order primary n) = Some primary.
Proof.
  intros Hp. destruct n; [lia|]. unfold ring_order. cbn [seq map head].
  rewrite Nat.add_0_r. by rewrite Nat.mod_small.
Qed.

Lemma candidates_round_robin hash b u ip p :
  is_round_robin u -> pools b !! ur_name u = Some p ->
  let '(b', order) := candidates hash b u ip in
  pools b' !! ur_name u = Some (mkPool (wrap64 (rr_cursor p + 1)) (inflight p))
  /\ head order = Some (index_for_point u (rr_cursor p mod total_weight u)).
Proof.
  intros (H1 & H2 & Hn) Hp. unfold candidates.
  rewrite (bool_decide_eq_false_2 (length (ur_servers u) = 0%nat)) by lia.
  rewrite (bool_decide_eq_false_2 (length (ur_servers u) = 1%nat)) by lia.
  rewrite !bool_decide_eq_false_2 by done.
  unfold pool, set_pool. rewrite Hp. cbn [default rr_cursor inflight]. split.
  - cbn [pools]. apply lookup_insert_eq.
  - apply head_ring_order. unfold index_for_point.
    destruct (point_loop_lt 0 0 (ur_servers u) (rr_cursor p mod total_weight u)); lia.
Qed.

(** [c]: the tick of the first request, before it is wrapped. *)
Lemma picks_round_robin hash b u ip p c k :
  is_round_robin u -> pools b !! ur_name u = Some p -> rr_cursor p = wrap64 c ->
  picks hash b u ip k
  = map (fun t => index_for_point u (wrap64 t mod total_weight u)) (seqZ c (Z.of_nat k)).
Proof.
  intros Hrr. revert b p c. induction k as [|k IH]; intros b p c Hp Hc; [done|].
  cbn [picks]. pose proof (candidates_round_robin hash b u ip p Hrr Hp) as H.
  destruct (candidates hash b u ip) as [b' order]. destruct H as [Hp' Hh].
  rewrite seqZ_cons by lia. cbn [map]. rewrite Hh, Hc. cbn [option_list app]. f_equal.
  replace (Z.pred (Z.of_nat (S k))) with (Z.of_nat k) by lia.
  apply (IH b' _ _ Hp'). cbn [rr_cursor]. rewrite Hc. unfold wrap64. by rewrite Z.add_mod_idemp_l.
Qed.

(** A tick and its wrapped value have the same residue, before the wrap or when the
    weight divides it. *)
Lemma wrapped_residue t w : 0 < w -> 0 <= t < 2 ^ 64 \/ 2 ^ 64 mod w = 0 -> wrap64 t mod w = t mod w.
Proof.
  intros Hw Ht. unfold wrap64. destruct Ht as [Ht|Hd]; [by rewrite (Z.mod_small t)|].
  apply Z.mod_divide in Hd; [|lia]. by apply Z.mod_mod_divide.
Qed.

(** C30. Weighted round-robin is exactly fair: over as many successive requests as the
    total weight, each server is the first choice as often as its weight, from any
    cursor value as long as the cursor does not wrap at 2^64 during them or the total
    weight is a power of two that divides 2^64 (see [round_robin_wrap_gap]). *)
Theorem round_robin_fair hash b u ip p i s :
  is_round_robin u -> pools b !! ur_name u = Some p ->
  sum_Z (map server_weight (ur_servers u)) < 2 ^ 64 ->
  0 <= rr_cursor p < 2 ^ 64 -> rr_cursor p + total_weight u <= 2 ^ 64 \/ 2 ^ 64 mod total_weight u = 0 ->
  ur_servers u !! i = Some s ->
  occurrences i (picks hash b u ip (Z.to_nat (total_weight u))) = server_weight s.
Proof.
  intros Hrr Hp Hs Hc Hk Hi.
  assert (ur_servers u <> []) as Hne by (destruct Hrr as (_ & _ & ?); destruct (ur_servers u); [cbn in *; lia|done]).
  assert (0 < total_weight u) as Hpos by (unfold total_weight; lia).
  rewrite (picks_round_robin hash b u ip p (rr_cursor p)) by (done || unfold wrap64; by rewrite Z.mod_small).
  rewrite Z2Nat.id by lia.
  rewrite (map_ext_in _ (fun t => index_for_point u (t mod total_weight u))).
  2:{ intros t Ht%list_elem_of_In%elem_of_seqZ. rewrite wrapped_residue; [done..|]. destruct Hk; [left; lia|by right]. }
  rewrite <- (map_map (fun t => t mod total_weight u) (index_for_point u)).
  rewrite (occurrences_perm i _ _ (Permutation_map _ (residues_perm (rr_cursor p) _ Hpos))).
  rewrite total_weight_sum by done. rewrite index_for_point_counts by done. by rewrite Hi.
Qed.

(** ** Least connections *)

Section least_conn.
Variable p : PoolState.
Variable u : UpstreamRef.

Definition busy (i : nat) : Z := default 0 (inflight p !! i) + 1.
Definition weight (i : nat) : Z := weight_of u i.

(** Server [a] is preferred to [b]: less weighted load, or the same and listed
    earlier. *)
Definition preferred (a b : nat) : Prop :=
  busy a * weight b < busy b * weight a
  \/ (busy a * weight b = busy b * weight a /\ (a < b)%nat).

(** No product overflows 64 bits. *)
Definition small : Prop :=
  (forall g, g ∈ inflight p -> 0 <= g < 2 ^ 32 - 1) /\ (forall s, s ∈ ur_servers u -> is_u32 (us_weight s)).

Hypothesis Hsmall : small.

Lemma weight_bounds i : 1 <= weight i < 2 ^ 32.
Proof.
  unfold weight, weight_of. destruct (ur_servers u !! i) as [s|] eqn:E; [|lia].
  apply list_elem_of_lookup_2, (proj2 Hsmall) in E as [? ?].
  unfold server_weight, U32_MAX in *. lia.
Qed.

Lemma busy_bounds i : 1 <= busy i < 2 ^ 32.
Proof.
  unfold busy. destruct (inflight p !! i) as [g|] eqn:E; cbn [default]; [|lia].
  apply list_elem_of_lookup_2 in E. pose proof (proj1 Hsmall g E). cbn. lia.
Qed.

Lemma load_gt_spec a b : load_gt p u a b = true <-> busy b * weight a < busy a * weight b.
Proof.
  unfold load_gt, load. pose proof (busy_bounds a). pose proof (busy_bounds b).
  pose proof (weight_bounds a). pose proof (weight_bounds b).
  fold (busy a) (busy b) (weight a) (weight b). unfold wrap64.
  rewrite (Z.mod_small (busy a)), (Z.mod_small (busy b)) by lia.
  rewrite (Z.mod_small (busy a * weight b)), (Z.mod_small (busy b * weight a)) by nia.
  apply Z.ltb_lt.
Qed.

Lemma preferred_trans a b c : preferred a b -> preferred b c -> preferred a c.
Proof.
  pose proof (weight_bounds a). pose proof (weight_bounds b). pose proof (weight_bounds c).
  unfold preferred. set (x := busy a * weight b). set (y := busy b * weight a).
  assert (forall k l, k * weight b < l * weight b <-> k < l) as Hlt by (intros; nia).
  intros Hab Hbc.
  assert (busy a * weight c * weight b = x * weight c) as E1 by (unfold x; ring).
  assert (busy c * weight a * weight b = busy c * weight b * weight a) as E2 by ring.
  assert (y * weight c = busy b * weight c * weight a) as E3 by (unfold y; ring).
  rewrite <- (Hlt (busy a * weight c)). rewrite E1, E2.
  destruct Hab as [Hab|[Hab ?]], Hbc as [Hbc|[Hbc ?]].
  - left. nia.
  - left. nia.
  - left. nia.
  - right. split; [|lia]. nia.
Qed.

Lemma insert_sorted x l :
  (forall y, y ∈ l -> (x < y)%nat) -> StronglySorted preferred l ->
  StronglySorted preferred (insert_by (load_gt p u) x l).
Proof.
  intros Hx Hl. induction Hl as [|y r Hr IH Hy]; cbn [insert_by]; [repeat constructor|].
  destruct (load_gt p u x y) eqn:E.
  - apply load_gt_spec in E. constructor; [apply IH; set_solver|].
    apply List.Forall_forall. intros z Hz%list_elem_of_In.
    rewrite insert_by_perm in Hz. apply elem_of_cons in Hz as [->|Hz]; [by left|].
    rewrite Forall_forall in Hy. by apply Hy.
  - assert (preferred x y) as Hxy.
    { pose proof (Hx y ltac:(set_solver)). pose proof (proj2 (load_gt_spec x y)) as Hn. unfold preferred.
      destruct (Z.lt_trichotomy (busy x * weight y) (busy y * weight x)) as [?|[?|?]]; [by left|by right|].
      rewrite Hn in E by done. done. }
    constructor; [by constructor|]. constructor; [done|].
    eapply Forall_impl; [exact Hy|]. cbn. intros z. by apply preferred_trans.
Qed.

Lemma stable_sort_sorted n lo : StronglySorted preferred (stable_sort (load_gt p u) (seq lo n)).
Proof.
  revert lo. induction n as [|n IH]; intros lo; cbn [seq stable_sort foldr]; [constructor|].
  apply insert_sorted; [|apply IH]. intros y Hy.
  fold (stable_sort (load_gt p u) (seq (S lo) n)) in Hy.
  rewrite stable_sort_perm in Hy. apply elem_of_seq in Hy. lia.
Qed.
End least_conn.

(** Under least-conn the candidates are sorted by weighted load, in-flight
    requests plus one over weight, compared exactly in integers; ties keep the
    configured order. *)
Theorem least_conn_sorted hash b u ip :
  ur_strategy u = "least-conn" -> (2 <= length (ur_servers u))%nat ->
  let p := pool b (ur_name u) (length (ur_servers u)) in
  small p u -> StronglySorted (preferred p u) (snd (candidates hash b u ip)).
Proof.
  intros Hs Hn p Hsm. unfold candidates.
  rewrite (bool_decide_eq_false_2 (length (ur_servers u) = 0%nat)) by lia.
  rewrite (bool_decide_eq_false_2 (length (ur_servers u) = 1%nat)) by lia.
  rewrite bool_decide_eq_true_2 by done. by apply stable_sort_sorted.
Qed.

(** ** Gauges count live guards *)

Section gauges.
Variable hash : IpAddr -> Z.

(** What the server does with a balancer: rank, track, and drop a live guard. *)
Inductive bstep : Balancer * list InflightGuard -> Balancer * list InflightGuard -> Prop :=
  | bs_candidates b gs u ip : bstep (b, gs) (fst (candidates hash b u ip), gs)
  | bs_track b gs u idx : bstep (b, gs) (fst (track b u idx), snd (track b u idx) :: gs)
  | bs_drop b gs1 g gs2 : bstep (b, gs1 ++ g :: gs2) (drop_guard b g, gs1 ++ gs2).

Definition counts_for (name : str) (i : nat) (g : InflightGuard) : Z :=
  if decide (ig_pool g = Some name /\ ig_idx g = i) then 1 else 0.
Definition live (name : str) (i : nat) (gs : list InflightGuard) : Z :=
  sum_Z (map (counts_for name i) gs).

Definition gauges_ok (s : Balancer * list InflightGuard) : Prop :=
  forall name p i v, pools s.1 !! name = Some p -> inflight p !! i = Some v ->
    v = wrap64 (live name i s.2).

Lemma live_cons name i g gs : live name i (g :: gs) = counts_for name i g + live name i gs.
Proof. done. Qed.

Lemma live_mid name i g gs1 gs2 :
  live name i (gs1 ++ g :: gs2) = counts_for name i g + live name i (gs1 ++ gs2).
Proof.
  induction gs1 as [|h gs1 IH]; [done|]. cbn [app]. rewrite !live_cons, IH. lia.
Qed.

Lemma live_bounds name i gs : 0 <= live name i gs <= Z.of_nat (length gs).
Proof.
  induction gs as [|g gs IH]; [done|]. rewrite live_cons. cbn [length].
  unfold counts_for. case_decide; lia.
Qed.

Lemma pools_set_pool b name q n :
  pools (set_pool b name q) !! n
  = if decide (n = name /\ is_Some (pools b !! name)) then Some q else pools b !! n.
Proof.
  unfold set_pool. destruct (pools b !! name) as [p|] eqn:E; cbn [pools].
  - case_decide as H; [destruct H as [-> _]; by rewrite lookup_insert_eq|].
    rewrite lookup_insert_ne; [done|]. intros ->. apply H. eauto.
  - case_decide as H; [by destruct H as [_ [? ?]]|done].
Qed.

Lemma wrap64_add_l a b : wrap64 (wrap64 a + b) = wrap64 (a + b).
Proof. unfold wrap64. by rewrite Z.add_mod_idemp_l by lia. Qed.

(** A change of one gauge by [d], matched by the same change in the guard count. *)
Lemma gauge_change b gs gs' name idx d p :
  pools b !! name = Some p -> gauges_ok (b, gs) ->
  (forall n i, live n i gs' = live n i gs + (if decide (n = name /\ i = idx) then d else 0)) ->
  gauges_ok (set_pool b name (gauge_add p idx d), gs').
Proof.
  intros Hp Hok Hlive n q i v. cbn [fst snd]. rewrite pools_set_pool, Hlive.
  case_decide as H.
  - destruct H as [-> _]. intros [= <-]. cbn [gauge_add inflight].
    rewrite list_lookup_alter. case_decide as Hi.
    + subst i. rewrite decide_True by done.
      intros (w & Hw & ->)%fmap_Some. rewrite (Hok _ _ _ _ Hp Hw). apply wrap64_add_l.
    + rewrite decide_False by naive_solver. rewrite Z.add_0_r. by apply Hok.
  - intros Hq Hv. rewrite decide_False; [rewrite Z.add_0_r; by eapply Hok|].
    intros [-> _]. apply H. eauto.
Qed.

Lemma gauges_step s s' : gauges_ok s -> bstep s s' -> gauges_ok s'.
Proof.
  intros Hok Hs. destruct Hs as [b gs u ip|b gs u idx|b gs1 g gs2].
  - unfold candidates. repeat case_bool_decide; try done. cbn [fst].
    intros n q i v. cbn [fst snd]. rewrite pools_set_pool. case_decide as E; [|apply Hok].
    destruct E as [-> [p Hp]]. intros [= <-]. cbn [inflight]. unfold pool. rewrite Hp.
    by apply Hok.
  - unfold track. destruct (pools b !! ur_name u) as [p|] eqn:E; cbn [fst snd].
    + apply (gauge_change _ gs); [done|done|]. intros n i. rewrite live_cons. unfold counts_for.
      cbn [ig_pool ig_idx]. repeat case_decide; try lia; naive_solver.
    + intros n q i v Hq Hv. cbn [snd]. rewrite live_cons. unfold counts_for. cbn [ig_pool].
      rewrite decide_False by naive_solver. by apply Hok with q.
  - unfold drop_guard. destruct (ig_pool g) as [name|] eqn:Eg.
    + destruct (pools b !! name) as [p|] eqn:E.
      * apply (gauge_change _ (gs1 ++ g :: gs2)); [done|done|]. intros n i.
        rewrite live_mid. unfold counts_for. rewrite Eg. repeat case_decide; try lia; naive_solver.
      * intros n q i v Hq Hv. cbn [fst snd] in *. rewrite (Hok n q i v Hq Hv). cbn [snd].
        rewrite live_mid. unfold counts_for. rewrite Eg. rewrite decide_False by naive_solver. done.
    + intros n q i v Hq Hv. cbn [fst snd] in *. rewrite (Hok n q i v Hq Hv). cbn [snd].
      rewrite live_mid. unfold counts_for. rewrite Eg. rewrite decide_False by naive_solver. done.
Qed.

(** The order of the guards does not matter. *)
Lemma live_perm name i gs gs' : gs ≡ₚ gs' -> live name i gs = live name i gs'.
Proof. induction 1; rewrite ?live_cons; lia. Qed.

Lemma gauges_perm b gs gs' : gs ≡ₚ gs' -> gauges_ok (b, gs) -> gauges_ok (b, gs').
Proof. intros Hp Hok n q i v Hq Hv. cbn [snd]. rewrite <- (live_perm _ _ _ _ Hp). by apply Hok with q. Qed.

Lemma new_gauges_ok block : gauges_ok (Balancer_new block, []).
Proof.
  intros n p i v. unfold Balancer_new. cbn [fst snd pools].
  assert (forall us m, (forall q, m !! n = Some q -> forall i v, inflight q !! i = Some v -> v = 0) ->
    forall q, foldl add_pool m us !! n = Some q -> forall i v, inflight q !! i = Some v -> v = 0) as Hf.
  { induction us as [|u us IH]; intros m Hm; cbn [foldl]; [done|]. apply IH. intros q.
    unfold add_pool. destruct (m !! ur_name u) eqn:E; [apply Hm|].
    rewrite lookup_insert. case_decide as Eu; [|apply Hm]. intros [= <-] j w. cbn.
    rewrite list_lookup_fmap. by intros (? & _ & ->)%fmap_Some. }
  intros Hp Hv. change (wrap64 _) with 0. eapply Hf; [|exact Hp|exact Hv]. done.
Qed.

(** The least-conn gauges never drift: in every state reached by ranking
    requests, tracking them and dropping guards in any order, each gauge is the
    number of live guards on its server. *)
Theorem gauges_count_guards block b gs name p i v :
  rtc bstep (Balancer_new block, []) (b, gs) -> Z.of_nat (length gs) < 2 ^ 64 ->
  pools b !! name = Some p -> inflight p !! i = Some v ->
  v = live name i gs.
Proof.
  intros Hr Hlen Hp Hv.
  assert (gauges_ok (b, gs)) as Hok.
  { revert Hr. generalize (new_gauges_ok block). generalize (Balancer_new block, @nil InflightGuard).
    intros s Hs Hr. induction Hr; eauto using gauges_step. }
  rewrite (Hok name p i v Hp Hv). cbn [snd]. pose proof (live_bounds name i gs).
  unfold wrap64. apply Z.mod_small. lia.
Qed.
End gauges.

(** ** The theorems at concrete inputs *)

Definition example_pool (strategy : string) : UpstreamRef :=
  mkUpstream "api" [mkServer "10.0.0.1:80" 3; mkServer "10.0.0.2:80" 1] strategy.

(** Across the wrap: the weights 3 and 1 divide 2^64. *)
Definition at_the_wrap : PoolState := mkPool (2 ^ 64 - 1) [0; 0].
Lemma round_robin_fair_witness :
  occurrences 0 (picks (fun _ => 0) (mkBalancer {["api" : str := at_the_wrap]})
    (example_pool "round-robin") (V4 (V4Octets 1 2 3 4)) 4) = 3.
Proof.
  apply (round_robin_fair (fun _ => 0) (mkBalancer {["api" : str := at_the_wrap]})
    (example_pool "round-robin") (V4 (V4Octets 1 2 3 4)) at_the_wrap 0 (mkServer "10.0.0.1:80" 3)).
  - split_and!; [discriminate|discriminate|cbn; lia].
  - reflexivity.
  - reflexivity.
  - split; [discriminate|reflexivity].
  - right. reflexivity.
  - reflexivity.
Defined.

(** Three servers of weight 1 around the wrap: three requests go to the first twice and
    to the last never. *)
Definition three_servers (strategy : string) : UpstreamRef :=
  mkUpstream "api" [mkServer "10.0.0.1:80" 1; mkServer "10.0.0.2:80" 1; mkServer "10.0.0.3:80" 1] strategy.
Theorem round_robin_wrap_gap :
  picks (fun _ => 0) (mkBalancer {["api" : str := mkPool (2 ^ 64 - 1) [0; 0; 0]]}) (three_servers "round-robin")
    (V4 (V4Octets 1 2 3 4)) 3 = [0; 0; 1]%nat.
Proof. vm_compute. reflexivity. Qed.

(** The least-conn sort of the code reads the gauges anew at each comparison, where the
    model reads them once.  Three requests that start between two comparisons make the
    answers contradict each other: the first server before the second, the second
    before the third, the third before the first.  [sort_by] may panic on those. *)
Theorem least_conn_race_gap :
  let u := three_servers "least-conn" in
  let b := mkBalancer {["api" : str := mkPool 0 [0; 1; 2]]} in
  let later := Nat.iter 3 (fun b => fst (track b u 0)) b in
  let gt b := load_gt (pool b "api" 3) u in
  gt b 1%nat 0%nat = true /\ gt b 2%nat 1%nat = true /\ gt later 0%nat 2%nat = true.
Proof. vm_compute. done. Qed.

Lemma least_conn_sorted_witness :
  let u := example_pool "least-conn" in
  StronglySorted (preferred (pool (for_upstream u) (ur_name u) 2) u)
    (snd (candidates (fun _ => 0) (for_upstream u) u (V4 (V4Octets 1 2 3 4)))).
Proof.
  apply (least_conn_sorted (fun _ => 0) (for_upstream (example_pool "least-conn"))
    (example_pool "least-conn") (V4 (V4Octets 1 2 3 4))).
  - reflexivity.
  - cbn. lia.
  - split.
    + intros g Hg. replace (inflight _) with [0; 0] in Hg by reflexivity. set_solver by lia.
    + intros s Hs. unfold is_u32, U32_MAX. cbn in Hs. rewrite !elem_of_cons in Hs.
      destruct Hs as [->|[->|Hs]]; [cbn; lia..|set_solver].
Defined.

Definition example_block : HttpBlock :=
  let hb := HttpBlock_default [] in
  {| hb_listen := hb_listen hb; hb_server_name := hb_server_name hb; hb_root := hb_root hb;
     hb_ssl := hb_ssl hb; hb_http2 := hb_http2 hb; hb_http3 := hb_http3 hb;
     hb_locations := hb_locations hb; hb_rewrites := hb_rewrites hb; hb_geoip_db := hb_geoip_db hb;
     hb_ab_splits := hb_ab_splits hb; hb_access_log := hb_access_log hb;
     hb_max_header_size := hb_max_header_size hb; hb_max_body_size := hb_max_body_size hb;
     hb_reject_ambiguous_framing := hb_reject_ambiguous_framing hb;
     hb_normalize_headers_before_proxy := hb_normalize_headers_before_proxy hb;
     hb_http2_max_reset_rate := hb_http2_max_reset_rate hb;
     hb_http3_max_dynamic_table_size := hb_http3_max_dynamic_table_size hb;
     hb_host_header_policy := hb_host_header_policy hb; hb_allowed_hosts := hb_allowed_hosts hb;
     hb_reject_headers_with_control_chars := hb_reject_headers_with_control_chars hb;
     hb_allow_connect := true; hb_connect_upstream := Some (example_pool "least-conn");
     hb_connect_allowed_targets := hb_connect_allowed_targets hb;
     hb_trusted_proxies := hb_trusted_proxies hb;
     hb_upstream_allowed_networks := hb_upstream_allowed_networks hb;
     hb_max_header_count := hb_max_header_count hb;
     hb_max_decompression_ratio := hb_max_decompression_ratio hb;
     hb_max_decompression_size := hb_max_decompression_size hb;
     hb_upstreams := hb_upstreams hb; hb_dns_cache_ttl_seconds := hb_dns_cache_ttl_seconds hb;
     hb_hsts_max_age := hb_hsts_max_age hb;
     hb_max_upstream_response_size := hb_max_upstream_response_size hb |}.

(** One request tracked on the first server of a block's CONNECT pool. *)
Lemma gauges_count_guards_witness :
  1 = live "api" 0 [mkGuard (Some ("api" : str)) 0].
Proof.
  apply (gauges_count_guards (fun _ => 0) example_block
    (fst (track (Balancer_new example_block) (example_pool "least-conn") 0))
    [mkGuard (Some ("api" : str)) 0] "api" (mkPool 0 [1; 0]) 0); try reflexivity.
  apply rtc_once. apply (bs_track (fun _ => 0) (Balancer_new example_block) [] (example_pool "least-conn") 0).
Defined.
