(* ===== verification/AbSplit.v ===== *)
(** * Weighted A/B traffic splitting (src/src/absplit.rs)

    The router is the table of splits and the table of sticky sessions; resolving
    returns the updated router.  It locks the table twice, so requests interleave
    between a lookup and its insert: [ab_step].  Theorems: each group gets exactly its
    weight of the hash residues; with one sticky split every answer, in any
    interleaving, is the one the hash assigns; the session table stays bounded; and a
    session seen by one sticky split is pinned in all of them. *)

From S2P Require Import Prelude.
From S2P Require Import Str.
From S2P Require Import Config.

Definition MAX_STICKY_SESSIONS : nat := Z.to_nat 10000.

Record AbSplitConfig : Type := mkSplitConfig {
  sc_groups : list AbGroup;
  sc_total_weight : Z;
  sc_sticky : bool;
}.
Record AbSplitRouter : Type := mkRouter {
  splits : gmap str AbSplitConfig;
  sticky_sessions : gmap str str;
}.

Definition split_config (s : AbSplit) : AbSplitConfig :=
  mkSplitConfig (ab_groups s) (ab_total_weight s) (ab_sticky s).

Definition AbSplitRouter_new (ss : list AbSplit) : AbSplitRouter :=
  mkRouter (foldl (fun m s => <[ab_name s := split_config s]> m) ∅ ss) ∅.

(** The group whose cumulative range holds [h]. *)
Fixpoint pick_group (cumulative h : Z) (groups : list AbGroup) : option AbGroup :=
  match groups with
  | [] => None
  | g :: r =>
      let cumulative := wrap32 (cumulative + ag_weight g) in
      if h <? cumulative then Some g else pick_group cumulative h r
  end.

(** Remember an assignment; a full table is cleared first. *)
Definition remember (m : gmap str str) (session group : str) : gmap str str :=
  <[session := group]> (if bool_decide (MAX_STICKY_SESSIONS <= size m)%nat then ∅ else m).

Section resolve.
(** [DefaultHasher] of the session and the split name. *)
Variable hash_session : str -> str -> Z.

Definition resolve (r : AbSplitRouter) (split_name session_id : str) : AbSplitRouter * option str :=
  match splits r !! split_name with
  | None => (r, None)
  | Some config =>
      match (if sc_sticky config then sticky_sessions r !! session_id else None) with
      | Some group_name => (r, Some group_name)
      | None =>
          if sc_total_weight config =? 0 then (r, None)
          else
            let hash := wrap32 (hash_session session_id split_name) mod sc_total_weight config in
            match pick_group 0 hash (sc_groups config) with
            | Some group =>
                let r := if sc_sticky config
                         then mkRouter (splits r)
                                (remember (sticky_sessions r) session_id (ag_name group))
                         else r in
                (r, Some (ag_name group))
            | None => (r, option_map ag_name (head (sc_groups config)))
            end
      end
  end.

End resolve.

(** ** Weights *)

Definition names_of (name : str) (os : list (option AbGroup)) : Z :=
  Z.of_nat (length (filter (fun o => option_map ag_name o = Some name) os)).

Definition weight_named (name : str) (groups : list AbGroup) : Z :=
  sum_Z (map ag_weight (filter (fun g => ag_name g = name) groups)).

Lemma names_of_app name a b : names_of name (a ++ b) = names_of name a + names_of name b.
Proof. unfold names_of. rewrite filter_app, length_app. lia. Qed.

Lemma names_of_replicate name n g :
  names_of name (replicate n (Some g)) = if decide (ag_name g = name) then Z.of_nat n else 0.
Proof.
  unfold names_of. induction n as [|n IH]; cbn [replicate]; [by case_decide|].
  rewrite filter_cons. cbn [option_map]. repeat case_decide; cbn [length]; try congruence; lia.
Qed.

Lemma sum_group_weights groups :
  (forall g, g ∈ groups -> is_u32 (ag_weight g)) -> 0 <= sum_Z (map ag_weight groups).
Proof.
  induction groups as [|g r IH]; intros Hw; [done|]. cbn [map sum_Z foldr].
  pose proof (Hw g ltac:(set_solver)) as [? _].
  assert (0 <= sum_Z (map ag_weight r)) by (apply IH; set_solver). unfold sum_Z in *. lia.
Qed.

Lemma pick_group_counts groups name cum :
  0 <= cum -> (forall g, g ∈ groups -> is_u32 (ag_weight g)) ->
  cum + sum_Z (map ag_weight groups) < 2 ^ 32 ->
  names_of name (map (fun h => pick_group cum h groups) (seqZ cum (sum_Z (map ag_weight groups))))
  = weight_named name groups.
Proof.
  unfold weight_named. revert cum. induction groups as [|g r IH]; intros cum Hc Hw Hs; [done|].
  cbn [map sum_Z foldr] in *. fold (sum_Z (map ag_weight r)) in *.
  pose proof (Hw g ltac:(set_solver)) as [Hg _].
  pose proof (sum_group_weights r ltac:(set_solver)) as Hr.
  assert (wrap32 (cum + ag_weight g) = cum + ag_weight g) as Hwr
    by (unfold wrap32; apply Z.mod_small; lia).
  rewrite seqZ_app, map_app, names_of_app by lia.
  assert (map (fun h => pick_group cum h (g :: r)) (seqZ cum (ag_weight g))
          = replicate (Z.to_nat (ag_weight g)) (Some g)) as ->.
  { symmetry. apply replicate_as_elem_of. split; [by rewrite length_map, length_seqZ|].
    intros x (h & -> & Hh%elem_of_seqZ)%list_elem_of_fmap. cbn. rewrite Hwr.
    by rewrite (proj2 (Z.ltb_lt _ _)) by lia. }
  assert (map (fun h => pick_group cum h (g :: r)) (seqZ (cum + ag_weight g) (sum_Z (map ag_weight r)))
          = map (fun h => pick_group (cum + ag_weight g) h r)
              (seqZ (cum + ag_weight g) (sum_Z (map ag_weight r)))) as ->.
  { apply map_ext_in. intros h Hh%list_elem_of_In%elem_of_seqZ. cbn. rewrite Hwr.
    by rewrite (proj2 (Z.ltb_ge _ _)) by lia. }
  rewrite names_of_replicate, IH by (set_solver || lia).
  rewrite filter_cons. case_decide; cbn [map sum_Z foldr]; unfold sum_Z; lia.
Qed.

(** The split is exactly weighted: of the [total] hash residues, each group name
    is assigned to as many as the weight configured for it. *)
Theorem split_weights_exact s name :
  (forall g, g ∈ ab_groups s -> is_u32 (ag_weight g)) ->
  sum_Z (map ag_weight (ab_groups s)) < 2 ^ 32 ->
  let config := split_config s in
  names_of name (map (fun h => pick_group 0 h (sc_groups config)) (seqZ 0 (sc_total_weight config)))
  = weight_named name (ab_groups s).
Proof.
  intros Hw Hs config. unfold config, split_config, ab_total_weight, wrap32. cbn [sc_groups sc_total_weight].
  pose proof (sum_group_weights _ Hw). rewrite Z.mod_small by lia.
  apply pick_group_counts; [lia|done|lia].
Qed.

Section sticky.
Variable hash_session : str -> str -> Z.
Abbreviation resolve := (resolve hash_session).

(** An assignment once made is kept: asking again for the same session and split
    gives the same group and changes nothing more, whatever the split's mode. *)
Theorem resolve_stable r split_name session g :
  let '(r1, o) := resolve r split_name session in
  o = Some g -> resolve r1 split_name session = (r1, Some g).
Proof.
  unfold AbSplit.resolve. destruct (splits r !! split_name) as [c|] eqn:Es; [|done].
  destruct (sc_sticky c) eqn:Est.
  - destruct (sticky_sessions r !! session) as [g0|] eqn:Eg.
    + intros [= ->]. rewrite Es, Est, Eg. done.
    + destruct (sc_total_weight c =? 0) eqn:Ew; [done|].
      destruct (pick_group _ _ _) as [gr|] eqn:Ep.
      * intros [= <-]. cbn [splits sticky_sessions]. rewrite Es, Est.
        unfold remember. by rewrite lookup_insert_eq.
      * intros Ho. by rewrite Es, Est, Eg, Ew, Ep, Ho.
  - destruct (sc_total_weight c =? 0) eqn:Ew; [done|].
    destruct (pick_group _ _ _) as [gr|] eqn:Ep; intros Ho; rewrite Es, Est, Ew, Ep; congruence.
Qed.

(** Any sequence of requests. *)
Fixpoint resolve_all (r : AbSplitRouter) (requests : list (str * str)) : AbSplitRouter :=
  match requests with
  | [] => r
  | (split_name, session) :: rest => resolve_all (fst (resolve r split_name session)) rest
  end.

Lemma resolve_size r split_name session :
  (size (sticky_sessions r) <= MAX_STICKY_SESSIONS)%nat ->
  (size (sticky_sessions (fst (resolve r split_name session))) <= MAX_STICKY_SESSIONS)%nat.
Proof.
  intros Hs. unfold AbSplit.resolve. repeat (case_match; cbn [fst sticky_sessions]; try done).
  unfold remember. case_bool_decide as Hb.
  - rewrite map_size_insert_None by apply lookup_empty. rewrite map_size_empty.
    unfold MAX_STICKY_SESSIONS. lia.
  - rewrite map_size_insert. case_match; cbn; lia.
Qed.

(** The sticky table never grows past its bound, whatever session identifiers a
    client cycles through. *)
Theorem sticky_table_bounded ss requests :
  (size (sticky_sessions (resolve_all (AbSplitRouter_new ss) requests)) <= MAX_STICKY_SESSIONS)%nat.
Proof.
  assert (size (sticky_sessions (AbSplitRouter_new ss)) <= MAX_STICKY_SESSIONS)%nat as H
    by (cbn [AbSplitRouter_new sticky_sessions]; rewrite map_size_empty; lia).
  revert H. generalize (AbSplitRouter_new ss).
  induction requests as [|[sn sid] rest IH]; intros r Hr; cbn [resolve_all]; [done|].
  by apply IH, resolve_size.
Qed.

(** *** Interleaved requests

    [resolve] locks the sticky table twice: to look the session up and, when it found
    nothing, to insert.  Between the two other requests run. *)

Inductive FirstLock : Type := Answer (group : option str) | Pending (group : str).

Definition first_lock (r : AbSplitRouter) (split_name session_id : str) : FirstLock :=
  match splits r !! split_name with
  | None => Answer None
  | Some config =>
      match (if sc_sticky config then sticky_sessions r !! session_id else None) with
      | Some group_name => Answer (Some group_name)
      | None =>
          if sc_total_weight config =? 0 then Answer None
          else
            let hash := wrap32 (hash_session session_id split_name) mod sc_total_weight config in
            match pick_group 0 hash (sc_groups config) with
            | Some group => if sc_sticky config then Pending (ag_name group) else Answer (Some (ag_name group))
            | None => Answer (option_map ag_name (head (sc_groups config)))
            end
      end
  end.
Definition second_lock (r : AbSplitRouter) (session_id group : str) : AbSplitRouter :=
  mkRouter (splits r) (remember (sticky_sessions r) session_id group).

(** Undisturbed, the two make up [resolve]. *)
Lemma resolve_locks r split_name session :
  resolve r split_name session
  = match first_lock r split_name session with
    | Answer o => (r, o)
    | Pending g => (second_lock r session g, Some g)
    end.
Proof. unfold AbSplit.resolve, first_lock, second_lock. repeat case_match; congruence. Qed.

(** The router, the requests between their locks, the answers given. *)
Record AbState : Type := mkAbState {
  ab_router : AbSplitRouter;
  ab_pending : list (str * str * str);
  ab_answers : list (str * str * option str);
}.

Inductive ab_step : AbState -> AbState -> Prop :=
  | ab_answer r pend out sn sid o :
      first_lock r sn sid = Answer o ->
      ab_step (mkAbState r pend out) (mkAbState r pend ((sn, sid, o) :: out))
  | ab_miss r pend out sn sid g :
      first_lock r sn sid = Pending g ->
      ab_step (mkAbState r pend out) (mkAbState r ((sn, sid, g) :: pend) out)
  | ab_insert r p1 p2 out sn sid g :
      ab_step (mkAbState r (p1 ++ (sn, sid, g) :: p2) out)
        (mkAbState (second_lock r sid g) (p1 ++ p2) ((sn, sid, Some g) :: out)).

(** What the hash alone assigns. *)
Definition choice (r : AbSplitRouter) (split_name session_id : str) : option str :=
  snd (resolve (mkRouter (splits r) ∅) split_name session_id).

(** No split but [name] is sticky. *)
Definition sticky_only (name : str) (r : AbSplitRouter) : Prop :=
  forall n c, splits r !! n = Some c -> sc_sticky c = true -> n = name.

Lemma first_lock_choice r sn sid :
  match first_lock r sn sid with
  | Answer o => o = choice r sn sid \/ exists c, splits r !! sn = Some c /\ sc_sticky c = true
                                              /\ o = sticky_sessions r !! sid /\ is_Some o
  | Pending g => choice r sn sid = Some g /\ exists c, splits r !! sn = Some c /\ sc_sticky c = true
  end.
Proof.
  unfold choice. rewrite resolve_locks. unfold first_lock. cbn [splits sticky_sessions].
  destruct (splits r !! sn) as [c|]; [|by left]. destruct (sc_sticky c) eqn:Es.
  - rewrite lookup_empty. destruct (sticky_sessions r !! sid) as [g|] eqn:Eg; [right; by exists c|].
    destruct (sc_total_weight c =? 0); [by left|]. destruct (pick_group _ _ _); [|by left].
    cbn [snd]. split; [done|by exists c].
  - destruct (sc_total_weight c =? 0); [by left|]. destruct (pick_group _ _ _); by left.
Qed.

Definition ab_inv (name : str) (r0 : AbSplitRouter) (a : AbState) : Prop :=
  splits (ab_router a) = splits r0
  /\ (forall sid g, sticky_sessions (ab_router a) !! sid = Some g -> choice r0 name sid = Some g)
  /\ (forall sn sid g, (sn, sid, g) ∈ ab_pending a -> sn = name /\ choice r0 name sid = Some g)
  /\ (forall sn sid o, (sn, sid, o) ∈ ab_answers a -> o = choice r0 sn sid).

Lemma ab_inv_step name r0 a a' : sticky_only name r0 -> ab_inv name r0 a -> ab_step a a' -> ab_inv name r0 a'.
Proof.
  intros Hone (Hsp & Hst & Hp & Ho) Hs.
  assert (forall sn sid, choice (ab_router a) sn sid = choice r0 sn sid) as Hch.
  { intros sn sid. unfold choice. by rewrite Hsp. }
  destruct Hs as [r pend out sn sid o E|r pend out sn sid g E|r p1 p2 out sn sid g]; cbn in *.
  - pose proof (first_lock_choice r sn sid) as Hf. rewrite E in Hf. split_and!; [done..|].
    intros sn' sid' o' [[= -> -> ->]|Hin]%elem_of_cons; [|by apply Ho]. rewrite <- Hch.
    destruct Hf as [Hf|(c & Hc & Hsc & -> & [g Hg])]; [done|]. rewrite Hch, Hg. symmetry.
    assert (sn = name) as ->; [|by apply Hst]. rewrite Hsp in Hc. by apply (Hone sn c).
  - pose proof (first_lock_choice r sn sid) as Hf. rewrite E in Hf. destruct Hf as (Hg & c & Hc & Hsc).
    assert (sn = name) as -> by (rewrite Hsp in Hc; by apply (Hone sn c)). split_and!; [done|done| |done].
    intros sn' sid' g' [[= -> -> ->]|Hin]%elem_of_cons; [|by apply Hp]. split; [done|]. by rewrite <- Hch.
  - destruct (Hp sn sid g ltac:(set_solver)) as [-> Hg]. split_and!; [done| | |].
    + intros sid' g' Hl. unfold second_lock, remember in Hl. cbn in Hl.
      apply lookup_insert_Some in Hl as [[<- <-]|[_ Hl]]; [done|].
      case_bool_decide; [by rewrite lookup_empty in Hl|by apply Hst].
    + intros sn' sid' g' Hin. apply Hp. set_solver.
    + intros sn' sid' o' [[= -> -> ->]|Hin]%elem_of_cons; [done|by apply Ho].
Qed.

(** C32. While only one split is sticky, concurrency does not show: however the lookups
    and inserts of requests interleave, and although a full table is cleared, every
    answer ever given to a session is the one the hash assigns it, so a session never
    changes group. *)
Theorem sticky_concurrent ss name a :
  sticky_only name (AbSplitRouter_new ss) ->
  rtc ab_step (mkAbState (AbSplitRouter_new ss) [] []) a ->
  forall sn sid o, (sn, sid, o) ∈ ab_answers a -> o = choice (AbSplitRouter_new ss) sn sid.
Proof.
  intros Hone Hr.
  assert (ab_inv name (AbSplitRouter_new ss) (mkAbState (AbSplitRouter_new ss) [] [])) as Hi.
  { split_and!; [done| |set_solver|set_solver]. intros sid g Hg. cbn in Hg. by rewrite lookup_empty in Hg. }
  assert (ab_inv name (AbSplitRouter_new ss) a) as (_ & _ & _ & Ho); [|exact Ho].
  induction Hr as [|x y z Hs _ IH]; [done|]. by apply IH, (ab_inv_step _ _ _ _ Hone Hi).
Qed.

(** Two sticky splits, one group each. *)
Definition two_sticky : list AbSplit :=
  [mkAbSplit "checkout" true [mkAbGroup "new-checkout" "u1" 100];
   mkAbSplit "search" true [mkAbGroup "new-search" "u2" 100]].

(** The sticky table is keyed by the session alone: a session first seen by one
    sticky split is answered with that split's group by every other one, although
    the other split has no such group. *)
Theorem sticky_splits_collide :
  let r := resolve_all (AbSplitRouter_new two_sticky) [("checkout" : str, "session-1" : str)] in
  snd (resolve r "search" "session-1") = Some ("new-checkout" : str)
  /\ snd (resolve (AbSplitRouter_new two_sticky) "search" "session-1") = Some ("new-search" : str).
Proof.
  assert (forall r c g sn sid, splits r !! sn = Some c -> sc_groups c = [g] -> ag_weight g = 100 ->
    sc_total_weight c = 100 -> sc_sticky c = true -> sticky_sessions r !! sid = None ->
    resolve r sn sid = (mkRouter (splits r) (remember (sticky_sessions r) sid (ag_name g)),
                        Some (ag_name g))) as H.
  { intros r c g sn sid Hc Hg Hw Ht Hs Hn. unfold AbSplit.resolve.
    rewrite Hc, Hs, Hn, Ht, Hg. cbn [Z.eqb pick_group]. rewrite Hw.
    change (wrap32 (0 + 100)) with 100.
    by rewrite (proj2 (Z.ltb_lt _ _)) by (apply Z.mod_pos_bound; lia). }
  set (c1 := mkAbSplit "checkout" true [mkAbGroup "new-checkout" "u1" 100]).
  set (c2 := mkAbSplit "search" true [mkAbGroup "new-search" "u2" 100]).
  assert (splits (AbSplitRouter_new two_sticky) !! ("checkout" : str) = Some (split_config c1)) as H1
    by (vm_compute; reflexivity).
  assert (splits (AbSplitRouter_new two_sticky) !! ("search" : str) = Some (split_config c2)) as H2
    by (vm_compute; reflexivity).
  assert (sticky_sessions (AbSplitRouter_new two_sticky) !! ("session-1" : str) = None) as H0
    by (vm_compute; reflexivity).
  intros r. split.
  - unfold r. cbn [resolve_all].
    rewrite (H _ _ (mkAbGroup "new-checkout" "u1" 100) _ _ H1) by (done || exact H0).
    cbn [fst]. unfold AbSplit.resolve. cbn [splits sticky_sessions]. rewrite H2.
    cbn [split_config c2 sc_sticky ab_sticky]. unfold remember. by rewrite lookup_insert_eq.
  - by rewrite (H _ _ (mkAbGroup "new-search" "u2" 100) _ _ H2) by (done || exact H0).
Qed.
End sticky.

(** ** The theorems at concrete inputs *)

Lemma split_weights_exact_witness :
  let s := mkAbSplit "s" false [mkAbGroup "a" "u1" 90; mkAbGroup "b" "u2" 10] in
  names_of "b" (map (fun h => pick_group 0 h (ab_groups s)) (seqZ 0 100)) = 10.
Proof.
  apply (split_weights_exact (mkAbSplit "s" false [mkAbGroup "a" "u1" 90; mkAbGroup "b" "u2" 10]) "b").
  - intros g Hg. cbn in Hg. rewrite !elem_of_cons in Hg. unfold is_u32, U32_MAX.
    destruct Hg as [->|[->|Hg]]; [cbn; lia..|set_solver].
  - vm_compute. reflexivity.
Defined.

(** Two requests of one session look it up before either inserts. *)
Lemma sticky_concurrent_witness :
  Some ("new-search" : str)
  = choice (fun _ _ => 7) (AbSplitRouter_new [mkAbSplit "search" true [mkAbGroup "new-search" "u2" 100]]) "search" "s".
Proof.
  set (ss := [mkAbSplit "search" true [mkAbGroup "new-search" "u2" 100]]).
  refine (sticky_concurrent (fun _ _ => 7) ss "search"
    (mkAbState (second_lock (second_lock (AbSplitRouter_new ss) "s" "new-search") "s" "new-search") []
       [("search" : str, "s" : str, Some ("new-search" : str)); ("search" : str, "s" : str, Some ("new-search" : str))])
    _ _ "search" "s" _ _).
  - intros n c Hc _. unfold ss, AbSplitRouter_new in Hc. cbn [splits foldl] in Hc.
    apply lookup_insert_Some in Hc as [[<- _]|[_ Hc]]; [done|by rewrite lookup_empty in Hc].
  - eapply rtc_l; [apply (ab_miss _ _ [] [] "search" "s" "new-search"); vm_compute; reflexivity|].
    eapply rtc_l; [apply (ab_miss _ _ _ [] "search" "s" "new-search"); vm_compute; reflexivity|].
    eapply rtc_l; [apply (ab_insert _ _ [] [("search" : str, "s" : str, "new-search" : str)])|].
    apply rtc_once. apply (ab_insert _ _ [] []).
  - set_solver.
Defined.
