(* ===== verification/Rewrite.v ===== *)
(** * Path rewriting and redirects (src/src/rewrite.rs)

    Rules are compiled once and the first that matches decides.  Theorem: the
    outcome of a path, rule by rule, and that validation leaves no rule to drop. *)

From S2P Require Import Prelude.
From S2P Require Import Str.
From S2P Require Import Extern.
From S2P Require Import Config.
From S2P Require Import Instances.

Inductive RewriteAction : Type :=
  | Internal (path : str)
  | Redirect (target : str) (status : Z).

Section rewrite.
Context {R : RegexLib}.

Record RewriteEngine : Type := mkEngine { rules : list (Regex * str * str) }.

Definition compile_rule (rule : RewriteRule) : option (Regex * str * str) :=
  option_map (fun re => (re, rw_replacement rule, rw_flag rule)) (Regex_new (rw_pattern rule)).

Definition RewriteEngine_new (rs : list RewriteRule) : RewriteEngine :=
  mkEngine (omap compile_rule rs).

Definition is_empty (e : RewriteEngine) : bool := bool_decide (rules e = []).

Fixpoint apply_rules (rs : list (Regex * str * str)) (path : str) : option RewriteAction :=
  match rs with
  | [] => None
  | (re, replacement, flag) :: rest =>
      if is_match re path then
        let result := regex_replace re path replacement in
        Some (if bool_decide (flag = "redirect") then Redirect result 302
              else if bool_decide (flag = "permanent") then Redirect result 301
              else Internal result)
      else apply_rules rest path
  end.
Definition apply (e : RewriteEngine) (path : str) : option RewriteAction := apply_rules (rules e) path.

(** What a flag makes of the rewritten path. *)
Inductive flag_action (result flag : str) : RewriteAction -> Prop :=
  | fa_redirect : flag = "redirect" -> flag_action result flag (Redirect result 302)
  | fa_permanent : flag = "permanent" -> flag_action result flag (Redirect result 301)
  | fa_internal :
      flag <> "redirect" -> flag <> "permanent" -> flag_action result flag (Internal result).

End rewrite.

(** A validated list of rewrite rules acts as written: no rule is dropped, and a
    path is rewritten or redirected by the first rule whose pattern matches it,
    with 302 for [redirect], 301 for [permanent], and internally otherwise. *)
Theorem rewrite_first_match {R : RegexLib} rs path a :
  Forall wf_rewrite rs ->
  apply (RewriteEngine_new rs) path = Some a
  <-> exists before rule after re,
        rs = before ++ rule :: after
        /\ (forall q re', q ∈ before -> Regex_new (rw_pattern q) = Some re' -> is_match re' path = false)
        /\ Regex_new (rw_pattern rule) = Some re /\ is_match re path = true
        /\ flag_action (regex_replace re path (rw_replacement rule)) (rw_flag rule) a.
Proof.
  intros Hwf. unfold apply, RewriteEngine_new. cbn [rules].
  induction Hwf as [|r rs [[re Hre] _] _ IH]; cbn [omap list_omap].
  - split; [done|]. intros (b & ? & ? & ? & H & _). by destruct b.
  - unfold compile_rule at 1. rewrite Hre. cbn [option_map apply_rules].
    destruct (is_match re path) eqn:E.
    + split.
      * intros [= <-]. exists [], r, rs, re. split_and!; [done|set_solver|done|done|].
        repeat case_bool_decide; by constructor.
      * intros (b & rule & after & re' & H & Hb & Hn & Hm & Ha). f_equal.
        destruct b as [|q b]; injection H as -> H; [|rewrite (Hb q re) in E; set_solver].
        assert (re' = re) as -> by congruence.
        destruct Ha as [Hf|Hf|H1 H2]; [by rewrite Hf..|by rewrite !bool_decide_eq_false_2].
    + rewrite IH. split.
      * intros (b & rule & after & re' & -> & Hb & Hn & Hm & Ha).
        exists (r :: b), rule, after, re'. split_and!; try done.
        intros q re2 [->|Hq]%elem_of_cons; [congruence|by apply Hb].
      * intros (b & rule & after & re' & H & Hb & Hn & Hm & Ha).
        destruct b as [|q b]; injection H as -> H; [congruence|].
        exists b, rule, after, re'. split_and!; try done. intros q' re2 Hq. apply Hb. set_solver.
Qed.

#[local] Existing Instance literal_regex.

Lemma rewrite_first_match_witness :
  exists before rule after re,
    [mkRewrite "/old" "/new" "permanent"] = before ++ rule :: after
    /\ (forall q re', q ∈ before -> Regex_new (rw_pattern q) = Some re' ->
          is_match re' "/old/x" = false)
    /\ Regex_new (rw_pattern rule) = Some re /\ is_match re "/old/x" = true
    /\ flag_action (regex_replace re "/old/x" (rw_replacement rule)) (rw_flag rule)
         (Redirect "/new/x" 301).
Proof.
  apply (rewrite_first_match [mkRewrite "/old" "/new" "permanent"]).
  - constructor; [|constructor]. split; [eexists; reflexivity|vm_decide].
  - vm_compute. reflexivity.
Defined.
