(* ===== verification/Resolver.v ===== *)
(** * DNS pinning (src/src/resolver.rs)

    The cache maps a host to vetted addresses and their expiry; an instant is a
    number of nanoseconds and the answer of the system resolver is an input.
    [resolve_checked] suspends between its cache lookup and its store, so lookups
    interleave: [rstep].  Theorems: no restricted address is ever returned in any
    interleaving, the cache stays bounded, and a vetted answer is pinned for its
    TTL whatever the name resolves to meanwhile. *)

From S2P Require Import Prelude.
From S2P Require Import Str.
From S2P Require Import Net.
From S2P Require Import Extern.
From S2P Require Import Instances.
From S2P Require Import UpstreamFilter.

Definition MAX_CACHE_ENTRIES : nat := Z.to_nat 4096.

Record CacheEntry : Type := mkEntry { ce_addrs : list SocketAddr; ce_expires : Z }.
Abbreviation Cache := (gmap str CacheEntry).

(** [io::Error] by kind. *)
Inductive ResolveError : Type :=
  | LookupError
  | NotFound (host : str)
  | PermissionDenied (host : str) (ip : IpAddr).

Section resolver.
Context {N : IpNetLib}.

Record PinningResolver : Type := mkResolver { pr_allowed : list IpNetwork; pr_ttl : Z }.

Variable r : PinningResolver.

Definition cached (cache : Cache) (host : str) (now : Z) : Cache * option (list SocketAddr) :=
  match cache !! host with
  | Some entry => if now <? ce_expires entry then (cache, Some (ce_addrs entry))
                  else (delete host cache, None)
  | None => (cache, None)
  end.

Definition store (cache : Cache) (host : str) (addrs : list SocketAddr) (now : Z) : Cache :=
  let cache := if bool_decide (MAX_CACHE_ENTRIES <= size cache)%nat then ∅ else cache in
  <[host := mkEntry addrs (now + pr_ttl r)]> cache.

(** The part of [resolve_checked] after the lookup: [answer] is [None] when the
    system resolver fails. *)
Definition check_answer (host : str) (answer : option (list SocketAddr))
    : res ResolveError (list SocketAddr) :=
  let? addrs := ok_or answer LookupError in
  guard! negb (bool_decide (addrs = [])) else NotFound host;
  let? _ := for_each (fun sa =>
    if negb (ip_allowed (sa_ip sa) (pr_allowed r)) then Err (PermissionDenied host (sa_ip sa))
    else Ok tt) addrs in
  Ok addrs.

Definition finish_lookup (cache : Cache) (host : str) (answer : option (list SocketAddr)) (now : Z)
    : Cache * res ResolveError (list SocketAddr) :=
  match check_answer host answer with
  | Ok addrs => (store cache host addrs now, Ok addrs)
  | e => (cache, e)
  end.

(** The whole call, undisturbed: it starts at [now] and stores at [now']. *)
Definition resolve_checked (cache : Cache) (host : str) (now : Z)
    (answer : option (list SocketAddr)) (now' : Z) : Cache * res ResolveError (list SocketAddr) :=
  match cached cache host now with
  | (cache, Some addrs) => (cache, Ok addrs)
  | (cache, None) => finish_lookup cache host answer now'
  end.

(** [Service::call], through which the connector of the pooled client resolves. *)
Definition call (cache : Cache) (name : str) (now : Z) (answer : option (list SocketAddr)) (now' : Z)
    : Cache * res ResolveError (list SocketAddr) :=
  let '(cache, r) := resolve_checked cache name now answer now' in
  (cache, let? addrs := r in Ok addrs).

(** ** Interleaved calls *)

(** The cache, the hosts whose lookups are under way, and the results so far. *)
Record RState : Type := mkRState {
  rs_cache : Cache;
  rs_pending : list str;
  rs_results : list (str * res ResolveError (list SocketAddr));
}.

Inductive rstep : RState -> RState -> Prop :=
  | rs_hit cache cache' pend out host now addrs :
      cached cache host now = (cache', Some addrs) ->
      rstep (mkRState cache pend out) (mkRState cache' pend ((host, Ok addrs) :: out))
  | rs_miss cache cache' pend out host now :
      cached cache host now = (cache', None) ->
      rstep (mkRState cache pend out) (mkRState cache' (host :: pend) out)
  | rs_finish cache cache' p1 p2 out host answer now result :
      finish_lookup cache host answer now = (cache', result) ->
      rstep (mkRState cache (p1 ++ host :: p2) out) (mkRState cache' (p1 ++ p2) ((host, result) :: out)).

Definition vetted (addrs : list SocketAddr) : Prop :=
  addrs <> [] /\ (forall sa, sa ∈ addrs -> ip_allowed (sa_ip sa) (pr_allowed r) = true).

Definition cache_ok (cache : Cache) : Prop :=
  (size cache <= MAX_CACHE_ENTRIES)%nat
  /\ (forall host e, cache !! host = Some e -> vetted (ce_addrs e)).

Lemma check_answer_ok host answer addrs :
  check_answer host answer = Ok addrs <-> answer = Some addrs /\ vetted addrs.
Proof.
  unfold check_answer, vetted. destruct answer as [l|]; cbn [ok_or res_bind].
  2:{ split; [done|]. by intros [[=] _]. }
  case_bool_decide as El; cbn [negb].
  { split; [done|]. by intros ([= ->] & ? & _). }
  rewrite res_bind_ok. split.
  - intros ([] & Hall & [= ->]). split; [done|]. split; [done|]. intros sa Hsa.
    rewrite for_each_ok, Forall_forall in Hall. specialize (Hall sa Hsa).
    by destruct (ip_allowed _ _).
  - intros ([= ->] & _ & Hall). exists tt. split; [|done]. apply for_each_ok, Forall_forall.
    intros sa Hsa. by rewrite (Hall sa Hsa).
Qed.

Lemma for_each_refused host addrs sa :
  sa ∈ addrs -> ip_allowed (sa_ip sa) (pr_allowed r) = false ->
  exists ip, for_each (fun sa =>
    if negb (ip_allowed (sa_ip sa) (pr_allowed r)) then Err (PermissionDenied host (sa_ip sa))
    else Ok tt) addrs = Err (PermissionDenied host ip).
Proof.
  intros Hin Hbad. induction addrs as [|x l IH]; [set_solver|]. cbn [for_each].
  destruct (ip_allowed (sa_ip x) (pr_allowed r)) eqn:E; cbn [negb res_bind]; [|eauto].
  apply IH. apply elem_of_cons in Hin as [->|?]; [congruence|done].
Qed.

Lemma cached_ok cache host now :
  cache_ok cache ->
  let '(cache', o) := cached cache host now in
  cache_ok cache' /\ (forall addrs, o = Some addrs -> vetted addrs).
Proof.
  intros [Hsz Hv]. unfold cached. destruct (cache !! host) as [e|] eqn:E; [|done].
  destruct (now <? ce_expires e); (split; [|try done]).
  { done. }
  { intros addrs [= <-]. by apply (Hv host). }
  split.
  - rewrite map_size_delete, E. cbn. lia.
  - intros h e' He%lookup_delete_Some. by apply (Hv h), He.
Qed.

Lemma store_ok cache host addrs now :
  cache_ok cache -> vetted addrs -> cache_ok (store cache host addrs now).
Proof.
  intros [Hsz Hv] Ha. unfold store. split.
  - case_bool_decide as Hb.
    + rewrite map_size_insert_None by apply lookup_empty. rewrite map_size_empty.
      unfold MAX_CACHE_ENTRIES. lia.
    + rewrite map_size_insert. case_match; cbn; lia.
  - intros h e. rewrite lookup_insert. case_decide; [by intros [= <-]|].
    case_bool_decide; [by rewrite lookup_empty|apply Hv].
Qed.

Lemma finish_lookup_ok cache host answer now :
  cache_ok cache ->
  let '(cache', result) := finish_lookup cache host answer now in
  cache_ok cache' /\ (forall addrs, result = Ok addrs -> vetted addrs).
Proof.
  intros Hc. unfold finish_lookup. destruct (check_answer host answer) as [addrs|e|] eqn:E; [|done..].
  apply check_answer_ok in E as [_ Hv]. split; [by apply store_ok|]. by intros ? [= <-].
Qed.

Definition state_ok (s : RState) : Prop :=
  cache_ok (rs_cache s) /\ (forall host addrs, (host, Ok addrs) ∈ rs_results s -> vetted addrs).

Lemma rstep_ok s s' : state_ok s -> rstep s s' -> state_ok s'.
Proof.
  intros [Hc Hr] Hs. destruct Hs as [c c' p o h now addrs E|c c' p o h now E|c c' p1 p2 o h a now res E];
    cbn [rs_cache rs_results] in *.
  - pose proof (cached_ok c h now Hc) as H. rewrite E in H. destruct H as [Hc' Hv].
    split; [done|]. intros host l [[= -> ->]|Hin]%elem_of_cons; [by apply Hv|by eapply Hr].
  - pose proof (cached_ok c h now Hc) as H. rewrite E in H. by destruct H.
  - pose proof (finish_lookup_ok c h a now Hc) as H. rewrite E in H. destruct H as [Hc' Hv].
    split; [done|]. intros host l [[= -> <-]|Hin]%elem_of_cons; [by apply Hv|by eapply Hr].
Qed.

(** In every interleaving of lookups, with any answers from the system resolver
    and any clock, each address list handed to the connector is non-empty and
    holds only addresses the allowlist admits, and the cache holds at most 4096
    hosts. *)
Theorem resolver_safe s :
  rtc rstep (mkRState ∅ [] []) s ->
  (size (rs_cache s) <= MAX_CACHE_ENTRIES)%nat
  /\ (forall host addrs sa, (host, Ok addrs) ∈ rs_results s ->
        addrs <> [] /\ (sa ∈ addrs -> ip_allowed (sa_ip sa) (pr_allowed r) = true)).
Proof.
  intros Hr. assert (state_ok s) as [[Hsz _] Hres].
  { assert (state_ok (mkRState ∅ [] [])) as H0.
    { split; [|set_solver]. split; [cbn; rewrite map_size_empty; lia|].
      intros h e. cbn. by rewrite lookup_empty. }
    revert H0. induction Hr; eauto using rstep_ok. }
  split; [done|]. intros host addrs sa Hin. destruct (Hres _ _ Hin) as [Hne Ha]. auto.
Qed.

(** Resolution fails closed: on a cache miss the call succeeds exactly when the
    answer is non-empty and every address of it is admitted, and a single
    restricted address refuses the whole answer and leaves the cache alone. *)
Theorem resolve_checked_miss cache host now answer now' :
  snd (cached cache host now) = None ->
  let '(cache', result) := resolve_checked cache host now answer now' in
  (forall addrs, result = Ok addrs <-> answer = Some addrs /\ vetted addrs)
  /\ (is_err result = true -> cache' = fst (cached cache host now))
  /\ (forall addrs sa, answer = Some addrs -> sa ∈ addrs ->
        ip_allowed (sa_ip sa) (pr_allowed r) = false ->
        exists ip, result = Err (PermissionDenied host ip)).
Proof.
  intros Hmiss. unfold resolve_checked. destruct (cached cache host now) as [c o].
  cbn [fst snd] in *. subst o. unfold finish_lookup.
  assert (forall addrs sa, answer = Some addrs -> sa ∈ addrs ->
    ip_allowed (sa_ip sa) (pr_allowed r) = false ->
    exists ip, check_answer host answer = Err (PermissionDenied host ip)) as Hbad.
  { intros addrs sa -> Hin Hbad. unfold check_answer. cbn [ok_or res_bind].
    rewrite bool_decide_eq_false_2 by (by intros ->; apply not_elem_of_nil in Hin). cbn [negb].
    destruct (for_each_refused host addrs sa Hin Hbad) as [ip ->]. cbn [res_bind]. eauto. }
  pose proof (check_answer_ok host answer) as Hok.
  destruct (check_answer host answer); (split; [done|split; done]).
Qed.

(** A vetted answer is pinned: until its TTL ends, resolving the same host
    returns it again whatever the name resolves to by then (rebinding), and the
    cache does not change. *)
Theorem resolve_checked_pinned cache host now answer now' cache' addrs later answer2 :
  snd (cached cache host now) = None ->
  resolve_checked cache host now answer now' = (cache', Ok addrs) ->
  later < now' + pr_ttl r ->
  forall later', resolve_checked cache' host later answer2 later' = (cache', Ok addrs).
Proof.
  intros Hmiss. unfold resolve_checked at 1. destruct (cached cache host now) as [c o].
  cbn [snd] in Hmiss. subst o. unfold finish_lookup.
  destruct (check_answer host answer) as [l|e|]; [|done..].
  intros [= <- <-] Hlater later'. unfold resolve_checked, cached, store.
  rewrite lookup_insert_eq. cbn [ce_expires ce_addrs]. by rewrite (proj2 (Z.ltb_lt _ _)).
Qed.
End resolver.

(** ** The theorems at concrete inputs *)

#[local] Existing Instance cidr_nets.

Definition example_resolver : @PinningResolver cidr_nets :=
  @mkResolver cidr_nets [(V4 (V4Octets 10 0 0 0), 8)] 30.
Definition sock (a b c d : Z) : SocketAddr := mkSocketAddr (V4 (V4Octets a b c d)) 0.

Lemma resolver_safe_witness :
  [sock 10 0 0 1] <> []
  /\ (sock 10 0 0 1 ∈ [sock 10 0 0 1] ->
      ip_allowed (sa_ip (sock 10 0 0 1)) (pr_allowed example_resolver) = true).
Proof.
  apply (resolver_safe example_resolver
    (mkRState (store example_resolver ∅ "db" [sock 10 0 0 1] 5) [] [("db" : str, Ok [sock 10 0 0 1])]))
    with (host := "db"); [|set_solver].
  eapply rtc_l; [apply (rs_miss example_resolver ∅ ∅ [] [] "db" 0); reflexivity|].
  apply rtc_once. apply (rs_finish example_resolver ∅ _ [] [] [] "db" (Some [sock 10 0 0 1]) 5).
  vm_compute. reflexivity.
Defined.

Lemma resolve_checked_miss_witness :
  exists ip, snd (resolve_checked example_resolver ∅ "db" 0
    (Some [sock 93 184 216 34; sock 127 0 0 1]) 1) = Err (PermissionDenied "db" ip).
Proof.
  pose proof (resolve_checked_miss example_resolver ∅ "db" 0
    (Some [sock 93 184 216 34; sock 127 0 0 1]) 1 eq_refl) as H.
  destruct (resolve_checked _ _ _ _ _ _) as [c res]. destruct H as (_ & _ & H).
  apply (H [sock 93 184 216 34; sock 127 0 0 1] (sock 127 0 0 1)); [done|set_solver|vm_compute; done].
Defined.

Lemma resolve_checked_pinned_witness :
  let c := store example_resolver ∅ "db" [sock 10 0 0 1] 5 in
  resolve_checked example_resolver c "db" 20 (Some [sock 127 0 0 1]) 21 = (c, Ok [sock 10 0 0 1]).
Proof.
  apply (resolve_checked_pinned example_resolver ∅ "db" 0 (Some [sock 10 0 0 1]) 5); [done| |cbn; lia].
  vm_compute. reflexivity.
Defined.
