(* ===== verification/StaticFile.v ===== *)
(** * Static files (src/src/static_file.rs)

    Percent decoding, path sanitising, MIME guessing and the whole of
    [serve_file] over an interface to the file system.  Theorems: a path decodes to
    a text exactly when it is one of its form-urlencodings (a literal byte, a plus sign
    for a space, a percent escape); a served file was opened beneath the root by a
    relative path without a traversal, and traversals and NUL bytes are refused before
    any file is opened. *)

From S2P Require Import Prelude.
From S2P Require Import Str.
From S2P Require Import Net.
From S2P Require Import Extern.
From S2P Require Import Instances.

(** ** The file system *)

Inductive Errno : Type := ENOSYS | EXDEV | ELOOP | ENOENT | ENOTDIR | EACCES | OtherErrno.

Class FileSystem : Type := {
  File : Type;
  open_dir : str -> bool;                        (* open(root, O_PATH | O_DIRECTORY) succeeds *)
  openat2 : str -> str -> File + Errno;          (* RESOLVE_BENEATH | RESOLVE_NO_MAGICLINKS *)
  canonicalize : str -> option str;
  file_open : str -> option File;
  file_is_file : File -> option bool;            (* fstat; None when it fails *)
  read_to_end : File -> option str;
  real_path : File -> str;
}.

Definition path_components (p : str) : list str :=
  filter (fun c => c <> [] /\ c <> ".") (split p "/").

(** [Path::starts_with]: by components, both absolute or both relative. *)
Definition path_starts_with (p q : str) : bool :=
  bool_decide (starts_with p "/" = starts_with q "/")
  && bool_decide (take (length (path_components q)) (path_components p) = path_components q).

(** [Path::join]. *)
Definition path_join (root rel : str) : str :=
  if starts_with rel "/" then rel
  else if bool_decide (root = []) || ends_with root "/" then root ++ rel
  else root ++ "/" ++ rel.

(** What the manual page of openat2 promises, and that opening a canonical path
    opens the file at that path. *)
Class FileSystemLaws (F : FileSystem) : Prop := {
  openat2_beneath root rel f :
    openat2 root rel = inl f ->
    exists c, canonicalize root = Some c /\ path_starts_with (real_path f) c = true;
  file_open_canonical p c f :
    canonicalize p = Some c -> file_open c = Some f -> real_path f = c;
}.

(** ** Decoding and sanitising *)

Fixpoint url_decode_out (s : str) : option str :=
  match s with
  | [] => Some []
  | c :: t =>
      if bool_decide (c = "%"%char) then
        match t with
        | a :: b :: rest =>
            match from_utf8 [a; b] with
            | Some hex =>
                match from_str_radix U8_MAX 16 hex with
                | Some v => option_map (cons (byte v)) (url_decode_out rest)
                | None => None
                end
            | None => None
            end
        | _ => None
        end
      else if bool_decide (c = "+"%char) then option_map (cons " "%char) (url_decode_out t)
      else option_map (cons c) (url_decode_out t)
  end.
Definition url_decode (input : str) : option str :=
  match url_decode_out input with Some out => from_utf8 out | None => None end.

(** The characters taken for separators: backslash, U+2044 and U+2215. *)
Definition separators : list str :=
  [["\"%char]; [byte 226; byte 129; byte 132]; [byte 226; byte 136; byte 149]].

Definition sanitize_path (path : str) : str :=
  drop_while (fun c => bool_decide (c = "/"%char))
    (concat (map (fun c => if bool_decide (c ∈ separators) then ("/" : str) else c) (chars path))).

(** ** MIME types *)

(** [Path::file_name]: the last component, unless it is [..]. *)
Definition file_name (p : str) : option str :=
  match last (path_components p) with
  | Some c => if bool_decide (c = "..") then None else Some c
  | None => None
  end.
(** [Path::extension]: after the last dot, unless the name starts with it. *)
Definition extension (p : str) : option str :=
  match file_name p with
  | Some n => match rsplit_once n "." with
              | Some (before, after) => if bool_decide (before = []) then None else Some after
              | None => None
              end
  | None => None
  end.

Definition mime_table : list (list string * string) :=
  [(["html"; "htm"], "text/html; charset=utf-8"); (["css"], "text/css; charset=utf-8");
   (["js"], "application/javascript; charset=utf-8");
   (["json"], "application/json; charset=utf-8"); (["png"], "image/png");
   (["jpg"; "jpeg"], "image/jpeg"); (["gif"], "image/gif"); (["svg"], "image/svg+xml");
   (["ico"], "image/x-icon"); (["txt"], "text/plain; charset=utf-8");
   (["xml"], "application/xml; charset=utf-8"); (["pdf"], "application/pdf");
   (["wasm"], "application/wasm")]%string.

Definition guess_mime (path : str) : str :=
  match extension path with
  | Some e =>
      match find_first (fun row => bool_decide (e ∈ strs (fst row))) mime_table with
      | Some row => snd row
      | None => "application/octet-stream"
      end
  | None => "application/octet-stream"
  end.

(** ** Opening and serving *)

Section serve.
Context {F : FileSystem}.

Definition open_beneath_fallback (root rel : str) : res Z File :=
  let file_path := path_join root rel in
  let? canonical := ok_or (canonicalize file_path) NOT_FOUND in
  let? root_canonical := ok_or (canonicalize root) INTERNAL_SERVER_ERROR in
  if negb (path_starts_with canonical root_canonical) then Err FORBIDDEN
  else ok_or (file_open canonical) NOT_FOUND.

Definition open_beneath (root rel : str) : res Z File :=
  if negb (open_dir root) then Err INTERNAL_SERVER_ERROR
  else match openat2 root rel with
       | inl f => Ok f
       | inr ENOSYS => open_beneath_fallback root rel
       | inr EXDEV | inr ELOOP => Err FORBIDDEN
       | inr ENOENT | inr ENOTDIR => Err NOT_FOUND
       | inr EACCES => Err FORBIDDEN
       | inr OtherErrno => Err NOT_FOUND
       end.

(** The closure run on the blocking pool. *)
Definition read_file (root rel : str) : res Z str :=
  let? file := open_beneath root rel in
  let? is_file := ok_or (file_is_file file) INTERNAL_SERVER_ERROR in
  if negb is_file then Err NOT_FOUND
  else ok_or (read_to_end file) INTERNAL_SERVER_ERROR.

Context {H : HttpLib}.

Definition serve_file (root uri_path : str) : res Z Response :=
  let? decoded := ok_or (url_decode uri_path) BAD_REQUEST in
  let sanitized := sanitize_path decoded in
  if contains sanitized ".." || contains_char sanitized (byte 0) then Err FORBIDDEN
  else if bool_decide (sanitized = []) then Err NOT_FOUND
  else
    let mime_type := guess_mime sanitized in
    let? content := read_file root sanitized in
    Ok (with_header (with_header (Response_new content) "content-type" mime_type)
          "content-length" (show (Z.of_nat (length content)))).
End serve.

(** ** Percent encoding *)

(** [a] is the hexadecimal digit [v], in either case. *)
Definition hex_digit (v : nat) (a : ascii) : Prop :=
  ("0123456789abcdef" : str) !! v = Some a \/ ("0123456789ABCDEF" : str) !! v = Some a.

(** What two bytes after a percent sign stand for: two hexadecimal digits, or, since
    [from_str_radix] takes a sign, a plus and one digit. *)
Definition escape (a b : ascii) (v : nat) : Prop :=
  exists y, hex_digit y b /\ ((exists x, hex_digit x a /\ v = (16 * x + y)%nat) \/ a = "+"%char /\ v = y).

(** The encodings of a byte string: each byte as itself or escaped, a space also as a
    plus; percent and plus signs only escaped. *)
Inductive encodes : str -> str -> Prop :=
  | enc_nil : encodes [] []
  | enc_literal c e s : c <> "%"%char -> c <> "+"%char -> encodes e s -> encodes (c :: e) (c :: s)
  | enc_plus e s : encodes e s -> encodes ("+"%char :: e) (" "%char :: s)
  | enc_escape a b v e s :
      escape a b v -> encodes e s -> encodes ("%"%char :: a :: b :: e) (byte (Z.of_nat v) :: s).

Lemma hex_digit_of a v : hex_digit v a <-> digit_of 16 a = Some (Z.of_nat v).
Proof.
  split.
  - intros Ha. do 16 (destruct v as [|v]; [destruct Ha as [[= <-]|[= <-]]; reflexivity|]). by destruct Ha.
  - remember (Some (Z.of_nat v)) as o eqn:Eo. destruct a as [[] [] [] [] [] [] [] []]; intros Hv; vm_compute in Hv;
      rewrite <- Hv in Eo; try discriminate Eo; injection Eo as Eo;
      apply (f_equal Z.to_nat) in Eo; rewrite Nat2Z.id in Eo; subst v; (by left) || by right.
Qed.

Lemma hex_digit_lt v a : hex_digit v a -> (v < 16)%nat.
Proof. intros Ha%hex_digit_of%digit_of_range. lia. Qed.

Lemma hex_digit_ascii v a : hex_digit v a -> is_ascii_byte a = true.
Proof. intros Ha. do 16 (destruct v as [|v]; [destruct Ha as [[= <-]|[= <-]]; reflexivity|]). by destruct Ha. Qed.

Lemma digit_nat a z : digit_of 16 a = Some z -> hex_digit (Z.to_nat z) a.
Proof. intros Hz. apply hex_digit_of. pose proof (digit_of_range _ _ _ Hz). by rewrite Z2Nat.id by lia. Qed.

(** The two bytes as the decoder reads them. *)
Lemma escape_value a b v :
  escape a b v <-> from_utf8 [a; b] = Some [a; b] /\ from_str_radix U8_MAX 16 [a; b] = Some (Z.of_nat v).
Proof.
  split.
  - intros (y & Hy & Hv). unfold from_utf8, from_str_radix. pose proof (hex_digit_lt _ _ Hy). split.
    + rewrite utf8_valid_ascii; [done|]. unfold is_ascii. cbn [forallb]. rewrite (hex_digit_ascii _ _ Hy).
      destruct Hv as [(x & Hx & _)|[-> _]]; [by rewrite (hex_digit_ascii _ _ Hx)|done].
    + destruct Hv as [(x & Hx & ->)|[-> ->]].
      * rewrite decide_False by (intros ->; apply hex_digit_of in Hx; discriminate Hx). cbn [digits_value].
        pose proof (hex_digit_lt _ _ Hx). apply hex_digit_of in Hx, Hy. rewrite Hx, Hy. unfold U8_MAX.
        rewrite (proj2 (Z.leb_le _ _)) by lia. f_equal. lia.
      * apply hex_digit_of in Hy. rewrite decide_True by done. cbn [tl digits_value]. rewrite Hy. unfold U8_MAX.
        by rewrite (proj2 (Z.leb_le _ _)) by lia.
  - intros [_ Hr]. unfold from_str_radix in Hr. unfold escape. case_decide as Ea; cbn [tl digits_value] in Hr.
    + destruct (digit_of 16 b) as [y|] eqn:Ey; [|done]. case_match; [|done]. injection Hr as Hr.
      exists (Z.to_nat y). split; [by apply digit_nat|right]. split; [done|lia].
    + destruct (digit_of 16 a) as [x|] eqn:Ex; [|done]. destruct (digit_of 16 b) as [y|] eqn:Ey; [|done].
      case_match; [|done]. injection Hr as Hr. pose proof (digit_of_range _ _ _ Ex). pose proof (digit_of_range _ _ _ Ey).
      exists (Z.to_nat y). split; [by apply digit_nat|left]. exists (Z.to_nat x). split; [by apply digit_nat|lia].
Qed.

Lemma encodes_decodes e s : encodes e s -> url_decode_out e = Some s.
Proof.
  induction 1 as [|c e s Hp Hq _ IH|e s _ IH|a b v e s Hv _ IH]; cbn [url_decode_out]; [done|..].
  - by rewrite !bool_decide_eq_false_2, IH by done.
  - by rewrite IH.
  - rewrite bool_decide_eq_true_2 by done. apply escape_value in Hv as [-> ->]. by rewrite IH.
Qed.

Lemma decodes_encodes e s : url_decode_out e = Some s -> encodes e s.
Proof.
  remember (length e) as n eqn:Hn. revert e s Hn. induction n as [n IH] using lt_wf_ind. intros [|c e] s -> Hs.
  { injection Hs as <-. constructor. }
  cbn [url_decode_out] in Hs. case_bool_decide as Ep.
  - subst c. destruct e as [|a [|b e]]; [done..|]. destruct (from_utf8 [a; b]) as [h|] eqn:Eh; [|done].
    assert (h = [a; b]) as -> by (unfold from_utf8 in Eh; destruct (utf8_valid [a; b]); congruence).
    destruct (from_str_radix U8_MAX 16 [a; b]) as [v|] eqn:Ev; [|done].
    apply fmap_Some in Hs as (s' & Hs & ->). pose proof (from_str_radix_range U8_MAX 16 _ _ ltac:(done) Ev) as [Hv _].
    rewrite <- (Z2Nat.id v) by lia. constructor; [|apply (IH (length e)); [cbn; lia|done|exact Hs]].
    apply escape_value. split; [done|]. by rewrite Z2Nat.id by lia.
  - case_bool_decide as Eq; apply fmap_Some in Hs as (s' & Hs & ->); [subst c|];
      constructor; try done; by apply (IH (length e)); [cbn; lia|..].
Qed.


(** ** Sanitised paths *)

Lemma replace_no_backslash p :
  "\"%char ∉ concat (map (fun c => if bool_decide (c ∈ separators) then ("/" : str) else c) (chars p)).
Proof.
  remember (length p) as n eqn:Hn. revert p Hn. induction n as [n IH] using lt_wf_ind. intros p ->.
  destruct (find_char p "\") as [i|] eqn:E.
  - apply find_char_Some in E as (l & r & -> & _ & _). rewrite length_app in IH. cbn [length] in IH.
    unfold chars. rewrite utf8_chunks_app by done.
    rewrite !map_app, concat_app, not_elem_of_app. split.
    + apply (IH (length l)); [lia|done].
    + cbn [map concat fst]. rewrite bool_decide_eq_true_2 by vm_decide.
      apply not_elem_of_app. split; [by vm_decide|]. apply (IH (length r)); [lia|done].
  - apply find_char_None in E.
    intros (x & Hx & Hin)%list_elem_of_In%in_concat.
    apply list_elem_of_In, list_elem_of_fmap in Hx as (c & -> & Hc).
    apply list_elem_of_In in Hin. case_bool_decide; [revert Hin; by vm_decide|].
    apply E. rewrite <- (concat_chars p). apply list_elem_of_In, in_concat.
    exists c. by rewrite <- !list_elem_of_In.
Qed.

Lemma drop_while_head {A} (f : A -> bool) l x : head (drop_while f l) = Some x -> f x = false.
Proof. induction l as [|y l IH]; cbn; [done|]. destruct (f y) eqn:E; [done|]. by intros [= ->]. Qed.

Lemma drop_while_subset {A} (f : A -> bool) l x : x ∈ drop_while f l -> x ∈ l.
Proof.
  induction l as [|y l IH]; cbn; [done|]. destruct (f y); [|done]. intros Hx. by apply elem_of_cons; right; apply IH.
Qed.

(** What the file layer is given: a non-empty relative path with no dot-dot, no
    NUL and no backslash. *)
Definition safe_rel (rel : str) : Prop :=
  rel <> [] /\ head rel <> Some "/"%char /\ ~ ("\"%char ∈ rel) /\ ~ (byte 0 ∈ rel)
  /\ contains rel ".." = false.

Lemma sanitize_safe d :
  contains (sanitize_path d) ".." = false -> contains_char (sanitize_path d) (byte 0) = false ->
  sanitize_path d <> [] -> safe_rel (sanitize_path d).
Proof.
  intros Hdd H0 Hne. unfold safe_rel. split_and!; try done.
  - unfold sanitize_path. intros H%drop_while_head. by case_bool_decide.
  - unfold sanitize_path. intros H%drop_while_subset. by apply replace_no_backslash in H.
  - by apply contains_char_false.
Qed.

Section contained.
Context {F : FileSystem} {FL : FileSystemLaws F} {H : HttpLib}.

Lemma open_beneath_contained root rel f :
  open_beneath root rel = Ok f ->
  exists c, canonicalize root = Some c /\ path_starts_with (real_path f) c = true.
Proof.
  unfold open_beneath. destruct (open_dir root); cbn [negb]; [|done].
  destruct (openat2 root rel) as [g|e] eqn:E.
  { intros [= <-]. by eapply openat2_beneath. }
  destruct e; try done. unfold open_beneath_fallback. intros Hok. res_inv.
  destruct (canonicalize (path_join root rel)) as [c|] eqn:Ec; [|done].
  destruct (canonicalize root) as [rc|] eqn:Er; [|done].
  cbn [ok_or] in *. simplify_eq.
  destruct (file_open a) as [g|] eqn:Eo; [|done]. cbn [ok_or] in Hok. injection Hok as ->.
  exists a0. split; [done|]. rewrite (file_open_canonical _ _ _ Ec Eo).
  match goal with E : negb _ = false |- _ => by apply negb_false_iff in E end.
Qed.
End contained.

(** ** Properties of [serve_file] *)

(** C25. A 200 answer is the content of a regular file whose real path lies beneath
    the canonical document root, opened by a relative path without dot-dot, NUL or
    backslash, with its exact length announced. *)
Theorem serve_file_contained {F : FileSystem} {FL : FileSystemLaws F} {H : HttpLib} {HL : HttpLaws H}
    root uri r :
  serve_file root uri = Ok r ->
  exists d f c, url_decode uri = Some d /\ safe_rel (sanitize_path d)
    /\ open_beneath root (sanitize_path d) = Ok f
    /\ canonicalize root = Some c /\ path_starts_with (real_path f) c = true
    /\ file_is_file f = Some true /\ read_to_end f = Some (r_body r)
    /\ r_status r = OK_200
    /\ hm_get (r_headers r) "content-length" = Some (show (Z.of_nat (length (r_body r))))
    /\ hm_get (r_headers r) "content-type" = Some (guess_mime (sanitize_path d)).
Proof.
  unfold serve_file. destruct (url_decode uri) as [d|]; [|done]. cbn [ok_or res_bind].
  destruct (contains (sanitize_path d) ".." || contains_char (sanitize_path d) (byte 0)) eqn:E1; [done|].
  apply orb_false_iff in E1 as [Edd E0]. case_bool_decide as Ene; [done|].
  intros Hr. apply res_bind_ok in Hr as (content & Hread & [= <-]).
  unfold read_file in Hread. apply res_bind_ok in Hread as (f & Hopen & Hf).
  destruct (file_is_file f) as [[]|] eqn:Eis; [|done..]. cbn [ok_or res_bind negb] in Hf.
  destruct (read_to_end f) as [content'|] eqn:Erd; [|done]. injection Hf as ->.
  destruct (open_beneath_contained _ _ _ Hopen) as (c & Hc & Hb).
  exists d, f, c. cbn [r_body r_status r_headers with_header Response_new].
  split_and!; try done; [by apply sanitize_safe|by rewrite hm_get_insert|].
  rewrite hm_get_insert_ne by vm_decide. by rewrite hm_get_insert.
Qed.

Lemma contains_after p s : contains s p = true -> forall l, contains (l ++ s) p = true.
Proof.
  rewrite contains_spec. intros (a & b & ->) l. apply contains_spec. exists (l ++ a), b.
  by rewrite <- app_assoc.
Qed.

Lemma sanitize_dotdot x : contains (sanitize_path ("/../" ++ x)) ".." = true.
Proof.
  unfold sanitize_path, chars. rewrite utf8_chunks_ascii by done.
  cbn [list_ascii_of_string map fst app concat]. rewrite !bool_decide_eq_false_2 by vm_decide.
  cbn [app drop_while].
  rewrite bool_decide_eq_true_2 by done. rewrite bool_decide_eq_false_2 by done.
  apply contains_spec. exists []. eexists. reflexivity.
Qed.

(** A parent traversal is refused however it is encoded and whatever the file system
    holds: with 403, or with 400 when what follows is not UTF-8. *)
Theorem serve_file_traversal {F : FileSystem} {H : HttpLib} root e x :
  encodes e ("../" ++ x) ->
  serve_file root ("/"%char :: e) = Err (if utf8_valid x then FORBIDDEN else BAD_REQUEST).
Proof.
  intros He. unfold serve_file, url_decode.
  rewrite (encodes_decodes _ ("/"%char :: "../" ++ x)) by (by constructor).
  change ("/"%char :: "../" ++ x) with ("/../" ++ x). unfold from_utf8.
  assert (utf8_valid ("/../" ++ x) = utf8_valid x) as ->.
  { unfold utf8_valid. by rewrite utf8_chunks_ascii. }
  destruct (utf8_valid x); [|done]. cbn [ok_or res_bind]. by rewrite sanitize_dotdot.
Qed.

(** ** A file system with one file *)

Definition one_file : FileSystem := {|
  File := unit;
  open_dir root := bool_decide (root = "/srv");
  openat2 root rel :=
    if bool_decide (root = "/srv" /\ rel = "index.html") then inl tt else inr ENOENT;
  canonicalize p := if bool_decide (p = "/srv") then Some p else None;
  file_open _ := None;
  file_is_file _ := Some true;
  read_to_end _ := Some ("<h1>hi</h1>" : str);
  real_path _ := "/srv/index.html";
|}.

#[export] Instance one_file_laws : FileSystemLaws one_file.
Proof.
  split.
  - intros root rel f. cbn. case_bool_decide as E; [|done]. destruct E as [-> ->]. intros _.
    exists "/srv". split; [done|]. by vm_compute.
  - intros p c f. cbn. done.
Qed.

Definition hello_response : @Response assoc_http :=
  with_header (with_header (Response_new "<h1>hi</h1>") "content-type" "text/html; charset=utf-8")
    "content-length" "11".

Lemma serve_file_contained_witness :
  exists d (f : @File one_file) c, url_decode "/index.html" = Some d
    /\ safe_rel (sanitize_path d) /\ @open_beneath one_file "/srv" (sanitize_path d) = Ok f
    /\ @canonicalize one_file "/srv" = Some c /\ path_starts_with (@real_path one_file f) c = true.
Proof.
  destruct (@serve_file_contained one_file one_file_laws assoc_http assoc_laws "/srv" "/index.html"
    hello_response) as (d & f & c & H1 & H2 & H3 & H4 & H5 & _).
  - vm_compute. reflexivity.
  - exists d, f, c. split_and!; assumption.
Defined.
