(* ===== verification/Logging.v ===== *)
(** * Access log (src/src/logging.rs)

    A logger is its path and its open file; files are numbered so that a renamed
    file stays the one a handle points to.  Theorems: an entry is one line with no
    control byte whatever the client sends, and a rotation loses no line. *)

From S2P Require Import Prelude.
From S2P Require Import Str.

(** The files by number, the names, and the parents that can be created. *)
Record Disk : Type := mkDisk { names : gmap str nat; files : gmap nat str }.
Record AccessLogger : Type := mkLogger { al_path : str; al_file : option nat }.

(** [OpenOptions::create(true).append(true).open]; [ok] is the system's answer. *)
Definition open_append (d : Disk) (path : str) (ok : bool) : Disk * option nat :=
  if negb ok then (d, None)
  else match names d !! path with
       | Some n => (d, Some n)
       | None => let n := fresh (dom (files d)) in
                 (mkDisk (<[path := n]> (names d)) (<[n := []]> (files d)), Some n)
       end.

Definition AccessLogger_new (d : Disk) (path : str) (dir_ok ok : bool) : Disk * option AccessLogger :=
  if negb dir_ok then (d, None)
  else let '(d, f) := open_append d path ok in
       (d, option_map (fun n => mkLogger path (Some n)) f).

(** [char::is_control]: the category Cc, U+0000 to U+001F and U+007F to U+009F. *)
Definition is_control (c : str) : bool :=
  match c with
  | [b] => (u8 b <? 32) || (u8 b =? 127)
  | [b; b'] => (u8 b =? 194) && (128 <=? u8 b') && (u8 b' <? 160)
  | _ => false
  end.

Definition strip_control (s : str) : str :=
  concat (filter (fun c => negb (is_control c && negb (bool_decide (c = [byte 9]))) = true) (chars s)).

Definition entry (remote_addr timestamp method uri : str) (status bytes_sent : Z) (user_agent : str) : str :=
  let safe_uri := strip_control uri in
  let safe_ua := strip_control user_agent in
  remote_addr ++ " - - [" ++ timestamp ++ "] " ++ byte 34 :: method ++ " " ++ safe_uri
  ++ " HTTP/1.1" ++ byte 34 :: " " ++ show status ++ " " ++ show bytes_sent ++ " "
  ++ byte 34 :: "-" ++ byte 34 :: " " ++ byte 34 :: safe_ua ++ byte 34 :: [byte 10].

(** [written] is how much of the entry reaches the file (write errors are
    swallowed). *)
Definition log (d : Disk) (l : AccessLogger) (written : str) : Disk :=
  match al_file l with
  | Some n => mkDisk (names d) (alter (fun c => c ++ written) n (files d))
  | None => d
  end.

Definition reopen (d : Disk) (l : AccessLogger) (ok : bool) : Disk * AccessLogger * bool :=
  match open_append d (al_path l) ok with
  | (d, Some n) => (d, mkLogger (al_path l) (Some n), true)
  | (d, None) => (d, l, false)
  end.

(** [rename], done by the log rotation. *)
Definition rename (d : Disk) (from to : str) : Disk :=
  match names d !! from with
  | Some n => mkDisk (<[to := n]> (delete from (names d))) (files d)
  | None => d
  end.

Definition contents (d : Disk) (path : str) : option str := n ← names d !! path; files d !! n.

(** Bytes a log line may hold. *)
Definition printable (c : ascii) : bool := ((32 <=? u8 c) && negb (u8 c =? 127)) || (u8 c =? 9).

Lemma strip_control_printable s : forallb printable (strip_control s) = true.
Proof.
  apply forallb_forall. intros b Hb. unfold strip_control in Hb.
  apply in_concat in Hb as (x & Hx & Hb). apply list_elem_of_In, list_elem_of_filter in Hx as [Hctl Hx].
  apply list_elem_of_In in Hb.
  destruct (is_ascii_byte b) eqn:Ea.
  - pose proof (chars_ascii_single s x b Hx Hb Ea) as ->. cbn [is_control] in Hctl.
    unfold printable. unfold is_ascii_byte in Ea. b2p.
    destruct (u8 b =? 9) eqn:E9; [apply orb_true_r|]. b2p. rewrite orb_false_r.
    destruct (bool_decide ([b] = [byte 9])) eqn:Eb.
    + apply bool_decide_eq_true in Eb as [= ->]. exfalso. apply E9. by vm_compute.
    + cbn [negb] in Hctl. rewrite andb_true_r in Hctl. b2p.
      apply andb_true_iff. split; [by apply Z.leb_le|]. by apply negb_true_iff, Z.eqb_neq.
  - unfold is_ascii_byte in Ea. b2p. unfold printable.
    rewrite (proj2 (Z.leb_le 32 _)) by lia. rewrite (proj2 (Z.eqb_neq _ 127)) by lia. done.
Qed.

Lemma show_printable z : 0 <= z -> forallb printable (show z) = true.
Proof.
  intros Hz. apply forallb_forall. intros c Hc%list_elem_of_In.
  pose proof (show_digits z Hz) as Hd. rewrite Forall_forall in Hd. specialize (Hd c Hc).
  unfold printable. rewrite (proj2 (Z.leb_le 32 _)), (proj2 (Z.eqb_neq _ 127)) by lia. done.
Qed.

(** Whatever the request target and the user agent hold, an access-log entry is
    exactly one line: printable bytes and tabs, then one line feed. *)
Theorem entry_one_line remote timestamp method uri status sent ua :
  forallb printable remote = true -> forallb printable timestamp = true ->
  forallb printable method = true -> 0 <= status -> 0 <= sent ->
  exists line, entry remote timestamp method uri status sent ua = line ++ [byte 10]
               /\ forallb printable line = true.
Proof.
  intros Hr Ht Hm Hs Hb.
  exists (remote ++ " - - [" ++ timestamp ++ "] " ++ byte 34 :: method ++ " " ++ strip_control uri
    ++ " HTTP/1.1" ++ byte 34 :: " " ++ show status ++ " " ++ show sent ++ " "
    ++ byte 34 :: "-" ++ byte 34 :: " " ++ byte 34 :: strip_control ua ++ [byte 34]).
  split.
  - unfold entry. repeat first [rewrite <- app_assoc | rewrite <- app_comm_cons]. done.
  - repeat first [rewrite List.forallb_app | progress cbn [forallb app]].
    rewrite Hr, Ht, Hm, !strip_control_printable, !show_printable by done.
    by vm_compute.
Qed.

(** Log rotation: after the file is renamed and the logger reopened, the old file
    keeps every line written before, under its new name, and the next entry starts
    a fresh file at the configured path; when reopening fails, the old handle
    keeps logging. *)
Theorem rotation_keeps_lines d path to n old entry1 :
  path <> to -> names d !! path = Some n -> files d !! n = Some old ->
  let l := mkLogger path (Some n) in
  let '(d1, l1, ok) := reopen (rename d path to) l true in
  let d2 := log d1 l1 entry1 in
  ok = true /\ contents d2 to = Some old /\ contents d2 path = Some entry1
  /\ reopen d l false = (d, l, false).
Proof.
  intros Hne Hn Hf l. unfold reopen, rename, open_append. rewrite Hn. cbn [negb al_path l names files].
  rewrite lookup_insert_ne, lookup_delete_eq by done. cbn [log al_file].
  set (m := fresh (dom (files d))).
  assert (m <> n) as Hm.
  { intros E. pose proof (is_fresh (dom (files d))) as Hfr. fold m in Hfr. rewrite E in Hfr.
    apply Hfr, elem_of_dom. eauto. }
  split_and!; [done| | |done]; unfold contents, log; cbn [al_file names files].
  - rewrite lookup_insert_ne, lookup_insert_eq by done. cbn.
    rewrite lookup_alter_ne, lookup_insert_ne by done. done.
  - rewrite lookup_insert_eq. cbn. rewrite lookup_alter_eq, lookup_insert_eq. done.
Qed.

(** ** The theorems at concrete inputs *)

(** A forged second line in the user agent stays on the first. *)
Lemma entry_one_line_witness :
  exists line, entry "203.0.113.7" "01/Jan/2026:00:00:00 +0000" "GET" "/" 200 5
                 ("curl" ++ [byte 13; byte 10] ++ "1.2.3.4 - - forged") = line ++ [byte 10]
               /\ forallb printable line = true.
Proof. apply entry_one_line; vm_decide. Defined.

Definition one_log : Disk := mkDisk {["a.log" : str := 0%nat]} {[0%nat := ("x" : str)]}.

Lemma rotation_keeps_lines_witness :
  let '(d1, l1, ok) := reopen (rename one_log "a.log" "a.log.1") (mkLogger "a.log" (Some 0%nat)) true in
  contents (log d1 l1 "y") "a.log.1" = Some ("x" : str).
Proof.
  pose proof (rotation_keeps_lines one_log "a.log" "a.log.1" 0 "x" "y"
    ltac:(vm_decide) ltac:(reflexivity) ltac:(reflexivity)) as H.
  cbv zeta in H. destruct (reopen _ _ true) as [[d1 l1] ok]. apply H.
Defined.
