(* ===== verification/Geoip.v ===== *)
(** * GeoIP lookups (src/src/geoip.rs)

    The database reader is an interface; the service opens it and decodes the four
    fields, each of which may be missing. *)

From S2P Require Import Prelude.
From S2P Require Import Str.
From S2P Require Import Net.

(** [maxminddb]: opening a file, a lookup that may fail, and decoding a path. *)
Class MaxMindDb : Type := {
  Reader : Type;
  Lookup : Type;
  db_exists : str -> bool;
  open_readfile : str -> option Reader;
  db_lookup : Reader -> IpAddr -> option Lookup;
  has_data : Lookup -> bool;
  decode_path : Lookup -> list str -> option (option str);
}.

Record GeoIpInfo : Type := mkGeo {
  gi_country : option str;
  gi_city : option str;
  gi_continent : option str;
  gi_iso_code : option str;
}.

Section geoip.
Context {M : MaxMindDb}.

Definition GeoIpService_new (db_path : str) : option Reader :=
  if negb (db_exists db_path) then None else open_readfile db_path.

(** [decode_path(..).ok().flatten()]. *)
Definition field (l : Lookup) (path : list string) : option str :=
  match decode_path l (strs path) with Some o => o | None => None end.

Definition lookup (reader : Reader) (ip : IpAddr) : option GeoIpInfo :=
  match db_lookup reader ip with
  | Some l =>
      if negb (has_data l) then None
      else
        let country_iso := field l ["country"; "iso_code"]%string in
        let country_name := field l ["country"; "names"; "en"]%string in
        let city_name := field l ["city"; "names"; "en"]%string in
        let continent_name := field l ["continent"; "names"; "en"]%string in
        Some (mkGeo country_name city_name continent_name country_iso)
  | None => None
  end.
End geoip.

(** A database that knows one country for every address. *)
Definition one_country : MaxMindDb := {|
  Reader := unit;
  Lookup := unit;
  db_exists _ := true;
  open_readfile _ := Some tt;
  db_lookup _ _ := Some tt;
  has_data _ := true;
  decode_path _ p := if bool_decide (p = strs ["country"; "iso_code"]%string)
                     then Some (Some ("US" : str)) else None;
|}.

Example lookup_one_country ip :
  @lookup one_country tt ip = Some (mkGeo None None None (Some ("US" : str))).
Proof. reflexivity. Qed.
