(* ===== verification/Proxy.v ===== *)
(** * Forwarding a request upstream (src/src/proxy.rs)

    [build_request] is the request [forward] hands to the pooled client, the
    client's answer is an input, its body as the data that came in and how it ended
    (completed, failed or stalled), and [accept_response] what happens to it.
    Theorems: the header hygiene of the outgoing request, and exactly which
    answers reach the client and in what form. *)

From S2P Require Import Prelude.
From S2P Require Import Str.
From S2P Require Import Net.
From S2P Require Import Extern.
From S2P Require Import Instances.
From S2P Require Import Headers.
From S2P Require Import Resolver.

Inductive ProxyError : Type := Connect | Status (status : Z).

Section proxy.
Context {H : HttpLib} {N : IpNetLib}.

(** The pooled client, as far as its requests can tell: the resolver its connector
    uses, its deadlines, the limits and the attribution policy. *)
Record ProxyClient : Type := mkClient {
  pc_resolver : PinningResolver;
  pc_connect_timeout : Z;                      (* seconds *)
  pc_request_timeout : Z;                      (* seconds *)
  pc_max_response_size : Z;
  pc_trusted_proxies : list IpNetwork;
  pc_apply_attribution_policy : bool;
}.

Definition ProxyClient_new (allowed_networks : list IpNetwork) (dns_ttl request_timeout max_response_size : Z)
    (trusted_proxies : list IpNetwork) (apply_attribution_policy : bool) : ProxyClient :=
  mkClient (mkResolver allowed_networks dns_ttl) 10 request_timeout max_response_size
    trusted_proxies apply_attribution_policy.

Record UpstreamRequest : Type := mkUpstreamRequest { ureq_parts : Parts; ureq_body : str }.

(** The pooled client's outcome: the request timeout, an error (with [is_connect]), or
    the head of a response.  The timeout ends with the head: the body that follows may
    break off or stall. *)
Inductive Answer : Type :=
  | Elapsed
  | ClientError (is_connect : bool)
  | Answered (status : Z) (headers : HeaderMap) (body : Incoming).

Variable c : ProxyClient.

Definition upstream_headers (headers0 : HeaderMap) (client_ip : IpAddr) (scheme : str) : HeaderMap :=
  let original_host := hm_get headers0 "host" in
  let headers := strip_hop_by_hop headers0 in
  let headers := hm_remove headers "content-length" in
  if pc_apply_attribution_policy c
  then apply_forwarding_policy headers client_ip scheme original_host (pc_trusted_proxies c)
  else headers.

Definition build_request (upstream_addr : str) (parts : Parts) (body : str)
    (client_ip : IpAddr) (scheme : str) : res ProxyError UpstreamRequest :=
  let? upstream_uri :=
    ok_or (Uri_parse ("http://" ++ upstream_addr ++ default ("/" : str) (uri_path_and_query (p_uri parts))))
      (Status BAD_GATEWAY) in
  let original_host := hm_get (p_headers parts) "host" in
  let headers := upstream_headers (p_headers parts) client_ip scheme in
  let? host_value :=
    match original_host with
    | Some h => Ok h
    | None => ok_or (HeaderValue_from_str upstream_addr) (Status BAD_GATEWAY)
    end in
  Ok (mkUpstreamRequest
        (mkParts H (p_method parts) upstream_uri HTTP_11 (hm_insert headers "host" host_value)) body).

Definition accept_response (a : Answer) : res ProxyError Response :=
  match a with
  | Elapsed => Err (Status GATEWAY_TIMEOUT)
  | ClientError true => Err Connect
  | ClientError false => Err (Status BAD_GATEWAY)
  | Answered status headers body =>
      let upstream_has_cl := hm_contains_key headers "content-length" in
      let upstream_has_te := hm_contains_key headers "transfer-encoding" in
      if upstream_has_cl && upstream_has_te then Err (Status BAD_GATEWAY)
      else
        let? bytes := map_err (fun _ => Status BAD_GATEWAY) (collect (pc_max_response_size c) body) in
        Ok (mkResponse H status (strip_hop_by_hop headers) bytes)
  end.

Definition forward (client : UpstreamRequest -> Answer) (upstream_addr : str) (parts : Parts)
    (body : str) (client_ip : IpAddr) (scheme : str) : res ProxyError Response :=
  let? req := build_request upstream_addr parts body client_ip scheme in
  accept_response (client req).
End proxy.

(** ** Properties *)

Section properties.
Context {H : HttpLib} {L : HttpLaws H} {N : IpNetLib}.
Variable c : ProxyClient.

Lemma upstream_headers_other hs ip scheme k :
  ip_wf ip -> forallb visible_ascii scheme = true -> k ∉ ATTRIBUTION ->
  hm_get_all (upstream_headers c hs ip scheme) k
  = hm_get_all (hm_remove (strip_hop_by_hop hs) "content-length") k.
Proof.
  intros Hwf Hs Hk. unfold upstream_headers. destruct (pc_apply_attribution_policy c); [|done].
  destruct (is_trusted ip (pc_trusted_proxies c)) eqn:Et.
  - by apply forwarding_policy_other.
  - by apply forwarding_policy_other.
Qed.

(** C22. What leaves for the upstream: the client's method and body over HTTP/1.1, the
    Host the client sent, or the upstream's address when it sent none; no
    hop-by-hop header, no Content-Length; a header the client's Connection value
    nominated only when flexd itself sets it, an attribution header with flexd's own
    value under the attribution policy; and the client's other headers unchanged,
    attribution headers apart. *)
Theorem build_request_hygiene addr parts body ip scheme rq :
  ip_wf ip -> forallb visible_ascii scheme = true ->
  build_request c addr parts body ip scheme = Ok rq ->
  let out := p_headers (ureq_parts rq) in
  p_method (ureq_parts rq) = p_method parts /\ ureq_body rq = body
  /\ p_version (ureq_parts rq) = HTTP_11
  /\ hm_get_all out "host"
     = [match hm_get (p_headers parts) "host" with Some h => h | None => addr end]
  /\ hm_get_all out "content-length" = []
  /\ (forall k : str, k ∈ HOP_BY_HOP -> hm_get_all out k = [])
  /\ (forall k : str, k ∈ token_names (nominated (p_headers parts)) ->
        hm_get_all out k
        = if pc_apply_attribution_policy c
          then own_attribution ip scheme (hm_get (p_headers parts) "host") k else [])
  /\ (forall k : str, k ∉ HOP_BY_HOP -> k ∉ token_names (nominated (p_headers parts)) ->
        k ∉ ATTRIBUTION -> k <> "host" -> k <> "content-length" ->
        hm_get_all out k = hm_get_all (p_headers parts) k).
Proof.
  intros Hwf Hs. unfold build_request. intros Hb. apply res_bind_ok in Hb as (u & Hu & Hb).
  apply res_bind_ok in Hb as (hv & Hhv & [= <-]). cbn [ureq_parts ureq_body p_headers p_method p_version].
  set (out := hm_insert _ _ _).
  assert (forall k : str, k <> "host" -> k ∉ ATTRIBUTION ->
    hm_get_all out k = if decide (k = "content-length") then [] else hm_get_all (strip_hop_by_hop (p_headers parts)) k) as Hout.
  { intros k Hh Hk. unfold out. rewrite hm_insert_ne by done. rewrite upstream_headers_other by done.
    rewrite hm_remove_get_all. repeat case_decide; try done; by subst. }
  split_and!; try done.
  - unfold out. rewrite hm_insert_eq. destruct (hm_get (p_headers parts) "host") as [h|].
    + by injection Hhv as ->.
    + destruct (HeaderValue_from_str addr) as [v|] eqn:E; [|done]. injection Hhv as <-.
      by rewrite (HeaderValue_from_str_bytes _ _ E).
  - rewrite Hout by vm_decide. done.
  - intros k Hk. assert (Forall (fun k : str => k <> "host" /\ k ∉ ATTRIBUTION) HOP_BY_HOP) as Hd by vm_decide.
    rewrite Forall_forall in Hd. destruct (Hd k Hk) as [? ?]. rewrite Hout by done.
    rewrite strip_get_all. rewrite (decide_True (P := (_ \/ _))) by (by left). by case_decide.
  - intros k Hk.
    assert (k <> "host") as Hh.
    { intros ->. revert Hk. apply exempt_not_nominated. vm_decide. }
    assert (hm_get_all (hm_remove (strip_hop_by_hop (p_headers parts)) "content-length") k = []) as Hgone.
    { rewrite hm_remove_get_all. case_decide; [done|]. rewrite strip_get_all. apply decide_True. by right. }
    unfold out, upstream_headers. rewrite hm_insert_ne by done.
    destruct (pc_apply_attribution_policy c); [by apply forwarding_absent|done].
  - intros k H1 H2 H3 H4 H5. rewrite Hout by done. rewrite decide_False by done.
    rewrite strip_get_all. by rewrite decide_False by tauto.
Qed.

(** Only an unambiguous, complete answer within the size limit is passed on: its
    status and body are the upstream's, its hop-by-hop headers are gone.  A
    connection failure asks for the next candidate; everything else is final, 504
    on timeout and 502 otherwise, except that a body that stalls within the limit is
    awaited for ever: no timeout covers it. *)
Theorem accept_response_spec a :
  match accept_response c a with
  | Ok r =>
      exists status headers body, a = Answered status headers (mkIncoming body Complete)
        /\ (hm_contains_key headers "content-length" = false
            \/ hm_contains_key headers "transfer-encoding" = false)
        /\ Z.of_nat (length body) <= pc_max_response_size c
        /\ r_status r = status /\ r_body r = body
        /\ (forall k, k ∈ HOP_BY_HOP -> hm_get_all (r_headers r) k = [])
  | Err Connect => a = ClientError true
  | Err (Status s) => (s = GATEWAY_TIMEOUT /\ a = Elapsed) \/ (s = BAD_GATEWAY /\ a <> Elapsed /\ a <> ClientError true)
  | Never why =>
      why = Unfinished /\ exists status headers body, a = Answered status headers (mkIncoming body Stalls)
  end.
Proof.
  destruct a as [|[]|status headers body]; cbn [accept_response]; [by left|done|by right|].
  destruct (hm_contains_key headers "content-length" && hm_contains_key headers "transfer-encoding") eqn:E.
  { right. done. }
  destruct body as [bytes e]. destruct (collect _ _) as [b|e'|why] eqn:Ec; cbn [map_err res_bind]; [|by right|].
  - apply collect_ok in Ec as (He & -> & Hlen). cbn in He, Hlen. subst e.
    exists status, headers, bytes. cbn [r_status r_body r_headers]. apply andb_false_iff in E.
    split_and!; try done. intros k Hk. rewrite strip_get_all. apply decide_True. by left.
  - assert (collect (pc_max_response_size c) (mkIncoming bytes e) = Hang) as Hh by (apply collect_hang; eauto).
    rewrite Hh in Ec. injection Ec as <-. apply collect_stalls in Hh as [He _]. cbn in He. subst e. eauto.
Qed.
End properties.

(** ** The theorems at concrete inputs *)

#[local] Existing Instance assoc_http.
#[local] Existing Instance cidr_nets.

Definition example_client : ProxyClient := ProxyClient_new [] 30000000000 60 5 [] true.
Definition example_parts : Parts :=
  mkParts assoc_http GET (mkUri None "/a" None) HTTP_11 example_headers.
Definition client_ip : IpAddr := V4 (V4Octets 203 0 113 7).

Definition built : UpstreamRequest :=
  match build_request example_client "10.0.0.1:80" example_parts "body" client_ip "http" with
  | Ok rq => rq
  | _ => mkUpstreamRequest example_parts []
  end.

Lemma build_request_hygiene_witness :
  let out := p_headers (ureq_parts built) in
  hm_get_all out "host" = ["a.example" : str] /\ hm_get_all out "x-secret" = [].
Proof.
  destruct (build_request_hygiene example_client "10.0.0.1:80" example_parts "body" client_ip "http" built)
    as (_ & _ & _ & Hhost & _ & _ & Hnom & _); [vm_decide|vm_decide|vm_compute; reflexivity|].
  split; [exact Hhost|]. rewrite (Hnom "x-secret") by vm_decide. reflexivity.
Defined.

Definition long_answer : Answer := Answered 200 example_headers (mkIncoming "too long" Complete).

Lemma accept_response_spec_witness :
  (BAD_GATEWAY = GATEWAY_TIMEOUT /\ long_answer = Elapsed)
  \/ (BAD_GATEWAY = BAD_GATEWAY /\ long_answer <> Elapsed /\ long_answer <> ClientError true).
Proof.
  pose proof (accept_response_spec example_client long_answer) as Hs.
  assert (accept_response example_client long_answer = Err (Status BAD_GATEWAY)) as E
    by (vm_compute; reflexivity).
  rewrite E in Hs. exact Hs.
Defined.
