(* ===== verification/Handler.v ===== *)
(** * The request pipeline (src/src/handler.rs)

    One [HandlerService] per listener: its immutable parts are a record, what a
    request can change (balancer, sticky table, DNS cache) is the state passed
    through.  The network is an input: the answer of the n-th attempt of a
    request, the DNS answer, which connections succeed.  Theorems: nothing reaches
    an upstream or the disk before every check has passed, routing picks the
    documented location, failover tries the servers in order and goes on exactly after
    an answer that permits it, a CONNECT dials and tunnels only to an admitted address,
    a body is inflated only below its size and ratio limits.  Gaps: an inflated body may
    be longer than the ratio allows by less than its compressed size; at the largest
    size limit every inflated body is empty. *)

From S2P Require Import Prelude.
From S2P Require Import Str.
From S2P Require Import Net.
From S2P Require Import Extern.
From S2P Require Import Instances.
From S2P Require Import UriValidate.
From S2P Require Import UpstreamFilter.
From S2P Require Import Config.
From S2P Require Import HostPolicy.
From S2P Require Import Headers.
From S2P Require Import Balance.
From S2P Require Import AbSplit.
From S2P Require Import Rewrite.
From S2P Require Import Resolver.
From S2P Require Import StaticFile.
From S2P Require Import Geoip.
From S2P Require Import Proxy.

Section handler.
Context {U : Unicode} {H : HttpLib} {N : IpNetLib} {R : RegexLib} {G : GzLib}.
Context {F : FileSystem} {M : MaxMindDb}.

Record CompiledLocation : Type := mkCompiled { cl_location : Location; cl_regex : option Regex }.

Record HandlerService : Type := mkHandlerService {
  hs_block : HttpBlock;
  hs_acme_store : bool;                        (* whether it has the shared store of its manager *)
  hs_proxy : ProxyClient;
  hs_geoip : option Reader;
  hs_rewriter : RewriteEngine;
  hs_locations : list CompiledLocation;
  hs_scheme : str;
  hs_hsts : option str;
  hs_max_body : Z;
}.

(** [ProxyClient::resolver]: CONNECT targets get the vetting of proxied requests. *)
Definition hs_resolver (s : HandlerService) : PinningResolver := pc_resolver (hs_proxy s).

(** What requests change. *)
Record State : Type := mkState {
  st_balancer : Balancer;
  st_router : option AbSplitRouter;
  st_cache : Cache;
}.

(** [http::Request<Bytes>]. *)
Record Request : Type := mkRequest { rq_parts : Parts; rq_body : str }.

Definition compile_location (l : Location) : CompiledLocation :=
  mkCompiled l (if bool_decide (loc_match_type l = "regex") then Regex_new (loc_pattern l) else None).

Definition hsts_value (is_tls : bool) (max_age : option Z) : option str :=
  if is_tls then
    match max_age with
    | Some secs => HeaderValue_from_str ("max-age=" ++ show secs ++ "; includeSubDomains")
    | None => None
    end
  else None.

Definition HandlerService_new (block : HttpBlock) (acme_store : bool) (is_tls : bool)
    (timeouts : TimeoutSettings) : HandlerService * State :=
  let allowed_networks := parse_networks (hb_upstream_allowed_networks block) in
  let trusted_proxies := parse_networks (hb_trusted_proxies block) in
  ({| hs_block := block;
      hs_acme_store := acme_store;
      hs_proxy := ProxyClient_new allowed_networks
                    (default 30 (hb_dns_cache_ttl_seconds block) * 1000000000)
                    (ts_proxy_read timeouts)
                    (default (100 * 1024 * 1024) (hb_max_upstream_response_size block))
                    trusted_proxies (hb_normalize_headers_before_proxy block);
      hs_geoip := hb_geoip_db block ≫= GeoIpService_new;
      hs_rewriter := RewriteEngine_new (hb_rewrites block);
      hs_locations := map compile_location (hb_locations block);
      hs_scheme := if is_tls then "https" else "http";
      hs_hsts := hsts_value is_tls (hb_hsts_max_age block);
      hs_max_body := default (10 * 1024 * 1024) (hb_max_body_size block) |},
   mkState (Balancer_new block)
     (if bool_decide (hb_ab_splits block = []) then None else Some (AbSplitRouter_new (hb_ab_splits block)))
     ∅).

Variable s : HandlerService.

(** ** Responses *)

Definition finalize (r : Response) : Response :=
  match hs_hsts s with
  | Some hsts => if hm_contains_key (r_headers r) "strict-transport-security" then r
                 else with_header r "strict-transport-security" hsts
  | None => r
  end.

Definition text_plain : str := "text/plain; charset=utf-8".

Definition simple_response (status : Z) (body : str) : Response :=
  let r := with_status (Response_new body) status in
  let r := if negb (bool_decide (body = [])) then with_header r "content-type" text_plain else r in
  finalize r.

Definition error_response (status : Z) : Response :=
  let phrase := default ("Error" : str) (canonical_reason status) in
  let body := show status ++ " " ++ phrase ++ [byte 10] in
  with_header (with_status (Response_new body) status) "content-type" text_plain.

Definition redirect_response (target : str) (status : Z) : res Z Response :=
  let status_code := default MOVED_PERMANENTLY (StatusCode_from_u16 status) in
  let? location := ok_or (HeaderValue_from_str target) INTERNAL_SERVER_ERROR in
  Ok (with_header (with_status (Response_new []) status_code) "location" location).

(** [acme_challenge_response]; [store]: the HTTP-01 challenges of the shared store, as
    they are now. *)
Definition acme_challenge_response (store : gmap str str) (uri_path : str) : option Response :=
  if negb (hs_acme_store s) then None else
  token ← strip_prefix "/.well-known/acme-challenge/" uri_path;
  if bool_decide (token = []) || contains_char token "/" then Some (error_response NOT_FOUND)
  else match store !! token with
       | Some key_auth => Some (with_header (Response_new key_auth) "content-type" "application/octet-stream")
       | None => Some (error_response NOT_FOUND)
       end.

(** ** Checks *)

Definition header_size (headers : HeaderMap) : Z :=
  sum_Z (map (fun '(n, v) => Z.of_nat (length n) + Z.of_nat (length v) + 2) (hm_iter headers)).

Definition has_crlf (v : str) : bool := contains_char v (byte 13) || contains_char v (byte 10).

(** The declared body length, when it is one header value that parses. *)
Definition declared_length (headers : HeaderMap) : option Z :=
  cl ← hm_get headers "content-length"; v ← HeaderValue_to_str cl; parse_uint U64_MAX v.

Definition security_checks (p : Parts) : res Z unit :=
  let hb := hs_block s in
  let headers := p_headers p in
  let has_cl := bool_decide (is_Some (hm_get headers "content-length")) in
  let has_te := bool_decide (is_Some (hm_get headers "transfer-encoding")) in
  if default 100 (hb_max_header_count hb) <? Z.of_nat (hm_len headers)
  then Err REQUEST_HEADER_FIELDS_TOO_LARGE
  else if default 8192 (hb_max_header_size hb) <? header_size headers
  then Err REQUEST_HEADER_FIELDS_TOO_LARGE
  else if match declared_length headers with Some n => hs_max_body s <? n | None => false end
  then Err PAYLOAD_TOO_LARGE
  else if bool_decide (p_version p = HTTP_10) && has_te
  then Err BAD_REQUEST
  else if hb_reject_ambiguous_framing hb && (has_cl && has_te)
  then Err BAD_REQUEST
  else if hb_reject_ambiguous_framing hb
          && bool_decide (1 < length (hm_get_all headers "content-length"))%nat
  then Err BAD_REQUEST
  else if hb_reject_headers_with_control_chars hb
          && existsb (fun '(_, v) => has_crlf v) (hm_iter headers)
  then Err BAD_REQUEST
  else map_err fst (validate_uri (uri_path (p_uri p))).

Definition check_method_allowed (m : Method) : bool :=
  match m with
  | GET | HEAD | POST | PUT | DELETE | PATCH | OPTIONS => true
  | _ => false
  end.

(** [GzDecoder::take(limit)] read to its end: [None] for a read error. *)
Definition gz_read (limit : Z) (body : str) : option str :=
  let '(out, failed) := gz_decode body in
  if limit <=? Z.of_nat (length out) then Some (take (Z.to_nat limit) out)
  else if failed then None else Some out.

Definition is_gzip (headers : HeaderMap) : bool :=
  match hm_get headers "content-encoding" ≫= HeaderValue_to_str with
  | Some v => contains (to_lowercase v) "gzip"
  | None => false
  end.

Definition maybe_decompress (req : Request) : res Z Request :=
  let p := rq_parts req in
  if negb (is_gzip (p_headers p)) then Ok req
  else
    let max_ratio := default 10 (hb_max_decompression_ratio (hs_block s)) in
    let max_size := default (10 * 1024 * 1024) (hb_max_decompression_size (hs_block s)) in
    if bool_decide (rq_body req = []) then Ok req
    else
      let compressed_len := Z.of_nat (length (rq_body req)) in
      match gz_read (wrap64 (max_size + 1)) (rq_body req) with
      | None => Ok req
      | Some decompressed =>
          if max_size <? Z.of_nat (length decompressed) then Err PAYLOAD_TOO_LARGE
          else
            let ratio := Z.of_nat (length decompressed) / Z.max compressed_len 1 in
            if max_ratio <? ratio then Err PAYLOAD_TOO_LARGE
            else Ok (mkRequest (set_headers p (hm_remove (p_headers p) "content-encoding")) decompressed)
      end.

Definition set_path (req : Request) (new_path : str) : res Z Request :=
  let p := rq_parts req in
  let pq := match uri_query (p_uri p) with
            | Some q => new_path ++ "?" ++ q
            | None => new_path
            end in
  let? parsed := ok_or (PathAndQuery_parse pq) BAD_REQUEST in
  let? u := ok_or (uri_with_path_and_query (p_uri p) parsed) INTERNAL_SERVER_ERROR in
  Ok (mkRequest (set_uri p u) (rq_body req)).

Definition GEO_HEADERS : list str := strs ["x-geoip-country"; "x-geoip-city"; "x-geoip-continent"]%string.

Definition put (name : str) (value : option str) (headers : HeaderMap) : HeaderMap :=
  match value with Some v => insert_str headers name v | None => headers end.

Definition stamp_geoip (headers : HeaderMap) (ip : IpAddr) : HeaderMap :=
  let headers := foldl hm_remove headers GEO_HEADERS in
  match hs_geoip s with
  | None => headers
  | Some geoip =>
      match Geoip.lookup geoip ip with
      | None => headers
      | Some info =>
          put "x-geoip-continent" (gi_continent info)
            (put "x-geoip-city" (gi_city info)
              (put "x-geoip-country" (gi_iso_code info) headers))
      end
  end.

(** ** Routing *)

Fixpoint find_loop (ls : list CompiledLocation) (path : str)
    (best_match : option CompiledLocation) (best_prefix_len : nat) : option CompiledLocation :=
  match ls with
  | [] => best_match
  | compiled :: rest =>
      let l := cl_location compiled in
      if bool_decide (loc_match_type l = "exact") then
        if bool_decide (loc_pattern l = path) then Some compiled
        else find_loop rest path best_match best_prefix_len
      else if bool_decide (loc_match_type l = "prefix") then
        if starts_with path (loc_pattern l)
           && bool_decide (best_prefix_len < length (loc_pattern l))%nat
        then find_loop rest path (Some compiled) (length (loc_pattern l))
        else find_loop rest path best_match best_prefix_len
      else if bool_decide (loc_match_type l = "regex") then
        match cl_regex compiled with
        | Some re => if is_match re path then Some compiled
                     else find_loop rest path best_match best_prefix_len
        | None => find_loop rest path best_match best_prefix_len
        end
      else find_loop rest path best_match best_prefix_len
  end.
Definition find_location (path : str) : option CompiledLocation :=
  find_loop (hs_locations s) path None 0.

(** ** Proxying *)

Variable hash_ip : IpAddr -> Z.
Variable hash_session : str -> str -> Z.

Definition set_balancer (st : State) (b : Balancer) : State := mkState b (st_router st) (st_cache st).
Definition set_cache (st : State) (c : Cache) : State := mkState (st_balancer st) (st_router st) c.

(** The A/B group of a client, through its group's upstream. *)
Definition split_upstream (split_name group_name : str) : option UpstreamRef :=
  split ← find_first (fun x => bool_decide (ab_name x = split_name)) (hb_ab_splits (hs_block s));
  group ← find_first (fun g => bool_decide (ag_name g = group_name)) (ab_groups split);
  resolve_upstream (hs_block s) (ag_upstream group).

Definition select_upstream (st : State) (h : Config.Handler) (client : IpAddr) : State * res Z UpstreamRef :=
  match h_ab_split h with
  | Some split_name =>
      match st_router st with
      | Some router =>
          let '(router, group) := resolve hash_session router split_name (show_ip client) in
          (mkState (st_balancer st) (Some router) (st_cache st),
           ok_or (group ≫= split_upstream split_name) BAD_GATEWAY)
      | None => (st, Err BAD_GATEWAY)
      end
  | None =>
      (st, match h_upstream h with
           | Some u => Ok u
           | None => ok_or (head (hb_upstreams (hs_block s))) BAD_GATEWAY
           end)
  end.

(** The balancer after an attempt: the guard is dropped on every way out of [forward],
    a panic included; an attempt that never ends keeps it. *)
Definition after_attempt {A} (b : Balancer) (inflight : InflightGuard) (r : res ProxyError A) : Balancer :=
  match r with Hang => b | _ => drop_guard b inflight end.

(** The failover loop.  [client n] answers the n-th request sent; the result has
    the servers contacted, in order. *)
Fixpoint try_candidates (client : nat -> UpstreamRequest -> Answer) (b : Balancer)
    (upstream : UpstreamRef) (p : Parts) (body : str) (ip : IpAddr)
    (order : list nat) (n : nat) (last_status : Z) : Balancer * list str * res Z Response :=
  match order with
  | [] => (b, [], Err last_status)
  | idx :: rest =>
      match ur_servers upstream !! idx with
      | None => try_candidates client b upstream p body ip rest n last_status
      | Some server =>
          match is_upstream_allowed (us_address server) (hb_upstream_allowed_networks (hs_block s)) with
          | Ok _ =>
              let '(b, inflight) := track b upstream idx in
              let r := forward (hs_proxy s) (client n) (us_address server) p body ip (hs_scheme s) in
              let b := after_attempt b inflight r in
              match r with
              | Ok resp => (b, [us_address server], Ok resp)
              | Err Connect =>
                  let '(b, sent, r) := try_candidates client b upstream p body ip rest (S n) BAD_GATEWAY in
                  (b, us_address server :: sent, r)
              | Err (Status status) => (b, [us_address server], Err status)
              | Never why => (b, [us_address server], Never why)
              end
          | _ => try_candidates client b upstream p body ip rest n FORBIDDEN
          end
      end
  end.

(** What a request leads to: the servers contacted and the outcome. *)
Definition Outcome : Type := list str * res Z Response.

Definition dispatch_proxy (client : nat -> UpstreamRequest -> Answer) (st : State) (h : Config.Handler)
    (req : Request) (ip : IpAddr) : State * Outcome :=
  match select_upstream st h ip with
  | (st, Ok upstream) =>
      let '(b, order) := candidates hash_ip (st_balancer st) upstream ip in
      let '(b, sent, r) := try_candidates client b upstream (rq_parts req) (rq_body req) ip order 0 BAD_GATEWAY in
      (set_balancer st b, (sent, r))
  | (st, Err e) => (st, ([], Err e))
  | (st, Never why) => (st, ([], Never why))
  end.

Definition return_response (h : Config.Handler) : Response :=
  let status_code := default OK_200 (StatusCode_from_u16 (default 200 (h_status h))) in
  with_header (with_status (Response_new (default [] (h_target h))) status_code) "content-type" text_plain.

Definition dispatch (client : nat -> UpstreamRequest -> Answer) (st : State) (compiled : CompiledLocation)
    (uri_path : str) (req : Request) (ip : IpAddr) : State * Outcome :=
  let h := loc_handler (cl_location compiled) in
  let t := h_type h in
  if bool_decide (t = "static") then
    (st, ([], let? root := ok_or (match h_root h with Some r => Some r | None => hb_root (hs_block s) end)
                             INTERNAL_SERVER_ERROR in
              serve_file root uri_path))
  else if one_of t ["proxy"; "reverse_proxy"]%string then dispatch_proxy client st h req ip
  else if bool_decide (t = "return") then (st, ([], Ok (return_response h)))
  else if bool_decide (t = "redirect") then
    (st, ([], let? target := ok_or (h_target h) INTERNAL_SERVER_ERROR in
              redirect_response target (default 301 (h_status h))))
  else if bool_decide (t = "deny") then (st, ([], Err FORBIDDEN))
  else (st, ([], Err NOT_IMPLEMENTED)).

(** The checks of [process] before the rewrite stage; the decompressed request. *)
Definition admission (req : Request) : res Z Request :=
  let? _ := security_checks (rq_parts req) in
  guard! negb (hs_max_body s <? Z.of_nat (length (rq_body req))) else PAYLOAD_TOO_LARGE;
  let method := p_method (rq_parts req) in
  let? req := maybe_decompress req in
  let host := hm_get (p_headers (rq_parts req)) "host" ≫= HeaderValue_to_str in
  guard! validate_host host (hs_block s) else BAD_REQUEST;
  guard! check_method_allowed method else METHOD_NOT_ALLOWED;
  Ok req.

(** The rewrite stage: a redirect to send, or the request to route and its path. *)
Definition rewrite_stage (req : Request) : res Z (Response + Request * str) :=
  let path := uri_path (p_uri (rq_parts req)) in
  match apply (hs_rewriter s) path with
  | Some (Redirect target status) =>
      let? r := redirect_response target status in Ok (inl r)
  | Some (Internal new_path) =>
      match validate_uri new_path with
      | Ok _ => let? req := set_path req new_path in Ok (inr (req, new_path))
      | Err _ => Err BAD_REQUEST
      | Never why => Never why
      end
  | None => Ok (inr (req, path))
  end.

Definition process (client : nat -> UpstreamRequest -> Answer) (st : State) (req : Request) (ip : IpAddr)
    : State * Outcome :=
  match (let? req := admission req in rewrite_stage req) with
  | Ok (inl redirect) => (st, ([], Ok redirect))
  | Ok (inr (req, path)) =>
      let p := rq_parts req in
      let req := mkRequest (set_headers p (stamp_geoip (p_headers p) ip)) (rq_body req) in
      match find_location path with
      | Some loc => dispatch client st loc path req ip
      | None =>
          (st, ([], match hb_root (hs_block s) with
                    | Some root => serve_file root path
                    | None => Err NOT_FOUND
                    end))
      end
  | Err e => (st, ([], Err e))
  | Never why => (st, ([], Never why))
  end.

(** [None] when the handler panics or never ends: no response at all. *)
Definition answer (r : res Z Response) : option Response :=
  match r with
  | Ok resp => Some (finalize resp)
  | Err status => Some (finalize (error_response status))
  | Never _ => None
  end.

Definition handle_collected (client : nat -> UpstreamRequest -> Answer) (st : State) (req : Request)
    (ip : IpAddr) : State * list str * option Response :=
  let '(st, (sent, r)) := process client st req ip in (st, sent, answer r).

(** ** CONNECT *)

Definition connect_target_permitted (host : str) (port : Z) (full_authority : str) : bool :=
  match hb_connect_allowed_targets (hs_block s) with
  | Some targets =>
      existsb (fun t =>
        let '(t_host, t_port) := split_host_port t in
        eq_ignore_ascii_case t_host host
        && match t_port with None => true | Some q => q =? port end) targets
  | None =>
      match hb_connect_upstream (hs_block s) with
      | Some up =>
          existsb (fun srv =>
            if eq_ignore_ascii_case (us_address srv) full_authority then true
            else let '(s_host, s_port) := split_host_port (us_address srv) in
                 eq_ignore_ascii_case s_host host && bool_decide (s_port = Some port)) (ur_servers up)
      | None => false
      end
  end.

(** The addresses a permitted target may be connected to: a literal is judged
    directly, a name through the pinning resolver. *)
Definition vet_target (st : State) (host : str) (port : Z) (now : Z)
    (dns : option (list SocketAddr)) (now' : Z) : State * option (list SocketAddr) :=
  match parse_ip host with
  | Some ip =>
      (st, if ip_allowed ip (parse_networks (hb_upstream_allowed_networks (hs_block s)))
           then Some [mkSocketAddr ip port] else None)
  | None =>
      let '(cache, r) := resolve_checked (hs_resolver s) (st_cache st) host now dns now' in
      (set_cache st cache,
       match r with
       | Ok addrs => Some (map (fun sa => mkSocketAddr (sa_ip sa) port) addrs)
       | _ => None
       end)
  end.

(** The loop over the vetted addresses: those dialled, and the one that connects. *)
Fixpoint connect_first (connects : SocketAddr -> bool) (vetted : list SocketAddr)
    : list SocketAddr * option SocketAddr :=
  match vetted with
  | [] => ([], None)
  | addr :: rest =>
      if connects addr then ([addr], Some addr)
      else let '(dialled, upstream) := connect_first connects rest in (addr :: dialled, upstream)
  end.

(** The response, the addresses dialled, and the one tunnelled to when it is a 200. *)
Definition handle_connect (st : State) (p : Parts) (now : Z) (dns : option (list SocketAddr)) (now' : Z)
    (connects : SocketAddr -> bool) : State * Response * list SocketAddr * option SocketAddr :=
  if negb (hb_allow_connect (hs_block s)) then
    (st, simple_response METHOD_NOT_ALLOWED ("405 Method Not Allowed" ++ [byte 10]), [], None)
  else match uri_authority (p_uri p) with
  | None => (st, simple_response BAD_REQUEST ("CONNECT requires an authority-form target" ++ [byte 10]), [], None)
  | Some authority =>
      let '(host, port) := split_host_port authority in
      match port with
      | None => (st, simple_response BAD_REQUEST ("CONNECT target must include an explicit port" ++ [byte 10]), [], None)
      | Some port =>
          if negb (connect_target_permitted host port authority) then
            (st, simple_response FORBIDDEN ("CONNECT target not permitted" ++ [byte 10]), [], None)
          else
            let '(st, vetted) := vet_target st host port now dns now' in
            match vetted with
            | None => (st, simple_response FORBIDDEN ("CONNECT target not permitted" ++ [byte 10]), [], None)
            | Some addrs =>
                match connect_first connects addrs with
                | (dialled, None) => (st, simple_response BAD_GATEWAY ("502 Bad Gateway" ++ [byte 10]), dialled, None)
                | (dialled, Some addr) => (st, simple_response OK_200 [], dialled, Some addr)
                end
            end
      end
  end.

(** ** Entry points *)

(** The body of a request under its cap; nothing bounds how long it takes. *)
Definition collect_limited (max : Z) (i : Incoming) : res Z str :=
  map_err (fun e => match e with LengthLimitError => PAYLOAD_TOO_LARGE | BodyError => BAD_REQUEST end)
    (collect max i).

(** An access-log call: address, method, target, status, body length, user agent. *)
Record LogCall : Type := mkLogCall {
  lc_addr : str; lc_method : str; lc_target : str; lc_status : Z; lc_bytes : Z; lc_agent : str;
}.

Definition log_call (ip : IpAddr) (m : Method) (target : str) (r : Response) (user_agent : str) : LogCall :=
  mkLogCall (show_ip ip) (method_as_str m) target (r_status r) (Z.of_nat (length (r_body r))) user_agent.

Definition user_agent (headers : HeaderMap) : str :=
  default ("-" : str) (hm_get headers "user-agent" ≫= HeaderValue_to_str).

(** What the network and the clock answer while one request is served, and the
    challenges its issuer has published by then. *)
Record World : Type := mkWorld {
  w_http01 : gmap str str;
  w_client : nat -> UpstreamRequest -> Answer;
  w_dns : option (list SocketAddr);
  w_connects : SocketAddr -> bool;
  w_now : Z;
  w_stored_at : Z;
}.

(** Everything a request causes: the response and the log line (none when the
    handler panics or never ends), the servers contacted, and for a CONNECT the
    addresses dialled and the one tunnelled to. *)
Record Effects : Type := mkEffects {
  ef_response : option (Response * LogCall);
  ef_sent : list str;
  ef_dialled : list SocketAddr;
  ef_tunnel : option SocketAddr;
}.

Definition logged (ip : IpAddr) (m : Method) (target ua : str) (r : Response) : option (Response * LogCall) :=
  Some (r, log_call ip m target r ua).

Definition handle (w : World) (st : State) (p : Parts) (body : Incoming) (ip : IpAddr) : State * Effects :=
  let method := p_method p in
  let path := uri_path (p_uri p) in
  let ua := user_agent (p_headers p) in
  match acme_challenge_response (w_http01 w) path with
  | Some resp => (st, mkEffects (logged ip method path ua resp) [] [] None)
  | None =>
      if bool_decide (method = CONNECT) then
        let target := uri_to_string (p_uri p) in
        let '(st, resp, dialled, tunnel) := handle_connect st p (w_now w) (w_dns w) (w_stored_at w) (w_connects w) in
        (st, mkEffects (logged ip method target ua resp) [] dialled tunnel)
      else match security_checks p with
      | Never _ => (st, mkEffects None [] [] None)
      | Err status =>
          (st, mkEffects (logged ip method path ua (finalize (error_response status))) [] [] None)
      | Ok _ =>
          match collect_limited (hs_max_body s) body with
          | Never _ => (st, mkEffects None [] [] None)
          | Err status =>
              (st, mkEffects (logged ip method path ua (finalize (error_response status))) [] [] None)
          | Ok bytes =>
              let '(st, sent, r) := handle_collected (w_client w) st (mkRequest p bytes) ip in
              (st, mkEffects (r ≫= logged ip method path ua) sent [] None)
          end
      end
  end.

(** The effective authority of an HTTP/3 request: [None] for a conflict. *)
Definition h3_authority (p : Parts) : option Parts :=
  match uri_authority (p_uri p) with
  | None => Some p
  | Some authority =>
      match hm_get (p_headers p) "host" with
      | Some h =>
          let host_str := default [] (HeaderValue_to_str h) in
          if negb (bool_decide (host_str = [])) && negb (bool_decide (host_str = authority))
          then None else Some p
      | None => Some (set_headers p (insert_str (p_headers p) "host" authority))
      end
  end.

Definition handle_h3 (w : World) (st : State) (p : Parts) (body : str) (ip : IpAddr) : State * Effects :=
  let method := p_method p in
  let path := uri_path (p_uri p) in
  let ua := user_agent (p_headers p) in
  match h3_authority p with
  | None =>
      (st, mkEffects (logged ip method path ua (finalize (error_response BAD_REQUEST))) [] [] None)
  | Some p =>
      let '(st, sent, r) := handle_collected (w_client w) st (mkRequest p body) ip in
      (st, mkEffects (r ≫= logged ip method path ua) sent [] None)
  end.
End handler.

(** ** Routing: the specification of [find_location] *)

Section routing.
Context {U : Unicode} {H : HttpLib} {N : IpNetLib} {R : RegexLib} {M : MaxMindDb}.

(** A location that settles the search where it stands. *)
Definition decisive (path : str) (c : CompiledLocation) : bool :=
  let l := cl_location c in
  if bool_decide (loc_match_type l = "exact") then bool_decide (loc_pattern l = path)
  else if bool_decide (loc_match_type l = "prefix") then false
  else if bool_decide (loc_match_type l = "regex") then
    match cl_regex c with Some re => is_match re path | None => false end
  else false.

Definition prefix_match (path : str) (c : CompiledLocation) : Prop :=
  loc_match_type (cl_location c) = "prefix" /\ starts_with path (loc_pattern (cl_location c)) = true.

Definition pattern_len (c : CompiledLocation) : nat := length (loc_pattern (cl_location c)).

(** [c] is the first of the longest matching prefixes of [ls], longer than [n]. *)
Definition longest_prefix (path : str) (ls : list CompiledLocation) (n : nat) (c : CompiledLocation) : Prop :=
  exists l1 l2, ls = l1 ++ c :: l2 /\ prefix_match path c /\ (n < pattern_len c)%nat
    /\ (forall d, d ∈ l1 -> prefix_match path d -> (pattern_len d < pattern_len c)%nat)
    /\ (forall d, d ∈ l2 -> prefix_match path d -> (pattern_len d <= pattern_len c)%nat).

Lemma find_loop_step path c rest best n :
  decisive path c = false ->
  find_loop (c :: rest) path best n
  = if bool_decide (prefix_match path c) && bool_decide (n < pattern_len c)%nat
    then find_loop rest path (Some c) (pattern_len c)
    else find_loop rest path best n.
Proof.
  unfold decisive, prefix_match, pattern_len. cbn [find_loop].
  case_bool_decide as E1.
  - intros ->. rewrite (bool_decide_eq_false_2 (_ /\ _)); [done|].
    intros [E _]. rewrite E1 in E. discriminate E.
  - case_bool_decide as E2.
    + intros _. destruct (starts_with path _) eqn:Es; cbn [andb].
      * rewrite (bool_decide_eq_true_2 (_ /\ _)) by done. done.
      * rewrite (bool_decide_eq_false_2 (_ /\ _)); [done|]. intros [_ ?]. congruence.
    + intros Hd. rewrite (bool_decide_eq_false_2 (_ /\ _)) by (intros [? _]; done). cbn [andb].
      case_bool_decide; [|done]. destruct (cl_regex c); [|done]. by rewrite Hd.
Qed.

Lemma find_loop_decisive ls path best n c :
  find_first (decisive path) ls = Some c -> find_loop ls path best n = Some c.
Proof.
  revert best n. induction ls as [|d rest IH]; intros best n; [done|]. cbn [find_first].
  destruct (decisive path d) eqn:Ed.
  - intros [= ->]. unfold decisive in Ed. cbn [find_loop].
    case_bool_decide; [by rewrite Ed|]. case_bool_decide; [done|]. case_bool_decide; [|done].
    destruct (cl_regex c); [|done]. by rewrite Ed.
  - intros Hf. rewrite find_loop_step by done. case_match; by apply IH.
Qed.

Lemma find_loop_prefix ls path best n :
  find_first (decisive path) ls = None ->
  (exists c, find_loop ls path best n = Some c /\ longest_prefix path ls n c)
  \/ (find_loop ls path best n = best
      /\ forall d, d ∈ ls -> prefix_match path d -> (pattern_len d <= n)%nat).
Proof.
  revert best n. induction ls as [|d rest IH]; intros best n; cbn [find_first].
  { intros _. right. split; [done|]. set_solver. }
  destruct (decisive path d) eqn:Ed; [done|]. intros Hf. rewrite find_loop_step by done.
  destruct (bool_decide (prefix_match path d) && bool_decide (n < pattern_len d)%nat) eqn:Em.
  - b2p. destruct (IH (Some d) (pattern_len d) Hf) as [(c & Hc & l1 & l2 & -> & Hpc & Hlen & Hb1 & Hb2)|[Hc Hall]].
    + left. exists c. split; [done|]. exists (d :: l1), l2. split_and!; try done; [lia|].
      intros e [->|He]%elem_of_cons Hpe; [done|by apply Hb1].
    + left. exists d. split; [done|]. exists [], rest. split_and!; try done. set_solver.
  - apply andb_false_iff in Em.
    assert (prefix_match path d -> (pattern_len d <= n)%nat) as Hd.
    { intros Hp. destruct Em as [Em|Em]; b2p; [done|lia]. }
    destruct (IH best n Hf) as [(c & Hc & l1 & l2 & -> & Hpc & Hlen & Hb1 & Hb2)|[Hc Hall]].
    + left. exists c. split; [done|]. exists (d :: l1), l2. split_and!; try done.
      intros e [->|He]%elem_of_cons Hpe; [pose proof (Hd Hpe); lia|by apply Hb1].
    + right. split; [done|]. intros e [->|He]%elem_of_cons Hpe; [by apply Hd|by apply Hall].
Qed.

(** C18. Routing: the first location, in configuration order, whose exact path equals the
    request's path or whose regex matches it wins, also over longer prefixes before or
    after it; otherwise the longest non-empty matching prefix wins, and of equally long
    ones the first; when none of these matches, no location is selected. *)
Theorem find_location_spec s path :
  match find_first (decisive path) (hs_locations s) with
  | Some c => find_location s path = Some c
  | None =>
      match find_location s path with
      | Some c => longest_prefix path (hs_locations s) 0 c
      | None => forall d, d ∈ hs_locations s -> prefix_match path d -> pattern_len d = 0%nat
      end
  end.
Proof.
  unfold find_location. destruct (find_first _ _) as [c|] eqn:E; [by apply find_loop_decisive|].
  destruct (find_loop_prefix (hs_locations s) path None 0 E) as [(c & -> & Hc)|[-> Hall]]; [done|].
  intros d Hd Hp. pose proof (Hall d Hd Hp). lia.
Qed.
End routing.

(** ** The security gate *)

Section gate.
Context {U : Unicode} {H : HttpLib} {L : HttpLaws H} {N : IpNetLib} {R : RegexLib} {G : GzLib}.
Context {F : FileSystem} {M : MaxMindDb}.
Variable s : HandlerService.

(** What [security_checks] establishes of the headers and the URI. *)
Definition headers_ok (p : Parts) : Prop :=
  let hb := hs_block s in
  Z.of_nat (hm_len (p_headers p)) <= default 100 (hb_max_header_count hb)
  /\ header_size (p_headers p) <= default 8192 (hb_max_header_size hb)
  /\ (forall n, declared_length (p_headers p) = Some n -> n <= hs_max_body s)
  /\ ~ (p_version p = HTTP_10 /\ is_Some (hm_get (p_headers p) "transfer-encoding"))
  /\ (hb_reject_ambiguous_framing hb = true ->
        (hm_get (p_headers p) "content-length" = None \/ hm_get (p_headers p) "transfer-encoding" = None)
        /\ (length (hm_get_all (p_headers p) "content-length") <= 1)%nat)
  /\ (hb_reject_headers_with_control_chars hb = true ->
        forall k v, (k, v) ∈ hm_iter (p_headers p) -> ~ (byte 13 ∈ v) /\ ~ (byte 10 ∈ v))
  /\ validate_uri (uri_path (p_uri p)) = Ok tt.

Lemma security_checks_ok p : security_checks s p = Ok tt -> headers_ok p.
Proof.
  unfold security_checks, headers_ok. cbv zeta. intros Hc. res_inv. b2p.
  destruct (validate_uri (uri_path (p_uri p))) as [[]| |] eqn:Ev; [|done..].
  split_and!; try done.
  - intros n Hn. rewrite Hn in *. by b2p.
  - intros [Hv Ht]. rewrite Hv in *.
    match goal with E : bool_decide (HTTP_10 = HTTP_10) && _ = false |- _ =>
      rewrite !bool_decide_eq_true_2 in E by done; discriminate E end.
  - intros Hr. rewrite Hr in *. cbn [andb] in *. b2p. split; [|lia].
    destruct (hm_get (p_headers p) "content-length"), (hm_get (p_headers p) "transfer-encoding"); auto.
    exfalso. match goal with E : bool_decide (is_Some (Some _)) && bool_decide _ = false |- _ =>
      rewrite !bool_decide_eq_true_2 in E by eauto; discriminate E end.
  - intros Hr. rewrite Hr in *. cbn [andb] in *. intros k v Hin.
    match goal with E : existsb _ _ = false |- _ =>
      apply existsb_false_Forall in E; rewrite Forall_forall in E; specialize (E (k, v) Hin); cbn in E end.
    unfold has_crlf in *. b2p. split; by apply contains_char_false.
Qed.

(** The whole admission: headers, body, host policy and method. *)
Definition request_ok (req : Request) : Prop :=
  headers_ok (rq_parts req)
  /\ Z.of_nat (length (rq_body req)) <= hs_max_body s
  /\ validate_host (hm_get (p_headers (rq_parts req)) "host" ≫= HeaderValue_to_str) (hs_block s) = true
  /\ check_method_allowed (p_method (rq_parts req)) = true.

Lemma maybe_decompress_parts req req' :
  maybe_decompress s req = Ok req' ->
  hm_get (p_headers (rq_parts req')) "host" = hm_get (p_headers (rq_parts req)) "host"
  /\ p_method (rq_parts req') = p_method (rq_parts req)
  /\ p_uri (rq_parts req') = p_uri (rq_parts req)
  /\ p_version (rq_parts req') = p_version (rq_parts req).
Proof.
  unfold maybe_decompress. cbv zeta. destruct (is_gzip _); cbn [negb]; [|by intros [= <-]].
  case_bool_decide; [by intros [= <-]|]. destruct (gz_read _ _); [|by intros [= <-]].
  intros Hd. res_inv. cbn [rq_parts p_headers p_method p_uri p_version set_headers]. split_and!; try done.
  apply hm_get_remove_ne. vm_decide.
Qed.

Lemma admit_ok req req' : admission s req = Ok req' -> request_ok req /\ maybe_decompress s req = Ok req'.
Proof.
  unfold admission. intros Ha. apply res_bind_ok in Ha as ([] & Hsec & Ha).
  destruct (negb (hs_max_body s <? Z.of_nat (length (rq_body req)))) eqn:Eb; [|done].
  cbv zeta in Ha. apply res_bind_ok in Ha as (req1 & Hd & Ha).
  destruct (validate_host _ _) eqn:Eh; [|done].
  destruct (check_method_allowed _) eqn:Em; [|done]. injection Ha as <-. b2p.
  split; [|done]. destruct (maybe_decompress_parts _ _ Hd) as (Hhost & _).
  split_and!; [by apply security_checks_ok|done|by rewrite Hhost in Eh|done].
Qed.

(** C5. Nothing happens before every check has passed: when a request contacts an
    upstream or is answered other than by an error, its headers, framing, URI,
    body size, Host and method satisfy the block's policy. *)
Theorem process_gate hash_ip hash_session client st req ip :
  let '(st', (sent, r)) := process s hash_ip hash_session client st req ip in
  sent <> [] \/ is_ok r = true -> request_ok req.
Proof.
  unfold process. destruct (admission s req) as [req1|e|] eqn:Ea; cbn [res_bind].
  - apply admit_ok in Ea as [Hok _]. by repeat case_match.
  - by intros [?|?].
  - by intros [?|?].
Qed.

(** A refused request changes nothing: its state is the one before, no upstream
    was contacted, and the client gets the error page. *)
Theorem process_refused hash_ip hash_session client st req ip status :
  admission s req = Err status ->
  process s hash_ip hash_session client st req ip = (st, ([], Err status))
  /\ handle_collected s hash_ip hash_session client st req ip
     = (st, [], Some (finalize s (error_response status))).
Proof. intros E. unfold handle_collected, process. by rewrite E. Qed.

(** C33. Decompression is bounded, when [max_decompression_size] is below 2^64 - 1: the
    routed body is the original, or the complete decompressed data, at most
    [max_decompression_size] bytes and shorter than [max_decompression_ratio] + 1 times
    the compressed size (the code compares the quotient rounded down), with the stale
    Content-Encoding gone. *)
Theorem maybe_decompress_bounded req req' :
  let max_size := default (10 * 1024 * 1024) (hb_max_decompression_size (hs_block s)) in
  let max_ratio := default 10 (hb_max_decompression_ratio (hs_block s)) in
  let size r := Z.of_nat (length (rq_body r)) in
  0 <= max_size < 2 ^ 64 - 1 -> 0 <= max_ratio ->
  maybe_decompress s req = Ok req' ->
  req' = req
  \/ (rq_body req' = fst (gz_decode (rq_body req))
      /\ snd (gz_decode (rq_body req)) = false
      /\ size req' <= max_size
      /\ size req' < (max_ratio + 1) * size req
      /\ hm_get_all (p_headers (rq_parts req')) "content-encoding" = []).
Proof.
  intros max_size max_ratio size Hm Hr. unfold maybe_decompress. cbv zeta. fold max_size max_ratio.
  destruct (is_gzip _); cbn [negb]; [|by intros [= <-]; left].
  case_bool_decide as Ebody; [by intros [= <-]; left|].
  unfold gz_read. destruct (gz_decode (rq_body req)) as [out failed] eqn:Eg.
  assert (wrap64 (max_size + 1) = max_size + 1) as -> by (unfold wrap64; apply Z.mod_small; lia).
  assert (1 <= size req) as Hlen by (unfold size; destruct (rq_body req); [done|cbn [length]; lia]).
  fold (size req). rewrite Z.max_l by lia.
  destruct (max_size + 1 <=? Z.of_nat (length out)) eqn:Elim; b2p.
  - rewrite length_take, Nat.min_l by lia. rewrite (proj2 (Z.ltb_lt _ _)) by lia. done.
  - destruct failed; [by intros [= <-]; left|].
    destruct (max_size <? Z.of_nat (length out)) eqn:Es; [done|].
    destruct (_ <? Z.of_nat (length out) / _) eqn:Er; [done|]. intros [= <-]. right. b2p.
    cbn [rq_body rq_parts p_headers set_headers fst snd]. split_and!; try done; [|apply hm_remove_eq].
    change (Z.of_nat (length out) < (max_ratio + 1) * size req).
    pose proof (Z.mul_succ_div_gt (Z.of_nat (length out)) (size req) ltac:(lia)). nia.
Qed.

(** At the one size above that, the largest [max_decompression_size], the reader's limit
    wraps to 0 and the body of a gzip request is routed empty. *)
Theorem decompression_size_gap req :
  hb_max_decompression_size (hs_block s) = Some (2 ^ 64 - 1) ->
  0 <= default 10 (hb_max_decompression_ratio (hs_block s)) ->
  is_gzip (p_headers (rq_parts req)) = true ->
  exists req', maybe_decompress s req = Ok req' /\ rq_body req' = [].
Proof.
  intros Hs Hr Hgz. unfold maybe_decompress. cbv zeta. rewrite Hgz, Hs. cbn [negb].
  change (default (10 * 1024 * 1024) (Some (2 ^ 64 - 1))) with (2 ^ 64 - 1).
  case_bool_decide as Eb; [by eauto|]. unfold gz_read.
  destruct (gz_decode (rq_body req)) as [out failed].
  replace (wrap64 (2 ^ 64 - 1 + 1)) with 0 by reflexivity.
  rewrite (proj2 (Z.leb_le 0 _)) by lia. cbn [Z.to_nat take].
  change (2 ^ 64 - 1 <? Z.of_nat (length [])) with false. change (Z.of_nat (length [])) with 0.
  rewrite Z.div_0_l, (proj2 (Z.ltb_ge _ 0) Hr) by lia. eauto.
Qed.

(** GeoIP headers are never the client's: after stamping, each [x-geoip-*] header
    is the same whatever the client sent, and every other header is untouched. *)
Theorem stamp_geoip_spec hs1 hs2 ip k :
  (k ∈ GEO_HEADERS -> hm_get_all (stamp_geoip s hs1 ip) k = hm_get_all (stamp_geoip s hs2 ip) k)
  /\ (~ k ∈ GEO_HEADERS -> hm_get_all (stamp_geoip s hs1 ip) k = hm_get_all hs1 k).
Proof.
  assert (forall hs name v k, hm_get_all (put name v hs) k
    = match v with
      | Some t => match HeaderValue_from_str t with
                  | Some t' => if decide (name = k) then [t'] else hm_get_all hs k
                  | None => hm_get_all hs k
                  end
      | None => hm_get_all hs k
      end) as Hput.
  { intros hs name v k'. unfold put, insert_str. destruct v as [t|]; [|done].
    destruct (HeaderValue_from_str t); [|done].
    case_decide; [subst; apply hm_insert_eq|by apply hm_insert_ne]. }
  split.
  - intros Hk. unfold stamp_geoip.
    assert (hm_get_all (foldl hm_remove hs1 GEO_HEADERS) k = hm_get_all (foldl hm_remove hs2 GEO_HEADERS) k) as E
      by (rewrite !removes_get_all, !decide_True by done; done).
    destruct (hs_geoip s) as [g|]; [|done]. destruct (Geoip.lookup g ip) as [info|]; [|done].
    rewrite !Hput, E. done.
  - intros Hk. unfold stamp_geoip.
    assert (hm_get_all (foldl hm_remove hs1 GEO_HEADERS) k = hm_get_all hs1 k) as E
      by (rewrite removes_get_all, decide_False by done; done).
    destruct (hs_geoip s) as [g|]; [|done]. destruct (Geoip.lookup g ip) as [info|]; [|done].
    assert (forall n : str, n ∈ GEO_HEADERS -> n <> k) as Hne by (intros n Hn ->; done).
    assert (forall hs name v, name <> k -> hm_get_all (put name v hs) k = hm_get_all hs k) as Hother.
    { intros hs name v Hn. rewrite Hput. destruct v; [|done]. case_match; [|done]. by rewrite decide_False. }
    by rewrite !Hother by (apply Hne; vm_decide).
Qed.
End gate.

(** ** Failover *)

Section failover.
Context {U : Unicode} {H : HttpLib} {N : IpNetLib} {R : RegexLib} {G : GzLib} {M : MaxMindDb}.
Variable s : HandlerService.
Variable client : nat -> UpstreamRequest -> Answer.
Variables (u : UpstreamRef) (p : Parts) (body : str) (ip : IpAddr).

(** The n-th attempt, on a server's address. *)
Definition attempt (n : nat) (addr : str) : res ProxyError Response :=
  forward (hs_proxy s) (client n) addr p body ip (hs_scheme s).

Definition addresses (order : list nat) : list str :=
  omap (fun i => option_map us_address (ur_servers u !! i)) order.

(** The servers of the order the SSRF policy admits: those an attempt can be made on. *)
Definition admitted (srv : UpstreamServer) : bool :=
  is_ok (is_upstream_allowed (us_address srv) (hb_upstream_allowed_networks (hs_block s))).
Definition existing (order : list nat) : list UpstreamServer := omap (fun i => ur_servers u !! i) order.
Definition permitted (order : list nat) : list UpstreamServer :=
  filter (fun srv => admitted srv = true) (existing order).

(** The status when no server is left: 403 when the last one was refused, else 502. *)
Definition exhausted_status (order : list nat) (last_status : Z) : Z :=
  match list.last (existing order) with
  | Some srv => if admitted srv then BAD_GATEWAY else FORBIDDEN
  | None => last_status
  end.

(** What an attempt that is not a connection failure settles. *)
Definition settles (r : res ProxyError Response) (o : res Z Response) : Prop :=
  match r with
  | Ok resp => o = Ok resp
  | Err (Status status) => o = Err status
  | Err Connect => False
  | Never why => o = Never why
  end.

(** The failover loop from attempt [n] on: the permitted servers are contacted in
    order, and only those; every one before the last fails to connect; the first that
    does not settles the outcome; when none is left the request is given up. *)
Definition failover_ok (n : nat) (order : list nat) (last_status : Z) (sent : list str) (r : res Z Response)
    : Prop :=
  exists k, sent = map us_address (take k (permitted order))
    /\ (forall i srv, (S i < k)%nat -> permitted order !! i = Some srv -> attempt (n + i) (us_address srv) = Err Connect)
    /\ match k with
       | O => permitted order = [] /\ r = Err (exhausted_status order last_status)
       | S m =>
           exists srv, permitted order !! m = Some srv
             /\ (settles (attempt (n + m) (us_address srv)) r
                 \/ attempt (n + m) (us_address srv) = Err Connect
                    /\ length (permitted order) = k /\ r = Err (exhausted_status order last_status))
       end.

Lemma existing_cons idx rest :
  existing (idx :: rest)
  = match ur_servers u !! idx with Some srv => srv :: existing rest | None => existing rest end.
Proof. reflexivity. Qed.

Lemma exhausted_status_cons idx rest last_status srv :
  ur_servers u !! idx = Some srv ->
  exhausted_status (idx :: rest) last_status = exhausted_status rest (if admitted srv then BAD_GATEWAY else FORBIDDEN).
Proof. intros E. unfold exhausted_status. rewrite existing_cons, E, last_cons. by destruct (list.last (existing rest)). Qed.

(** A server that does not exist, or is refused, is passed over. *)
Lemma failover_skip n idx rest last_status sent r :
  match ur_servers u !! idx with
  | Some srv => admitted srv = false /\ failover_ok n rest FORBIDDEN sent r
  | None => failover_ok n rest last_status sent r
  end -> failover_ok n (idx :: rest) last_status sent r.
Proof.
  destruct (ur_servers u !! idx) as [srv|] eqn:Ei.
  - intros [Ea Hok]. unfold failover_ok in *. unfold permitted in *. rewrite existing_cons, Ei, filter_cons_False by (by rewrite Ea).
    by rewrite (exhausted_status_cons _ _ _ _ Ei), Ea.
  - unfold failover_ok, permitted, exhausted_status. by rewrite existing_cons, Ei.
Qed.

Lemma permitted_cons idx rest srv :
  ur_servers u !! idx = Some srv -> admitted srv = true -> permitted (idx :: rest) = srv :: permitted rest.
Proof. intros Ei Ea. unfold permitted. by rewrite existing_cons, Ei, filter_cons_True. Qed.

(** The first permitted server settles the request... *)
Lemma failover_here n idx rest last_status srv r :
  ur_servers u !! idx = Some srv -> admitted srv = true -> settles (attempt n (us_address srv)) r ->
  failover_ok n (idx :: rest) last_status [us_address srv] r.
Proof.
  intros Ei Ea Hs. exists 1%nat. rewrite (permitted_cons _ _ _ Ei Ea). split_and!; [done|lia|].
  exists srv. rewrite Nat.add_0_r. auto.
Qed.

(** ... or fails to connect and leaves it to the rest. *)
Lemma failover_next n idx rest last_status srv sent r :
  ur_servers u !! idx = Some srv -> admitted srv = true -> attempt n (us_address srv) = Err Connect ->
  failover_ok (S n) rest BAD_GATEWAY sent r ->
  failover_ok n (idx :: rest) last_status (us_address srv :: sent) r.
Proof.
  intros Ei Ea Hc (k & -> & Hpre & Hk). exists (S k).
  rewrite (permitted_cons _ _ _ Ei Ea), (exhausted_status_cons _ _ _ _ Ei), Ea. split_and!; [done| |].
  - intros [|i] srv' Hlt Hl; cbn in Hl; [injection Hl as <-; by rewrite Nat.add_0_r|].
    rewrite Nat.add_succ_r. apply (Hpre i); [lia|done].
  - destruct k as [|m].
    + destruct Hk as [-> ->]. exists srv. rewrite Nat.add_0_r. auto.
    + destruct Hk as (srv' & Hl & Hk). exists srv'. rewrite Nat.add_succ_r. split; [done|].
      cbn [length]. destruct Hk as [Hk|(Hk & Hlen & Hr)]; [by left|right]. auto.
Qed.

Lemma try_candidates_ok b order n last_status :
  let '(b', sent, r) := try_candidates s client b u p body ip order n last_status in
  failover_ok n order last_status sent r.
Proof.
  revert b n last_status. induction order as [|idx rest IH]; intros b n last_status; cbn [try_candidates].
  { exists 0%nat. split_and!; [done|lia|done..]. }
  destruct (ur_servers u !! idx) as [srv|] eqn:Ei.
  2:{ specialize (IH b n last_status). destruct (try_candidates _ _ _ _ _ _ _ _ _ _) as [[b' sent] r].
      apply failover_skip. by rewrite Ei. }
  destruct (is_upstream_allowed (us_address srv) _) as [[]|e|] eqn:Ea.
  2-3: specialize (IH b n FORBIDDEN); destruct (try_candidates _ _ _ _ _ _ _ _ _ _) as [[b' sent] r];
       apply failover_skip; rewrite Ei; unfold admitted; by rewrite Ea.
  assert (admitted srv = true) as Had by (unfold admitted; by rewrite Ea).
  destruct (track b u idx) as [b1 g]. fold (attempt n (us_address srv)).
  destruct (attempt n (us_address srv)) as [resp|[|st]|why] eqn:Eat.
  2:{ specialize (IH (drop_guard b1 g) (S n) BAD_GATEWAY). cbn [after_attempt].
      destruct (try_candidates _ _ _ _ _ _ _ _ _ _) as [[b' sent] r]. by apply failover_next. }
  all: apply failover_here; [done..|]; by rewrite Eat.
Qed.

(** Every server contacted is one of the order, and admitted. *)
Lemma failover_contacts n order last_status sent r a :
  failover_ok n order last_status sent r -> a ∈ sent ->
  exists i srv, i ∈ order /\ ur_servers u !! i = Some srv /\ us_address srv = a /\ admitted srv = true.
Proof.
  intros (k & -> & _) (srv & -> & Hin)%list_elem_of_fmap.
  apply elem_of_take in Hin as (j & Hj%list_elem_of_lookup_2 & _).
  apply list_elem_of_filter in Hj as [Had (i & Hi & E)%list_elem_of_omap]. eauto 10.
Qed.

Lemma failover_length n order last_status sent r :
  failover_ok n order last_status sent r -> (length sent <= length order)%nat.
Proof.
  intros (k & -> & _). rewrite length_map, length_take. unfold permitted.
  etransitivity; [apply Nat.le_min_r|]. etransitivity; [apply length_filter|].
  unfold existing. clear. induction order as [|i order IH]; cbn [omap list_omap length]; [lia|].
  case_match; cbn [length]; lia.
Qed.
End failover.

Lemma select_upstream_err {U : Unicode} {H : HttpLib} {N : IpNetLib} {R : RegexLib} {M : MaxMindDb} s hash_session st h ip :
  match snd (select_upstream s hash_session st h ip) with
  | Ok _ => True
  | Err e => e = BAD_GATEWAY
  | Never _ => False
  end.
Proof.
  unfold select_upstream. destruct (h_ab_split h) as [n|]; cbn [snd].
  - destruct (st_router st) as [router|]; [|done].
    destruct (resolve hash_session router n (show_ip ip)) as [router' g]. cbn [snd]. by destruct (g ≫= _).
  - destruct (h_upstream h); [done|]. by destruct (head _).
Qed.

(** Failover is exact: the servers the SSRF policy admits are contacted in the
    balancer's order, each at most once and no other; a request goes on to the next
    one exactly when the one before failed to connect, so it is never sent twice; the
    first that answers, refuses or fails otherwise settles it; when none is left it is
    given up with 403 or 502. *)
Theorem dispatch_proxy_failover {U : Unicode} {H : HttpLib} {N : IpNetLib} {R : RegexLib} {G : GzLib}
    {M : MaxMindDb} s hash_ip hash_session client st h req ip :
  let '(st', (sent, r)) := dispatch_proxy s hash_ip hash_session client st h req ip in
  match snd (select_upstream s hash_session st h ip) with
  | Ok u =>
      (length sent <= length (ur_servers u))%nat
      /\ exists order, order ≡ₚ seq 0 (length (ur_servers u))
           /\ failover_ok s client u (rq_parts req) (rq_body req) ip 0 order BAD_GATEWAY sent r
  | _ => sent = [] /\ r = Err BAD_GATEWAY
  end.
Proof.
  pose proof (select_upstream_err s hash_session st h ip) as He.
  unfold dispatch_proxy. destruct (select_upstream s hash_session st h ip) as [st1 [u|e|]]; cbn [snd] in *.
  2:{ split; [done|]. by rewrite He. }
  2:{ done. }
  pose proof (candidates_perm hash_ip (st_balancer st1) u ip) as Hperm.
  destruct (candidates hash_ip (st_balancer st1) u ip) as [b order]. cbn [snd] in Hperm.
  pose proof (try_candidates_ok s client u (rq_parts req) (rq_body req) ip b order 0 BAD_GATEWAY) as Hok.
  destruct (try_candidates _ _ _ _ _ _ _ _ _ _) as [[b' sent] r]. split; [|eauto].
  etransitivity; [by eapply failover_length|]. by rewrite Hperm, length_seq.
Qed.

(** ** CONNECT, entry points and response headers *)

Section entry.
Context {U : Unicode} {H : HttpLib} {N : IpNetLib} {R : RegexLib} {G : GzLib} {F : FileSystem} {M : MaxMindDb}.

(** The service a block is given by [HandlerService::new]. *)
Definition service (block : HttpBlock) (store : bool) (is_tls : bool)
    (timeouts : TimeoutSettings) : HandlerService :=
  fst (HandlerService_new block store is_tls timeouts).

Lemma finalize_status s r : r_status (finalize s r) = r_status r.
Proof. unfold finalize. destruct (hs_hsts s); [|done]. by case_match. Qed.

Lemma simple_response_status s status body : r_status (simple_response s status body) = status.
Proof. unfold simple_response. rewrite finalize_status. by case_match. Qed.

(** What a CONNECT may dial: the port of a permitted target, at an address the SSRF
    policy admits, when the block allows CONNECT. *)
Definition dialable (s : HandlerService) (p : Parts) (addr : SocketAddr) : Prop :=
  hb_allow_connect (hs_block s) = true
  /\ ip_allowed (sa_ip addr) (parse_networks (hb_upstream_allowed_networks (hs_block s))) = true
  /\ exists authority host, uri_authority (p_uri p) = Some authority
       /\ split_host_port authority = (host, Some (sa_port addr))
       /\ connect_target_permitted s host (sa_port addr) authority = true.

(** The connection loop: a prefix of the vetted addresses, all failing, or all but the
    last, which is the one used. *)
Lemma connect_first_spec connects vetted :
  let '(dialled, upstream) := connect_first connects vetted in
  match upstream with
  | Some addr => exists failed rest, vetted = failed ++ addr :: rest /\ dialled = failed ++ [addr]
                   /\ connects addr = true /\ Forall (fun a => connects a = false) failed
  | None => dialled = vetted /\ Forall (fun a => connects a = false) dialled
  end.
Proof.
  induction vetted as [|addr rest IH]; cbn [connect_first]; [done|].
  destruct (connects addr) eqn:E.
  - exists [], rest. by split_and!.
  - destruct (connect_first connects rest) as [dialled [a|]].
    + destruct IH as (failed & later & -> & -> & Ha & Hf). exists (addr :: failed), later. split_and!; auto.
    + destruct IH as [-> Hf]. auto.
Qed.

(** What [vet_target] allows a connection to. *)
Lemma vet_target_ok s st host port now dns now' :
  cache_ok (hs_resolver s) (st_cache st) ->
  pr_allowed (hs_resolver s) = parse_networks (hb_upstream_allowed_networks (hs_block s)) ->
  let '(st', vetted) := vet_target s st host port now dns now' in
  cache_ok (hs_resolver s) (st_cache st')
  /\ (forall addrs a, vetted = Some addrs -> a ∈ addrs ->
        sa_port a = port
        /\ ip_allowed (sa_ip a) (parse_networks (hb_upstream_allowed_networks (hs_block s))) = true).
Proof.
  intros Hc Hal. unfold vet_target. destruct (parse_ip host) as [ip|].
  - split; [done|]. intros addrs a Ha Hin. destruct (ip_allowed ip _) eqn:E; [|done].
    injection Ha as <-. apply list_elem_of_singleton in Hin as ->. done.
  - pose proof (cached_ok (hs_resolver s) (st_cache st) host now Hc) as Hcached.
    unfold resolve_checked. destruct (cached (st_cache st) host now) as [c [addrs|]].
    + destruct Hcached as [Hc' Hv]. split; [done|]. intros l a [= <-] (sa & -> & Hsa)%list_elem_of_fmap.
      split; [done|]. rewrite <- Hal. exact (proj2 (Hv addrs eq_refl) sa Hsa).
    + destruct Hcached as [Hc' _].
      pose proof (finish_lookup_ok (hs_resolver s) c host dns now' Hc') as Hf.
      destruct (finish_lookup (hs_resolver s) c host dns now') as [c2 r]. destruct Hf as [Hc2 Hv].
      split; [done|]. intros l a Hl Hin. destruct r as [addrs| |]; [|done..]. injection Hl as <-.
      apply list_elem_of_fmap in Hin as (sa & -> & Hsa). split; [done|]. rewrite <- Hal. exact (proj2 (Hv addrs eq_refl) sa Hsa).
Qed.

(** A CONNECT dials nothing but what it may dial, one address after the other until one
    answers; the tunnel is to that one. *)
Lemma handle_connect_ok s st p now dns now' connects :
  cache_ok (hs_resolver s) (st_cache st) ->
  pr_allowed (hs_resolver s) = parse_networks (hb_upstream_allowed_networks (hs_block s)) ->
  let '(st', r, dialled, tunnel) := handle_connect s st p now dns now' connects in
  cache_ok (hs_resolver s) (st_cache st')
  /\ Forall (dialable s p) dialled
  /\ match tunnel with
     | Some addr => r_status r = OK_200 /\ exists failed, dialled = failed ++ [addr] /\ connects addr = true
                      /\ Forall (fun a => connects a = false) failed
     | None => r_status r <> OK_200 /\ Forall (fun a => connects a = false) dialled
     end.
Proof.
  intros Hc Hal. unfold handle_connect.
  assert (forall status body, status <> OK_200 -> r_status (simple_response s status body) <> OK_200) as Hrefused
    by (intros status body ?; by rewrite simple_response_status).
  destruct (hb_allow_connect (hs_block s)) eqn:Eallow; cbn [negb]; [|split_and!; auto].
  destruct (uri_authority (p_uri p)) as [authority|] eqn:Eauth; [|split_and!; auto].
  destruct (split_host_port authority) as [host [port|]] eqn:Esplit; [|split_and!; auto].
  destruct (connect_target_permitted s host port authority) eqn:Eperm; cbn [negb]; [|split_and!; auto].
  pose proof (vet_target_ok s st host port now dns now' Hc Hal) as Hv.
  destruct (vet_target s st host port now dns now') as [st1 vetted]. destruct Hv as [Hc1 Hv].
  destruct vetted as [addrs|]; [|split_and!; auto].
  assert (Forall (dialable s p) addrs) as Hd.
  { apply Forall_forall. intros a Hin. destruct (Hv addrs a eq_refl Hin) as [Hport Hok].
    split_and!; [done|done|]. exists authority, host. by rewrite Hport. }
  pose proof (connect_first_spec connects addrs) as Hf.
  destruct (connect_first connects addrs) as [dialled [addr|]].
  - destruct Hf as (failed & rest & -> & -> & Ha & Hf). apply Forall_app in Hd as [Hd1 [Hd2 _]%Forall_cons].
    split_and!; [done|by apply Forall_app; auto|by rewrite simple_response_status|]. eauto.
  - destruct Hf as [-> Hf]. split_and!; auto.
Qed.

(** C16. A CONNECT dials, and tunnels, only when the block allows it, to the port of a
    permitted target, at an address the SSRF policy admits; the tunnel is to the last
    address dialled, the first that answered; without a tunnel the response is an
    error, and the DNS cache stays vetted. *)
Theorem connect_gate block store is_tls timeouts st p now dns now' connects :
  let s := service block store is_tls timeouts in
  cache_ok (hs_resolver s) (st_cache st) ->
  let '(st', r, dialled, tunnel) := handle_connect s st p now dns now' connects in
  cache_ok (hs_resolver s) (st_cache st')
  /\ (tunnel = None -> r_status r <> OK_200 /\ Forall (fun a => connects a = false) dialled)
  /\ (forall addr, tunnel = Some addr ->
        connects addr = true
        /\ exists failed, dialled = failed ++ [addr] /\ Forall (fun a => connects a = false) failed)
  /\ (forall addr, addr ∈ dialled ->
        hb_allow_connect block = true
        /\ ip_allowed (sa_ip addr) (parse_networks (hb_upstream_allowed_networks block)) = true
        /\ exists authority host, uri_authority (p_uri p) = Some authority
             /\ split_host_port authority = (host, Some (sa_port addr))
             /\ connect_target_permitted s host (sa_port addr) authority = true).
Proof.
  intros s Hc. pose proof (handle_connect_ok s st p now dns now' connects Hc eq_refl) as Hok.
  destruct (handle_connect s st p now dns now' connects) as [[[st' r] dialled] tunnel].
  destruct Hok as (Hc' & Hd & Ht). rewrite Forall_forall in Hd. split_and!; [done| | |exact Hd].
  - intros ->. exact Ht.
  - intros addr ->. destruct Ht as (_ & failed & ? & ? & ?). eauto.
Qed.

(** HTTP/3 authority: a request whose Host disagrees with its authority is
    answered 400 and goes nowhere; otherwise the pipeline sees a Host equal to the
    authority, when the authority can be a header value and no Host was sent. *)
Theorem h3_authority_spec {L : HttpLaws H} s hash_ip hash_session w st p body ip authority :
  uri_authority (p_uri p) = Some authority -> forallb visible_ascii authority = true ->
  match h3_authority p with
  | None =>
      exists r call, handle_h3 s hash_ip hash_session w st p body ip
                     = (st, mkEffects (Some (r, call)) [] [] None) /\ r_status r = BAD_REQUEST
  | Some p' =>
      (hm_get (p_headers p) "host" = None -> hm_get_all (p_headers p') "host" = [authority])
      /\ (forall h t, hm_get (p_headers p) "host" = Some h -> HeaderValue_to_str h = Some t -> t <> [] ->
            t = authority /\ p' = p)
  end.
Proof.
  intros Ha Hvis. destruct (h3_authority p) as [p'|] eqn:E.
  - unfold h3_authority in E. rewrite Ha in E. destruct (hm_get (p_headers p) "host") as [h|] eqn:Eh.
    + split; [done|]. intros h' t [= <-] Ht Hne. rewrite Ht in E. cbn [default] in E.
      rewrite bool_decide_eq_false_2 in E by done. cbn [negb andb] in E.
      case_bool_decide; [|done]. by injection E as <-.
    + injection E as <-. split; [|done]. intros _. cbn [p_headers set_headers].
      rewrite insert_str_get_all by done. done.
  - unfold handle_h3, logged. rewrite E. eexists _, _. split; [reflexivity|].
    rewrite finalize_status. done.
Qed.

(** A known HTTP-01 token is answered with its key authorization as
    [application/octet-stream] before any host check, routing or CONNECT handling,
    an unknown or malformed one with 404; no other path is taken for a challenge. *)
Theorem acme_challenge_first {L : HttpLaws H} s hash_ip hash_session w st p body ip token :
  hs_acme_store s = true ->
  uri_path (p_uri p) = "/.well-known/acme-challenge/" ++ token ->
  exists r call, handle s hash_ip hash_session w st p body ip = (st, mkEffects (Some (r, call)) [] [] None)
    /\ match w_http01 w !! token with
       | Some key_auth =>
           token <> [] -> "/"%char ∉ token ->
           r_status r = OK_200 /\ r_body r = key_auth
           /\ hm_get (r_headers r) "content-type" = Some ("application/octet-stream" : str)
       | None => r_status r = NOT_FOUND
       end.
Proof.
  intros Hs Hpath. unfold handle, logged. rewrite Hpath.
  assert (exists r, acme_challenge_response s (w_http01 w) ("/.well-known/acme-challenge/" ++ token) = Some r
    /\ match w_http01 w !! token with
       | Some key_auth =>
           token <> [] -> "/"%char ∉ token ->
           r_status r = OK_200 /\ r_body r = key_auth
           /\ hm_get (r_headers r) "content-type" = Some ("application/octet-stream" : str)
       | None => r_status r = NOT_FOUND
       end) as (r & -> & Hr).
  { unfold acme_challenge_response. rewrite Hs. cbn [negb]. rewrite strip_prefix_app.
    cbn [mbind option_bind].
    destruct (bool_decide (token = []) || contains_char token "/") eqn:Eb.
    - eexists. split; [reflexivity|]. destruct (w_http01 w !! token); [|done]. intros Hne Hsl.
      apply orb_true_iff in Eb as [Eb|Eb]; [by apply bool_decide_eq_true in Eb|].
      by apply contains_char_spec in Eb.
    - destruct (w_http01 w !! token) as [key|]; eexists; (split; [reflexivity|]); [|done].
      intros _ _. cbn [r_status r_body r_headers with_header Response_new]. by rewrite hm_get_insert. }
  eexists r, _. split; [reflexivity|done].
Qed.

(** Every response of the shared pipeline on a TLS listener with HSTS configured
    carries Strict-Transport-Security: the configured value, or the one the
    upstream set. *)
Theorem hsts_stamped {L : HttpLaws H} block store timeouts secs hash_ip hash_session client st req ip :
  hb_hsts_max_age block = Some secs -> 0 <= secs ->
  let s := service block store true timeouts in
  let '(st', sent, o) := handle_collected s hash_ip hash_session client st req ip in
  forall r, o = Some r ->
    exists v, hm_get (r_headers r) "strict-transport-security" = Some v
      /\ (v = "max-age=" ++ show secs ++ "; includeSubDomains"
          \/ exists r0, snd (snd (process s hash_ip hash_session client st req ip)) = Ok r0
                        /\ hm_get (r_headers r0) "strict-transport-security" = Some v).
Proof.
  intros Hage Hsecs s. unfold handle_collected.
  assert (hs_hsts s = Some ("max-age=" ++ show secs ++ "; includeSubDomains")) as Hh.
  { unfold s, service. cbn [HandlerService_new fst hs_hsts hsts_value]. unfold hsts_value. rewrite Hage.
    apply HeaderValue_from_str_visible. rewrite !forallb_app, visible_show by done. by vm_compute. }
  destruct (process s hash_ip hash_session client st req ip) as [st' [sent r0]].
  intros r Hr. cbn [snd].
  assert (forall q, exists v, hm_get (r_headers (finalize s q)) "strict-transport-security" = Some v
    /\ (v = "max-age=" ++ show secs ++ "; includeSubDomains"
        \/ hm_get (r_headers q) "strict-transport-security" = Some v)) as Hf.
  { intros q. unfold finalize. rewrite Hh.
    destruct (hm_contains_key (r_headers q) "strict-transport-security") eqn:Ec.
    - apply hm_contains_get in Ec as [v Hv]. exists v. auto.
    - eexists. cbn [r_headers with_header]. rewrite hm_get_insert. auto. }
  unfold answer in Hr. destruct r0 as [q|e|]; [|injection Hr as <-|done].
  - injection Hr as <-. destruct (Hf q) as (v & Hv & [->|Hq]); eauto 10.
  - destruct (Hf (error_response e)) as (v & Hv & [->|Hq]); [eauto|].
    exfalso. unfold error_response in Hq. cbn [r_headers with_header with_status Response_new] in Hq.
    rewrite hm_get_insert_ne in Hq by vm_decide. apply (f_equal is_Some) in Hq.
    rewrite (proj2 (hm_get_None _ _)) in Hq by apply hm_new_get_all.
    assert (is_Some (@None str)) as [? ?] by (rewrite Hq; eauto). done.
Qed.
End entry.

(** ** The theorems at concrete inputs *)

#[local] Existing Instance id_unicode.
#[local] Existing Instance assoc_http.
#[local] Existing Instance cidr_nets.
#[local] Existing Instance literal_regex.
#[local] Existing Instance stored_gz.
#[local] Existing Instance one_file.
#[local] Existing Instance one_country.

(** A block that serves [/srv] to any Host and allows one CONNECT target. *)
Definition demo_block : HttpBlock :=
  {| hb_listen := []; hb_server_name := []; hb_root := Some ("/srv" : str); hb_ssl := None;
     hb_http2 := true; hb_http3 := false; hb_locations := []; hb_rewrites := [];
     hb_geoip_db := Some ("geo.mmdb" : str); hb_ab_splits := []; hb_access_log := default_access_log;
     hb_max_header_size := None; hb_max_body_size := None;
     hb_reject_ambiguous_framing := true; hb_normalize_headers_before_proxy := true;
     hb_http2_max_reset_rate := None; hb_http3_max_dynamic_table_size := None;
     hb_host_header_policy := "any"; hb_allowed_hosts := None;
     hb_reject_headers_with_control_chars := true; hb_allow_connect := true;
     hb_connect_upstream := Some (mkUpstream "c" [mkServer "93.184.216.34:443" 1] "round-robin");
     hb_connect_allowed_targets := None;
     hb_trusted_proxies := None; hb_upstream_allowed_networks := None;
     hb_max_header_count := None; hb_max_decompression_ratio := None;
     hb_max_decompression_size := None; hb_upstreams := [];
     hb_dns_cache_ttl_seconds := None; hb_hsts_max_age := Some 60;
     hb_max_upstream_response_size := None |}.

Definition demo : HandlerService := service demo_block true true TimeoutSettings_default.
Definition demo_state : State := snd (HandlerService_new demo_block false true TimeoutSettings_default).
Definition demo_headers : HeaderMap := [("host" : str, "a.example" : str)].
Definition get (path : string) : Parts := mkParts assoc_http GET (mkUri None path None) HTTP_11 demo_headers.
Definition no_hash_ip : IpAddr -> Z := fun _ => 0.
Definition no_hash : str -> str -> Z := fun _ _ => 0.
Definition no_client : nat -> UpstreamRequest -> Answer := fun _ _ => Elapsed.
Definition demo_world : World := mkWorld {["tok" : str := ("tok.key" : str)]} no_client None (fun _ => true) 0 0.

Lemma process_gate_witness : request_ok demo (mkRequest (get "/index.html") []).
Proof.
  pose proof (process_gate demo no_hash_ip no_hash no_client demo_state
    (mkRequest (get "/index.html") []) client_ip) as Hg.
  assert (is_ok (snd (snd (process demo no_hash_ip no_hash no_client demo_state
    (mkRequest (get "/index.html") []) client_ip))) = true) as E by (vm_compute; reflexivity).
  destruct (process _ _ _ _ _ _ _) as [st' [sent r]]. apply Hg. right. exact E.
Defined.

Lemma process_refused_witness :
  process demo no_hash_ip no_hash no_client demo_state (mkRequest (get "/a\b") []) client_ip
  = (demo_state, ([], Err BAD_REQUEST)).
Proof.
  apply (process_refused demo no_hash_ip no_hash no_client demo_state (mkRequest (get "/a\b") []) client_ip).
  vm_compute. reflexivity.
Defined.

Definition gzip_request : Request :=
  mkRequest (set_headers (get "/") [("content-encoding" : str, "gzip" : str)]) "body".
Definition inflated : Request := mkRequest (set_headers (get "/") (@nil (str * str))) "body".

Lemma maybe_decompress_bounded_witness :
  inflated = gzip_request
  \/ Z.of_nat (length (rq_body inflated)) <= 10 * 1024 * 1024.
Proof.
  destruct (maybe_decompress_bounded demo gzip_request inflated) as [E|(_ & _ & Hl & _)].
  - vm_compute. split; [discriminate|reflexivity].
  - vm_compute. discriminate.
  - vm_compute. reflexivity.
  - left. exact E.
  - right. exact Hl.
Defined.

(** A ratio between [max_decompression_ratio] and the next integer passes: 1099 bytes
    from 100 at the default of 10. *)
Theorem decompression_ratio_gap :
  let inflate : GzLib := {| gz_decode _ := (replicate 1099 "a"%char, false) |} in
  match maybe_decompress (G := inflate) demo
          (mkRequest (rq_parts gzip_request) (replicate 100 "z"%char)) with
  | Ok req => Z.of_nat (length (rq_body req)) = 1099
  | _ => False
  end.
Proof. vm_compute. reflexivity. Qed.

Lemma stamp_geoip_spec_witness :
  hm_get_all (stamp_geoip demo (hm_insert demo_headers "x-geoip-country" "XX") client_ip) "x-geoip-country"
  = hm_get_all (stamp_geoip demo demo_headers client_ip) "x-geoip-country".
Proof. apply (stamp_geoip_spec demo _ demo_headers client_ip "x-geoip-country"). vm_decide. Defined.

Definition tunnel_address : SocketAddr := mkSocketAddr (V4 (V4Octets 93 184 216 34)) 443.

Lemma connect_gate_witness :
  hb_allow_connect demo_block = true
  /\ ip_allowed (sa_ip tunnel_address) (parse_networks (hb_upstream_allowed_networks demo_block)) = true.
Proof.
  assert (cache_ok (hs_resolver (service demo_block false true TimeoutSettings_default)) (st_cache demo_state)) as Hc.
  { split; [vm_compute; lia|]. intros h e He. cbn in He. discriminate He. }
  pose proof (connect_gate demo_block false true TimeoutSettings_default demo_state
    (mkParts assoc_http CONNECT (mkUri (Some ("93.184.216.34:443" : str)) [] None) HTTP_11 demo_headers)
    0 None 0 (fun _ => true) Hc) as Hg.
  assert (snd (handle_connect (service demo_block false true TimeoutSettings_default) demo_state
    (mkParts assoc_http CONNECT (mkUri (Some ("93.184.216.34:443" : str)) [] None) HTTP_11 demo_headers)
    0 None 0 (fun _ => true)) = Some tunnel_address) as E by (vm_compute; reflexivity).
  cbv zeta in Hg. destruct (handle_connect _ _ _ _ _ _ _) as [[[st' r] dialled] tunnel].
  destruct Hg as (_ & _ & Ht & Hd). destruct (Ht tunnel_address E) as (_ & failed & Ef & _).
  destruct (Hd tunnel_address) as (H1 & H2 & _); [rewrite Ef; apply elem_of_app; right; left|].
  split; [exact H1|exact H2].
Defined.

Definition h3_parts : Parts :=
  mkParts assoc_http GET (mkUri (Some ("b.example" : str)) "/" None) HTTP_3 demo_headers.

Lemma h3_authority_spec_witness :
  exists r call, handle_h3 demo no_hash_ip no_hash demo_world demo_state h3_parts [] client_ip
                 = (demo_state, mkEffects (Some (r, call)) [] [] None) /\ r_status r = BAD_REQUEST.
Proof.
  pose proof (h3_authority_spec demo no_hash_ip no_hash demo_world demo_state h3_parts [] client_ip
    "b.example" eq_refl ltac:(vm_compute; reflexivity)) as Hs.
  assert (h3_authority h3_parts = None) as E by (vm_compute; reflexivity).
  rewrite E in Hs. exact Hs.
Defined.

Lemma acme_challenge_first_witness :
  exists r call, handle demo no_hash_ip no_hash demo_world demo_state
    (get "/.well-known/acme-challenge/tok") (mkIncoming [] Complete) client_ip
    = (demo_state, mkEffects (Some (r, call)) [] [] None).
Proof.
  destruct (acme_challenge_first demo no_hash_ip no_hash demo_world demo_state
    (get "/.well-known/acme-challenge/tok") (mkIncoming [] Complete) client_ip
    "tok" eq_refl eq_refl) as (r & call & E & _).
  exists r, call. exact E.
Defined.

Lemma hsts_stamped_witness :
  let '(_, _, o) := handle_collected (service demo_block false true TimeoutSettings_default) no_hash_ip no_hash no_client demo_state
                      (mkRequest (get "/missing") []) client_ip in
  forall r, o = Some r -> exists v, hm_get (r_headers r) "strict-transport-security" = Some v.
Proof.
  pose proof (hsts_stamped demo_block false TimeoutSettings_default 60 no_hash_ip no_hash no_client demo_state
    (mkRequest (get "/missing") []) client_ip eq_refl ltac:(lia)) as Hs.
  cbv zeta in Hs. destruct (handle_collected _ _ _ _ _ _ _) as [[st' sent] o].
  intros r Hr. destruct (Hs r Hr) as (v & Hv & _). exists v. exact Hv.
Defined.
