(* ===== verification/Entry.v ===== *)
(** * The contract of the request handler (src/src/handler.rs)

    What the two entry points [handle] and [handle_h3] promise to the connections that
    call them, over everything a request can lead to.  Theorems: a request of ASCII
    path is answered once and logged once, consistently, and its handling does not
    panic, under the conditions the theorem names; no server outside the SSRF policy is
    ever contacted or dialled, whichever entry point and handler a request goes through,
    and only requests that passed every check contact one.  Gap: a request whose
    upstream stops in the middle of its body is never answered. *)

From S2P Require Import Prelude.
From S2P Require Import Str.
From S2P Require Import Net.
From S2P Require Import Extern.
From S2P Require Import Instances.
From S2P Require Import UriValidate.
From S2P Require Import UpstreamFilter.
From S2P Require Import Config.
From S2P Require Import Balance.
From S2P Require Import Rewrite.
From S2P Require Import Resolver.
From S2P Require Import StaticFile.
From S2P Require Import Geoip.
From S2P Require Import Proxy.
From S2P Require Import Handler.

(** ** Every stage returns *)

Section total.
Context {U : Unicode} {H : HttpLib} {N : IpNetLib} {R : RegexLib} {G : GzLib} {F : FileSystem} {M : MaxMindDb}.
Variable s : HandlerService.
Variable hash_ip : IpAddr -> Z.
Variable hash_session : str -> str -> Z.

Lemma validate_uri_total u : is_ascii u = true -> total (validate_uri u).
Proof. intros Ha. by destruct (validate_uri_ascii_total u Ha) as [->|[why ->]]. Qed.

Lemma security_checks_total p : is_ascii (uri_path (p_uri p)) = true -> total (security_checks s p).
Proof.
  intros Ha. unfold security_checks. cbv zeta. repeat (apply total_if; [done|]). by apply total_map_err, validate_uri_total.
Qed.

Lemma maybe_decompress_total req : total (maybe_decompress s req).
Proof. unfold maybe_decompress. cbv zeta. repeat case_match; done. Qed.

Lemma admit_parts req req' :
  admission s req = Ok req' -> uri_path (p_uri (rq_parts req')) = uri_path (p_uri (rq_parts req)).
Proof.
  unfold admission. intros Ha. apply res_bind_ok in Ha as ([] & _ & Ha). destruct (negb _); [|done].
  cbv zeta in Ha. apply res_bind_ok in Ha as (req1 & Hd & Ha).
  destruct (HostPolicy.validate_host _ _); [|done]. destruct (check_method_allowed _); [|done]. injection Ha as <-.
  unfold maybe_decompress in Hd. cbv zeta in Hd. by repeat case_match; simplify_eq/=.
Qed.

Lemma admission_total req : is_ascii (uri_path (p_uri (rq_parts req))) = true -> total (admission s req).
Proof.
  intros Ha. unfold admission. apply total_bind; [by apply security_checks_total|]. intros _ _.
  apply total_if; [|done]. cbv zeta. apply total_bind; [apply maybe_decompress_total|]. intros req' _.
  repeat (apply total_if; [|done]). done.
Qed.

(** The paths a rewrite hands on. *)
Definition ascii_rewrites (path : str) : Prop :=
  forall target, apply (hs_rewriter s) path = Some (Internal target) -> is_ascii target = true.

Lemma redirect_response_total target status : total (redirect_response target status).
Proof. unfold redirect_response. auto with flexd. Qed.

Lemma set_path_total req path : total (set_path req path).
Proof. unfold set_path. cbv zeta. auto with flexd. Qed.

Lemma rewrite_stage_total req :
  ascii_rewrites (uri_path (p_uri (rq_parts req))) -> total (rewrite_stage s req).
Proof.
  intros Ha. unfold rewrite_stage. cbv zeta. destruct (apply _ _) as [[target|target status]|] eqn:Er; [| |done].
  - pose proof (validate_uri_total target (Ha target Er)) as Ht. destruct (validate_uri target); [|done|done].
    apply total_bind; [apply set_path_total|done].
  - apply total_bind; [apply redirect_response_total|done].
Qed.

Lemma serve_file_total root path : total (serve_file root path).
Proof.
  unfold serve_file. apply total_bind; [apply total_ok_or|]. intros decoded _. cbv zeta.
  repeat (apply total_if; [done|]). apply total_bind; [|done].
  unfold read_file, open_beneath, open_beneath_fallback. apply total_bind; [|auto 6 with flexd].
  apply total_if; [done|]. destruct (openat2 root (sanitize_path decoded)) as [f|[]]; try done.
  auto 8 with flexd.
Qed.

(** The bodies of the upstreams' responses complete or break off. *)
Definition no_stalls (client : nat -> UpstreamRequest -> Answer) : Prop :=
  forall n rq status headers body, client n rq = Answered status headers body -> in_end body <> Stalls.

Lemma collect_total max i : in_end i <> Stalls -> total (collect max i).
Proof. intros Hi. unfold collect. destruct (_ <? _); [done|]. by destruct (in_end i). Qed.

Lemma forward_total c client n addr p body ip scheme :
  no_stalls client -> total (forward c (client n) addr p body ip scheme).
Proof.
  intros Hc. unfold forward. apply total_bind.
  - unfold build_request. cbv zeta. apply total_bind; [apply total_ok_or|]. intros u _.
    apply total_bind; [|done]. destruct (hm_get _ _); auto with flexd.
  - intros rq _. unfold accept_response. destruct (client n rq) as [|[|]|st hs b] eqn:Eb; try done; cbv zeta.
    apply total_if; [done|]. apply total_bind; [|done]. by eapply total_map_err, collect_total, Hc.
Qed.

Lemma try_candidates_total client b u p body ip order n last :
  no_stalls client -> total (snd (try_candidates s client b u p body ip order n last)).
Proof.
  intros Hc. revert b n last. induction order as [|idx rest IH]; intros b n last; cbn [try_candidates]; [done|].
  destruct (ur_servers u !! idx) as [server|]; [|apply IH].
  destruct (is_upstream_allowed _ _); [|apply IH..]. destruct (track b u idx) as [b1 g].
  pose proof (forward_total (hs_proxy s) client n (us_address server) p body ip (hs_scheme s) Hc) as Hf.
  destruct (forward _ _ _ _ _ _ _) as [resp|[|st]|]; try done.
  specialize (IH (drop_guard b1 g) (S n) BAD_GATEWAY). cbn [after_attempt].
  by destruct (try_candidates _ _ _ _ _ _ _ _ _ _) as [[b2 sent] r].
Qed.

Lemma dispatch_proxy_total client st h req ip :
  no_stalls client -> total (snd (snd (dispatch_proxy s hash_ip hash_session client st h req ip))).
Proof.
  intros Hc. unfold dispatch_proxy. pose proof (select_upstream_err s hash_session st h ip) as Hs.
  destruct (select_upstream _ _ _ _ _) as [st1 [u|e|]]; cbn [snd] in *; [|done..].
  destruct (Balance.candidates hash_ip (st_balancer st1) u ip) as [b order].
  pose proof (try_candidates_total client b u (rq_parts req) (rq_body req) ip order 0 BAD_GATEWAY Hc) as Ht.
  by destruct (try_candidates _ _ _ _ _ _ _ _ _ _) as [[b' sent] r].
Qed.

Lemma dispatch_total client st loc path req ip :
  no_stalls client -> total (snd (snd (dispatch s hash_ip hash_session client st loc path req ip))).
Proof.
  intros Hc. unfold dispatch. cbv zeta. case_bool_decide; cbn [snd].
  { apply total_bind; [apply total_ok_or|]. intros root _. apply serve_file_total. }
  case_match; [by apply dispatch_proxy_total|]. case_bool_decide; [done|].
  case_bool_decide; cbn [snd].
  { apply total_bind; [apply total_ok_or|]. intros t _. apply redirect_response_total. }
  by case_bool_decide.
Qed.

Lemma process_total client st req ip :
  is_ascii (uri_path (p_uri (rq_parts req))) = true -> ascii_rewrites (uri_path (p_uri (rq_parts req))) ->
  no_stalls client -> total (snd (snd (process s hash_ip hash_session client st req ip))).
Proof.
  intros Ha Hr Hc. unfold process.
  assert (total (let? req := admission s req in rewrite_stage s req)) as Ht.
  { apply total_bind; [by apply admission_total|]. intros req' Hreq. apply rewrite_stage_total.
    apply admit_parts in Hreq. by rewrite Hreq. }
  destruct (res_bind _ _) as [[redirect|[req' path]]|e|]; try done. cbv zeta.
  destruct (find_location s path); [by apply dispatch_total|]. cbn. destruct (hb_root _); [apply serve_file_total|done].
Qed.
End total.

(** ** What a request can contact *)

Section contact.
Context {U : Unicode} {H : HttpLib} {L : HttpLaws H} {N : IpNetLib} {R : RegexLib} {G : GzLib} {F : FileSystem} {M : MaxMindDb}.
Variable block : HttpBlock.
Variable store : bool.
Variable is_tls : bool.
Variable timeouts : TimeoutSettings.
Variable hash_ip : IpAddr -> Z.
Variable hash_session : str -> str -> Z.
Abbreviation s := (service block store is_tls timeouts).

(** A server of a pool of the block, at an address the SSRF policy allows. *)
Definition contactable (addr : str) : Prop :=
  is_upstream_allowed addr (hb_upstream_allowed_networks block) = Ok tt
  /\ exists u server, pool_of block u /\ server ∈ ur_servers u /\ us_address server = addr.

Lemma find_loop_elem ls path best n c :
  find_loop ls path best n = Some c -> c ∈ ls \/ best = Some c.
Proof.
  revert best n. induction ls as [|d ls IH]; intros best n; cbn [find_loop]; [by right|].
  cbv zeta. repeat case_match; intros Hf; try (injection Hf as <-; left; set_solver);
    apply IH in Hf as [Hf|Hf]; try (left; set_solver); try (injection Hf as <-; left; set_solver); by right.
Qed.

Lemma find_location_elem path c : find_location s path = Some c -> cl_location c ∈ hb_locations block.
Proof.
  unfold find_location. intros [Hc|Hc]%find_loop_elem; [|done].
  change (hs_locations s) with (map compile_location (hb_locations block)) in Hc.
  apply list_elem_of_fmap in Hc as (l & -> & Hl). exact Hl.
Qed.

Lemma select_upstream_pool st l ip u :
  l ∈ hb_locations block -> snd (select_upstream s hash_session st (loc_handler l) ip) = Ok u -> pool_of block u.
Proof.
  intros Hl. unfold select_upstream. destruct (h_ab_split (loc_handler l)) as [n|].
  - destruct (st_router st) as [router|]; [|done].
    destruct (AbSplit.resolve hash_session router n (show_ip ip)) as [r g]. cbn [snd].
    destruct (g ≫= split_upstream s n) as [u'|] eqn:Eg; [|done]. intros [= <-]. apply bind_Some in Eg as (gn & _ & Eg).
    unfold split_upstream in Eg. apply bind_Some in Eg as (sp & _ & Eg). apply bind_Some in Eg as (gr & _ & Eg).
    unfold resolve_upstream in Eg. apply find_first_elem in Eg as [Hin _]. by apply pool_shared.
  - cbn [snd]. destruct (h_upstream (loc_handler l)) as [u'|] eqn:Eu.
    + intros [= <-]. by eapply pool_inline.
    + change (hb_upstreams (hs_block s)) with (hb_upstreams block).
      destruct (hb_upstreams block) as [|u' r] eqn:Ep; [done|]. intros [= <-]. apply pool_shared. rewrite Ep. set_solver.
Qed.

Lemma dispatch_contacts client st c path req ip :
  cl_location c ∈ hb_locations block ->
  Forall contactable (fst (snd (dispatch s hash_ip hash_session client st c path req ip))).
Proof.
  intros Hc. unfold dispatch. cbv zeta. case_bool_decide; [by constructor|]. case_match; [|by repeat case_match].
  unfold dispatch_proxy.
  pose proof (select_upstream_pool st (cl_location c) ip) as Hpool.
  destruct (select_upstream _ _ _ _ _) as [st1 [u|e|]]; [|by constructor..]. cbn [snd] in Hpool.
  destruct (Balance.candidates hash_ip (st_balancer st1) u ip) as [b order].
  pose proof (try_candidates_ok s client u (rq_parts req) (rq_body req) ip b order 0 BAD_GATEWAY) as Hok.
  destruct (try_candidates _ _ _ _ _ _ _ _ _ _) as [[b' sent] r]. cbn [fst snd].
  apply Forall_forall. intros a Ha. destruct (failover_contacts _ _ _ _ _ _ _ _ _ _ _ _ Hok Ha) as (i & srv & _ & Hi & <- & Had).
  split; [by apply is_ok_unit in Had|]. exists u, srv. split_and!; [by apply Hpool|by eapply list_elem_of_lookup_2|done].
Qed.

Lemma process_contacts client st req ip :
  let '(_, (sent, _)) := process s hash_ip hash_session client st req ip in
  Forall contactable sent /\ (sent <> [] -> request_ok s req).
Proof.
  unfold process. destruct (admission s req) as [req1|e|] eqn:Ea; cbn [res_bind]; [|by split; [constructor|]..].
  apply admit_ok in Ea as [Hok _].
  destruct (rewrite_stage s req1) as [[redirect|[req2 path]]|e|]; [by split; [constructor|]| |by split; [constructor|]..].
  cbv zeta. destruct (find_location s path) as [c|] eqn:Ef; [|by split; [constructor|]].
  apply find_location_elem in Ef.
  pose proof (dispatch_contacts client st c path
    (mkRequest (set_headers (rq_parts req2) (stamp_geoip s (p_headers (rq_parts req2)) ip)) (rq_body req2)) ip Ef) as Hd.
  destruct (dispatch _ _ _ _ _ _ _ _ _) as [st' [sent r]]. by split.
Qed.

Abbreviation net_ok st := (cache_ok (hs_resolver s) (st_cache st)).

Lemma handle_connect_dials w st p :
  net_ok st ->
  let '(_, _, dialled, tunnel) := handle_connect s st p (w_now w) (w_dns w) (w_stored_at w) (w_connects w) in
  Forall (dialable s p) dialled /\ (forall a, tunnel = Some a -> a ∈ dialled).
Proof.
  intros Hc. pose proof (handle_connect_ok s st p (w_now w) (w_dns w) (w_stored_at w) (w_connects w) Hc eq_refl) as Hok.
  destruct (handle_connect _ _ _ _ _ _ _) as [[[st' r] dialled] tunnel]. destruct Hok as (_ & Hd & Ht).
  split; [done|]. intros a ->. destruct Ht as (_ & failed & -> & _). set_solver.
Qed.

(** C3. Over both entry points, with a vetted DNS cache: a request is only sent to
    servers of its block's own pools whose configured address the SSRF policy allows,
    and only when its headers, framing, URI, body, host and method passed every check;
    only a CONNECT dials besides, at the port of a target the block permits and at
    addresses the policy allows, and it sends nothing to a server; an ACME challenge
    request and an HTTP/3 request dial nothing. *)
Theorem entry_contacts w st p ip :
  net_ok st ->
  (forall body,
     let e := snd (handle s hash_ip hash_session w st p body ip) in
     Forall contactable (ef_sent e)
     /\ (ef_sent e <> [] ->
           p_method p <> CONNECT /\ acme_challenge_response s (w_http01 w) (uri_path (p_uri p)) = None
           /\ in_end body = Complete /\ request_ok s (mkRequest p (in_bytes body)))
     /\ Forall (dialable s p) (ef_dialled e)
     /\ (ef_dialled e <> [] ->
           p_method p = CONNECT /\ acme_challenge_response s (w_http01 w) (uri_path (p_uri p)) = None
           /\ ef_sent e = [])
     /\ (forall a, ef_tunnel e = Some a -> a ∈ ef_dialled e))
  /\ (forall body,
        let e := snd (handle_h3 s hash_ip hash_session w st p body ip) in
        Forall contactable (ef_sent e)
        /\ ef_dialled e = [] /\ ef_tunnel e = None
        /\ (ef_sent e <> [] -> exists p', h3_authority p = Some p' /\ request_ok s (mkRequest p' body))).
Proof.
  intros Hc. split; intros body; cbv zeta.
  - unfold handle. destruct (acme_challenge_response s _ _) as [resp|] eqn:Eacme; [by split_and!; try constructor|].
    case_bool_decide as Em.
    { pose proof (handle_connect_dials w st p Hc) as Hd. destruct (handle_connect _ _ _ _ _ _ _) as [[[st' r] d] t].
      destruct Hd. by split_and!; try constructor. }
    destruct (security_checks s p) as [[]|e|]; [|by split_and!; try constructor..].
    destruct (collect_limited _ _) as [bytes|e|] eqn:Ebody; [|by split_and!; try constructor..].
    apply map_err_ok, collect_ok in Ebody as (Hend & -> & _). unfold handle_collected.
    pose proof (process_contacts (w_client w) st (mkRequest p (in_bytes body)) ip) as Hp.
    destruct (process _ _ _ _ _ _ _) as [st' [sent r]]. cbn [snd ef_sent]. destruct Hp as [H1 H2].
    split_and!; try done. intros Hs. split_and!; auto.
  - unfold handle_h3. destruct (h3_authority p) as [p'|]; [|by split_and!; [constructor|..]].
    unfold handle_collected. pose proof (process_contacts (w_client w) st (mkRequest p' body) ip) as Hp.
    destruct (process _ _ _ _ _ _ _) as [st' [sent r]]. cbn [snd ef_sent ef_tunnel]. destruct Hp as [H1 H2].
    split_and!; [done..|]. intros Hs. exists p'. auto.
Qed.
End contact.

(** ** One response, one log line *)

Section answers.
Context {U : Unicode} {H : HttpLib} {N : IpNetLib} {R : RegexLib} {G : GzLib} {F : FileSystem} {M : MaxMindDb}.
Variable s : HandlerService.
Variable hash_ip : IpAddr -> Z.
Variable hash_session : str -> str -> Z.

(** Answered and logged, and the line says what was answered to whom. *)
Definition answered (p : Parts) (ip : IpAddr) (e : Effects) : Prop :=
  exists r call, ef_response e = Some (r, call)
    /\ lc_status call = r_status r /\ lc_bytes call = Z.of_nat (length (r_body r))
    /\ lc_addr call = show_ip ip /\ lc_method call = method_as_str (p_method p)
    /\ lc_agent call = user_agent (p_headers p).

Lemma answered_logged p ip m target ua r sent dialled t :
  m = p_method p -> ua = user_agent (p_headers p) ->
  answered p ip (mkEffects (logged ip m target ua r) sent dialled t).
Proof. intros -> ->. eexists _, _. split; [reflexivity|]. done. Qed.

Lemma handle_connect_tunnel st p now dns now' connects :
  let '(_, r, _, tunnel) := handle_connect s st p now dns now' connects in
  is_Some tunnel -> r_status r = OK_200.
Proof.
  unfold handle_connect. destruct (negb _); [by intros []|]. destruct (uri_authority _); [|by intros []].
  destruct (split_host_port _) as [host [port|]]; [|by intros []]. destruct (negb _); [by intros []|].
  destruct (vet_target _ _ _ _ _ _ _) as [st' [addrs|]]; [|by intros []].
  destruct (connect_first connects addrs) as [d [a|]]; [|by intros []]. intros _. by rewrite simple_response_status.
Qed.

Lemma handle_collected_answered client st req ip p target dialled tunnel :
  is_ascii (uri_path (p_uri (rq_parts req))) = true -> ascii_rewrites s (uri_path (p_uri (rq_parts req))) ->
  no_stalls client ->
  let '(st', sent, r) := handle_collected s hash_ip hash_session client st req ip in
  answered p ip (mkEffects (r ≫= logged ip (p_method p) target (user_agent (p_headers p))) sent dialled tunnel).
Proof.
  intros Ha Hr Hc. unfold handle_collected.
  pose proof (process_total s hash_ip hash_session client st req ip Ha Hr Hc) as Ht.
  destruct (process _ _ _ _ _ _ _) as [st' [sent r]]. cbn [snd] in Ht.
  destruct r; [by apply answered_logged..|done].
Qed.

(** C11. Every HTTP/1 or HTTP/2 request served by itself whose path, and whose path's
    rewrite if there is one, is ASCII, and whose own body and whose upstreams' bodies
    complete or break off rather than stall, gets exactly one response and one
    access-log line, which names its client, method, user agent, status and body
    length, whatever else the upstreams, the file system, the resolver and the body do;
    and a tunnel is only opened by a CONNECT that is answered 200 and contacts no
    upstream.  (Served by itself: the gauges do not change under the least-conn sort,
    see [Balance.least_conn_race_gap]; each condition is needed, see
    [stalled_request_gap], [Flight.stalled_response_gap] and
    [UriValidate.validate_uri_gaps].) *)
Theorem handle_answers w st p body ip :
  is_ascii (uri_path (p_uri p)) = true -> ascii_rewrites s (uri_path (p_uri p)) ->
  in_end body <> Stalls -> no_stalls (w_client w) ->
  let '(_, e) := handle s hash_ip hash_session w st p body ip in
  answered p ip e
  /\ (is_Some (ef_tunnel e) ->
        p_method p = CONNECT /\ ef_sent e = [] /\ (exists r call, ef_response e = Some (r, call) /\ r_status r = OK_200)).
Proof.
  intros Ha Hr Hbody Hcl. unfold handle. cbv zeta. destruct (acme_challenge_response s _ _) as [resp|].
  { split; [by apply answered_logged|by intros []]. }
  case_bool_decide as Em.
  { pose proof (handle_connect_tunnel st p (w_now w) (w_dns w) (w_stored_at w) (w_connects w)) as Hc.
    destruct (handle_connect _ _ _ _ _ _ _) as [[[st' r] d] t]. split; [by apply answered_logged|].
    intros Ht. split_and!; [done|done|]. eexists _, _. split; [reflexivity|by apply Hc]. }
  pose proof (security_checks_total s p Ha) as Hs. destruct (security_checks s p) as [[]|e|]; [| |done].
  2:{ split; [by apply answered_logged|by intros []]. }
  assert (total (collect_limited (hs_max_body s) body)) as Ht by (by apply total_map_err, collect_total).
  destruct (collect_limited (hs_max_body s) body) as [bytes|e|]; [|split; [by apply answered_logged|by intros []]|done].
  pose proof (handle_collected_answered (w_client w) st (mkRequest p bytes) ip p (uri_path (p_uri p)) [] None Ha Hr Hcl) as Hc.
  destruct (handle_collected _ _ _ _ _ _ _) as [[st' sent] r]. split; [exact Hc|by intros []].
Qed.

(** Nothing bounds how long a request's own body takes ([timeouts.request] ends with the
    head): when it stalls within the body limit, a request that passes the header
    checks is neither answered nor logged. *)
Theorem stalled_request_gap w st p bytes ip :
  acme_challenge_response s (w_http01 w) (uri_path (p_uri p)) = None -> p_method p <> CONNECT ->
  security_checks s p = Ok tt -> Z.of_nat (length bytes) <= hs_max_body s ->
  ef_response (snd (handle s hash_ip hash_session w st p (mkIncoming bytes Stalls) ip)) = None.
Proof.
  intros Ha Hm Hs Hl. unfold handle. cbv zeta. rewrite Ha, bool_decide_eq_false_2, Hs by done.
  unfold collect_limited. by rewrite (proj2 (collect_stalls (hs_max_body s) (mkIncoming bytes Stalls))).
Qed.
End answers.

(** ** Concrete inputs *)

#[local] Existing Instance id_unicode.
#[local] Existing Instance assoc_http.
#[local] Existing Instance cidr_nets.
#[local] Existing Instance literal_regex.
#[local] Existing Instance stored_gz.
#[local] Existing Instance one_file.
#[local] Existing Instance one_country.

(** A client whose upstreams answer 200 with a body. *)
Definition answering : nat -> UpstreamRequest -> Answer :=
  fun _ _ => Answered OK_200 [] (mkIncoming "up" Complete).
Definition answering_world : World := mkWorld ∅ answering None (fun _ => true) 0 0.

(** A block that proxies everything to one server. *)
Definition proxy_block (server : string) (networks : option (list str)) : HttpBlock :=
  mkHttp [] [] None None true false
    [mkLocation "/" "prefix" (Config.mkHandler "proxy" None
       (Some (mkUpstream "u" [mkServer server 1] "round-robin")) None None None)]
    [] None [] "/log" None None true true None None "any" None true false None None None networks
    None None None [] None None None.
Definition one_server : HttpBlock := proxy_block "93.184.216.34:80" None.
Definition one_server_service : HandlerService := service one_server false false TimeoutSettings_default.
Definition one_server_state : State := snd (HandlerService_new one_server false false TimeoutSettings_default).
Definition connect_parts : Parts :=
  mkParts assoc_http CONNECT (mkUri (Some ("93.184.216.34:443" : str)) [] None) HTTP_11 demo_headers.

Lemma handle_answers_witness :
  answered (get "/index.html") client_ip
    (snd (handle one_server_service no_hash_ip no_hash answering_world one_server_state (get "/index.html")
            (mkIncoming [] Complete) client_ip)).
Proof.
  assert (is_ascii (uri_path (p_uri (get "/index.html"))) = true) as Ha by reflexivity.
  assert (ascii_rewrites one_server_service (uri_path (p_uri (get "/index.html")))) as Hr by (intros t Ht; discriminate Ht).
  assert (no_stalls (w_client answering_world)) as Hc by (intros n rq status hs b [= <- <- <-]; discriminate).
  pose proof (handle_answers one_server_service no_hash_ip no_hash answering_world one_server_state (get "/index.html")
    (mkIncoming [] Complete) client_ip Ha Hr ltac:(discriminate) Hc) as Hh.
  destruct (handle _ _ _ _ _ _ _ _) as [st e]. exact (proj1 Hh).
Defined.

Lemma new_cache_ok b store is_tls timeouts :
  cache_ok (hs_resolver (service b store is_tls timeouts)) (st_cache (snd (HandlerService_new b store is_tls timeouts))).
Proof. split; [cbn; rewrite map_size_empty; lia|]. intros h e. cbn. by rewrite lookup_empty. Qed.

(** A proxied request that is sent to the pool's server, and a CONNECT that dials. *)
Lemma entry_contacts_witness :
  Forall (contactable one_server) ["93.184.216.34:80" : str]
  /\ Forall (dialable (service demo_block false true TimeoutSettings_default) connect_parts) [tunnel_address].
Proof.
  split.
  - assert (ef_sent (snd (handle one_server_service no_hash_ip no_hash answering_world one_server_state
      (get "/index.html") (mkIncoming [] Complete) client_ip)) = ["93.184.216.34:80" : str]) as <- by (vm_compute; reflexivity).
    exact (proj1 (proj1 (entry_contacts one_server false false TimeoutSettings_default no_hash_ip no_hash answering_world
      one_server_state (get "/index.html") client_ip (new_cache_ok _ _ _ _)) (mkIncoming [] Complete))).
  - pose (st := snd (HandlerService_new demo_block false true TimeoutSettings_default)).
    assert (ef_dialled (snd (handle (service demo_block false true TimeoutSettings_default) no_hash_ip no_hash
      answering_world st connect_parts (mkIncoming [] Complete) client_ip)) = [tunnel_address]) as <- by (vm_compute; reflexivity).
    exact (proj1 (proj2 (proj2 (proj1 (entry_contacts demo_block false true TimeoutSettings_default no_hash_ip no_hash
      answering_world st connect_parts client_ip (new_cache_ok _ _ _ _)) (mkIncoming [] Complete))))).
Defined.
