(* ===== verification/Flight.v ===== *)
(** * Proxied requests in flight (src/src/handler.rs, [dispatch_proxy])

    [Handler] runs a request without interruption.  Here the requests of a listener
    interleave: a request is cut where it touches the shared balancer or sticky table
    and where it awaits a server, and it may go away at any moment, when it is
    answered or its client leaves.  Theorems: among others a request still ends as the
    failover loop prescribes, and the gauge of a server is always the number of
    requests awaiting it; every request ends unless a response's body stalls. *)

From S2P Require Import Prelude.
From S2P Require Import Str.
From S2P Require Import Net.
From S2P Require Import Extern.
From S2P Require Import Instances.
From S2P Require Import UpstreamFilter.
From S2P Require Import Config.
From S2P Require Import Balance.
From S2P Require Import AbSplit.
From S2P Require Import StaticFile.
From S2P Require Import Geoip.
From S2P Require Import Proxy.
From S2P Require Import Handler.
From S2P Require Import Entry.

Section flight.
Context {U : Unicode} {H : HttpLib} {N : IpNetLib} {R : RegexLib} {G : GzLib} {F : FileSystem} {M : MaxMindDb}.
Variable s : HandlerService.
Variable hash_ip : IpAddr -> Z.
Variable hash_session : str -> str -> Z.

(** A request at a proxy location: [jb_client n] answers its n-th attempt. *)
Record Job : Type := mkJob {
  jb_handler : Config.Handler;
  jb_request : Request;
  jb_ip : IpAddr;
  jb_client : nat -> UpstreamRequest -> Answer;
}.

(** Where it stands; [order] and [rest] are the candidates left, [n] the attempts
    made, [last] the status to give up with. *)
Inductive Stage : Type :=
  | Arrived
  | Ranking (u : UpstreamRef)
  | Trying (u : UpstreamRef) (order : list nat) (n : nat) (last : Z)
  | Awaiting (u : UpstreamRef) (server : UpstreamServer) (inflight : InflightGuard) (rest : list nat) (n : nat)
  | Done (r : res Z Response).

(** [fl_sent]: the servers contacted so far. *)
Record Flight : Type := mkFlight { fl_job : Job; fl_sent : list str; fl_stage : Stage }.

(** The next step of a request on the state it shares with the others. *)
Definition advance (st : State) (f : Flight) : State * Flight :=
  let j := fl_job f in
  let to stage := mkFlight j (fl_sent f) stage in
  match fl_stage f with
  | Arrived =>
      match select_upstream s hash_session st (jb_handler j) (jb_ip j) with
      | (st, Ok u) => (st, to (Ranking u))
      | (st, Err e) => (st, to (Done (Err e)))
      | (st, Never why) => (st, to (Done (Never why)))
      end
  | Ranking u =>
      let '(b, order) := candidates hash_ip (st_balancer st) u (jb_ip j) in
      (set_balancer st b, to (Trying u order 0 BAD_GATEWAY))
  | Trying u [] n last => (st, to (Done (Err last)))
  | Trying u (idx :: rest) n last =>
      match ur_servers u !! idx with
      | None => (st, to (Trying u rest n last))
      | Some server =>
          match is_upstream_allowed (us_address server) (hb_upstream_allowed_networks (hs_block s)) with
          | Ok _ =>
              let '(b, inflight) := track (st_balancer st) u idx in
              (set_balancer st b, mkFlight j (fl_sent f ++ [us_address server]) (Awaiting u server inflight rest n))
          | _ => (st, to (Trying u rest n FORBIDDEN))
          end
      end
  | Awaiting u server inflight rest n =>
      let dropped := set_balancer st (drop_guard (st_balancer st) inflight) in
      match forward (hs_proxy s) (jb_client j n) (us_address server) (rq_parts (jb_request j))
              (rq_body (jb_request j)) (jb_ip j) (hs_scheme s) with
      | Ok resp => (dropped, to (Done (Ok resp)))
      | Err Connect => (dropped, to (Trying u rest (S n) BAD_GATEWAY))
      | Err (Status status) => (dropped, to (Done (Err status)))
      | Panic => (dropped, to (Done Panic))
      | Hang => (st, f)                          (* the response's body stalls: still awaited *)
      end
  | Done _ => (st, f)
  end.

(** The future of a request is dropped: with it the guard it holds. *)
Definition release (st : State) (f : Flight) : State :=
  match fl_stage f with
  | Awaiting _ _ inflight _ _ => set_balancer st (drop_guard (st_balancer st) inflight)
  | _ => st
  end.

(** [k] steps of one request. *)
Definition run_for (k : nat) (st : State) (f : Flight) : State * Flight :=
  Nat.iter k (fun x => advance (fst x) (snd x)) (st, f).

Lemma run_for_S k st f : run_for (S k) st f = run_for k (fst (advance st f)) (snd (advance st f)).
Proof. unfold run_for. rewrite Nat.iter_succ_r. cbn [fst snd]. by destruct (advance st f). Qed.

End flight.

(** ** Among others *)

Section traffic.
Context {U : Unicode} {H : HttpLib} {L : HttpLaws H} {N : IpNetLib} {R : RegexLib} {G : GzLib} {F : FileSystem} {M : MaxMindDb}.
Variable block : HttpBlock.
Variable store is_tls : bool.
Variable timeouts : TimeoutSettings.
Variable hash_ip : IpAddr -> Z.
Variable hash_session : str -> str -> Z.
Abbreviation s := (service block store is_tls timeouts).

Record Traffic : Type := mkTraffic { tr_state : State; tr_flights : list Flight }.

(** A request arrives at a location of the block, one makes a step, or one goes
    away; other requests look hosts up in the meantime. *)
Inductive tstep : Traffic -> Traffic -> Prop :=
  | t_arrive st fs j l :
      l ∈ hb_locations block -> jb_handler j = loc_handler l ->
      tstep (mkTraffic st fs) (mkTraffic st (mkFlight j [] Arrived :: fs))
  | t_advance st st' fs1 f f' fs2 :
      advance s hash_ip hash_session st f = (st', f') ->
      tstep (mkTraffic st (fs1 ++ f :: fs2)) (mkTraffic st' (fs1 ++ f' :: fs2))
  | t_gone st fs1 f fs2 :
      tstep (mkTraffic st (fs1 ++ f :: fs2)) (mkTraffic (release st f) (fs1 ++ fs2))
  | t_cache st cache fs :
      tstep (mkTraffic st fs) (mkTraffic (mkState (st_balancer st) (st_router st) cache) fs).

(** What the failover loop does from somewhere in the middle; the balancer has no
    say in it. *)
Definition outcome (j : Job) (u : UpstreamRef) (order : list nat) (n : nat) (last : Z) : list str * res Z Response :=
  let '(_, sent, r) := try_candidates s (jb_client j) (mkBalancer ∅) u (rq_parts (jb_request j))
                         (rq_body (jb_request j)) (jb_ip j) order n last in
  (sent, r).

Lemma try_candidates_outcome j u b order n last :
  let '(_, sent, r) := try_candidates s (jb_client j) b u (rq_parts (jb_request j)) (rq_body (jb_request j))
                         (jb_ip j) order n last in
  (sent, r) = outcome j u order n last.
Proof.
  unfold outcome. generalize (mkBalancer ∅). intros b0. revert b b0 n last.
  induction order as [|idx rest IH]; intros b b0 n last; cbn [try_candidates]; [done|].
  destruct (ur_servers u !! idx) as [server|]; [|apply IH].
  destruct (is_upstream_allowed (us_address server) _); [|apply IH..].
  destruct (track b u idx) as [b1 g1], (track b0 u idx) as [b2 g2].
  destruct (forward _ _ _ _ _ _ _) as [resp|[|status]|]; try done. cbn [after_attempt].
  specialize (IH (drop_guard b1 g1) (drop_guard b2 g2) (S n) BAD_GATEWAY).
  destruct (try_candidates s (jb_client j) (drop_guard b1 g1) _ _ _ _ _ _ _) as [[b1' c1] r1].
  destruct (try_candidates s (jb_client j) (drop_guard b2 g2) _ _ _ _ _ _ _) as [[b2' c2] r2].
  by injection IH as -> ->.
Qed.

(** After the answer of a server. *)
Definition answered (j : Job) (u : UpstreamRef) (server : UpstreamServer) (rest : list nat) (n : nat) : list str * res Z Response :=
  match forward (hs_proxy s) (jb_client j n) (us_address server) (rq_parts (jb_request j))
          (rq_body (jb_request j)) (jb_ip j) (hs_scheme s) with
  | Ok resp => ([], Ok resp)
  | Err Connect => outcome j u rest (S n) BAD_GATEWAY
  | Err (Status status) => ([], Err status)
  | Never why => ([], Never why)
  end.
Definition after (sent : list str) (o : list str * res Z Response) : list str * res Z Response := (sent ++ fst o, snd o).

(** The loop, unfolded at its head. *)
Lemma outcome_nil j u n last : outcome j u [] n last = ([], Err last).
Proof. done. Qed.

Lemma outcome_cons j u idx rest n last :
  outcome j u (idx :: rest) n last
  = match ur_servers u !! idx with
    | None => outcome j u rest n last
    | Some server =>
        match is_upstream_allowed (us_address server) (hb_upstream_allowed_networks (hs_block s)) with
        | Ok _ => after [us_address server] (answered j u server rest n)
        | _ => outcome j u rest n FORBIDDEN
        end
    end.
Proof.
  unfold outcome at 1. cbn [try_candidates]. destruct (ur_servers u !! idx) as [server|]; [|done].
  destruct (is_upstream_allowed (us_address server) _); [|done..]. destruct (track _ u idx) as [b g].
  unfold answered, after. destruct (forward _ _ _ _ _ _ _) as [resp|[|status]|]; try done.
  pose proof (try_candidates_outcome j u (drop_guard b g) rest (S n) BAD_GATEWAY) as Ho.
  destruct (try_candidates _ _ _ _ _ _ _ _ _ _) as [[b' c] r]. by rewrite <- Ho.
Qed.

(** The plan of a request: a pool of the block and an order of all its servers. *)
Definition plan (j : Job) (u : UpstreamRef) (o : list str * res Z Response) : Prop :=
  pool_of block u /\ exists order, order ≡ₚ seq 0 (length (ur_servers u)) /\ outcome j u order 0 BAD_GATEWAY = o.

(** What every request keeps to. *)
Definition on_course (f : Flight) : Prop :=
  (exists l, l ∈ hb_locations block /\ jb_handler (fl_job f) = loc_handler l)
  /\ match fl_stage f with
     | Arrived => fl_sent f = []
     | Ranking u => fl_sent f = [] /\ pool_of block u
     | Trying u order n last => plan (fl_job f) u (after (fl_sent f) (outcome (fl_job f) u order n last))
     | Awaiting u server inflight rest n =>
         plan (fl_job f) u (after (fl_sent f) (answered (fl_job f) u server rest n))
         /\ ig_pool inflight = Some (ur_name u) /\ ur_servers u !! ig_idx inflight = Some server
     | Done r => (fl_sent f = [] /\ r = Err BAD_GATEWAY) \/ exists u, plan (fl_job f) u (fl_sent f, r)
     end.

Definition guard_of (f : Flight) : option InflightGuard :=
  match fl_stage f with Awaiting _ _ inflight _ _ => Some inflight | _ => None end.
Definition has_pools (b : Balancer) : Prop := forall u, pool_of block u -> is_Some (pools b !! ur_name u).
Definition traffic_ok (t : Traffic) : Prop :=
  gauges_ok (st_balancer (tr_state t), omap guard_of (tr_flights t))
  /\ has_pools (st_balancer (tr_state t)) /\ Forall on_course (tr_flights t).

(** *** The pools stay *)

Lemma pool_of_upstreams u : pool_of block u -> u ∈ block_upstreams block.
Proof.
  unfold block_upstreams. rewrite !elem_of_app, list_elem_of_omap. intros [? ?|l ? ? ?|? Hc]; [by left|right; left; by exists l|].
  right. right. rewrite Hc. set_solver.
Qed.

Lemma new_has_pools : has_pools (Balancer_new block).
Proof.
  intros u Hu%pool_of_upstreams. unfold Balancer_new. cbn [pools]. revert Hu.
  assert (forall us (m : gmap str PoolState), u ∈ us \/ is_Some (m !! ur_name u) ->
    is_Some (foldl add_pool m us !! ur_name u)) as Hf; [|intros Hu; apply Hf; by left].
  induction us as [|v us IH]; intros m Hm; cbn [foldl]; [destruct Hm; [set_solver|done]|]. apply IH.
  unfold add_pool. destruct (m !! ur_name v) eqn:E.
  - destruct Hm as [[->|?]%elem_of_cons|?]; [right; by eexists|by left|by right].
  - rewrite lookup_insert. destruct Hm as [[->|?]%elem_of_cons|?]; [|by left|].
    + right. by rewrite decide_True.
    + right. case_decide; [by eexists|done].
Qed.

Lemma set_pool_keeps b name p : has_pools b -> has_pools (set_pool b name p).
Proof. intros Hb u Hu. rewrite pools_set_pool. case_decide; [by eexists|by apply Hb]. Qed.

Lemma candidates_keeps b u ip : has_pools b -> has_pools (fst (candidates hash_ip b u ip)).
Proof. intros Hb. unfold candidates. repeat case_bool_decide; try done. by apply set_pool_keeps. Qed.

Lemma track_keeps b u idx :
  has_pools b -> pool_of block u ->
  has_pools (fst (track b u idx)) /\ snd (track b u idx) = mkGuard (Some (ur_name u)) idx.
Proof.
  intros Hb Hu. unfold track. destruct (Hb u Hu) as [p Hp]. rewrite Hp. split; [by apply set_pool_keeps|done].
Qed.

Lemma drop_keeps b g : has_pools b -> has_pools (drop_guard b g).
Proof.
  intros Hb. unfold drop_guard. destruct (ig_pool g) as [name|]; [|done].
  destruct (pools b !! name); [by apply set_pool_keeps|done].
Qed.

(** *** A step of one request *)

Lemma after_app a b o : after a (after b o) = after (a ++ b) o.
Proof. unfold after. cbn [fst snd]. by rewrite app_assoc. Qed.

Lemma after_nil o : after [] o = o.
Proof. by destruct o. Qed.

Lemma select_router st h ip : st_balancer (fst (select_upstream s hash_session st h ip)) = st_balancer st.
Proof.
  unfold select_upstream. destruct (h_ab_split h); [|done]. destruct (st_router st) as [r|]; [|done].
  by destruct (AbSplit.resolve _ _ _ _).
Qed.

(** The state after a step: the guards of the others untouched, the request's own
    replaced. *)
Definition steps_well (st : State) (f : Flight) (st' : State) (f' : Flight) : Prop :=
  on_course f' /\ has_pools (st_balancer st')
  /\ (forall gs1 gs2, gauges_ok (st_balancer st, gs1 ++ option_list (guard_of f) ++ gs2) ->
        gauges_ok (st_balancer st', gs1 ++ option_list (guard_of f') ++ gs2)).

Lemma arrived_ok st j f' st' :
  has_pools (st_balancer st) -> on_course (mkFlight j [] Arrived) ->
  advance s hash_ip hash_session st (mkFlight j [] Arrived) = (st', f') ->
  steps_well st (mkFlight j [] Arrived) st' f'.
Proof.
  intros Hb [(l & Hl & Hh) _] Ha. unfold advance in Ha. cbn [fl_job fl_stage fl_sent] in Ha.
  cbn [fl_job] in Hh. pose proof (select_router st (jb_handler j) (jb_ip j)) as Hr.
  pose proof (select_upstream_err s hash_session st (jb_handler j) (jb_ip j)) as Hf.
  pose proof (fun u => select_upstream_pool block store is_tls timeouts hash_ip hash_session st l (jb_ip j) u Hl) as Hp.
  rewrite <- Hh in Hp. destruct (select_upstream _ _ _ _ _) as [st1 [u|e|]]; cbn [fst snd] in *; [..|done];
    injection Ha as <- <-; rewrite <- Hr in Hb; (split_and!; [|done|by rewrite Hr]); (split; [by exists l|]); cbn.
  - split; [done|by apply Hp].
  - left. by subst e.
Qed.

Lemma ranking_ok st j u f' st' :
  has_pools (st_balancer st) -> on_course (mkFlight j [] (Ranking u)) ->
  advance s hash_ip hash_session st (mkFlight j [] (Ranking u)) = (st', f') ->
  steps_well st (mkFlight j [] (Ranking u)) st' f'.
Proof.
  intros Hb [Hl [_ Hu]] Ha. unfold advance in Ha. cbn [fl_job fl_stage fl_sent] in Ha.
  pose proof (candidates_perm hash_ip (st_balancer st) u (jb_ip j)) as Hperm.
  pose proof (candidates_keeps (st_balancer st) u (jb_ip j) Hb) as Hk.
  pose proof (fun gs Hg => gauges_step hash_ip _ _ Hg (bs_candidates hash_ip (st_balancer st) gs u (jb_ip j))) as Hg.
  destruct (candidates hash_ip (st_balancer st) u (jb_ip j)) as [b order]. cbn [fst snd] in *. injection Ha as <- <-.
  split_and!; [|done|intros gs1 gs2; apply Hg]. split; [done|]. cbn. split; [done|].
  exists order. by rewrite after_nil.
Qed.

Lemma trying_ok st j sent u order n last f' st' :
  has_pools (st_balancer st) -> on_course (mkFlight j sent (Trying u order n last)) ->
  advance s hash_ip hash_session st (mkFlight j sent (Trying u order n last)) = (st', f') ->
  steps_well st (mkFlight j sent (Trying u order n last)) st' f'.
Proof.
  intros Hb [Hl Hp] Ha. unfold advance in Ha. cbn [fl_job fl_stage fl_sent] in Ha, Hp.
  destruct order as [|idx rest].
  { injection Ha as <- <-. split_and!; [|done|by intros]. split; [done|]. cbn. right. exists u.
    unfold after in Hp. rewrite outcome_nil in Hp. cbn [fst snd] in Hp. by rewrite app_nil_r in Hp. }
  rewrite outcome_cons in Hp. destruct (ur_servers u !! idx) as [server|] eqn:Ei.
  2:{ injection Ha as <- <-. split_and!; [|done|by intros]. by split. }
  destruct (is_upstream_allowed (us_address server) _) as [[]|e|].
  2-3: injection Ha as <- <-; (split_and!; [|done|by intros]); by split.
  destruct (track_keeps (st_balancer st) u idx Hb (proj1 Hp)) as [Hk Hg].
  pose proof (fun gs Hok => gauges_step hash_ip _ _ Hok (bs_track hash_ip (st_balancer st) gs u idx)) as Hs.
  destruct (track (st_balancer st) u idx) as [b g]. cbn [fst snd] in *. injection Ha as <- <-. split_and!; [|done|].
  - split; [done|]. cbn. rewrite <- after_app. subst g. by split_and!.
  - intros gs1 gs2 Hok. cbn in Hok |- *. refine (gauges_perm _ _ _ _ (Hs _ Hok)). apply Permutation_middle.
Qed.

Lemma awaiting_ok st j sent u server g rest n f' st' :
  has_pools (st_balancer st) -> on_course (mkFlight j sent (Awaiting u server g rest n)) ->
  advance s hash_ip hash_session st (mkFlight j sent (Awaiting u server g rest n)) = (st', f') ->
  steps_well st (mkFlight j sent (Awaiting u server g rest n)) st' f'.
Proof.
  intros Hb [Hl Hkeep] Ha. unfold advance in Ha. cbn [fl_job fl_stage fl_sent] in Ha, Hkeep. pose proof (proj1 Hkeep) as Hp.
  unfold answered, after in Hp. unfold steps_well.
  destruct (forward _ _ _ _ _ _ _) as [resp|[|status]|[]]; injection Ha as <- <-; cbn [fst snd] in Hp;
    rewrite ?app_nil_r in Hp; try (split_and!; [split; [done|]|by apply drop_keeps|
       intros gs1 gs2 Hok; cbn in Hok |- *; by apply (gauges_step hash_ip _ _ Hok), bs_drop]); cbn.
  - right. by exists u.
  - done.
  - right. by exists u.
  - right. by exists u.
  - split_and!; [|done..]. split; [done|]. exact Hkeep.
Qed.

Lemma advance_ok st f st' f' :
  has_pools (st_balancer st) -> on_course f -> advance s hash_ip hash_session st f = (st', f') -> steps_well st f st' f'.
Proof.
  intros Hb Hf Ha. destruct f as [j sent [|u|u order n last|u server g rest n|r]].
  - assert (sent = []) as -> by apply Hf. by apply arrived_ok.
  - assert (sent = []) as -> by apply Hf. by apply ranking_ok.
  - by apply trying_ok.
  - by apply awaiting_ok.
  - cbn in Ha. injection Ha as <- <-. by split_and!.
Qed.

Lemma tstep_ok t t' : traffic_ok t -> tstep t t' -> traffic_ok t'.
Proof.
  intros (Hg & Hb & Hf) Hs. destruct Hs as [st fs j l Hl Hj|st st' fs1 f f' fs2 Ha|st fs1 f fs2|st cache fs];
    cbn [tr_state tr_flights] in *.
  - split_and!; [done..|]. constructor; [|done]. split; [by exists l|done].
  - apply Forall_app in Hf as [H1 H2]. apply Forall_cons in H2 as [Hx H2].
    destruct (advance_ok _ _ _ _ Hb Hx Ha) as (Hx' & Hb' & Hg'). rewrite omap_app in Hg. split_and!; [|done|].
    + unfold traffic_ok. cbn [tr_state tr_flights]. rewrite omap_app.
      specialize (Hg' (omap guard_of fs1) (omap guard_of fs2)). cbn [omap list_omap] in Hg |- *.
      destruct (guard_of f), (guard_of f'); by apply Hg'.
    + apply Forall_app. split; [done|by constructor].
  - apply Forall_app in Hf as [H1 H2]. apply Forall_cons in H2 as [Hx H2]. rewrite omap_app in Hg. cbn [omap list_omap] in Hg.
    assert (Forall on_course (fs1 ++ fs2)) as Hf' by (by apply Forall_app).
    unfold release, guard_of in *. unfold traffic_ok. cbn [tr_state tr_flights]. rewrite omap_app.
    destruct (fl_stage f) as [| | |u server g rest n|]; try by split_and!.
    split_and!; [|by apply drop_keeps|done]. by apply (gauges_step hash_ip _ _ Hg), bs_drop.
  - by split_and!.
Qed.

(** The requests awaiting the answer of a server. *)
Definition awaiting (name : str) (i : nat) (f : Flight) : Prop :=
  match fl_stage f with
  | Awaiting u _ inflight _ _ => ur_name u = name /\ ig_idx inflight = i
  | _ => False
  end.
#[global] Instance awaiting_dec name i f : Decision (awaiting name i f).
Proof. unfold awaiting. destruct (fl_stage f); apply _. Defined.

Lemma live_awaiting name i fs :
  Forall on_course fs -> live name i (omap guard_of fs) = Z.of_nat (length (filter (awaiting name i) fs)).
Proof.
  induction 1 as [|f fs Hf _ IH]; [done|]. cbn [omap list_omap]. rewrite filter_cons.
  destruct Hf as [_ Hf]. destruct f as [j sent [|u|u order n last|u server g rest n|r]]; cbn [guard_of fl_stage] in *;
    try (rewrite decide_False by (by intros []); exact IH).
  destruct Hf as (_ & Hp & _). rewrite live_cons, IH. unfold counts_for. rewrite Hp.
  destruct (decide (awaiting name i _)) as [[-> ->]|Hn].
  - rewrite decide_True by done. cbn [length]. lia.
  - rewrite decide_False; [lia|]. intros [[= ?] ?]. by apply Hn.
Qed.

Definition idle (router : option AbSplitRouter) : Traffic := mkTraffic (mkState (Balancer_new block) router ∅) [].

(** A request alone, as traffic. *)
Lemma run_steps k st f :
  rtc tstep (mkTraffic st [f])
    (mkTraffic (fst (run_for s hash_ip hash_session k st f)) [snd (run_for s hash_ip hash_session k st f)]).
Proof.
  revert st f. induction k as [|k IH]; intros st f; [apply rtc_refl|]. rewrite run_for_S.
  eapply rtc_l; [|apply IH]. apply (t_advance st _ [] f _ []). by destruct (advance _ _ _ st f).
Qed.

(** What an ended request went through, and what a gauge shows. *)
Definition ended_well (f : Flight) : Prop :=
  forall r, fl_stage f = Done r ->
    (fl_sent f = [] /\ r = Err BAD_GATEWAY)
    \/ exists u order, pool_of block u /\ order ≡ₚ seq 0 (length (ur_servers u))
         /\ failover_ok s (jb_client (fl_job f)) u (rq_parts (jb_request (fl_job f))) (rq_body (jb_request (fl_job f)))
              (jb_ip (fl_job f)) 0 order BAD_GATEWAY (fl_sent f) r.

Lemma ok_ended t f : traffic_ok t -> f ∈ tr_flights t -> ended_well f.
Proof.
  intros (_ & _ & Hf) Hin r Hd. rewrite Forall_forall in Hf. destruct (Hf f Hin) as [_ Hc]. rewrite Hd in Hc.
  destruct Hc as [?|(u & Hu & order & Hperm & Ho)]; [by left|right]. exists u, order. split_and!; [done..|].
  pose proof (try_candidates_ok s (jb_client (fl_job f)) u (rq_parts (jb_request (fl_job f)))
    (rq_body (jb_request (fl_job f))) (jb_ip (fl_job f)) (mkBalancer ∅) order 0 BAD_GATEWAY) as Hok.
  unfold outcome in Ho. destruct (try_candidates _ _ _ _ _ _ _ _ _ _) as [[b sent] r']. by injection Ho as <- <-.
Qed.

Lemma ok_gauge t name p i v :
  traffic_ok t -> Z.of_nat (length (tr_flights t)) < 2 ^ 64 ->
  pools (st_balancer (tr_state t)) !! name = Some p -> inflight p !! i = Some v ->
  v = Z.of_nat (length (filter (awaiting name i) (tr_flights t))).
Proof.
  intros (Hg & _ & Hf) Hlen Hp Hv. rewrite (Hg name p i v Hp Hv). cbn [snd]. rewrite live_awaiting by done.
  apply Z.mod_small. assert (length (filter (awaiting name i) (tr_flights t)) <= length (tr_flights t))%nat by apply length_filter. lia.
Qed.

Lemma idle_ok router : traffic_ok (idle router).
Proof. split_and!; [apply new_gauges_ok|apply new_has_pools|constructor]. Qed.

(** *** Every request ends *)

(** The largest pool of the block. *)
Definition largest_pool : nat := max_list_with (fun u => length (ur_servers u)) (block_upstreams block).

(** At most this many steps are left to a request. *)
Definition flight_work (f : Flight) : nat :=
  match fl_stage f with
  | Arrived => 2 * largest_pool + 3
  | Ranking u => 2 * length (ur_servers u) + 2
  | Trying _ order _ _ => 2 * length order + 1
  | Awaiting _ _ _ rest _ => 2 * length rest + 2
  | Done _ => 0
  end.

Definition in_block (f : Flight) : Prop :=
  (exists l, l ∈ hb_locations block /\ jb_handler (fl_job f) = loc_handler l)
  /\ match fl_stage f with
     | Ranking u => pool_of block u
     | Trying _ order _ _ => (length order <= largest_pool)%nat
     | Awaiting _ _ _ rest _ => (length rest <= largest_pool)%nat
     | Arrived | Done _ => True
     end.

Lemma pool_size u : pool_of block u -> (length (ur_servers u) <= largest_pool)%nat.
Proof.
  intros Hu%pool_of_upstreams. unfold largest_pool. induction (block_upstreams block) as [|v l IH]; [by apply not_elem_of_nil in Hu|].
  cbn [max_list_with]. apply elem_of_cons in Hu as [->|Hu]; [lia|specialize (IH Hu); lia].
Qed.

Lemma in_block_work f : in_block f -> (flight_work f <= 2 * largest_pool + 3)%nat.
Proof.
  intros [_ Hf]. unfold flight_work. destruct (fl_stage f) as [|u|? order|? ? ? rest|]; try lia.
  pose proof (pool_size u Hf). lia.
Qed.

(** Whatever the state it finds, a step brings a request closer to its end, as long as
    no body it is answered stalls. *)
Lemma advance_works st f :
  in_block f ->
  let f' := snd (advance s hash_ip hash_session st f) in
  in_block f' /\ fl_job f' = fl_job f
  /\ (no_stalls (jb_client (fl_job f)) -> (flight_work f' <= Nat.pred (flight_work f))%nat).
Proof.
  destruct f as [j sent stage]. intros [(l & Hl & Hj) Hs]. unfold advance, in_block, flight_work in *. cbn [fl_job fl_stage fl_sent] in *.
  assert (exists l, l ∈ hb_locations block /\ jb_handler j = loc_handler l) as Hx by by exists l.
  destruct stage as [|u|u [|idx rest] n last|u server g rest n|r].
  - pose proof (fun u => select_upstream_pool block store is_tls timeouts hash_ip hash_session st l (jb_ip j) u Hl) as Hp.
    rewrite <- Hj in Hp. destruct (select_upstream _ _ _ _ _) as [st1 [u|e|]]; cbn [snd fst fl_job fl_stage] in *;
      (split_and!; [by auto..|]); intros _; [|lia..].
    pose proof (pool_size u (Hp u eq_refl)). lia.
  - pose proof (Permutation_length (candidates_perm hash_ip (st_balancer st) u (jb_ip j))) as Hperm. rewrite length_seq in Hperm.
    pose proof (pool_size u Hs). destruct (candidates hash_ip (st_balancer st) u (jb_ip j)) as [b order]. cbn [snd fl_job fl_stage] in *.
    split_and!; [done|lia|done|lia].
  - cbn [snd fl_job fl_stage]. split_and!; [done..|lia].
  - cbn [length] in Hs |- *. destruct (ur_servers u !! idx) as [server|]; [|cbn [snd fl_job fl_stage]; split_and!; [done|lia|done|lia]].
    destruct (is_upstream_allowed _ _) as [[]|e|]; [destruct (track _ _ _)|..]; cbn [snd fl_job fl_stage]; split_and!; done || lia.
  - pose proof (fun Hc => forward_total (hs_proxy s) (jb_client j) n (us_address server) (rq_parts (jb_request j))
      (rq_body (jb_request j)) (jb_ip j) (hs_scheme s) Hc) as Ht.
    destruct (forward _ _ _ _ _ _ _) as [resp|[|status]|[]]; cbn [snd fl_job fl_stage]; split_and!; try done; try lia.
    by intros []%Ht.
  - by split_and!.
Qed.

Lemma tstep_in_block t t' : Forall in_block (tr_flights t) -> tstep t t' -> Forall in_block (tr_flights t').
Proof.
  intros Hf Hs. destruct Hs as [st fs j l Hl Hj|st st' fs1 f f' fs2 Ha|st fs1 f fs2|st cache fs]; cbn [tr_flights] in *; try done.
  - constructor; [|done]. split; [by exists l|done].
  - apply Forall_app in Hf as [H1 H2]. apply Forall_cons in H2 as [Hx H2]. apply Forall_app. split; [done|]. constructor; [|done].
    pose proof (proj1 (advance_works st f Hx)) as Hw. by rewrite Ha in Hw.
  - apply Forall_app in Hf as [H1 H2]. apply Forall_cons in H2 as [_ H2]. by apply Forall_app.
Qed.

(** The steps of one request, with the states it finds at each of them. *)
Fixpoint among (sts : list State) (f : Flight) : Flight :=
  match sts with [] => f | st :: r => among r (snd (advance s hash_ip hash_session st f)) end.

Lemma among_work sts f :
  in_block f -> no_stalls (jb_client (fl_job f)) -> (flight_work (among sts f) <= flight_work f - length sts)%nat.
Proof.
  revert f. induction sts as [|st sts IH]; intros f Hf Hc; cbn [among length]; [lia|].
  destruct (advance_works st f Hf) as (Hf' & Hj & Hw). specialize (Hw Hc). rewrite <- Hj in Hc. specialize (IH _ Hf' Hc). lia.
Qed.

Lemma in_block_ends sts f :
  in_block f -> no_stalls (jb_client (fl_job f)) -> (2 * largest_pool + 3 <= length sts)%nat ->
  exists r, fl_stage (among sts f) = Done r.
Proof.
  intros Hf Hc Hlen. pose proof (among_work sts f Hf Hc) as Hw. pose proof (in_block_work f Hf) as Hb.
  assert (flight_work (among sts f) = 0%nat) as H0 by lia. revert H0. unfold flight_work.
  destruct (fl_stage (among sts f)) as [| | | |r]; try lia. by exists r.
Qed.

(** C15. Whatever the other requests do, and whatever state they leave it to find, a
    request at a proxy location whose servers' response bodies complete or break off
    has ended after at most two steps for each server of the largest pool of the block
    and three more of its own (a body that stalls is awaited for ever, see
    [stalled_response_gap]). *)
Theorem requests_end router t f sts :
  rtc tstep (idle router) t -> f ∈ tr_flights t -> no_stalls (jb_client (fl_job f)) ->
  (2 * largest_pool + 3 <= length sts)%nat ->
  exists r, fl_stage (among sts f) = Done r.
Proof.
  intros Hr Hin. apply in_block_ends. assert (Forall in_block (tr_flights t)) as Hf; [|by apply (proj1 (Forall_forall _ _) Hf)].
  assert (Forall in_block (tr_flights (idle router))) as H0 by constructor. revert H0. clear Hin.
  induction Hr; eauto using tstep_in_block.
Qed.
End traffic.

(** ** A concrete request *)

#[local] Existing Instance id_unicode.
#[local] Existing Instance assoc_http.
#[local] Existing Instance cidr_nets.
#[local] Existing Instance literal_regex.
#[local] Existing Instance stored_gz.
#[local] Existing Instance one_file.
#[local] Existing Instance one_country.

(** A block that balances over two servers; the request awaits the first. *)
Definition pool_location : Location :=
  mkLocation "/" "prefix" (Config.mkHandler "proxy" None (Some (mkUpstream "u"
    [mkServer "93.184.216.34:80" 1; mkServer "93.184.216.35:80" 1] "round-robin")) None None None).
Definition pool_block : HttpBlock :=
  mkHttp [] [] None None true false [pool_location] [] None [] "/log" None None true true None None "any" None true
    false None None None None None None None [] None None None.
Definition demo_job : Job :=
  mkJob (loc_handler pool_location) (mkRequest (get "/a") []) client_ip (fun _ _ => Elapsed).
Definition demo_start : State := tr_state (idle pool_block None).
Definition demo_flight (k : nat) : State * Flight :=
  run_for (service pool_block false false TimeoutSettings_default) no_hash_ip no_hash k demo_start
    (mkFlight demo_job [] Arrived).


(** Seven steps are enough over two servers, here both silent: 504. *)
Lemma requests_end_witness :
  exists r, fl_stage (among pool_block false false TimeoutSettings_default no_hash_ip no_hash (replicate 7 demo_start)
                        (mkFlight demo_job [] Arrived)) = Done r.
Proof.
  apply (requests_end pool_block false false TimeoutSettings_default no_hash_ip no_hash None
    (mkTraffic demo_start [mkFlight demo_job [] Arrived])).
  - apply rtc_once.
    apply (t_arrive pool_block false false TimeoutSettings_default no_hash_ip no_hash demo_start [] demo_job pool_location);
      [by left|reflexivity].
  - by left.
  - intros m rq status hs b E. discriminate E.
  - cbn. lia.
Defined.

(** A server that answers with a head and then stalls: however many more steps the
    request is given, it still awaits the first server, whose gauge still counts it. *)
Definition stalled_job : Job :=
  mkJob (loc_handler pool_location) (mkRequest (get "/a") []) client_ip
    (fun _ _ => Answered OK_200 [] (mkIncoming "half" Stalls)).
Definition stalled_flight (k : nat) : State * Flight :=
  run_for (service pool_block false false TimeoutSettings_default) no_hash_ip no_hash k demo_start
    (mkFlight stalled_job [] Arrived).
Theorem stalled_response_gap k :
  let '(st, f) := stalled_flight (3 + k) in
  option_map inflight (pools (st_balancer st) !! ("u" : str)) = Some [1; 0] /\ awaiting "u" 0 f.
Proof.
  assert (stalled_flight (3 + k) = stalled_flight 3) as ->; [|vm_compute; done].
  induction k as [|k IH]; [done|]. rewrite Nat.add_succ_r. unfold stalled_flight, run_for in *.
  rewrite Nat.iter_succ, IH. vm_compute. reflexivity.
Qed.
