(* ===== verification/Dial.v ===== *)
(** * The pooled client on the network (src/src/proxy.rs, resolver.rs)

    A handler vets the configured address of a server, the client's connector asks
    the pinning resolver for the addresses of its host, unless the host is an IP
    literal, and connections are pooled.  The client is hyper's: an interface with its
    documented behaviour.  The steps are the lookups of the resolver, the requests
    of an [http] block over both entry points, and the client's work on each server
    they contact, interleaved.  Theorem: whatever a block is asked to do, every
    address it dials, reuses or tunnels to is one its SSRF policy admits, when the
    servers are configured as plain host:port.  Gap: with user information in a
    server's address, a restricted literal is dialled. *)

From S2P Require Import Prelude.
From S2P Require Import Str.
From S2P Require Import Net.
From S2P Require Import Extern.
From S2P Require Import Instances.
From S2P Require Import UpstreamFilter.
From S2P Require Import Config.
From S2P Require Import Headers.
From S2P Require Import Balance.
From S2P Require Import Resolver.
From S2P Require Import StaticFile.
From S2P Require Import Geoip.
From S2P Require Import Proxy.
From S2P Require Import Handler.
From S2P Require Import Entry.

(** ** The client and its connector *)

(** The host of an authority (RFC 3986, 3.2): after the user information and before
    the port, an IPv6 literal without its brackets. *)
Definition host_of (authority : str) : str :=
  let a := match rsplit_once authority "@" with Some (_, a) => a | None => authority end in
  match strip_prefix "[" a with
  | Some rest => match find_char rest "]" with Some e => take e rest | None => a end
  | None => match find_char a ":" with Some i => take i a | None => a end
  end.

(** [hyper_util::client::legacy::Client] over [HttpConnector].  [idle]: the peers of
    the connections kept for an authority.  [client_request]: given what the resolver
    answers for the host and which addresses accept, the pool after, the addresses
    dialled, and the peer the request was sent to. *)
Class HyperClient : Type := {
  Pool : Type;
  pool_new : Pool;
  idle : Pool -> str -> list SocketAddr;
  client_request :
    Pool -> str -> option (list SocketAddr) -> (SocketAddr -> bool)
    -> Pool * list SocketAddr * option SocketAddr;
}.

(** What its documentation says: a literal host is dialled as it is, any other at the
    resolver's answers; a request goes over a connection dialled for it or kept
    for its authority; a connection is kept under the authority it was dialled for. *)
Class HyperLaws (C : HyperClient) : Prop := {
  pool_new_idle : forall a, idle pool_new a = [];
  request_dials : forall p a answer connects p' dialled peer sa,
    client_request p a answer connects = (p', dialled, peer) -> sa ∈ dialled ->
    match parse_ip (host_of a) with
    | Some ip => sa_ip sa = ip
    | None => exists addrs vetted, answer = Some addrs /\ vetted ∈ addrs /\ sa_ip vetted = sa_ip sa
    end;
  request_peer : forall p a answer connects p' dialled sa,
    client_request p a answer connects = (p', dialled, Some sa) -> sa ∈ dialled \/ sa ∈ idle p a;
  request_idle : forall p a answer connects p' dialled peer b sa,
    client_request p a answer connects = (p', dialled, peer) -> sa ∈ idle p' b ->
    sa ∈ idle p b \/ (b = a /\ sa ∈ dialled);
}.

(** Where the authority of an http URI ends, as RFC 3986 has it. *)
Class UriLaws (H : HttpLib) : Prop := {
  parse_authority : forall authority target u,
    existsb ends_authority authority = false -> (exists c t, target = c :: t /\ ends_authority c = true) ->
    Uri_parse ("http://" ++ authority ++ target) = Some u -> uri_authority u = Some authority;
}.

(** ** A plain server address

    host, host:port, [v6] or [v6]:port with nothing else in it; what both the literal
    gate and the connector take for the host. *)

Definition plain (addr : str) : bool :=
  negb (existsb ends_authority addr) && negb (contains_char addr "@")
  && (if starts_with addr "[" then contains_char addr "]"
      else (count_char addr ":" =? 0)%nat || bool_decide (is_Some (snd (split_host_port addr)))).

Lemma plain_host addr : plain addr = true -> host_of addr = fst (split_host_port addr).
Proof.
  unfold plain, host_of, split_host_port. intros Hp. apply andb_true_iff in Hp as [Hp Hh].
  apply andb_true_iff in Hp as [_ Hat]. apply negb_true_iff, contains_char_false in Hat.
  apply rsplit_once_None in Hat as ->. unfold starts_with in Hh.
  destruct (strip_prefix "[" addr) as [rest|] eqn:Eb.
  - by destruct (find_char rest "]").
  - destruct (decide (count_char addr ":" = 0%nat)) as [E0|E0].
    + rewrite bool_decide_eq_false_2 by lia. apply count_char_0 in E0.
      rewrite (proj2 (find_char_None _ _) E0). by rewrite (proj2 (rsplit_once_None _ _) E0).
    + rewrite (proj2 (Nat.eqb_neq _ _) E0) in Hh. cbn [orb] in Hh. apply bool_decide_eq_true in Hh.
      case_bool_decide as E1; cbn [snd] in Hh; [by destruct Hh|].
      destruct (rsplit_once addr ":") as [[h port]|] eqn:Er; cbn [snd] in Hh; [|by destruct Hh].
      destruct (parse_uint U16_MAX port); cbn [snd] in Hh; [|by destruct Hh]. cbn [fst].
      apply rsplit_once_Some in Er as [-> Hport].
      assert (":"%char ∉ h) as Hn.
      { apply count_char_0. rewrite count_char_app in E1.
        assert (count_char (":"%char :: port) ":" = S (count_char port ":")) as Hc by done. lia. }
      assert (find_char (h ++ ":"%char :: port) ":" = Some (length h)) as ->.
      { apply find_char_Some. by exists h, port. }
      by rewrite take_app_length.
Qed.

(** ** The steps of a block's traffic *)

Section net.
Context {U : Unicode} {H : HttpLib} {HL : HttpLaws H} {UL : UriLaws H} {N : IpNetLib} {R : RegexLib}.
Context {G : GzLib} {F : FileSystem} {M : MaxMindDb} {C : HyperClient} {CL : HyperLaws C}.
Variable block : HttpBlock.
Variable store is_tls : bool.
Variable timeouts : TimeoutSettings.
Variable hash_ip : IpAddr -> Z.
Variable hash_session : str -> str -> Z.
Abbreviation s := (service block store is_tls timeouts).
Abbreviation nets := (parse_networks (hb_upstream_allowed_networks block)).

(** A connection made or reused for a server: its configured address, the target of
    the request, the peer. *)
Record Connection : Type := mkConnection { cn_server : str; cn_target : str; cn_peer : SocketAddr }.

(** [n_contacted]: the servers contacted whose client call has not run yet;
    [n_tunnels]: the addresses dialled for a CONNECT, that of its tunnel the last. *)
Record NetState : Type := mkNet {
  n_resolver : RState;
  n_pool : Pool;
  n_contacted : list str;
  n_connections : list Connection;
  n_tunnels : list SocketAddr;
}.
Definition net_new : NetState := mkNet (mkRState ∅ [] []) pool_new [] [] [].

Definition target_of (p : Parts) : str := default ("/" : str) (uri_path_and_query (p_uri p)).

(** The effects of a handled request, with the cache it left. *)
Definition handled (n : NetState) (st : State) (e : Effects) : NetState :=
  mkNet (mkRState (st_cache st) (rs_pending (n_resolver n)) (rs_results (n_resolver n))) (n_pool n)
    (ef_sent e ++ n_contacted n) (n_connections n) (ef_dialled e ++ n_tunnels n).

Inductive nstep : NetState -> NetState -> Prop :=
  | n_lookup n rs :
      rstep (hs_resolver s) (n_resolver n) rs ->
      nstep n (mkNet rs (n_pool n) (n_contacted n) (n_connections n) (n_tunnels n))
  | n_handle n w st p body ip st' e :
      st_cache st = rs_cache (n_resolver n) ->
      handle s hash_ip hash_session w st p body ip = (st', e) ->
      nstep n (handled n st' e)
  | n_handle_h3 n w st p body ip st' e :
      st_cache st = rs_cache (n_resolver n) ->
      handle_h3 s hash_ip hash_session w st p body ip = (st', e) ->
      nstep n (handled n st' e)
  | n_request n c1 addr c2 p body ip scheme rq authority answer connects pool' dialled peer :
      n_contacted n = c1 ++ addr :: c2 ->
      build_request (hs_proxy s) addr p body ip scheme = Ok rq ->
      uri_authority (p_uri (ureq_parts rq)) = Some authority ->
      (forall addrs, answer = Some addrs -> (host_of authority, Ok addrs) ∈ rs_results (n_resolver n)) ->
      client_request (n_pool n) authority answer connects = (pool', dialled, peer) ->
      nstep n (mkNet (n_resolver n) pool' (c1 ++ c2)
                 (map (mkConnection addr (target_of p)) (dialled ++ option_list peer) ++ n_connections n)
                 (n_tunnels n)).

(** ** What a handled request may lead to *)

Lemma process_cache client st req ip :
  st_cache (fst (process s hash_ip hash_session client st req ip)) = st_cache st.
Proof.
  unfold process. destruct (res_bind _ _) as [[redirect|[req' path]]|e|]; [done| |done..]. cbv zeta.
  destruct (find_location s path) as [c|]; [|done].
  unfold dispatch. cbv zeta. case_bool_decide; [done|]. case_match; [|by repeat case_match].
  unfold dispatch_proxy, select_upstream. destruct (h_ab_split _); [destruct (st_router st)|].
  - destruct (AbSplit.resolve _ _ _ _) as [r g]. destruct (ok_or _ _); [|done..].
    destruct (candidates _ _ _ _) as [b order]. by destruct (try_candidates _ _ _ _ _ _ _ _ _ _) as [[b' sent] o].
  - done.
  - destruct (match h_upstream _ with Some _ => _ | None => _ end); [|done..].
    destruct (candidates _ _ _ _) as [b order]. by destruct (try_candidates _ _ _ _ _ _ _ _ _ _) as [[b' sent] o].
Qed.

Definition harmless (st : State) (e : Effects) : Prop :=
  cache_ok (hs_resolver s) (st_cache st) /\ Forall (contactable block) (ef_sent e)
  /\ Forall (fun sa => ip_allowed (sa_ip sa) nets = true) (ef_dialled e).

Lemma quiet_harmless st o : cache_ok (hs_resolver s) (st_cache st) -> harmless st (mkEffects o [] [] None).
Proof. intros Hc. by split_and!; [|constructor..]. Qed.

Lemma connect_harmless st p now dns now' connects o :
  cache_ok (hs_resolver s) (st_cache st) ->
  let '(st', _, dialled, tunnel) := handle_connect s st p now dns now' connects in
  harmless st' (mkEffects o [] dialled tunnel).
Proof.
  intros Hc. pose proof (handle_connect_ok s st p now dns now' connects Hc eq_refl) as Hok.
  destruct (handle_connect _ _ _ _ _ _ _) as [[[st' r] dialled] tunnel]. destruct Hok as (Hc' & Hd & _).
  split_and!; [done|constructor|]. eapply Forall_impl; [exact Hd|]. intros sa Hsa. exact (proj1 (proj2 Hsa)).
Qed.

Lemma collected_harmless client st req ip target m ua :
  cache_ok (hs_resolver s) (st_cache st) ->
  let '(st', sent, r) := handle_collected s hash_ip hash_session client st req ip in
  harmless st' (mkEffects (r ≫= logged ip m target ua) sent [] None).
Proof.
  intros Hc. unfold handle_collected. pose proof (process_cache client st req ip) as Hst.
  pose proof (process_contacts block store is_tls timeouts hash_ip hash_session client st req ip) as Hp.
  destruct (process _ _ _ _ _ _ _) as [st' [sent r]]. cbn [fst] in Hst. rewrite <- Hst in Hc.
  by split_and!; [|apply Hp|constructor].
Qed.

Lemma handle_harmless w st p body ip :
  cache_ok (hs_resolver s) (st_cache st) ->
  let '(st', e) := handle s hash_ip hash_session w st p body ip in harmless st' e.
Proof.
  intros Hc. unfold handle. destruct (acme_challenge_response s _ _); [by apply quiet_harmless|].
  case_bool_decide.
  { pose proof (connect_harmless st p (w_now w) (w_dns w) (w_stored_at w) (w_connects w)) as Hh.
    destruct (handle_connect _ _ _ _ _ _ _) as [[[st' r] d] t]. by apply Hh. }
  destruct (security_checks s p) as [[]|e|]; [|by apply quiet_harmless..].
  destruct (collect_limited _ _) as [bytes|e|]; [|by apply quiet_harmless..].
  pose proof (collected_harmless (w_client w) st (mkRequest p bytes) ip (uri_path (p_uri p)) (p_method p)
    (user_agent (p_headers p)) Hc) as Hh.
  by destruct (handle_collected _ _ _ _ _ _ _) as [[st' sent] r].
Qed.

Lemma handle_h3_harmless w st p body ip :
  cache_ok (hs_resolver s) (st_cache st) ->
  let '(st', e) := handle_h3 s hash_ip hash_session w st p body ip in harmless st' e.
Proof.
  intros Hc. unfold handle_h3. destruct (h3_authority p) as [p'|]; [|by apply quiet_harmless].
  pose proof (collected_harmless (w_client w) st (mkRequest p' body) ip (uri_path (p_uri p)) (p_method p)
    (user_agent (p_headers p)) Hc) as Hh.
  by destruct (handle_collected _ _ _ _ _ _ _) as [[st' sent] r].
Qed.

(** ** The invariant *)

(** A peer of an authority: the address its host spells, or one the policy admits. *)
Definition right_peer (authority : str) (sa : SocketAddr) : Prop :=
  match parse_ip (host_of authority) with
  | Some ip => sa_ip sa = ip
  | None => ip_allowed (sa_ip sa) nets = true
  end.
(** The target starts with a character that ends the authority. *)
Definition delimited (target : str) : bool :=
  match target with c :: _ => ends_authority c | [] => false end.
Definition connection_ok (c : Connection) : Prop :=
  contactable block (cn_server c)
  /\ (existsb ends_authority (cn_server c) = false -> delimited (cn_target c) = true ->
        right_peer (cn_server c) (cn_peer c)).

Definition net_ok (n : NetState) : Prop :=
  state_ok (hs_resolver s) (n_resolver n)
  /\ Forall (contactable block) (n_contacted n)
  /\ (forall a sa, sa ∈ idle (n_pool n) a -> right_peer a sa)
  /\ Forall connection_ok (n_connections n)
  /\ Forall (fun sa => ip_allowed (sa_ip sa) nets = true) (n_tunnels n).

Lemma handled_ok n st e : net_ok n -> harmless st e -> net_ok (handled n st e).
Proof.
  intros ([_ Hres] & Hc & Hi & Hcs & Ht) (Hcache & Hsent & Htun).
  split_and!; [by split|by apply Forall_app|done|done|]. cbn. by apply Forall_app.
Qed.

(** What the URI of the upstream request has for its authority. *)
Lemma build_request_authority c addr p body ip scheme rq authority :
  existsb ends_authority addr = false -> delimited (target_of p) = true ->
  build_request c addr p body ip scheme = Ok rq ->
  uri_authority (p_uri (ureq_parts rq)) = Some authority -> authority = addr.
Proof.
  intros Ha Hd Hb Hu. unfold build_request in Hb. apply res_bind_ok in Hb as (u & Hp & Hb).
  apply res_bind_ok in Hb as (hv & _ & [= <-]). cbn [ureq_parts p_uri] in Hu. unfold ok_or in Hp.
  destruct (Uri_parse _) as [u'|] eqn:Ep; [|done]. injection Hp as ->.
  fold (target_of p) in Ep. assert (uri_authority u = Some addr); [|congruence].
  apply (parse_authority addr (target_of p)); [done| |done].
  unfold delimited in Hd. destruct (target_of p) as [|c0 t]; [done|]. by exists c0, t.
Qed.

Lemma request_ok n authority answer connects pool' dialled peer :
  net_ok n ->
  (forall addrs, answer = Some addrs -> (host_of authority, Ok addrs) ∈ rs_results (n_resolver n)) ->
  client_request (n_pool n) authority answer connects = (pool', dialled, peer) ->
  (forall sa, sa ∈ dialled -> right_peer authority sa)
  /\ (forall sa, peer = Some sa -> right_peer authority sa)
  /\ (forall a sa, sa ∈ idle pool' a -> right_peer a sa).
Proof.
  intros ([_ Hres] & _ & Hi & _) Hans Hreq.
  assert (forall sa, sa ∈ dialled -> right_peer authority sa) as Hd.
  { intros sa Hsa. pose proof (request_dials _ _ _ _ _ _ _ sa Hreq Hsa) as Hl. unfold right_peer.
    destruct (parse_ip (host_of authority)); [done|]. destruct Hl as (addrs & v & Ha & Hv & <-).
    by apply (proj2 (Hres _ _ (Hans _ Ha))). }
  split_and!; [done| |].
  - intros sa ->. destruct (request_peer _ _ _ _ _ _ _ Hreq) as [?|?]; auto.
  - intros a sa Hin. destruct (request_idle _ _ _ _ _ _ _ _ _ Hreq Hin) as [?|[-> ?]]; auto.
Qed.

Lemma nstep_ok n n' : net_ok n -> nstep n n' -> net_ok n'.
Proof.
  intros Hn Hs. destruct Hs as [n rs Hr|n w st p body ip st' e Hst Hh|n w st p body ip st' e Hst Hh|
    n c1 addr c2 p body ip scheme rq a answer connects pool' dialled peer Ec Hb Hu Hans Hreq].
  - destruct Hn as (Hres & Hrest). split; [|done]. by eapply rstep_ok.
  - apply handled_ok; [done|]. pose proof (handle_harmless w st p body ip) as Hx. rewrite Hh in Hx. apply Hx.
    rewrite Hst. apply Hn.
  - apply handled_ok; [done|]. pose proof (handle_h3_harmless w st p body ip) as Hx. rewrite Hh in Hx. apply Hx.
    rewrite Hst. apply Hn.
  - destruct (request_ok _ _ _ _ _ _ _ Hn Hans Hreq) as (Hd & Hp & Hi).
    destruct Hn as (Hres & Hc & _ & Hcs & Ht). rewrite Ec in Hc.
    apply Forall_app in Hc as [Hc1 Hc]. apply Forall_cons in Hc as [Haddr Hc2].
    split_and!; [done|by apply Forall_app|done| |done]. cbn [n_connections]. apply Forall_app. split; [|done].
    apply Forall_map, Forall_forall. intros sa Hsa. split; [done|]. cbn [cn_server cn_target cn_peer]. intros He Hdel.
    rewrite <- (build_request_authority _ _ _ _ _ _ _ _ He Hdel Hb Hu).
    apply elem_of_app in Hsa as [Hsa|Hsa]; [by apply Hd|].
    destruct peer; [|set_solver]. apply list_elem_of_singleton in Hsa as ->. by apply Hp.
Qed.

(** C4. However requests over both entry points, lookups and client calls interleave,
    and whatever the resolver, the servers and the pool do: with plain server
    addresses, every address a connection is made to or reused at for a request
    (whose target starts with a slash or question mark) and every address a tunnel
    opens to, or that is tried for one, is one the SSRF policy of the block admits. *)
Theorem dialled_allowed n :
  (forall u server, pool_of block u -> server ∈ ur_servers u -> plain (us_address server) = true) ->
  rtc nstep net_new n ->
  (forall c, c ∈ n_connections n -> delimited (cn_target c) = true ->
     contactable block (cn_server c) /\ ip_allowed (sa_ip (cn_peer c)) nets = true)
  /\ (forall sa, sa ∈ n_tunnels n -> ip_allowed (sa_ip sa) nets = true).
Proof.
  intros Hplain Hr. assert (net_ok n) as (_ & _ & _ & Hcs & Ht).
  { assert (net_ok net_new) as H0.
    { split_and!; try constructor; [|set_solver|intros a sa; cbn; rewrite pool_new_idle; set_solver].
      split; [cbn; rewrite map_size_empty; lia|]. intros h e. cbn. by rewrite lookup_empty. }
    revert H0. induction Hr; eauto using nstep_ok. }
  split; [|by apply Forall_forall]. rewrite Forall_forall in Hcs. intros c Hc Hdel. destruct (Hcs c Hc) as [Hcon Hp].
  split; [done|]. destruct Hcon as (Hup & u & server & Hu & Hs & Ea). pose proof (Hplain u server Hu Hs) as Hpl.
  rewrite Ea in Hpl. pose proof (plain_host _ Hpl) as Hh. unfold plain in Hpl. apply andb_true_iff in Hpl as [Hpl _].
  apply andb_true_iff in Hpl as [Hend _]. apply negb_true_iff in Hend. specialize (Hp Hend Hdel).
  unfold right_peer in Hp. rewrite Hh in Hp. destruct (split_host_port (cn_server c)) as [host port] eqn:Es. cbn [fst] in Hp.
  destruct (parse_ip host) as [ip|] eqn:Ep; [|done]. rewrite Hp.
  by apply (is_upstream_allowed_literal _ _ _ _ _ Es Ep).
Qed.
End net.

(** ** A concrete client, and a server behind user information *)

#[local] Existing Instance id_unicode.
#[local] Existing Instance assoc_http.
#[local] Existing Instance cidr_nets.
#[local] Existing Instance literal_regex.
#[local] Existing Instance stored_gz.
#[local] Existing Instance one_file.
#[local] Existing Instance one_country.

Lemma split_authority_app a c t :
  existsb ends_authority a = false -> ends_authority c = true -> split_authority (a ++ c :: t) = (a, c :: t).
Proof.
  intros Ha Hc. induction a as [|x a IH]; cbn [split_authority app]; [by rewrite Hc|].
  cbn [existsb] in Ha. apply orb_false_iff in Ha as [-> Ha]. by rewrite IH.
Qed.

#[local] Instance assoc_uri_laws : UriLaws assoc_http.
Proof.
  split. intros authority target u Ha (c & t & -> & Hc) Hu. cbn [Uri_parse assoc_http] in Hu.
  rewrite strip_prefix_app, split_authority_app in Hu by done.
  destruct (split_query (c :: t)) as [p q]. by injection Hu as <-.
Qed.

(** It keeps every connection for ever and dials the first address only. *)
Definition eager_client : HyperClient := {|
  Pool := list (str * SocketAddr);
  pool_new := [];
  idle p a := omap (fun x => if decide (fst x = a) then Some (snd x) else None) p;
  client_request p a answer connects :=
    match omap (fun x => if decide (fst x = a) then Some (snd x) else None) p with
    | sa :: _ => (p, [], Some sa)
    | [] =>
        match match parse_ip (host_of a) with Some ip => Some (mkSocketAddr ip 80) | None => answer ≫= head end with
        | Some sa => if connects sa then ((a, sa) :: p, [sa], Some sa) else (p, [sa], None)
        | None => (p, [], None)
        end
    end;
|}.
#[local] Existing Instance eager_client.

#[local] Instance eager_laws : HyperLaws eager_client.
Proof.
  split; cbn [idle client_request pool_new eager_client].
  - done.
  - intros p a answer connects p' dialled peer sa Hr Hin. destruct (omap _ p); [|injection Hr as <- <- <-; set_solver].
    destruct (parse_ip (host_of a)) as [ip|].
    + destruct (connects _); injection Hr as <- <- <-; by apply list_elem_of_singleton in Hin as ->.
    + destruct answer as [addrs|]; cbn in Hr; [|injection Hr as <- <- <-; set_solver].
      destruct addrs as [|sa0 r]; cbn in Hr; [injection Hr as <- <- <-; set_solver|].
      destruct (connects sa0); injection Hr as <- <- <-; apply list_elem_of_singleton in Hin as ->;
        exists (sa0 :: r), sa0; split_and!; (done || set_solver).
  - intros p a answer connects p' dialled sa Hr. destruct (omap _ p); [|injection Hr as <- <- <-; right; set_solver].
    destruct (match parse_ip _ with Some _ => _ | None => _ end) as [sa0|]; [|done].
    destruct (connects sa0); injection Hr; [intros <- <- <-|done]. left. set_solver.
  - intros p a answer connects p' dialled peer b sa Hr Hin. destruct (omap _ p); [|injection Hr as <- <- <-; by left].
    destruct (match parse_ip _ with Some _ => _ | None => _ end) as [sa0|]; [|injection Hr as <- <- <-; by left].
    destruct (connects sa0); injection Hr as <- <- <-; [|by left]. cbn in Hin.
    case_decide as E; [|by left]. apply elem_of_cons in Hin as [->|Hin]; [right|by left]. split; [by rewrite <- E|set_solver].
Qed.

Abbreviation net_of b := (nstep b false false TimeoutSettings_default no_hash_ip no_hash).

Definition proxied : Parts := get "/a".
(** The network after one proxied request whose connection succeeds. *)
Definition after_request (server : string) (authority : str) (peer : IpAddr) : NetState :=
  mkNet (mkRState ∅ [] []) [(authority, mkSocketAddr peer 80)] []
    [mkConnection server "/a" (mkSocketAddr peer 80); mkConnection server "/a" (mkSocketAddr peer 80)] [].

Definition LOOPBACK : IpAddr := V4 (V4Octets 127 0 0 1).

Definition proxied_effects (b : HttpBlock) : State * Effects :=
  handle (service b false false TimeoutSettings_default) no_hash_ip no_hash demo_world
    (snd (HandlerService_new b false false TimeoutSettings_default)) proxied (mkIncoming [] Complete) client_ip.

Lemma one_request server networks ip rq :
  let b := proxy_block server networks in
  st_cache (fst (proxied_effects b)) = ∅ -> ef_sent (snd (proxied_effects b)) = [server : str] ->
  ef_dialled (snd (proxied_effects b)) = [] ->
  build_request (hs_proxy (service b false false TimeoutSettings_default)) server proxied [] client_ip "http" = Ok rq ->
  uri_authority (p_uri (ureq_parts rq)) = Some (server : str) -> parse_ip (host_of server) = Some ip ->
  rtc (net_of b) net_new (after_request server server ip).
Proof.
  intros b Hc Hs Ht Hb Ha Hip. eapply rtc_l.
  { apply (n_handle _ _ _ _ _ _ net_new demo_world
      (snd (HandlerService_new b false false TimeoutSettings_default)) proxied (mkIncoming [] Complete) client_ip
      (fst (proxied_effects b)) (snd (proxied_effects b))); [reflexivity|].
    fold (proxied_effects b). by destruct (proxied_effects b). }
  unfold handled. rewrite Hc, Hs, Ht. apply rtc_once.
  refine (n_request _ _ _ _ _ _ _ [] server [] proxied [] client_ip "http" rq server None (fun _ => true)
    [(server : str, mkSocketAddr ip 80)] [mkSocketAddr ip 80] (Some (mkSocketAddr ip 80)) _ Hb Ha _ _); [done|done|].
  cbn. by rewrite Hip.
Qed.

Definition request_to (b : HttpBlock) (server : string) : UpstreamRequest :=
  match build_request (hs_proxy (service b false false TimeoutSettings_default)) server proxied [] client_ip "http" with
  | Ok rq => rq
  | _ => mkUpstreamRequest proxied []
  end.

(** With no network allowed, a server configured with user information makes the
    client dial a loopback literal. *)
Lemma userinfo_dialled_gap :
  exists n, rtc (net_of (proxy_block "user@127.0.0.1:80" None)) net_new n
    /\ mkConnection "user@127.0.0.1:80" "/a" (mkSocketAddr LOOPBACK 80) ∈ n_connections n
    /\ ip_allowed LOOPBACK [] = false.
Proof.
  exists (after_request "user@127.0.0.1:80" "user@127.0.0.1:80" LOOPBACK). split_and!.
  - by apply (one_request _ _ _ (request_to (proxy_block "user@127.0.0.1:80" None) "user@127.0.0.1:80")); vm_compute.
  - cbn. set_solver.
  - vm_compute. reflexivity.
Qed.

Definition TEN : IpAddr := V4 (V4Octets 10 0 0 1).
Lemma dialled_allowed_witness :
  ip_allowed TEN (parse_networks (Some (strs ["10.0.0.0/8"]%string))) = true.
Proof.
  refine (proj2 (proj1 (dialled_allowed (proxy_block "10.0.0.1:80" (Some (strs ["10.0.0.0/8"]%string))) false false
    TimeoutSettings_default no_hash_ip no_hash (after_request "10.0.0.1:80" "10.0.0.1:80" TEN) _ _)
    (mkConnection "10.0.0.1:80" "/a" (mkSocketAddr TEN 80)) _ _)).
  - intros u server Hu Hs. destruct Hu as [u Hu|l u Hl Hu|u Hu]; cbn in *.
    + apply not_elem_of_nil in Hu. destruct Hu.
    + apply list_elem_of_singleton in Hl. subst l. injection Hu as <-. cbn in Hs.
      apply list_elem_of_singleton in Hs. subst server. vm_compute. reflexivity.
    + discriminate Hu.
  - apply (one_request _ _ _ (request_to (proxy_block "10.0.0.1:80" (Some (strs ["10.0.0.0/8"]%string))) "10.0.0.1:80"));
      vm_compute; reflexivity.
  - cbn. set_solver.
  - reflexivity.
Defined.
