(* ===== verification/Tls.v ===== *)
(** * TLS and QUIC configuration (src/src/tls.rs)

    Certificate and key loading, version selection and the acceptors' settings,
    over an interface to rustls and its PEM reader; a file is what opening its
    path gives at the time.  Theorems: which key a file yields, that a validated
    configuration negotiates exactly the versions it names, and what each acceptor
    is built from. *)

From S2P Require Import Prelude.
From S2P Require Import Str.
From S2P Require Import Config.
From S2P Require Import Instances.

Inductive TlsVersion : Type := TLS12 | TLS13.
#[global] Instance TlsVersion_eq_dec : EqDecision TlsVersion.
Proof. solve_decision. Defined.

(** [rustls_pemfile] and [rustls]: parsing the PEM items of a file, and accepting a
    chain with its key. *)
Class Rustls : Type := {
  CertificateDer : Type;
  PrivateKeyDer : Type;
  SigningKey : Type;
  pem_certs : str -> option (list CertificateDer);
  pkcs8_private_keys : str -> option (list PrivateKeyDer);
  rsa_private_keys : str -> option (list PrivateKeyDer);
  accepts_pair : list CertificateDer -> PrivateKeyDer -> bool;
  any_supported_type : PrivateKeyDer -> option SigningKey;
  quic_suite : CertificateDer -> PrivateKeyDer -> bool;
}.

Inductive TlsError : Type :=
  | OpenCertificate (path : str) | ParseCertificate (path : str) | NoCertificates (path : str)
  | OpenKey (path : str) | ParseRsaKey (path : str) | NoPrivateKeys (path : str)
  | CertificateNotConfigured | KeyNotConfigured | BadServerConfig | BadSigningKey (path : str)
  | NoQuicSuite.

Section tls.
Context {U : Unicode} {T : Rustls}.
(** [File::open] and its contents. *)
Variable open : str -> option str.

Definition load_certificate (cert_path : str) : res TlsError (list CertificateDer) :=
  let? file := ok_or (open cert_path) (OpenCertificate cert_path) in
  let? certs := ok_or (pem_certs file) (ParseCertificate cert_path) in
  if bool_decide (length certs = 0)%nat then Err (NoCertificates cert_path) else Ok certs.

Definition load_private_key (key_path : str) : res TlsError PrivateKeyDer :=
  let? file := ok_or (open key_path) (OpenKey key_path) in
  match pkcs8_private_keys file ≫= head with
  | Some key => Ok key
  | None =>
      let? file := ok_or (open key_path) (OpenKey key_path) in
      let? keys := ok_or (rsa_private_keys file) (ParseRsaKey key_path) in
      ok_or (head keys) (NoPrivateKeys key_path)
  end.

Definition version_of (proto : str) : option TlsVersion :=
  let p := to_uppercase proto in
  if bool_decide (p = "TLSV1.2") then Some TLS12
  else if bool_decide (p = "TLSV1.3") then Some TLS13
  else None.

Definition tls_versions (protocols : list str) : list TlsVersion :=
  let versions := omap version_of protocols in
  if bool_decide (versions = []) then [TLS13; TLS12] else versions.

(** A shared [ChallengeStore], named by the index of the block whose manager made it. *)
Definition StoreId : Type := nat.

(** What an acceptor serves: a fixed chain, or a resolver over a default and a store. *)
Inductive CertSource : Type :=
  | SingleCert (certs : list CertificateDer) (key : PrivateKeyDer)
  | Resolver (default_certs : list CertificateDer) (default_key : SigningKey) (store : StoreId).

Record TlsAcceptor : Type := mkAcceptor {
  ta_versions : list TlsVersion;
  ta_certs : CertSource;
  ta_alpn : list str;
}.

Definition build_tls_acceptor (ssl : SslSettings) : res TlsError TlsAcceptor :=
  let? cert_path := ok_or (ssl_certificate ssl) CertificateNotConfigured in
  let? key_path := ok_or (ssl_certificate_key ssl) KeyNotConfigured in
  let? certs := load_certificate cert_path in
  let? key := load_private_key key_path in
  let versions := tls_versions (ssl_protocols ssl) in
  if negb (accepts_pair certs key) then Err BadServerConfig
  else Ok (mkAcceptor versions (SingleCert certs key) (strs ["h2"; "http/1.1"]%string)).

(** [acme::load_certified_key]. *)
Definition load_certified_key (cert_path key_path : str) : res TlsError (list CertificateDer * SigningKey) :=
  let? certs := load_certificate cert_path in
  let? key := load_private_key key_path in
  let? signing_key := ok_or (any_supported_type key) (BadSigningKey key_path) in
  Ok (certs, signing_key).

Definition build_tls_acceptor_acme (cert_path key_path : str) (protocols : list str) (store : StoreId)
    : res TlsError TlsAcceptor :=
  let? ck := load_certified_key cert_path key_path in
  let versions := tls_versions protocols in
  Ok (mkAcceptor versions (Resolver (fst ck) (snd ck) store) (strs ["h2"; "http/1.1"; "acme-tls/1"]%string)).

Record QuicConfig : Type := mkQuic {
  qc_cert : CertificateDer;
  qc_key : PrivateKeyDer;
  qc_alpn : list str;
  qc_max_uni_streams : Z;
  qc_max_bidi_streams : Z;
}.

Definition build_quinn_from_paths (cert_path key_path : str) : res TlsError QuicConfig :=
  let? certs := load_certificate cert_path in
  let? cert := ok_or (head certs) (NoCertificates cert_path) in
  let? key := load_private_key key_path in
  if negb (accepts_pair [cert] key) then Err BadServerConfig
  else if negb (quic_suite cert key) then Err NoQuicSuite
  else Ok (mkQuic cert key (strs ["h3"]%string) 100 100).

Definition build_quinn_server_config (ssl : SslSettings) : res TlsError QuicConfig :=
  let? cert_path := ok_or (ssl_certificate ssl) CertificateNotConfigured in
  let? key_path := ok_or (ssl_certificate_key ssl) KeyNotConfigured in
  build_quinn_from_paths cert_path key_path.

(** ** Properties *)

(** A key file yields its first PKCS#8 key; one whose PKCS#8 items are missing or
    malformed yields its first RSA key; any other fails. *)
Lemma load_private_key_spec path key :
  load_private_key path = Ok key
  <-> exists file, open path = Some file
      /\ (pkcs8_private_keys file ≫= head = Some key
          \/ (pkcs8_private_keys file ≫= head = None /\ rsa_private_keys file ≫= head = Some key)).
Proof.
  unfold load_private_key. destruct (open path) as [file|]; cbn [ok_or res_bind].
  2:{ split; [done|]. by intros (? & [=] & _). }
  assert (forall P : str -> Prop, (exists x, Some file = Some x /\ P x) <-> P file) as Hx.
  { intros P. split; [by intros (x & [= ->] & ?)|eauto]. }
  rewrite Hx. destruct (pkcs8_private_keys file ≫= head) as [k|].
  - split; [intros [= ->]; by left|]. intros [[= ->]|[[=] _]]. done.
  - destruct (rsa_private_keys file) as [keys|]; cbn.
    + destruct (head keys); cbn; naive_solver.
    + naive_solver.
Qed.

(** An acceptor built from validated settings offers exactly the TLS versions
    they name, in order, and TLS 1.3 with 1.2 when they name none; it serves the
    loaded chain with its key, and advertises h2 and http/1.1 only. *)
Theorem build_tls_acceptor_spec ssl a :
  (forall p, p ∈ ssl_protocols ssl -> to_uppercase p ∈ strs ["TLSV1.2"; "TLSV1.3"]%string) ->
  build_tls_acceptor ssl = Ok a ->
  (ssl_protocols ssl = [] -> ta_versions a = [TLS13; TLS12])
  /\ (ssl_protocols ssl <> [] -> map Some (ta_versions a) = map version_of (ssl_protocols ssl))
  /\ ta_alpn a = strs ["h2"; "http/1.1"]%string
  /\ exists cert_path key_path certs key,
       ssl_certificate ssl = Some cert_path /\ ssl_certificate_key ssl = Some key_path
       /\ load_certificate cert_path = Ok certs /\ load_private_key key_path = Ok key
       /\ accepts_pair certs key = true /\ ta_certs a = SingleCert certs key.
Proof.
  intros Hp. unfold build_tls_acceptor. intros Hb.
  apply res_bind_ok in Hb as (cp & Hcp & Hb). apply res_bind_ok in Hb as (kp & Hkp & Hb).
  apply res_bind_ok in Hb as (certs & Hcerts & Hb). apply res_bind_ok in Hb as (key & Hkey & Hb).
  destruct (accepts_pair certs key) eqn:Ea; [|done]. injection Hb as <-.
  cbn [ta_versions ta_alpn ta_certs].
  assert (map Some (omap version_of (ssl_protocols ssl)) = map version_of (ssl_protocols ssl)) as Hm.
  { induction (ssl_protocols ssl) as [|p ps IH]; [done|]. cbn [omap list_omap map].
    assert (is_Some (version_of p)) as [v Hv].
    { pose proof (Hp p ltac:(apply elem_of_cons; by left)) as Hin. unfold version_of, strs in *.
      cbn [map] in Hin. rewrite !elem_of_cons, elem_of_nil in Hin.
      repeat case_bool_decide; [done..|]. exfalso. tauto. }
    rewrite Hv. cbn [map]. f_equal. apply IH. intros q Hq. apply Hp. apply elem_of_cons. by right. }
  split_and!; [| |done|].
  - intros ->. done.
  - intros Hne. unfold tls_versions. case_bool_decide as E; [|done].
    rewrite E in Hm. destruct (ssl_protocols ssl); done.
  - destruct (ssl_certificate ssl); [|done]. destruct (ssl_certificate_key ssl); [|done].
    cbn [ok_or] in *. injection Hcp as <-. injection Hkp as <-. eauto 10.
Qed.
End tls.

(** ** A concrete PEM reader: one certificate and one key per file *)

Definition text_tls : Rustls := {|
  CertificateDer := str;
  PrivateKeyDer := str;
  SigningKey := str;
  pem_certs s := Some [s];
  pkcs8_private_keys s := if starts_with s "rsa" then None else Some [s];
  rsa_private_keys s := Some [s];
  accepts_pair _ _ := true;
  any_supported_type k := Some k;
  quic_suite _ _ := true;
|}.
#[local] Existing Instance text_tls.
#[local] Existing Instance id_unicode.

Definition demo_ssl : SslSettings :=
  mkSsl (Some ("c" : str)) (Some ("k" : str)) None (strs ["TLSv1.3"]%string).

Lemma build_tls_acceptor_spec_witness :
  map Some [TLS13] = map version_of (strs ["TLSv1.3"]%string).
Proof.
  refine (proj1 (proj2 (build_tls_acceptor_spec (fun p => Some p) demo_ssl
    (mkAcceptor [TLS13] (SingleCert ["c" : str] ("k" : str)) (strs ["h2"; "http/1.1"]%string)) _ _)) _).
  - intros p Hp. cbn in Hp. apply list_elem_of_singleton in Hp as ->. vm_decide.
  - vm_compute. reflexivity.
  - discriminate.
Defined.
