(* ===== verification/Acme.v ===== *)
(** * ACME certificate lifecycle (src/src/acme.rs)

    The challenge store and the TLS certificate resolver, renewal decisions, the
    retry loop with back-off, and one issuance as the trace of what it publishes,
    announces to the CA and writes.  What the CA, the webhook, the crypto library
    and the file system answer is a record.  Theorems: the resolver, the retry
    bound and its waits, and the order of an issuance: each challenge is published
    before the CA is told it is ready, and files are written last. *)

From S2P Require Import Prelude.
From S2P Require Import Str.
From S2P Require Import Extern.
From S2P Require Import Config.
From S2P Require Import Instances.
From S2P Require Import Tls.

(** ** The challenge store and the certificate resolver *)

Section store.
(** [rustls::sign::CertifiedKey]. *)
Variable CertifiedKey : Type.

Record ChallengeStore : Type := mkStore {
  http01 : gmap str str;
  tls_alpn : gmap str CertifiedKey;
}.
Definition ChallengeStore_new : ChallengeStore := mkStore ∅ ∅.
Definition put_http01 (st : ChallengeStore) (token key_auth : str) : ChallengeStore :=
  mkStore (<[token := key_auth]> (http01 st)) (tls_alpn st).
Definition get_http01 (st : ChallengeStore) (token : str) : option str := http01 st !! token.
Definition put_tls_alpn (st : ChallengeStore) (sni : str) (cert : CertifiedKey) : ChallengeStore :=
  mkStore (http01 st) (<[sni := cert]> (tls_alpn st)).
Definition get_tls_alpn (st : ChallengeStore) (sni : str) : option CertifiedKey := tls_alpn st !! sni.
Definition has_tls_alpn (st : ChallengeStore) : bool := negb (bool_decide (tls_alpn st = ∅)).

(** The [Debug] instance. *)
Definition fmt (st : ChallengeStore) : str :=
  "ChallengeStore { http01_pending: " ++ show (Z.of_nat (size (http01 st)))
  ++ ", tls_alpn_pending: " ++ show (Z.of_nat (size (tls_alpn st))) ++ " }".

(** Printing a store reveals how many challenges are pending and nothing else:
    no token, key authorization or key. *)
Lemma fmt_reveals_counts st st' :
  size (http01 st) = size (http01 st') -> size (tls_alpn st) = size (tls_alpn st') -> fmt st = fmt st'.
Proof. unfold fmt. by intros -> ->. Qed.

(** What a handshake offers. *)
Record ClientHello : Type := mkHello { ch_alpn : option (list str); ch_server_name : option str }.

Definition resolve_cert (dflt : CertifiedKey) (st : ChallengeStore) (hello : ClientHello) : option CertifiedKey :=
  let is_acme_alpn := match ch_alpn hello with
                      | Some protos => existsb (fun p : str => bool_decide (p = "acme-tls/1")) protos
                      | None => false
                      end in
  if is_acme_alpn then sni ← ch_server_name hello; get_tls_alpn st sni
  else Some dflt.
End store.
Arguments mkStore {CertifiedKey} _ _.
Arguments http01 {CertifiedKey} _.
Arguments tls_alpn {CertifiedKey} _.
Arguments put_http01 {CertifiedKey} _ _ _.
Arguments get_http01 {CertifiedKey} _ _.
Arguments put_tls_alpn {CertifiedKey} _ _ _.
Arguments get_tls_alpn {CertifiedKey} _ _.
Arguments has_tls_alpn {CertifiedKey} _.
Arguments resolve_cert {CertifiedKey} _ _ _.

(** ** Paths, domains and renewal *)

Definition http_challenge_port (cfg : AcmeConfig) : Z := default 80 (ac_http_challenge_port cfg).
Definition cert_path (cfg : AcmeConfig) : str := ac_cert_dir cfg ++ "/cert.pem".
Definition key_path (cfg : AcmeConfig) : str := ac_cert_dir cfg ++ "/key.pem".
Definition domains (cfg : AcmeConfig) (server_names : list str) : list str :=
  if bool_decide (ac_domains cfg = []) then server_names else ac_domains cfg.
Definition renewal_check_interval (cfg : AcmeConfig) : Z :=
  default 3600 (ac_renewal_check_interval_secs cfg).

(** [pem]: the certificate file, if it can be read; [not_after]: the expiry its
    X.509 parser finds. *)
Definition needs_renewal (cfg : AcmeConfig) (pem : option str) (not_after : str -> option Z) (now : Z)
    : res unit bool :=
  match pem with
  | None => Ok true
  | Some p =>
      match not_after p with
      | None => Err tt
      | Some t => Ok (t - now <? ac_renewal_window cfg * 86400)
      end
  end.

(** ** The HTTP client's Retry-After *)

Definition TOO_MANY_REQUESTS : Z := 429.

Section retry_after.
Context {H : HttpLib}.
Definition note_retry_after (retry_after status : Z) (headers : HeaderMap) : Z :=
  if status =? TOO_MANY_REQUESTS then
    match hm_get headers "retry-after" ≫= HeaderValue_to_str with
    | Some v => default retry_after (parse_uint U64_MAX (trim v))
    | None => retry_after
    end
  else retry_after.
End retry_after.

(** ** Retrying *)

Definition max_attempts : nat := 5.

(** [try n]: the outcome of the n-th attempt (from 1) and the Retry-After it noted.
    The loop gives the outcome and the waits, in seconds. *)
Fixpoint issue_loop {E} (try : nat -> res E unit * Z) (fuel attempt : nat) : res E unit * list Z :=
  match fuel with
  | O => (Panic, [])
  | S fuel =>
      let attempt := S attempt in
      match try attempt with
      | (Ok _, _) => (Ok tt, [])
      | (Err e, retry_after) =>
          if bool_decide (max_attempts <= attempt)%nat then (Err e, [])
          else
            let server := retry_after in
            let backoff := Z.shiftl 1 (Z.of_nat (min (attempt - 1) 6)) in
            let wait := Z.max server backoff in
            let '(r, waits) := issue_loop try fuel attempt in
            (r, wait :: waits)
      | (Never why, _) => (Never why, [])
      end
  end.
Definition issue_with_retry {E} (try : nat -> res E unit * Z) : res E unit * list Z :=
  issue_loop try max_attempts 0.

(** Whether the certificate and key on disk load. *)
Definition has_usable_cert {T : Rustls} (open : str -> option str) (cfg : AcmeConfig) : bool :=
  is_ok (load_certified_key open (cert_path cfg) (key_path cfg)).

(** [ensure_cert]: [usable] is the answer of [has_usable_cert]. *)
Definition ensure_cert {E} (usable : bool) (try : nat -> res E unit * Z) : res E unit * list Z :=
  if usable then (Ok tt, []) else issue_with_retry try.

(** Nothing fails before the k-th attempt, which succeeds; or all fail. *)
Definition first_success {E} (try : nat -> res E unit * Z) (k : nat) : Prop :=
  is_ok (fst (try k)) = true /\ (forall i, (1 <= i < k)%nat -> is_err (fst (try i)) = true).

Lemma issue_loop_spec {E} (try : nat -> res E unit * Z) fuel attempt :
  (forall n, total (fst (try n))) -> (attempt + fuel = max_attempts)%nat -> (0 < fuel)%nat ->
  let '(r, waits) := issue_loop try fuel attempt in
  (is_ok r = true ->
     exists k, (attempt < k <= max_attempts)%nat /\ is_ok (fst (try k)) = true
       /\ (forall i, (attempt < i < k)%nat -> is_err (fst (try i)) = true)
       /\ length waits = (k - S attempt)%nat)
  /\ (is_ok r = false ->
        r = fst (try max_attempts) /\ length waits = (max_attempts - S attempt)%nat
        /\ (forall i, (attempt < i <= max_attempts)%nat -> is_err (fst (try i)) = true))
  /\ (forall i w, waits !! i = Some w ->
        w = Z.max (snd (try (S attempt + i)%nat)) (2 ^ Z.of_nat (min (attempt + i) 6))).
Proof.
  intros Hp. revert attempt. induction fuel as [|fuel IH]; intros attempt Hsum Hf; [lia|].
  cbn [issue_loop]. destruct (try (S attempt)) as [[[]|e|] ra] eqn:Et.
  - split_and!; [|done|set_solver]. intros _. exists (S attempt). rewrite Et.
    split_and!; [lia|lia|done|intros; lia|cbn; lia].
  - case_bool_decide as Em.
    + assert (S attempt = max_attempts) as E1 by lia. split_and!; [done| |set_solver].
      intros _. rewrite <- E1, Et. split_and!; [done|cbn; lia|].
      intros i Hi. assert (i = S attempt) as -> by lia. by rewrite Et.
    + specialize (IH (S attempt) ltac:(lia) ltac:(lia)).
      destruct (issue_loop try fuel (S attempt)) as [r waits]. destruct IH as (Hok & Herr & Hw). split_and!.
      * intros Hr. destruct (Hok Hr) as (k & Hk & Hik & Hbefore & Hlen). exists k.
        split_and!; [lia|lia|done| |cbn [length]; lia].
        intros i Hi. destruct (decide (i = S attempt)) as [->|]; [by rewrite Et|apply Hbefore; lia].
      * intros Hr. destruct (Herr Hr) as (-> & Hlen & Hall). split_and!; [done|cbn [length]; lia|].
        intros i Hi. destruct (decide (i = S attempt)) as [->|]; [by rewrite Et|apply Hall; lia].
      * intros [|i] w Hi; cbn in Hi.
        -- injection Hi as <-. rewrite Nat.add_0_r, Et. cbn [snd]. f_equal.
           rewrite Z.shiftl_1_l. do 2 f_equal. lia.
        -- rewrite (Hw i w Hi), !Nat.add_succ_r. done.
  - pose proof (Hp (S attempt)) as Ht. by rewrite Et in Ht.
Qed.

(** C39. Issuance, when every attempt returns, ends after at most five: it succeeds at the first
    that does and otherwise returns the fifth's error; between two attempts it
    waits the CA's Retry-After or the exponential back-off, whichever is longer. *)
Theorem issue_with_retry_spec {E} (try : nat -> res E unit * Z) :
  (forall n, total (fst (try n))) ->
  let '(r, waits) := issue_with_retry try in
  (is_ok r = true -> exists k, (1 <= k <= 5)%nat /\ first_success try k /\ length waits = (k - 1)%nat)
  /\ (is_ok r = false ->
        r = fst (try 5%nat) /\ length waits = 4%nat
        /\ (forall i, (1 <= i <= 5)%nat -> is_err (fst (try i)) = true))
  /\ (forall i w, waits !! i = Some w -> w = Z.max (snd (try (S i))) (2 ^ Z.of_nat (min i 6))).
Proof.
  intros Hp. unfold issue_with_retry.
  pose proof (issue_loop_spec try max_attempts 0 Hp eq_refl ltac:(unfold max_attempts; lia)) as Hs.
  destruct (issue_loop try max_attempts 0) as [r waits]. destruct Hs as (Hok & Herr & Hw). split_and!.
  - intros Hr. destruct (Hok Hr) as (k & Hk & Hik & Hb & Hlen). exists k. unfold max_attempts in Hk.
    split_and!; [lia|lia| |lia]. split; [done|]. intros i Hi. apply Hb. lia.
  - intros Hr. destruct (Herr Hr) as (-> & Hlen & Hall). split_and!; [done|done|].
    intros i Hi. apply Hall. unfold max_attempts. lia.
  - intros i w Hi. apply (Hw i w Hi).
Qed.

Section resolver.
Context {CertifiedKey : Type}.

(** The resolver serves a challenge certificate exactly to a handshake that
    offers acme-tls/1, and only the one staged for its SNI; every other handshake
    gets the issued certificate, whatever is staged. *)
Theorem resolve_cert_spec (dflt ck : CertifiedKey) st hello :
  resolve_cert dflt st hello = Some ck
  <-> (((exists ps, ch_alpn hello = Some ps /\ (list_ascii_of_string "acme-tls/1") ∈ ps)
        /\ exists sni, ch_server_name hello = Some sni /\ tls_alpn st !! sni = Some ck)
       \/ ((forall ps, ch_alpn hello = Some ps -> ~ (list_ascii_of_string "acme-tls/1") ∈ ps) /\ ck = dflt)).
Proof.
  unfold resolve_cert.
  assert (forall ps, existsb (fun p : str => bool_decide (p = "acme-tls/1")) ps = true
            <-> list_ascii_of_string "acme-tls/1" ∈ ps) as Hex.
  { intros ps. rewrite existsb_bool_elem. split.
    - intros (x & Hx & E). apply bool_decide_eq_true in E as ->. done.
    - intros Hin. eexists. split; [exact Hin|]. by apply bool_decide_eq_true. }
  destruct (ch_alpn hello) as [ps|].
  - destruct (existsb _ ps) eqn:E.
    + apply Hex in E. destruct (ch_server_name hello) as [sni|]; cbn; unfold get_tls_alpn.
      * split; [intros Hs; left; split; [by exists ps|by exists sni]|].
        intros [[_ (s & [= <-] & Hs)]|[Hn _]]; [done|]. by destruct (Hn ps).
      * split; [done|]. intros [[_ (s & [=] & _)]|[Hn _]]. by destruct (Hn ps).
    + assert (~ (list_ascii_of_string "acme-tls/1") ∈ ps) as Hni.
      { rewrite <- Hex, E. done. }
      split.
      * intros [= <-]. right. split; [|done]. by intros ? [= <-].
      * intros [[(? & [= <-] & Hin) _]|[_ ->]]; [by destruct Hni|done].
  - split.
    + intros [= <-]. right. split; [|done]. by intros ? [=].
    + intros [[(? & [=] & _) _]|[_ ->]]. done.
Qed.
End resolver.

(** ** One issuance, as the trace of its effects *)

Inductive ChallengeType : Type := Http01 | TlsAlpn01 | Dns01 | UnknownChallenge (name : str).
#[global] Instance ChallengeType_eq_dec : EqDecision ChallengeType.
Proof. solve_decision. Defined.
Inductive Pick : Type := PickHttp | PickAlpn | PickDns.

(** The body posted to the webhook, less its constant action. *)
Record WebhookBody : Type := mkBody { wb_domain : str; wb_token : str; wb_value : str }.

(** An authorization of the order: [az_identifier] is [None] for one that is not a
    DNS name, [az_ready] the CA's answer to [set_ready]. *)
Record Authz : Type := mkAuthz {
  az_valid : bool;
  az_identifier : option str;
  az_challenges : list (ChallengeType * str);
  az_ready : bool;
}.

(** What the crates and the CA answer during one attempt, and the file system:
    [instant_acme], [rcgen], [reqwest], [base64], [rustls_pemfile]. *)
Class AcmeEnv : Type := {
  CertKey : Type;
  RootCert : Type;
  env_read : str -> option str;
  env_mkdir : str -> bool;
  env_write : str -> str -> bool;
  env_chmod : str -> Z -> bool;
  parse_roots : str -> list (option RootCert);
  add_root : RootCert -> bool;
  b64_url_safe_no_pad : str -> option str;
  b64_standard : str -> option str;
  key_authorization : str -> str;
  key_digest : str -> str;
  key_dns_value : str -> str;
  self_signed_acme : str -> str -> option CertKey;
  webhook_client : Z -> bool;
  webhook_send : str -> WebhookBody -> option str -> option Z;
  ca_account : bool;
  ca_new_order : bool;
  ca_authorizations : list (option Authz);
  ca_poll_ready : option bool;
  make_csr : list str -> option str;
  ca_finalize : bool;
  ca_certificate : option str;
  new_key_pem : str;
}.

Inductive AcmeError : Type :=
  | ReadCaRoot (path : str) | ParseCaRoot (path : str) | AddCaRoot (path : str)
  | ReadEabKey (path : str) | EabNotBase64
  | AccountCreation | NoDomains | NewOrderFailed | FetchAuthorization | UnsupportedIdentifier
  | NoChallengeOffered (domain : str) | ChallengeUnavailable (domain : str)
  | BadDigest (len : nat) | ChallengeCert
  | NoWebhook | WebhookClient | ReadWebhookAuth (path : str) | SendWebhook | WebhookStatus (status : Z)
  | SetReadyFailed | PollReady | OrderNotReady | BadCsr | FinalizeFailed | PollCertificate
  | CreateCertDir (path : str) | WriteFailed (path : str) | ChmodFailed (path : str).

Inductive Event {A : AcmeEnv} : Type :=
  | EvAccount (url contact : str) (agree_tos : bool) (eab : option (str * str))
  | EvNewOrder (names : list str)
  | EvPublishHttp (token key_auth : str)
  | EvPublishAlpn (sni : str) (cert : CertKey)
  | EvWebhook (url : str) (body : WebhookBody) (auth : option str)
  | EvReady (kind : Pick) (domain token : str)
  | EvFinalize (csr : str)
  | EvMkdir (path : str)
  | EvWrite (path bytes : str)
  | EvChmod (path : str) (mode : Z).

(** Mode 0600. *)
Definition MODE_0600 : Z := 384.

Section issue.
Context {A : AcmeEnv}.

(** Effects: the events so far, and the outcome. *)
Definition M (X : Type) : Type := Tr Event AcmeError X.

Definition AcmeHttpClient_new (ca_root : option str) : M unit :=
  match ca_root with
  | None => t_lift (Ok tt)
  | Some path =>
      do! pem := t_lift (ok_or (env_read path) (ReadCaRoot path)) in
      t_lift (for_each (fun cert =>
        let? cert := ok_or cert (ParseCaRoot path) in
        if add_root cert then Ok tt else Err (AddCaRoot path)) (parse_roots pem))
  end.

Definition decode_b64 (s : str) : option str :=
  match b64_url_safe_no_pad s with
  | Some b => Some b
  | None => b64_standard s
  end.

Definition load_eab (cfg : AcmeConfig) : res AcmeError (option (str * str)) :=
  match ac_eab cfg with
  | None => Ok None
  | Some eab =>
      let? b64 := ok_or (env_read (eab_hmac_key eab)) (ReadEabKey (eab_hmac_key eab)) in
      let? key_bytes := ok_or (decode_b64 (trim b64)) EabNotBase64 in
      Ok (Some (eab_kid eab, key_bytes))
  end.

(** The value of the Authorization header, read from its file. *)
Definition webhook_auth (webhook : WebhookConfig) : res AcmeError (option str) :=
  match wh_auth_header webhook with
  | None => Ok None
  | Some auth_path =>
      let? header_value := ok_or (env_read auth_path) (ReadWebhookAuth auth_path) in
      Ok (Some (trim header_value))
  end.

Definition post_dns_webhook (cfg : AcmeConfig) (domain token dns_value : str) : M unit :=
  do! webhook := t_lift (ok_or (ac_dns_webhook cfg) NoWebhook) in
  let body := mkBody domain token dns_value in
  do! _ := t_ensure (webhook_client (wh_timeout webhook)) WebhookClient in
  do! auth := t_lift (webhook_auth webhook) in
  do! _ := t_emit (EvWebhook (wh_url webhook) body auth) in
  do! status := t_lift (ok_or (webhook_send (wh_url webhook) body auth) SendWebhook) in
  t_ensure ((200 <=? status) && (status <? 300)) (WebhookStatus status).

Definition build_tls_alpn_cert (domain key_auth_digest : str) : res AcmeError CertKey :=
  if bool_decide (length key_auth_digest <> 32%nat) then Err (BadDigest (length key_auth_digest))
  else ok_or (self_signed_acme domain key_auth_digest) ChallengeCert.

(** The first configured challenge type that the CA offers. *)
Definition pick_challenge (challenge_types : list str) (offered : list (ChallengeType * str))
    : option (Pick * ChallengeType) :=
  find_map (fun ct : str =>
    let choice :=
      if bool_decide (ct = "http-01") then Some (PickHttp, Http01)
      else if bool_decide (ct = "tls-alpn-01") then Some (PickAlpn, TlsAlpn01)
      else if bool_decide (ct = "dns-01") then Some (PickDns, Dns01)
      else None in
    match choice with
    | Some (kind, want) =>
        if existsb (fun c => bool_decide (fst c = want)) offered then Some (kind, want) else None
    | None => None
    end) challenge_types.

Definition publish (cfg : AcmeConfig) (kind : Pick) (domain token : str) : M unit :=
  let key_auth := key_authorization token in
  match kind with
  | PickHttp => t_emit (EvPublishHttp token key_auth)
  | PickAlpn =>
      do! cert := t_lift (build_tls_alpn_cert domain (key_digest key_auth)) in
      t_emit (EvPublishAlpn domain cert)
  | PickDns => post_dns_webhook cfg domain token (key_dns_value key_auth)
  end.

(** One turn of the authorization loop. *)
Definition respond (cfg : AcmeConfig) (authz : option Authz) : M unit :=
  do! authz := t_lift (ok_or authz FetchAuthorization) in
  if az_valid authz then t_lift (Ok tt)
  else
    do! domain := t_lift (ok_or (az_identifier authz) UnsupportedIdentifier) in
    do! choice := t_lift (ok_or (pick_challenge (ac_challenge_types cfg) (az_challenges authz))
                              (NoChallengeOffered domain)) in
    let '(kind, want) := choice in
    do! challenge := t_lift (ok_or (find_first (fun c => bool_decide (fst c = want)) (az_challenges authz))
                                 (ChallengeUnavailable domain)) in
    let token := snd challenge in
    do! _ := publish cfg kind domain token in
    do! _ := t_emit (EvReady kind domain token) in
    t_ensure (az_ready authz) SetReadyFailed.

Fixpoint respond_all (cfg : AcmeConfig) (l : list (option Authz)) : M unit :=
  match l with
  | [] => t_lift (Ok tt)
  | authz :: r => do! _ := respond cfg authz in respond_all cfg r
  end.

(** [try_issue] up to the certificate: its chain and key. *)
Definition obtain (cfg : AcmeConfig) (server_names : list str) : M (str * str) :=
  do! _ := AcmeHttpClient_new (ac_ca_root cfg) in
  do! eab := t_lift (load_eab cfg) in
  let contact := ("mailto:" : str) ++ ac_email cfg in
  do! _ := t_emit (EvAccount (ac_ca_endpoint cfg) contact (ac_agree_tos cfg) eab) in
  do! _ := t_ensure ca_account AccountCreation in
  let names := domains cfg server_names in
  do! _ := t_ensure (negb (bool_decide (names = []))) NoDomains in
  do! _ := t_emit (EvNewOrder names) in
  do! _ := t_ensure ca_new_order NewOrderFailed in
  do! _ := respond_all cfg ca_authorizations in
  do! ready := t_lift (ok_or ca_poll_ready PollReady) in
  do! _ := t_ensure ready OrderNotReady in
  do! csr := t_lift (ok_or (make_csr names) BadCsr) in
  do! _ := t_emit (EvFinalize csr) in
  do! _ := t_ensure ca_finalize FinalizeFailed in
  do! chain := t_lift (ok_or ca_certificate PollCertificate) in
  t_lift (Ok (chain, new_key_pem)).

Definition write_secret (path bytes : str) : M unit :=
  do! _ := t_emit (EvWrite path bytes) in
  do! _ := t_ensure (env_write path bytes) (WriteFailed path) in
  do! _ := t_emit (EvChmod path MODE_0600) in
  t_ensure (env_chmod path MODE_0600) (ChmodFailed path).

Definition write_cert (cfg : AcmeConfig) (chain_pem key_pem : str) : M unit :=
  do! _ := t_emit (EvMkdir (ac_cert_dir cfg)) in
  do! _ := t_ensure (env_mkdir (ac_cert_dir cfg)) (CreateCertDir (ac_cert_dir cfg)) in
  do! _ := write_secret (cert_path cfg) chain_pem in
  write_secret (key_path cfg) key_pem.

Definition try_issue (cfg : AcmeConfig) (server_names : list str) : M unit :=
  do! issued := obtain cfg server_names in
  write_cert cfg (fst issued) (snd issued).

(** The shared store after a trace. *)
Definition apply_event (st : ChallengeStore CertKey) (e : Event) : ChallengeStore CertKey :=
  match e with
  | EvPublishHttp token key_auth => put_http01 st token key_auth
  | EvPublishAlpn sni cert => put_tls_alpn st sni cert
  | _ => st
  end.
Definition store_after (st : ChallengeStore CertKey) (tr : list Event) : ChallengeStore CertKey :=
  foldl apply_event st tr.
End issue.

Section issue_laws.
Context {A : AcmeEnv}.

(** The publication that answers a challenge. *)
Definition publishes (e : Event) (kind : Pick) (domain token : str) : Prop :=
  match kind with
  | PickHttp => e = EvPublishHttp token (key_authorization token)
  | PickAlpn => exists cert, e = EvPublishAlpn domain cert
      /\ self_signed_acme domain (key_digest (key_authorization token)) = Some cert
  | PickDns => exists url auth status, e = EvWebhook url (mkBody domain token (key_dns_value (key_authorization token))) auth
      /\ webhook_send url (mkBody domain token (key_dns_value (key_authorization token))) auth = Some status
      /\ 200 <= status < 300
  end.

(** Every challenge is announced right after its publication. *)
Definition published_first (tr : list Event) : Prop :=
  forall pre kind domain token post, tr = pre ++ EvReady kind domain token :: post ->
  exists pre' e, pre = pre' ++ [e] /\ publishes e kind domain token.

Definition is_ready (e : Event) : bool := match e with EvReady _ _ _ => true | _ => false end.
Definition is_file (e : Event) : bool :=
  match e with EvMkdir _ | EvWrite _ _ | EvChmod _ _ => true | _ => false end.

Lemma published_first_app a b : published_first a -> published_first b -> published_first (a ++ b).
Proof.
  intros Ha Hb pre kind d t post E. apply app_eq_app in E as (l & [[-> E]|[-> E]]).
  - destruct l as [|e l]; cbn in E.
    + destruct (Hb [] kind d t post (eq_sym E)) as (p & e & Ep & _). by destruct p.
    + injection E as <- ->. by apply (Ha pre kind d t l).
  - destruct (Hb l kind d t post E) as (p & e & -> & Hp). exists (a ++ p), e.
    by rewrite app_assoc.
Qed.

Lemma published_first_quiet tr : existsb is_ready tr = false -> published_first tr.
Proof.
  intros Hn pre kind d t post ->. exfalso. rewrite existsb_app in Hn. cbn in Hn.
  by rewrite orb_true_r in Hn.
Qed.

End issue_laws.
#[export] Hint Resolve published_first_app : flexd.

(** Walk through a [do!] block for a trace property closed under append. *)
Ltac walk :=
  repeat match goal with
  | |- context [fst (t_bind _ _)] => apply t_bind_events; [intros; eauto with flexd| |intros ? ?]
  | |- context [fst (t_lift _)] => cbn [t_lift fst]
  | |- context [fst (t_ensure _ _)] => cbn [t_ensure t_lift fst]
  | |- context [fst (t_emit _)] => cbn [t_emit fst]
  end; try reflexivity; try (apply published_first_quiet; reflexivity).

Ltac step := apply t_bind_events; [intros; eauto with flexd|by apply published_first_quiet|intros ? ?].

Section issue_theorems.
Context {A : AcmeEnv}.

Lemma AcmeHttpClient_new_quiet ca : fst (AcmeHttpClient_new ca) = [].
Proof.
  destruct ca as [p|]; [|done]. unfold AcmeHttpClient_new, t_bind. cbn.
  by destruct (ok_or (env_read p) _).
Qed.

Lemma post_dns_webhook_trace cfg d t v :
  quiet is_ready (fst (post_dns_webhook cfg d t v)) /\ quiet is_file (fst (post_dns_webhook cfg d t v)).
Proof. unfold post_dns_webhook. split; walk. Qed.

Lemma publish_trace cfg kind d t :
  quiet is_ready (fst (publish cfg kind d t)) /\ quiet is_file (fst (publish cfg kind d t)).
Proof.
  destruct kind; cbn [publish]; [split; walk|split; walk|apply post_dns_webhook_trace].
Qed.

Lemma publish_Ok cfg kind d t u :
  snd (publish cfg kind d t) = Ok u -> exists pre e, fst (publish cfg kind d t) = pre ++ [e] /\ publishes e kind d t.
Proof.
  destruct kind; cbn [publish].
  - intros _. by exists [], (EvPublishHttp t (key_authorization t)).
  - unfold t_bind, build_tls_alpn_cert. cbn [t_lift snd fst]. case_bool_decide; [done|].
    destruct (self_signed_acme _ _) as [c|] eqn:E; [|done]. intros _. exists [], (EvPublishAlpn d c).
    split; [done|]. by exists c.
  - unfold post_dns_webhook, t_ensure, t_bind. cbn [t_lift t_emit snd fst].
    destruct (ac_dns_webhook cfg) as [w|]; cbn [ok_or snd fst app]; [|done].
    destruct (webhook_client (wh_timeout w)); cbn [snd fst app]; [|done].
    destruct (webhook_auth w) as [auth| |]; cbn [snd fst app]; [|done..].
    set (body := mkBody _ _ _).
    destruct (webhook_send (wh_url w) body auth) as [st|] eqn:E; cbn [ok_or snd fst app]; [|done].
    destruct ((200 <=? st) && (st <? 300)) eqn:Es; [|done]. intros _. b2p.
    exists [], (EvWebhook (wh_url w) body auth). split; [done|].
    exists (wh_url w), auth, st. split_and!; [done..|lia|lia].
Qed.

Lemma respond_quiet cfg az : quiet is_file (fst (respond cfg az)).
Proof.
  unfold respond. walk. case_match; walk. case_match. walk. apply publish_trace.
Qed.

Lemma announce_published cfg kind d t r :
  published_first (fst (t_bind (publish cfg kind d t)
    (fun _ => t_bind (t_emit (EvReady kind d t)) (fun _ => t_ensure r SetReadyFailed)))).
Proof.
  unfold t_bind at 1. destruct (snd (publish cfg kind d t)) eqn:E; cbn [fst].
  2, 3: apply published_first_quiet, publish_trace.
  destruct (publish_Ok _ _ _ _ _ E) as (pre & e & Hpre & He).
  pose proof (proj1 (publish_trace cfg kind d t)) as Hq. rewrite Hpre in *.
  unfold t_bind, t_ensure. cbn [t_emit t_lift fst snd app].
  intros pre1 kind1 d1 t1 post Heq. apply app_eq_app in Heq as (l & [[Hl Hr]|[-> Hr]]).
  - destruct l as [|e1 l]; cbn in Hr.
    + injection Hr as <- <- <-. rewrite app_nil_r in Hl. subst pre1. by exists pre, e.
    + exfalso. injection Hr as <- _. unfold quiet in Hq. rewrite Hl, existsb_app in Hq. cbn in Hq.
      by rewrite orb_true_r in Hq.
  - destruct l as [|e1 l]; cbn in Hr.
    + injection Hr as <- <- <-. exists pre, e. split; [|done]. by rewrite app_nil_r.
    + injection Hr as <- Hr. by destruct l.
Qed.

Lemma respond_published cfg az : published_first (fst (respond cfg az)).
Proof.
  unfold respond. step. case_match; [by apply published_first_quiet|].
  step. step. case_match. step. apply announce_published.
Qed.

Lemma respond_all_trace cfg l :
  published_first (fst (respond_all cfg l)) /\ quiet is_file (fst (respond_all cfg l)).
Proof.
  induction l as [|az l [IH1 IH2]]; cbn [respond_all]; [split; walk|].
  split; walk; try done; [apply respond_published|apply respond_quiet].
Qed.

Lemma obtain_trace cfg names :
  published_first (fst (obtain cfg names)) /\ quiet is_file (fst (obtain cfg names)).
Proof.
  unfold obtain. split; walk; try (rewrite AcmeHttpClient_new_quiet; by try apply published_first_quiet);
    apply respond_all_trace.
Qed.

Lemma obtain_Ok cfg names chain key :
  snd (obtain cfg names) = Ok (chain, key) ->
  ca_poll_ready = Some true /\ ca_finalize = true /\ ca_certificate = Some chain /\ key = new_key_pem.
Proof.
  unfold obtain. intros H.
  repeat match type of H with
  | snd (t_bind _ _) = _ => apply t_bind_ok in H as (? & ? & H & _)
  end.
  unfold t_ensure, t_lift, ok_or in *. cbn [snd] in *.
  repeat case_match; simplify_eq/=; done.
Qed.

(** The five file operations of an issuance that succeeds. *)
Definition file_events (cfg : AcmeConfig) (chain key : str) : list Event :=
  [EvMkdir (ac_cert_dir cfg); EvWrite (cert_path cfg) chain; EvChmod (cert_path cfg) MODE_0600;
   EvWrite (key_path cfg) key; EvChmod (key_path cfg) MODE_0600].

Lemma write_cert_trace cfg chain key :
  exists n, fst (write_cert cfg chain key) = take n (file_events cfg chain key)
  /\ (snd (write_cert cfg chain key) = Ok tt -> n = 5%nat).
Proof.
  unfold write_cert, write_secret, t_bind, t_ensure. cbn [t_emit t_lift fst snd app].
  destruct (env_mkdir _); cbn [fst snd app]; [|by exists 1%nat].
  destruct (env_write (cert_path cfg) _); cbn [fst snd app]; [|by exists 2%nat].
  destruct (env_chmod (cert_path cfg) _); cbn [fst snd app]; [|by exists 3%nat].
  destruct (env_write (key_path cfg) _); cbn [fst snd app]; [|by exists 4%nat].
  exists 5%nat. by destruct (env_chmod (key_path cfg) _).
Qed.

(** An issuance tells the CA a challenge is ready only right after it published
    that challenge: the key authorization or the challenge certificate is in the
    store then, or the webhook has answered with success. *)
Theorem try_issue_announced cfg names st pre kind domain token post :
  fst (try_issue cfg names) = pre ++ EvReady kind domain token :: post ->
  match kind with
  | PickHttp => get_http01 (store_after st pre) token = Some (key_authorization token)
  | PickAlpn => exists cert, get_tls_alpn (store_after st pre) domain = Some cert
      /\ self_signed_acme domain (key_digest (key_authorization token)) = Some cert
  | PickDns => exists pre' e, pre = pre' ++ [e] /\ publishes e PickDns domain token
  end.
Proof.
  intros E.
  assert (published_first (fst (try_issue cfg names))) as Hp.
  { unfold try_issue. apply t_bind_events; [eauto with flexd|apply obtain_trace|].
    intros [chain key] _. apply published_first_quiet. cbn [fst snd].
    destruct (write_cert_trace cfg chain key) as (n & -> & _).
    by do 6 (destruct n as [|n]; [done|]). }
  destruct (Hp _ _ _ _ _ E) as (pre' & e & -> & He). unfold store_after. rewrite foldl_app. cbn [foldl].
  destruct kind; cbn in He.
  - subst e. apply lookup_insert_eq.
  - destruct He as (cert & -> & Hs). exists cert. split; [apply lookup_insert_eq|done].
  - by exists pre', e.
Qed.

(** An issuance touches the disk only after the CA has finalised the order and
    returned a chain; it then creates the directory and writes that chain and the
    new key, each set to 0600 after its write, stopping at the first failure; when it
    reports success all five operations were done. *)
Theorem try_issue_files cfg names :
  exists net n chain,
    fst (try_issue cfg names) = net ++ take n (file_events cfg chain new_key_pem)
    /\ quiet is_file net
    /\ ((0 < n)%nat -> ca_poll_ready = Some true /\ ca_finalize = true /\ ca_certificate = Some chain)
    /\ (snd (try_issue cfg names) = Ok tt -> n = 5%nat).
Proof.
  unfold try_issue, t_bind. destruct (snd (obtain cfg names)) as [[chain key]|e|] eqn:E; cbn [fst snd].
  - apply obtain_Ok in E as (Hr & Hf & Hc & ->).
    destruct (write_cert_trace cfg chain new_key_pem) as (n & Hn & Hok).
    exists (fst (obtain cfg names)), n, chain. rewrite Hn.
    split_and!; [done|apply obtain_trace|done|done].
  - exists (fst (obtain cfg names)), 0%nat, []. rewrite app_nil_r. split_and!; [done|apply obtain_trace|lia|done].
  - exists (fst (obtain cfg names)), 0%nat, []. rewrite app_nil_r. split_and!; [done|apply obtain_trace|lia|done].
Qed.
End issue_theorems.

(** ** Concrete inputs *)

Section witnesses.
(** A CA that rate-limits twice, asking for 7 seconds, and then issues. *)
Definition demo_try (n : nat) : res unit unit * Z :=
  if bool_decide (n < 3)%nat then (Err tt, 7) else (Ok tt, 0).

Lemma issue_with_retry_spec_witness :
  issue_with_retry demo_try = (Ok tt, [7; 7])
  /\ exists k, (1 <= k <= 5)%nat /\ first_success demo_try k /\ 2%nat = (k - 1)%nat.
Proof.
  split; [reflexivity|].
  refine (proj1 (issue_with_retry_spec demo_try _) _); [|reflexivity].
  intros n. unfold demo_try. destruct (bool_decide _); exact I.
Defined.

(** One domain, one http-01 challenge, everything succeeds. *)
Definition demo_acme : AcmeEnv := {|
  CertKey := str; RootCert := str;
  env_read _ := None; env_mkdir _ := true; env_write _ _ := true; env_chmod _ _ := true;
  parse_roots _ := []; add_root _ := true;
  b64_url_safe_no_pad _ := None; b64_standard _ := None;
  key_authorization t := t ++ ".thumb"; key_digest k := k; key_dns_value k := k;
  self_signed_acme d _ := Some d;
  webhook_client _ := true; webhook_send _ _ _ := Some 200;
  ca_account := true; ca_new_order := true;
  ca_authorizations :=
    [Some (mkAuthz false (Some ("a.example" : str)) [(Dns01, "x" : str); (Http01, "tok" : str)] true)];
  ca_poll_ready := Some true; make_csr _ := Some ("csr" : str); ca_finalize := true;
  ca_certificate := Some ("chain" : str); new_key_pem := "key";
|}.
#[local] Existing Instance demo_acme.

Definition demo_acme_config : AcmeConfig :=
  mkAcme true "a@b" "https://ca" false (strs ["a.example"]%string) (strs ["tls-alpn-01"; "http-01"]%string)
         None None 30 None true None "/c" None.

Lemma try_issue_announced_witness :
  snd (try_issue demo_acme_config []) = Ok tt
  /\ get_http01 (store_after (ChallengeStore_new _)
       [EvAccount "https://ca" "mailto:a@b" true None; EvNewOrder [("a.example" : str)];
        EvPublishHttp "tok" "tok.thumb"]) "tok" = Some (key_authorization "tok").
Proof.
  split; [vm_compute; reflexivity|].
  refine (try_issue_announced demo_acme_config [] (ChallengeStore_new _) _ PickHttp "a.example" "tok"
            (EvFinalize "csr" :: file_events demo_acme_config "chain" "key") _).
  vm_compute. reflexivity.
Defined.
End witnesses.
