(* ===== verification/Wire.v ===== *)
(** * Per-connection protocol code of the server (src/src/server.rs)

    The bare-LF screen of plaintext connections and the reader that replays the
    screened bytes, the mail session, the per-stream guard of HTTP/2 connections
    and the HTTP/3 body limit.  A socket is a state with its read operation.
    Theorems: the screen finds exactly the bare LFs of the header section it was
    given, the replaying reader loses nothing, the mail stub never acknowledges
    what it does not do, a connection is killed exactly when its reset tracker
    fires, and the body that reaches the HTTP/3 handler is whole and bounded. *)

From S2P Require Import Prelude.
From S2P Require Import Str.
From S2P Require Import Extern.
From S2P Require Import RateLimit.
From S2P Require Import Instances.

Definition CR : ascii := byte 13.
Definition LF : ascii := byte 10.
Definition CRLF : str := [CR; LF].
Definition CRLFCRLF : str := [CR; LF; CR; LF].

(** ** The bare-LF screen *)

(** [buf.windows(p.len()).position(|w| w == p)]. *)
Fixpoint position_from (i : nat) (p buf : str) : option nat :=
  if starts_with buf p then Some i
  else match buf with
  | [] => None
  | _ :: r => position_from (S i) p r
  end.
Definition position (p buf : str) : option nat := position_from 0 p buf.

Definition has_bare_lf (buf : str) : bool :=
  let header_end := match position CRLFCRLF buf with
                    | Some p => (p + 4)%nat
                    | None => length buf
                    end in
  let header_section := take header_end buf in
  existsb (fun i => bool_decide (header_section !! i = Some LF)
                    && (bool_decide (i = 0%nat)
                        || negb (bool_decide (header_section !! (i - 1)%nat = Some CR))))
          (seq 0 (length header_section)).

(** An LF at [i] that no CR precedes. *)
Definition bare_lf_at (buf : str) (i : nat) : Prop :=
  buf !! i = Some LF /\ (i = 0%nat \/ buf !! (i - 1)%nat <> Some CR).
(** A blank line at [p]. *)
Definition blank_line_at (buf : str) (p : nat) : Prop := take 4 (drop p buf) = CRLFCRLF.

Lemma starts_with_take s p : starts_with s p = true <-> take (length p) s = p.
Proof.
  unfold starts_with. revert s. induction p as [|c p IH]; intros s; cbn [strip_prefix length].
  - by rewrite take_0.
  - destruct s as [|d s]; [done|]. cbn [take]. case_decide as E.
    + subst. rewrite IH. split; [by intros ->|congruence].
    + split; [done|]. congruence.
Qed.

Lemma position_from_spec i p buf :
  match position_from i p buf with
  | Some n => (i <= n)%nat /\ take (length p) (drop (n - i) buf) = p
      /\ forall m, (i <= m < n)%nat -> take (length p) (drop (m - i) buf) <> p
  | None => forall m, (i <= m)%nat -> take (length p) (drop (m - i) buf) <> p
  end.
Proof.
  revert i. induction buf as [|c buf IH]; intros i; cbn [position_from];
    destruct (starts_with _ p) eqn:E; cbn iota.
  - apply starts_with_take in E. rewrite Nat.sub_diag. split; [lia|]. split; [exact E|]. intros; lia.
  - intros m Hm. rewrite drop_nil. intros Ht. apply starts_with_take in Ht. congruence.
  - apply starts_with_take in E. rewrite Nat.sub_diag. split; [lia|]. split; [exact E|]. intros; lia.
  - assert (take (length p) (c :: buf) <> p) as Hne.
    { intros Ht. apply starts_with_take in Ht. congruence. }
    specialize (IH (S i)). destruct (position_from (S i) p buf) as [n|].
    + destruct IH as (Hn & Ht & Hbefore). split_and!; [lia| |].
      * replace (n - i)%nat with (S (n - S i)) by lia. done.
      * intros m Hm. destruct (decide (m = i)) as [->|]; [by rewrite Nat.sub_diag|].
        replace (m - i)%nat with (S (m - S i)) by lia. apply Hbefore. lia.
    + intros m Hm. destruct (decide (m = i)) as [->|]; [by rewrite Nat.sub_diag|].
      replace (m - i)%nat with (S (m - S i)) by lia. apply IH. lia.
Qed.

Lemma blank_line_bytes buf p j :
  blank_line_at buf p -> (j < 4)%nat -> buf !! (p + j)%nat = CRLFCRLF !! j.
Proof.
  unfold blank_line_at. intros <- Hj. rewrite lookup_take_lt by done. by rewrite lookup_drop.
Qed.

(** No LF of a blank line is bare. *)
Lemma bare_lf_not_in_blank buf p i :
  blank_line_at buf p -> bare_lf_at buf i -> (i < p)%nat \/ (p + 4 <= i)%nat.
Proof.
  intros Hb [Hi Hprev]. destruct (decide (i < p)%nat); [by left|]. destruct (decide (p + 4 <= i)%nat); [by right|].
  exfalso. pose proof (blank_line_bytes buf p (i - p) Hb ltac:(lia)) as Hl.
  replace (p + (i - p))%nat with i in Hl by lia. rewrite Hi in Hl.
  pose proof (blank_line_bytes buf p (i - p - 1) Hb ltac:(lia)) as Hl'.
  destruct (i - p)%nat as [|[|[|[|j]]]] eqn:Ej; try (vm_compute in Hl; congruence); [|].
  - replace (p + (1 - 1))%nat with (i - 1)%nat in Hl' by lia. destruct Hprev as [|Hprev]; [lia|]. by apply Hprev.
  - replace (p + (3 - 1))%nat with (i - 1)%nat in Hl' by lia. destruct Hprev as [|Hprev]; [lia|]. by apply Hprev.
Qed.

Lemma has_bare_lf_scan buf :
  has_bare_lf buf = true
  <-> exists i, bare_lf_at buf i
      /\ (i < match position CRLFCRLF buf with Some p => p + 4 | None => length buf end)%nat.
Proof.
  unfold has_bare_lf. set (e := match position CRLFCRLF buf with Some p => _ | None => _ end).
  rewrite existsb_bool_elem. split.
  - intros (i & Hi & Ht). apply elem_of_seq in Hi. rewrite length_take in Hi. b2p.
    rewrite lookup_take_lt in H by lia. exists i. split; [|lia]. split; [done|].
    apply orb_true_iff in H0 as [H0|H0]; b2p; [by left|right].
    intros Hc. apply H0. by rewrite lookup_take_lt by lia.
  - intros (i & [Hi Hprev] & He). exists i.
    assert (i < length buf)%nat by (by apply lookup_lt_Some in Hi). split.
    + apply elem_of_seq. rewrite length_take. lia.
    + apply andb_true_iff. split; [apply bool_decide_eq_true; by rewrite lookup_take_lt|].
      apply orb_true_iff. destruct Hprev as [->|Hprev]; [by left|right].
      apply negb_true_iff, bool_decide_eq_false. by rewrite lookup_take_lt by lia.
Qed.

(** C40. The screen answers true exactly when some LF of the buffer is not preceded
    by CR and no blank line (CR LF CR LF) ends before it: an LF of the header
    section, and never one of a body. *)
Theorem has_bare_lf_spec buf :
  has_bare_lf buf = true
  <-> exists i, bare_lf_at buf i /\ forall p, blank_line_at buf p -> (i < p + 4)%nat.
Proof.
  rewrite has_bare_lf_scan. unfold position. pose proof (position_from_spec 0 CRLFCRLF buf) as Hp.
  destruct (position_from 0 CRLFCRLF buf) as [n|].
  - destruct Hp as (_ & Hn & Hfirst). rewrite Nat.sub_0_r in Hn. split.
    + intros (i & Hi & Hlt). exists i. split; [done|]. intros p Hb.
      assert (n <= p)%nat; [|lia]. destruct (decide (p < n)%nat); [|lia].
      exfalso. apply (Hfirst p ltac:(lia)). by rewrite Nat.sub_0_r.
    + intros (i & Hi & Hall). exists i. split; [done|]. by apply Hall.
  - split.
    + intros (i & Hi & _). exists i. split; [done|]. intros p Hb. exfalso. apply (Hp p ltac:(lia)).
      by rewrite Nat.sub_0_r.
    + intros (i & Hi & _). exists i. split; [done|]. destruct Hi as [Hi _]. by apply lookup_lt_Some in Hi.
Qed.

(** ** The reader that replays the screened bytes *)

Section guard.
(** The socket, and what one read of at most [n] bytes gives. *)
Context {S : Type}.
Variable inner_read : S -> nat -> str * S.

Record BareLfGuard : Type := mkGuard {
  g_inner : S;
  g_prefix : str;
  g_prefix_pos : nat;
  g_rejected : bool;
}.
Definition BareLfGuard_new (inner : S) (prefix : str) (rejected : bool) : BareLfGuard :=
  mkGuard inner prefix 0 rejected.

Definition poll_read (g : BareLfGuard) (cap : nat) : str * BareLfGuard :=
  if g_rejected g then ([], g)
  else if bool_decide (g_prefix_pos g < length (g_prefix g))%nat then
    let remaining := drop (g_prefix_pos g) (g_prefix g) in
    let to_copy := min (length remaining) cap in
    (take to_copy remaining,
     mkGuard (g_inner g) (g_prefix g) (g_prefix_pos g + to_copy) (g_rejected g))
  else
    let '(bytes, inner) := inner_read (g_inner g) cap in
    (bytes, mkGuard inner (g_prefix g) (g_prefix_pos g) (g_rejected g)).

(** Reads with the given buffer sizes: what each gives, and the reader after. *)
Fixpoint reads (g : BareLfGuard) (caps : list nat) : list str * BareLfGuard :=
  match caps with
  | [] => ([], g)
  | cap :: r =>
      let '(out, g) := poll_read g cap in
      let '(outs, g) := reads g r in
      (out :: outs, g)
  end.

(** The outcome of the first read of a plaintext connection. *)
Inductive Peek : Type := PeekBytes (bytes : str) | PeekFailed | PeekTimeout.
Inductive Screened : Type :=
  | ScreenError | Closed | Answered (response : str) | ServeHttp1 (g : BareLfGuard).

Definition BAD_REQUEST_RESPONSE : str :=
  ("HTTP/1.1 400 Bad Request" : str) ++ CRLF ++ "Content-Length: 0" ++ CRLF ++ "Connection: close" ++ CRLF ++ CRLF.

Definition serve_http1_with_bare_lf_check (stream : S) (peek : Peek) : Screened :=
  match peek with
  | PeekFailed => ScreenError
  | PeekTimeout => Closed
  | PeekBytes peek_buf =>
      if bool_decide (length peek_buf = 0%nat) then Closed
      else if has_bare_lf peek_buf then Answered BAD_REQUEST_RESPONSE
      else ServeHttp1 (BareLfGuard_new stream peek_buf false)
  end.

(** [content]: the bytes the peer still has to deliver. *)
Variable content : S -> str.
Hypothesis read_content : forall s n, content s = fst (inner_read s n) ++ content (snd (inner_read s n)).
Hypothesis read_bound : forall s n, (length (fst (inner_read s n)) <= n)%nat.

Definition unread (g : BareLfGuard) : str := drop (g_prefix_pos g) (g_prefix g) ++ content (g_inner g).

Lemma poll_read_unread g cap :
  g_rejected g = false ->
  let '(out, g') := poll_read g cap in
  unread g = out ++ unread g' /\ g_rejected g' = false /\ (length out <= cap)%nat.
Proof.
  intros Hr. unfold poll_read, unread. rewrite Hr. case_bool_decide as Hp; cbn [g_inner g_prefix g_prefix_pos g_rejected].
  - split; [|split; [done|rewrite length_take; lia]].
    set (k := min _ cap). rewrite app_assoc. f_equal. rewrite <- drop_drop. symmetry. apply take_drop.
  - destruct (inner_read (g_inner g) cap) as [b i] eqn:E. cbn [g_inner g_prefix g_prefix_pos g_rejected].
    pose proof (read_content (g_inner g) cap) as Hc. pose proof (read_bound (g_inner g) cap) as Hb.
    rewrite E in Hc, Hb. cbn [fst snd] in *. split; [|done].
    rewrite drop_ge by lia. cbn. done.
Qed.

(** A plaintext connection is served exactly when its first bytes pass the
    screen; HTTP then reads, whatever the sizes of its reads, those bytes followed
    by the rest of the connection, with none lost, repeated or reordered. *)
Theorem screened_stream stream peek_buf g caps :
  serve_http1_with_bare_lf_check stream (PeekBytes peek_buf) = ServeHttp1 g ->
  has_bare_lf peek_buf = false
  /\ concat (fst (reads g caps)) ++ unread (snd (reads g caps)) = peek_buf ++ content stream
  /\ Forall2 (fun out cap => length out <= cap)%nat (fst (reads g caps)) caps.
Proof.
  unfold serve_http1_with_bare_lf_check. case_bool_decide; [done|]. destruct (has_bare_lf peek_buf); [done|].
  intros [= <-]. split; [done|].
  change (peek_buf ++ content stream) with (unread (BareLfGuard_new stream peek_buf false)).
  assert (g_rejected (BareLfGuard_new stream peek_buf false) = false) as Hr by done.
  revert Hr. generalize (BareLfGuard_new stream peek_buf false). clear H.
  induction caps as [|cap caps IH]; intros g Hr; cbn [reads]; [by split|].
  pose proof (poll_read_unread g cap Hr) as Hp. destruct (poll_read g cap) as [out g1].
  destruct Hp as (Hu & Hr1 & Hlen). specialize (IH g1 Hr1). destruct (reads g1 caps) as [outs g2].
  cbn [fst snd concat] in *. destruct IH as [IH1 IH2]. split; [|by constructor].
  rewrite Hu, <- app_assoc. by f_equal.
Qed.
End guard.

(** The screen sees only the first read: a bare LF in a later segment of the same
    header section goes through. *)
Lemma bare_lf_later_segment :
  exists first rest, has_bare_lf first = false /\ has_bare_lf (first ++ rest) = true.
Proof.
  exists (("GET / HTTP/1.1" : str) ++ CRLF), (("Host: a" : str) ++ [LF] ++ CRLFCRLF).
  split; vm_compute; reflexivity.
Qed.

(** ** The mail session *)

Section mail.
Context {U : Unicode}.

Inductive Line : Type := Eof | Invalid | ReadLine (line rest : str).
(** [read_line]: up to and with the next LF, or to the end; text must be UTF-8. *)
Definition read_line (input : str) : Line :=
  match input with
  | [] => Eof
  | _ =>
      let n := match find_char input LF with Some i => Datatypes.S i | None => length input end in
      match from_utf8 (take n input) with
      | Some line => ReadLine line (drop n input)
      | None => Invalid
      end
  end.

Definition reply_ok : str := ("250 2.0.0 OK" : str) ++ CRLF.
Definition reply_hello : str := ("250 flexd" : str) ++ CRLF.
Definition reply_bye : str := ("221 2.0.0 Bye" : str) ++ CRLF.
Definition reply_too_long : str := ("500 5.5.6 Command line too long" : str) ++ CRLF.
Definition reply_stub : str := ("502 5.5.1 Command not implemented (flexd mail stub)" : str) ++ CRLF.
Definition greeting : str := ("220 flexd ESMTP" : str) ++ CRLF.

Variable max_line_len : Z.
(** Whether the flush after the [n]-th reply succeeds. *)
Variable flush_ok : nat -> bool.

(** The lines read with their replies, in order. *)
Fixpoint mail_loop (fuel n : nat) (input : str) : list (str * str) :=
  match fuel with
  | O => []
  | Datatypes.S fuel =>
      match read_line input with
      | Eof => []
      | Invalid => []
      | ReadLine line rest =>
          if max_line_len <? Z.of_nat (length line) then [(line, reply_too_long)]
          else
            let cmd := to_uppercase (trim line) in
            if starts_with cmd "QUIT" then [(line, reply_bye)]
            else
              let reply :=
                if starts_with cmd "EHLO" || starts_with cmd "HELO" then reply_hello
                else if starts_with cmd "NOOP" then reply_ok
                else reply_stub in
              (line, reply) :: (if flush_ok n then mail_loop fuel (Datatypes.S n) rest else [])
      end
  end.

(** [handle_mail_session]: the greeting, then a transcript; each line takes a byte,
    so the input's length is enough fuel. *)
Definition handle_mail_session (greet_ok : bool) (input : str) : list (str * str) :=
  if greet_ok then mail_loop (length input) 0 input else [].

Lemma read_line_split input line rest :
  read_line input = ReadLine line rest -> input = line ++ rest /\ (length rest < length input)%nat.
Proof.
  unfold read_line. destruct input as [|c s] eqn:Ei; [done|]. rewrite <- Ei.
  assert (0 < match find_char input LF with Some i => Datatypes.S i | None => length input end)%nat as Hn.
  { destruct (find_char input LF); [lia|]. subst. cbn. lia. }
  set (n := match find_char input LF with Some i => _ | None => _ end) in *.
  unfold from_utf8. destruct (utf8_valid _); [|done]. intros [= <- <-].
  split; [by rewrite take_drop|]. rewrite length_drop. subst input. cbn [length] in *. lia.
Qed.

(** A line that ends the session. *)
Definition closes (line : str) : bool :=
  (max_line_len <? Z.of_nat (length line)) || starts_with (to_uppercase (trim line)) "QUIT".

Definition proper (input : str) (n : nat) (tr : list (str * str)) : Prop :=
  (forall line reply, (line, reply) ∈ tr -> starts_with reply "250" = true ->
     exists verb : str, verb ∈ strs ["EHLO"; "HELO"; "NOOP"]%string
       /\ starts_with (to_uppercase (trim line)) verb = true)
  /\ (forall pre line reply post, tr = pre ++ (line, reply) :: post -> closes line = true -> post = [])
  /\ exists rest, input = concat (map fst tr) ++ rest
     /\ (read_line rest = Eof \/ read_line rest = Invalid
         \/ exists pre line reply, tr = pre ++ [(line, reply)]
              /\ (closes line = true \/ flush_ok (n + length pre) = false)).

Lemma reply_stub_not_250 : starts_with reply_stub "250" = false.
Proof. vm_compute. reflexivity. Qed.
Lemma reply_close_not_250 r : r = reply_too_long \/ r = reply_bye -> starts_with r "250" = false.
Proof. intros [-> | ->]; vm_compute; reflexivity. Qed.

Lemma proper_last input line rest reply n :
  input = line ++ rest -> closes line = true -> reply = reply_too_long \/ reply = reply_bye ->
  proper input n [(line, reply)].
Proof.
  intros -> Hc Hr. split; [|split].
  - intros l r Hin H2. apply list_elem_of_singleton in Hin as [= -> ->].
    by rewrite reply_close_not_250 in H2.
  - intros [|x pre] l r post E _; [by injection E|]. by destruct pre.
  - exists rest. cbn. rewrite app_nil_r. split; [done|]. right. right. exists [], line, reply. auto.
Qed.

Lemma proper_cons input line rest reply n tr :
  input = line ++ rest -> closes line = false ->
  (starts_with reply "250" = true -> exists verb : str, verb ∈ strs ["EHLO"; "HELO"; "NOOP"]%string
       /\ starts_with (to_uppercase (trim line)) verb = true) ->
  (flush_ok n = true /\ proper rest (Datatypes.S n) tr \/ flush_ok n = false /\ tr = []) ->
  proper input n ((line, reply) :: tr).
Proof.
  intros -> Hc Hr [[Hf (H1 & H2 & rest' & -> & Hend)]|[Hf ->]].
  - split; [|split].
    + intros l r Hin. apply elem_of_cons in Hin as [[= -> ->]|Hin]; [done|]. by apply H1.
    + intros [|x pre] l r post E Hl; [injection E as -> -> ->; congruence|].
      injection E as <- E. by apply (H2 pre l r post).
    + exists rest'. cbn. rewrite <- app_assoc. split; [done|].
      destruct Hend as [|[|(pre & l & r & -> & Hl)]]; [by left|by right; left|].
      right. right. exists ((line, reply) :: pre), l, r. split; [done|]. cbn [length].
      by rewrite Nat.add_succ_r.
  - split; [|split].
    + intros l r Hin. by apply list_elem_of_singleton in Hin as [= -> ->].
    + intros [|x pre] l r post E Hl; [injection E as -> -> ->; congruence|]. by destruct pre.
    + exists rest. cbn. rewrite app_nil_r. split; [done|]. right. right.
      exists [], line, reply. cbn. rewrite Nat.add_0_r. auto.
Qed.

Lemma mail_loop_proper fuel n input :
  (length input <= fuel)%nat -> proper input n (mail_loop fuel n input).
Proof.
  revert input n.
  induction fuel as [|fuel IH]; intros input n Hf; cbn [mail_loop].
  - destruct input; [|cbn in Hf; lia]. split; [set_solver|]. split; [by intros []|].
    exists []. split; [done|]. by left.
  - destruct (read_line input) as [| |line rest] eqn:El.
    + split; [set_solver|]. split; [by intros []|]. exists input. split; [done|]. by left.
    + split; [set_solver|]. split; [by intros []|]. exists input. split; [done|]. by right; left.
    + apply read_line_split in El as [Hi Hlen].
      destruct (max_line_len <? Z.of_nat (length line)) eqn:Em.
      { apply (proper_last _ _ rest); [done| |by left]. unfold closes. by rewrite Em. }
      destruct (starts_with (to_uppercase (trim line)) "QUIT") eqn:Eq.
      { apply (proper_last _ _ rest); [done| |by right]. unfold closes. by rewrite Em, Eq. }
      apply (proper_cons _ _ rest); [done|unfold closes; by rewrite Em, Eq| |].
      * intros Hr.
        destruct (starts_with (to_uppercase (trim line)) "EHLO") eqn:E1;
          [exists "EHLO"; split; [set_solver|done]|].
        destruct (starts_with (to_uppercase (trim line)) "HELO") eqn:E2;
          [exists "HELO"; split; [set_solver|done]|].
        destruct (starts_with (to_uppercase (trim line)) "NOOP") eqn:E3;
          [exists "NOOP"; split; [set_solver|done]|].
        cbn [orb] in Hr. by rewrite reply_stub_not_250 in Hr.
      * destruct (flush_ok n); [left|by right]. split; [done|]. apply IH. lia.
Qed.

(** A mail session ends on every input.  It answers each line once, in order;
    a line over the limit and QUIT are answered and end it, and nothing else does
    but the end of the input, bytes that are not UTF-8 or a failed flush; only EHLO,
    HELO and NOOP are ever acknowledged with 250, so no message is accepted. *)
Theorem mail_session_spec input :
  proper input 0 (handle_mail_session true input).
Proof. by apply mail_loop_proper. Qed.
End mail.

(** *** The mail listener *)

Section mail_accept.
Context {U : Unicode}.

(** A client: whether the greeting and each flush reach it, and what it sends. *)
Record MailClient : Type := mkMailClient {
  mc_greet_ok : bool;
  mc_flush_ok : nat -> bool;
  mc_input : str;
}.
(** The arm each turn of the loop takes. *)
Inductive MailArm : Type := MailShutdown | MailAccepted (client : MailClient) | MailAcceptError.

(** The transcript of each session spawned; sessions share nothing. *)
Fixpoint accept_mail_loop (max_line_length : option Z) (arms : list MailArm) : list (list (str * str)) :=
  match arms with
  | [] | MailShutdown :: _ => []
  | MailAccepted c :: r =>
      handle_mail_session (default 4096 max_line_length) (mc_flush_ok c) (mc_greet_ok c) (mc_input c)
      :: accept_mail_loop max_line_length r
  | MailAcceptError :: r => accept_mail_loop max_line_length r
  end.

Lemma mail_loop_limited max_line flush_ok fuel n input line reply later :
  (forall before, mail_loop max_line flush_ok fuel n input = before ++ (line, reply) :: later ->
     (Z.of_nat (length line) <= max_line \/ reply = reply_too_long /\ later = [])).
Proof.
  revert n input. induction fuel as [|fuel IH]; intros n input before E; cbn [mail_loop] in E; [by destruct before|].
  destruct (read_line input) as [| |l rest]; [by destruct before..|].
  destruct (max_line <? Z.of_nat (length l)) eqn:El.
  - destruct before as [|x before]; [injection E as <- <- <-; by right|]. injection E as _ E. by destruct before.
  - apply Z.ltb_ge in El. destruct (starts_with _ "QUIT").
    + destruct before as [|x before]; [injection E as <- _ _; by left|]. injection E as _ E. by destruct before.
    + destruct before as [|x before]; [injection E as <- _ _; by left|]. injection E as _ E.
      destruct (flush_ok n); [by eapply IH|by destruct before].
Qed.

(** In every session of the listener a line beyond the configured limit, or beyond
    4096 bytes when none is configured, is refused and is the last. *)
Theorem mail_lines_limited max_line_length arms transcript before line reply later :
  transcript ∈ accept_mail_loop max_line_length arms -> transcript = before ++ (line, reply) :: later ->
  default 4096 max_line_length < Z.of_nat (length line) -> reply = reply_too_long /\ later = [].
Proof.
  intros Hin E Hl. assert (exists c, transcript
    = handle_mail_session (default 4096 max_line_length) (mc_flush_ok c) (mc_greet_ok c) (mc_input c)) as [c Hc].
  { induction arms as [|[|c|] arms IH]; cbn in Hin; [set_solver..| |by apply IH].
    apply elem_of_cons in Hin as [->|Hin]; [by eexists|by apply IH]. }
  rewrite E in Hc. unfold handle_mail_session in Hc. destruct (mc_greet_ok c); [|by destruct before].
  destruct (mail_loop_limited _ _ _ _ _ line reply later before (eq_sym Hc)) as [?|?]; [lia|done].
Qed.

(** The limit is looked at when the line is complete: one without an end is read to
    the end of the input, whatever its length. *)
Lemma mail_line_buffered_gap input :
  input <> [] -> LF ∉ input -> utf8_valid input = true -> read_line input = ReadLine input [].
Proof.
  intros Hne Hlf Hv. unfold read_line. destruct input as [|c s]; [done|].
  rewrite (proj2 (find_char_None _ _) Hlf). rewrite take_ge by lia. unfold from_utf8. rewrite Hv.
  by rewrite drop_ge by lia.
Qed.
End mail_accept.

(** ** HTTP/2 stream guards *)

(** How a request future ends: completed, or dropped by the peer at some instant. *)
Inductive StreamEnd : Type := Completed | DroppedAt (now : Z).

(** [StreamDropGuard::drop]: the tracker after it, and whether it trips the kill
    switch. *)
Definition StreamDropGuard_drop (tracker : ResetTracker) (e : StreamEnd) : ResetTracker * bool :=
  match e with
  | Completed => (tracker, false)
  | DroppedAt now => record_reset tracker now
  end.

(** One connection: the streams that end until the kill switch trips; then the
    connection shuts down. *)
Fixpoint h2_loop (tracker : ResetTracker) (ends : list StreamEnd) : bool :=
  match ends with
  | [] => false
  | e :: r =>
      let '(tracker, kill) := StreamDropGuard_drop tracker e in
      if kill then true else h2_loop tracker r
  end.
Definition NANOS : Z := 1000000000.
Definition serve_http2 (count window_seconds t0 : Z) (ends : list StreamEnd) : bool :=
  h2_loop (ResetTracker_new count (window_seconds * NANOS) t0) ends.

(** The instants of the dropped streams. *)
Definition drops (ends : list StreamEnd) : list Z :=
  omap (fun e => match e with Completed => None | DroppedAt now => Some now end) ends.

(** A connection is killed exactly when the tracker, fed the peer's resets in
    order, fires on one of them; a stream that completes never counts. *)
Theorem serve_http2_kills count window_seconds t0 ends :
  serve_http2 count window_seconds t0 ends = true
  <-> true ∈ snd (record_all (ResetTracker_new count (window_seconds * NANOS) t0) (drops ends)).
Proof.
  unfold serve_http2. generalize (ResetTracker_new count (window_seconds * NANOS) t0).
  induction ends as [|[|now] ends IH]; intros t; cbn [h2_loop StreamDropGuard_drop].
  - split; [done|]. intros H. by apply elem_of_nil in H.
  - apply IH.
  - cbn [drops omap list_omap record_all]. destruct (record_reset t now) as [t1 kill].
    specialize (IH t1). unfold drops in IH. destruct (record_all t1 _) as [t2 bs]. cbn [snd] in *.
    rewrite elem_of_cons. destruct kill; [by split; [left|]|]. rewrite IH. split; [by right|]. by intros [|].
Qed.

(** ** The HTTP/3 request body *)

(** What [recv_data] gives: a chunk as its contiguous segments, the end, an error. *)
Inductive Recv : Type := Data (segments : list str) | End | RecvError.
(** [Abandoned]: the task returns; [Waiting]: the peer has sent nothing more yet. *)
Inductive Collected : Type := Overflow | Body (bytes : str) | Abandoned | Waiting.

(** One chunk: [None] once the body is over the limit. *)
Fixpoint take_chunk (max_body : Z) (body : str) (segments : list str) : option str :=
  match segments with
  | [] => Some body
  | bytes :: r =>
      let body := body ++ bytes in
      if max_body <? Z.of_nat (length body) then None else take_chunk max_body body r
  end.
Fixpoint h3_collect (max_body : Z) (body : str) (rs : list Recv) : Collected :=
  match rs with
  | [] => Waiting
  | Data segments :: r =>
      match take_chunk max_body body segments with
      | Some body => h3_collect max_body body r
      | None => Overflow
      end
  | End :: _ => Body body
  | RecvError :: _ => Abandoned
  end.

Lemma take_chunk_spec max body segs :
  Z.of_nat (length body) <= max ->
  take_chunk max body segs
  = if Z.of_nat (length (body ++ concat segs)) <=? max then Some (body ++ concat segs) else None.
Proof.
  revert body. induction segs as [|s segs IH]; intros body Hb; cbn [take_chunk concat].
  - rewrite app_nil_r. by rewrite (proj2 (Z.leb_le _ _) Hb).
  - destruct (max <? Z.of_nat (length (body ++ s))) eqn:E; b2p.
    + rewrite (proj2 (Z.leb_gt _ _)); [done|]. rewrite !length_app in *. lia.
    + rewrite IH by lia. by rewrite <- app_assoc.
Qed.

(** Chunks are taken together, whatever follows them. *)
Lemma h3_collect_chunks max body chunks rest :
  Z.of_nat (length body) <= max ->
  h3_collect max body (map Data chunks ++ rest)
  = if Z.of_nat (length (body ++ concat (concat chunks))) <=? max
    then h3_collect max (body ++ concat (concat chunks)) rest else Overflow.
Proof.
  revert body. induction chunks as [|c cs IH]; intros body Hb; cbn [map app h3_collect concat].
  - rewrite app_nil_r. by rewrite (proj2 (Z.leb_le _ _) Hb).
  - rewrite take_chunk_spec by done. rewrite concat_app.
    destruct (Z.of_nat (length (body ++ concat c)) <=? max) eqn:E; b2p.
    + rewrite IH by done. by rewrite <- app_assoc.
    + rewrite (proj2 (Z.leb_gt _ _)); [done|]. rewrite !length_app in *. lia.
Qed.

(** A body the peer completes reaches the handler whole when it fits the limit
    and not at all otherwise, however it is cut into chunks; and whatever the peer
    sends, a body over the limit is never handed on. *)
Theorem h3_collect_spec (max : Z) :
  0 <= max ->
  (forall chunks later,
     h3_collect max [] (map Data chunks ++ End :: later)
     = if Z.of_nat (length (concat (concat chunks))) <=? max then Body (concat (concat chunks)) else Overflow)
  /\ (forall rs b, h3_collect max [] rs = Body b -> Z.of_nat (length b) <= max).
Proof.
  intros Hm. assert (Z.of_nat (length (@nil ascii)) <= max) as H0 by done. split.
  - intros chunks later. by rewrite (h3_collect_chunks max [] chunks (End :: later) H0).
  - intros rs. revert H0. generalize (@nil ascii).
    induction rs as [|[segs| |] rs IH]; intros body Hb b; cbn [h3_collect]; [done| | |done].
    + rewrite take_chunk_spec by done. destruct (_ <=? max) eqn:E; [|done]. b2p. by apply IH.
    + by intros [= <-].
Qed.

(** ** Concrete inputs *)

(** A socket whose peer has sent a string. *)
Definition string_read (s : str) (n : nat) : str * str := (take n s, drop n s).

Lemma screened_stream_witness :
  let g := BareLfGuard_new ("!" : str) "ab" false in
  concat (fst (reads string_read g [1; 5; 1]%nat)) ++ unread (fun s => s) (snd (reads string_read g [1; 5; 1]%nat))
  = ("ab" : str) ++ "!".
Proof.
  refine (proj1 (proj2 (screened_stream string_read (fun s => s) _ _ ("!" : str) "ab" _ [1; 5; 1]%nat _))).
  - intros s n. symmetry. apply take_drop.
  - intros s n. cbn. rewrite length_take. lia.
  - vm_compute. reflexivity.
Defined.

Lemma h3_collect_spec_witness :
  h3_collect 3 [] [Data [("a" : str); ("b" : str)]; Data [("c" : str)]; End] = Body "abc".
Proof.
  exact (proj1 (h3_collect_spec 3 ltac:(lia)) [[("a" : str); ("b" : str)]; [("c" : str)]] []).
Defined.
