(* ===== verification/Listener.v ===== *)
(** * Listeners (src/src/server.rs)

    A TCP listener and a QUIC listener are states that a reload and an accepted
    connection act on; an admitted connection is served over the protocol its
    handshake or its first bytes select, with the limits of the block and the
    timeouts the listener had when it accepted.  What a listener promises to the
    process that runs it is the class [Reloadable].  Theorems: admission keeps the
    connection counter exact; a reload takes the new block whole or nothing; a TCP
    listener swaps in a renewed certificate and a QUIC listener does not; requests
    of a connection are answered one by one, and an HTTP/3 body over the limit never
    reaches the handler. *)

From S2P Require Import Prelude.
From S2P Require Import Str.
From S2P Require Import Net.
From S2P Require Import Extern.
From S2P Require Import Config.
From S2P Require Import Limits.
From S2P Require Import StaticFile.
From S2P Require Import Geoip.
From S2P Require Import Handler.
From S2P Require Import Tls.
From S2P Require Import Acme.
From S2P Require Import Wire.
From S2P Require Import Instances.

Definition UNSPECIFIED : IpAddr := V4 (V4Octets 0 0 0 0).

(** The directive's address when it parses, 0.0.0.0 otherwise. *)
Definition listen_addr (listen : ListenDirective) : SocketAddr :=
  let ip := default UNSPECIFIED (ld_address listen ≫= parse_ip) in
  mkSocketAddr ip (ld_port listen).

Definition default_reset_rate : ResetRateLimit := mkResetRate 100 10.

(** [build_logger]: the configured file, or the fallback, or a panic.  [create]: the
    outcome of [AccessLogger::new]. *)
Definition FALLBACK_LOG : str := "./logs/access.log".
Definition build_logger {E L} (create : str -> option L) (path : str) : res E L :=
  match create path with
  | Some l => Ok l
  | None => match create FALLBACK_LOG with
            | Some l => Ok l
            | None => Panic
            end
  end.

(** ** A TCP listener *)

Section listener.
Context {U : Unicode} {H : HttpLib} {N : IpNetLib} {R : RegexLib} {M : MaxMindDb} {T : Rustls}.
(** The log files, as [build_logger] takes them. *)
Context {L : Type}.

Record Listener : Type := mkListener {
  ls_idx : nat;
  ls_is_tls : bool;
  ls_acme : option AcmeConfig;
  ls_block : HttpBlock;
  ls_timeouts : TimeoutSettings;
  ls_logger : L;
  ls_handler : HandlerService * State;
  ls_acceptor : option TlsAcceptor;
}.

(** [.ok()] *)
Definition ok_of {E A} (r : res E A) : option A := match r with Ok a => Some a | _ => None end.

(** The acceptor for [ssl], from the files as they are now; [idx]: the listener's block,
    whose manager's store the resolver reads ([mgr.store()]). *)
Definition acceptor_for (open : str -> option str) (idx : nat) (acme : option AcmeConfig) (ssl : SslSettings)
    : option TlsAcceptor :=
  match acme with
  | Some mgr => ok_of (build_tls_acceptor_acme open (cert_path mgr) (key_path mgr) (ssl_protocols ssl) idx)
  | None => ok_of (build_tls_acceptor open ssl)
  end.

(** What a listener reads when it starts or reloads: PEM files and log files. *)
Record Files : Type := mkFiles {
  f_open : str -> option str;
  f_log : str -> option L;
}.

(** Whether the handler gets the store of the block's manager. *)
Definition acme_store (acme : option AcmeConfig) : bool := bool_decide (is_Some acme).

(** [accept_loop] up to its loop. *)
Definition listener_start (fs : Files) (http_block : HttpBlock) (block_idx : nat) (is_tls : bool)
    (acme : option AcmeConfig) (timeouts : TimeoutSettings) : res unit Listener :=
  let tls_acceptor :=
    if is_tls then ssl ← hb_ssl http_block; acceptor_for (f_open fs) block_idx acme ssl else None in
  let? access_logger := build_logger (f_log fs) (hb_access_log http_block) in
  let handler := HandlerService_new http_block (acme_store acme) is_tls timeouts in
  Ok (mkListener block_idx is_tls acme http_block timeouts access_logger handler tls_acceptor).

(** The reload arm. *)
Definition listener_reload (fs : Files) (new_config : Config) (l : Listener) : res unit Listener :=
  match cfg_http new_config !! ls_idx l with
  | Some new_block =>
      let timeouts := default TimeoutSettings_default (gs_timeouts (cfg_global new_config)) in
      let? access_logger := build_logger (f_log fs) (hb_access_log new_block) in
      let handler := HandlerService_new new_block (acme_store (ls_acme l)) (ls_is_tls l) timeouts in
      let tls_acceptor :=
        if ls_is_tls l then
          match hb_ssl new_block with
          | Some ssl => acceptor_for (f_open fs) (ls_idx l) (ls_acme l) ssl
          | None => ls_acceptor l
          end
        else ls_acceptor l in
      Ok (mkListener (ls_idx l) (ls_is_tls l) (ls_acme l) new_block timeouts access_logger handler
                     tls_acceptor)
  | None => Ok l
  end.

(** The accept arm: reject with 503, or serve, over TLS when there is an acceptor. *)
Inductive Admitted503 : Type := MemoryPressure | ConnectionLimit.
Inductive Served : Type :=
  | Rejected (why : Admitted503)
  | ServeTls (acceptor : TlsAcceptor) (reset_rate : ResetRateLimit) (timeouts : TimeoutSettings)
  | ServePlain (timeouts : TimeoutSettings).

(** How a connection is served: the acceptor, reset budget and timeouts as they are
    when it is accepted. *)
Definition serve_as (l : Listener) : Served :=
  let reset_rate := default default_reset_rate (hb_http2_max_reset_rate (ls_block l)) in
  match ls_acceptor l with
  | Some acceptor => ServeTls acceptor reset_rate (ls_timeouts l)
  | None => ServePlain (ls_timeouts l)
  end.

(** [meminfo]: the text of /proc/meminfo; [active]: the connection counter. *)
Definition accept_one (meminfo : option str) (active : Z) (l : Listener) : Z * Served :=
  if check_memory_pressure meminfo MEMORY_PRESSURE_THRESHOLD then (active, Rejected MemoryPressure)
  else
    let '(active, admitted) := acquire_connection active in
    if negb admitted then (active, Rejected ConnectionLimit)
    else (active, serve_as l).

(** The TLS handshake, bounded by ten seconds, and the protocol it selects. *)
Inductive Handshake : Type := Negotiated (alpn : option str) | HandshakeFailed | HandshakeTimeout.
Inductive Protocol : Type := Http1 | Http2 | NoService.
Definition after_handshake (h : Handshake) : Protocol :=
  match h with
  | Negotiated alpn => if bool_decide (alpn = Some ("h2" : str)) then Http2 else Http1
  | HandshakeFailed | HandshakeTimeout => NoService
  end.

(** [ConnectionGuard::drop]. *)
Definition ConnectionGuard_drop (active : Z) : Z := release_connection active.

Definition is_rejected (s : Served) : bool := match s with Rejected _ => true | _ => false end.

(** A connection is rejected exactly under memory pressure or at the cap, and a
    rejection leaves the counter as it was; a served one is counted once and given
    back when its guard drops; it is served over TLS exactly when the listener has
    an acceptor. *)
Theorem accept_one_spec meminfo active l :
  0 <= active < 2 ^ 64 - 1 ->
  let '(active', served) := accept_one meminfo active l in
  (is_rejected served = true
   <-> check_memory_pressure meminfo MEMORY_PRESSURE_THRESHOLD = true \/ MAX_CONNECTIONS <= active)
  /\ (is_rejected served = true -> active' = active)
  /\ (is_rejected served = false ->
        active' = active + 1 /\ ConnectionGuard_drop active' = active
        /\ forall a, ls_acceptor l = Some a <-> exists rate t, served = ServeTls a rate t).
Proof.
  intros Ha. unfold accept_one. destruct (check_memory_pressure _ _); [split_and!; [tauto|done|done]|].
  rewrite acquire_connection_spec by done. unfold is_overloaded.
  destruct (MAX_CONNECTIONS <=? active) eqn:Em; b2p; cbn [negb]; [split_and!; [tauto|done|done]|].
  unfold serve_as. assert (ConnectionGuard_drop (active + 1) = active) as Hd.
  { unfold ConnectionGuard_drop, release_connection, fetch_sub, wrap64. cbn [snd].
    rewrite Z.mod_small; lia. }
  destruct (ls_acceptor l) as [a|]; (split_and!; [cbn; split; [done|intros [|]; [done|lia]]|done|]);
    intros _; (split_and!; [done|done|]); intros a'; split; try naive_solver.
Qed.

(** A reload is atomic: a listener whose block the new configuration lacks keeps
    its whole state, and otherwise block, timeouts, logger and handler are all
    those of the new configuration; its index, mode and ACME manager never change. *)
Theorem listener_reload_spec fs cfg l l' :
  listener_reload fs cfg l = Ok l' ->
  (ls_idx l', ls_is_tls l', ls_acme l') = (ls_idx l, ls_is_tls l, ls_acme l)
  /\ match cfg_http cfg !! ls_idx l with
     | None => l' = l
     | Some block =>
         ls_block l' = block
         /\ ls_timeouts l' = default TimeoutSettings_default (gs_timeouts (cfg_global cfg))
         /\ build_logger (E := unit) (f_log fs) (hb_access_log block) = Ok (ls_logger l')
         /\ ls_handler l' = HandlerService_new block (acme_store (ls_acme l)) (ls_is_tls l) (ls_timeouts l')
         /\ (forall ssl, ls_is_tls l = true -> hb_ssl block = Some ssl ->
               ls_acceptor l' = acceptor_for (f_open fs) (ls_idx l) (ls_acme l) ssl)
         /\ (ls_is_tls l = false \/ hb_ssl block = None -> ls_acceptor l' = ls_acceptor l)
     end.
Proof.
  unfold listener_reload. destruct (cfg_http cfg !! ls_idx l) as [block|]; [|by intros [= ->]].
  intros Hb. apply res_bind_ok in Hb as (lg & Hl & [= <-]). cbn. split; [done|].
  split_and!; [done|done|done|done| |].
  - intros ssl -> ->. done.
  - intros [-> | Hn]; [done|]. rewrite Hn. by destruct (ls_is_tls l).
Qed.

(** A TLS listener without an ssl block, or whose certificate or key does not load,
    has no acceptor: it serves plain HTTP on the TLS port. *)
Lemma tls_listener_plaintext fs block idx acme t l meminfo active :
  listener_start fs block idx true acme t = Ok l ->
  (forall ssl, hb_ssl block = Some ssl -> acceptor_for (f_open fs) idx acme ssl = None) ->
  is_rejected (snd (accept_one meminfo active l)) = false ->
  snd (accept_one meminfo active l) = ServePlain t.
Proof.
  unfold listener_start. intros Hl Hs. apply res_bind_ok in Hl as (lg & _ & [= <-]).
  assert ((ssl ← hb_ssl block; acceptor_for (f_open fs) idx acme ssl) = None) as Hn.
  { destruct (hb_ssl block); [by apply Hs|done]. }
  unfold accept_one, serve_as. cbn [ls_acceptor ls_timeouts ls_block]. rewrite Hn.
  destruct (check_memory_pressure _ _); [done|]. destruct (acquire_connection active) as [a [|]]; done.
Qed.
End listener.

(** ** A QUIC listener *)

Section quic.
Context {U : Unicode} {H : HttpLib} {N : IpNetLib} {R : RegexLib} {M : MaxMindDb} {T : Rustls}.
Context {L : Type}.

(** [ql_config]: the TLS configuration of the endpoint. *)
Record QuicListener : Type := mkQuicListener {
  ql_idx : nat;
  ql_config : QuicConfig;
  ql_block : HttpBlock;
  ql_logger : L;
  ql_handler : HandlerService * State;
}.

Inductive QuicError : Type := NoSslBlock | QuicTls (e : TlsError) | EndpointFailed.

(** [accept_quic_loop] up to its loop; [endpoint]: whether the socket becomes a QUIC
    endpoint. *)
Definition quic_start (fs : Files (L := L)) (endpoint : bool) (http_block : HttpBlock) (block_idx : nat)
    (acme : option AcmeConfig) (timeouts : TimeoutSettings) : res QuicError QuicListener :=
  let? ssl := ok_or (hb_ssl http_block) NoSslBlock in
  let? quic_config := map_err QuicTls
    match acme with
    | Some mgr => build_quinn_from_paths (f_open fs) (cert_path mgr) (key_path mgr)
    | None => build_quinn_server_config (f_open fs) ssl
    end in
  guard! endpoint else EndpointFailed;
  let? access_logger := build_logger (f_log fs) (hb_access_log http_block) in
  let handler := HandlerService_new http_block false true timeouts in
  Ok (mkQuicListener block_idx quic_config http_block access_logger handler).

(** The reload arm: the endpoint keeps its TLS configuration. *)
Definition quic_reload (fs : Files (L := L)) (new_config : Config) (l : QuicListener) : res unit QuicListener :=
  match cfg_http new_config !! ql_idx l with
  | Some new_block =>
      let? access_logger := build_logger (f_log fs) (hb_access_log new_block) in
      let new_timeouts := default TimeoutSettings_default (gs_timeouts (cfg_global new_config)) in
      let handler := HandlerService_new new_block false true new_timeouts in
      Ok (mkQuicListener (ql_idx l) (ql_config l) new_block access_logger handler)
  | None => Ok l
  end.

(** The accept arm: a refused connection is dropped without an answer. *)
Inductive QuicServed : Type :=
  | QuicDropped (why : Admitted503)
  | ServeHttp3 (max_body max_field : Z).
Definition quic_serve_as (l : QuicListener) : QuicServed :=
  let max_body := default (10 * 1024 * 1024) (hb_max_body_size (ql_block l)) in
  let max_field := default 65536 (hb_http3_max_dynamic_table_size (ql_block l)) in
  ServeHttp3 max_body max_field.
Definition quic_accept (meminfo : option str) (active : Z) (l : QuicListener) : Z * QuicServed :=
  if check_memory_pressure meminfo MEMORY_PRESSURE_THRESHOLD then (active, QuicDropped MemoryPressure)
  else
    let '(active, admitted) := acquire_connection active in
    if negb admitted then (active, QuicDropped ConnectionLimit)
    else (active, quic_serve_as l).
End quic.

(** ** Reload and restart *)

Section restart.
Context {U : Unicode} {H : HttpLib} {N : IpNetLib} {R : RegexLib} {M : MaxMindDb} {T : Rustls}.
Context {L : Type}.

(** Whether a reload rebuilds the acceptor. *)
Definition keeps_acceptor (is_tls : bool) (block : HttpBlock) : bool :=
  is_tls && bool_decide (hb_ssl block = None).

Definition with_acceptor (a : option TlsAcceptor) (l : Listener (L := L)) : Listener :=
  mkListener (ls_idx l) (ls_is_tls l) (ls_acme l) (ls_block l) (ls_timeouts l) (ls_logger l) (ls_handler l) a.
Definition with_quic_config (c : QuicConfig) (l : QuicListener (L := L)) : QuicListener :=
  mkQuicListener (ql_idx l) c (ql_block l) (ql_logger l) (ql_handler l).

(** C17. A reload is a restart: a listener whose block the new configuration has
    becomes the listener that would start from that block and the files as they are
    now, so a renewed certificate is swapped in; only when a TLS listener's new block
    has no ssl section does it keep the acceptor it had. *)
Theorem reload_is_restart (fs : Files (L := L)) cfg (l : Listener (L := L)) block :
  cfg_http cfg !! ls_idx l = Some block ->
  ls_is_tls l = true \/ ls_acceptor l = None ->
  listener_reload fs cfg l
  = let? fresh := listener_start fs block (ls_idx l) (ls_is_tls l) (ls_acme l)
                    (default TimeoutSettings_default (gs_timeouts (cfg_global cfg))) in
    Ok (if keeps_acceptor (ls_is_tls l) block then with_acceptor (ls_acceptor l) fresh else fresh).
Proof.
  intros Hb Ha. unfold listener_reload, listener_start, keeps_acceptor. rewrite Hb.
  destruct (build_logger _ _) as [lg|[]|]; cbn [res_bind]; [|done..].
  destruct (ls_is_tls l); cbn [andb].
  - destruct (hb_ssl block); cbn [mbind option_bind]; [by rewrite bool_decide_eq_false_2|].
    by rewrite bool_decide_eq_true_2.
  - destruct Ha as [|Ha]; [done|]. by rewrite Ha.
Qed.

(** A QUIC listener takes block, logger and handler as a start would, but whatever
    the certificate files hold by then it goes on with the TLS configuration it
    started with. *)
Theorem quic_reload_keeps_cert (fs : Files (L := L)) cfg (q q' : QuicListener (L := L)) :
  quic_reload fs cfg q = Ok q' ->
  ql_config q' = ql_config q /\ ql_idx q' = ql_idx q
  /\ match cfg_http cfg !! ql_idx q with
     | None => q' = q
     | Some block =>
         forall acme fresh,
           quic_start fs true block (ql_idx q) acme
             (default TimeoutSettings_default (gs_timeouts (cfg_global cfg))) = Ok fresh ->
           q' = with_quic_config (ql_config q) fresh
     end.
Proof.
  unfold quic_reload. destruct (cfg_http cfg !! ql_idx q) as [block|]; [|by intros [= ->]].
  intros Hr. apply res_bind_ok in Hr as (lg & Hl & [= <-]). split_and!; [done..|].
  intros acme fresh Hf. unfold quic_start in Hf. apply res_bind_ok in Hf as (ssl & _ & Hf).
  apply res_bind_ok in Hf as (qc & _ & Hf). cbn iota in Hf. apply res_bind_ok in Hf as (lg' & Hl' & [= <-]).
  unfold with_quic_config. cbn [ql_idx ql_block ql_logger ql_handler]. f_equal.
  unfold build_logger in Hl, Hl'. repeat case_match; congruence.
Qed.
End restart.

(** ** The protocol of an admitted connection *)

(** What the hyper builders are given; seconds. *)
Record Http1Settings : Type := mkHttp1 { h1_header_read_timeout : Z; h1_upgrades : bool }.
Record Http2Settings : Type := mkHttp2 {
  h2_max_concurrent_streams : Z;
  h2_max_pending_accept_reset_streams : Z;
  h2_keep_alive_interval : Z;
  h2_keep_alive_timeout : Z;
}.
Definition http1_settings (timeouts : TimeoutSettings) : Http1Settings :=
  mkHttp1 (ts_request timeouts) true.
Definition http2_settings (reset_rate : ResetRateLimit) (timeouts : TimeoutSettings) : Http2Settings :=
  mkHttp2 128 (rr_count reset_rate) 20 (ts_keepalive timeouts).

Section serving.
Context {H : HttpLib} {T : Rustls}.

(** [send_503]: the same answer to every request of the refused connection. *)
Definition unavailable : Response :=
  with_header (with_status (Response_new ("503 Service Unavailable" ++ [LF])) SERVICE_UNAVAILABLE)
    "content-type" text_plain.
Definition send_503 {X} (requests : list X) : list Response := map (fun _ => unavailable) requests.

(** The task of an accepted connection, up to its first request: [h] is the outcome
    of the TLS handshake, [peek] that of the first read of a plaintext one. *)
Inductive Serving (S : Type) : Type :=
  | Refuse (why : Admitted503)
  | NotServed
  | AnswerRaw (response : str)
  | OverHttp1 (settings : Http1Settings) (screened : option (BareLfGuard (S := S)))
  | OverHttp2 (settings : Http2Settings) (reset_rate : ResetRateLimit).
Arguments Refuse {S} _.
Arguments NotServed {S}.
Arguments AnswerRaw {S} _.
Arguments OverHttp1 {S} _ _.
Arguments OverHttp2 {S} _ _.

Definition connection_task {S} (stream : S) (served : Served) (h : Handshake) (peek : Peek) : Serving S :=
  match served with
  | Rejected why => Refuse why
  | ServeTls _ reset_rate timeouts =>
      match after_handshake h with
      | Http2 => OverHttp2 (http2_settings reset_rate timeouts) reset_rate
      | Http1 => OverHttp1 (http1_settings timeouts) None
      | NoService => NotServed
      end
  | ServePlain timeouts =>
      match serve_http1_with_bare_lf_check stream peek with
      | ServeHttp1 g => OverHttp1 (http1_settings timeouts) (Some g)
      | Answered response => AnswerRaw response
      | Closed | ScreenError => NotServed
      end
  end.

(** Plaintext connections speak HTTP/1 only and are served only after the bare-LF
    screen; HTTP/2 is spoken exactly by TLS connections that negotiated h2, with 128
    streams at most, the block's reset budget given both to hyper and to the tracker;
    a connection refused or whose handshake failed runs no handler. *)
Theorem connection_task_spec {S} (stream : S) served h peek :
  match connection_task stream served h peek with
  | Refuse why => served = Rejected why
  | OverHttp2 c rate =>
      exists a t, served = ServeTls a rate t /\ h = Negotiated (Some ("h2" : str))
        /\ h2_max_concurrent_streams c = 128
        /\ h2_max_pending_accept_reset_streams c = rr_count rate
        /\ h2_keep_alive_timeout c = ts_keepalive t
  | OverHttp1 c None =>
      exists a rate t alpn, served = ServeTls a rate t /\ h = Negotiated alpn /\ alpn <> Some ("h2" : str)
        /\ h1_header_read_timeout c = ts_request t
  | OverHttp1 c (Some g) =>
      exists t bytes, served = ServePlain t /\ peek = PeekBytes bytes /\ bytes <> [] /\ has_bare_lf bytes = false
        /\ g = BareLfGuard_new stream bytes false /\ h1_header_read_timeout c = ts_request t
  | AnswerRaw r =>
      exists t bytes, served = ServePlain t /\ peek = PeekBytes bytes /\ has_bare_lf bytes = true
        /\ r = BAD_REQUEST_RESPONSE
  | NotServed =>
      match served with
      | Rejected _ => False
      | ServeTls _ _ _ => h = HandshakeFailed \/ h = HandshakeTimeout
      | ServePlain _ => peek = PeekFailed \/ peek = PeekTimeout \/ peek = PeekBytes []
      end
  end.
Proof.
  destruct served as [why|a rate t|t]; cbn [connection_task]; [done| |].
  - destruct h as [alpn| |]; cbn [after_handshake]; [|by left|by right].
    case_bool_decide as E; [subst alpn; by exists a, t|]. exists a, rate, t, alpn. done.
  - destruct peek as [bytes| |]; cbn [serve_http1_with_bare_lf_check]; [|by left|by right; left].
    case_bool_decide as E; [right; right; f_equal; by apply length_zero_iff_nil|].
    destruct (has_bare_lf bytes) eqn:Eb; [by exists t, bytes|]. exists t, bytes.
    split_and!; try done. by intros ->.
Qed.
End serving.
Arguments Refuse {S} _.
Arguments NotServed {S}.
Arguments AnswerRaw {S} _.
Arguments OverHttp1 {S} _ _.
Arguments OverHttp2 {S} _ _.

(** ** The requests of a connection *)

Section requests.
Context {U : Unicode} {H : HttpLib} {N : IpNetLib} {R : RegexLib} {G : GzLib} {F : FileSystem} {M : MaxMindDb}.
Variable s : HandlerService.
Variable hash_ip : IpAddr -> Z.
Variable hash_session : str -> str -> Z.
Variable ip : IpAddr.

(** A response ends the requests of an HTTP/1 connection when it opens a tunnel; a
    handler that panics ends the connection. *)
Definition goes_on (e : Effects) : bool :=
  match ef_response e, ef_tunnel e with
  | Some _, None => true
  | _, _ => false
  end.

(** [serve_http1]: the requests hyper reads from the connection, each handled when
    the one before is done. *)
Fixpoint serve_http1 (st : State) (requests : list (World * Parts * Incoming)) : State * list Effects :=
  match requests with
  | [] => (st, [])
  | (w, p, body) :: r =>
      let '(st, e) := handle s hash_ip hash_session w st p body ip in
      if goes_on e then let '(st, es) := serve_http1 st r in (st, e :: es) else (st, [e])
  end.

(** The requests of a connection are answered in order, one response and one log
    line each; nothing is read as a request after a tunnel has been opened or a
    handler has panicked. *)
Theorem serve_http1_spec st requests :
  let es := snd (serve_http1 st requests) in
  (length es <= length requests)%nat
  /\ (forall i e, es !! i = Some e -> (S i < length es)%nat -> goes_on e = true)
  /\ ((length es < length requests)%nat -> exists e, last es = Some e /\ goes_on e = false).
Proof.
  cbv zeta. revert st. induction requests as [|[[w p] body] r IH]; intros st; cbn [serve_http1].
  { cbn [snd length]. split_and!; [lia|set_solver|lia]. }
  destruct (handle s hash_ip hash_session w st p body ip) as [st1 e]. destruct (goes_on e) eqn:Eg.
  - specialize (IH st1). destruct (serve_http1 st1 r) as [st2 es]. cbn [snd length] in *.
    destruct IH as (H1 & H2 & H3). split_and!; [lia| |].
    + intros [|i] x Hx Hl; cbn in Hx; [by injection Hx as <-|]. apply (H2 i x Hx). lia.
    + intros Hl. destruct H3 as (x & Hx & Hg); [lia|]. exists x. split; [|done].
      destruct es as [|y es]; [done|]. exact Hx.
  - cbn [snd length]. split_and!; [lia| |].
    + intros i x Hx Hl. lia.
    + intros _. by exists e.
Qed.

(** *** One HTTP/3 request stream *)

Inductive H3Write : Type :=
  | SendResponse (status : Z) (headers : HeaderMap)
  | SendData (bytes : str)
  | Finish.

Definition too_large : Response :=
  with_status (Response_new ("413 Payload Too Large" ++ [LF])) PAYLOAD_TOO_LARGE.

(** [head_sent]: whether sending the head succeeds. *)
Definition h3_respond (head_sent : bool) (r : Response) : list H3Write :=
  SendResponse (r_status r) (r_headers r)
  :: (if head_sent
      then (if bool_decide (r_body r = []) then [] else [SendData (r_body r)]) ++ [Finish]
      else []).

Record H3Effects : Type := mkH3Effects {
  h3_response : option Response;
  h3_log : option LogCall;
  h3_sent : list str;
  h3_writes : list H3Write;
}.
Definition h3_nothing : H3Effects := mkH3Effects None None [] [].

(** The task of a stream: [rs] is what [recv_data] gives. *)
Definition h3_stream (w : World) (max_body : Z) (head_sent : bool) (st : State) (p : Parts) (rs : list Recv)
    : State * H3Effects :=
  match h3_collect max_body [] rs with
  | Overflow => (st, mkH3Effects (Some too_large) None [] (h3_respond head_sent too_large))
  | Body body =>
      let '(st, e) := handle_h3 s hash_ip hash_session w st p body ip in
      match ef_response e with
      | Some (r, call) => (st, mkH3Effects (Some r) (Some call) (ef_sent e) (h3_respond head_sent r))
      | None => (st, mkH3Effects None None (ef_sent e) [])
      end
  | Abandoned | Waiting => (st, h3_nothing)
  end.

(** C34. However its body is cut into chunks, an HTTP/3 request whose body fits the
    limit is handled once with the whole body; one whose chunks are over the limit is
    answered 413, whatever follows them, and reaches neither handler, upstream nor log;
    within the limit a stream that breaks off, or on which nothing more comes, is not
    answered at all and changes nothing.  A head comes first, data only when there is
    any, and the stream is finished exactly when the head could be sent. *)
Theorem h3_stream_spec w max_body head_sent st p :
  0 <= max_body ->
  (forall chunks rest,
     let body := concat (concat chunks) in
     let '(st', e) := h3_stream w max_body head_sent st p (map Data chunks ++ rest) in
     if Z.of_nat (length body) <=? max_body then
       match rest with
       | End :: _ =>
           let '(st1, e1) := handle_h3 s hash_ip hash_session w st p body ip in
           st' = st1 /\ h3_sent e = ef_sent e1 /\ h3_response e = option_map fst (ef_response e1)
           /\ h3_log e = option_map snd (ef_response e1)
       | [] | RecvError :: _ => st' = st /\ e = h3_nothing
       | Data _ :: _ => True
       end
     else st' = st /\ h3_response e = Some too_large /\ h3_log e = None /\ h3_sent e = [])
  /\ (forall rs,
        let e := snd (h3_stream w max_body head_sent st p rs) in
        match h3_response e with
        | None => h3_writes e = []
        | Some r =>
            exists rest, h3_writes e = SendResponse (r_status r) (r_headers r) :: rest
              /\ (Finish ∈ rest <-> head_sent = true)
              /\ (forall bytes, SendData bytes ∈ rest <-> head_sent = true /\ bytes = r_body r /\ bytes <> [])
        end).
Proof.
  intros Hm. split.
  - intros chunks rest. cbv zeta. unfold h3_stream. rewrite (h3_collect_chunks max_body [] chunks rest Hm).
    cbn [app]. destruct (_ <=? max_body); [|done].
    destruct rest as [|[segs| |] rest]; cbn [h3_collect]; [done| |..].
    + by repeat case_match.
    + destruct (handle_h3 _ _ _ _ _ _ _ _) as [st1 e1]. by destruct (ef_response e1) as [[r call]|].
    + done.
  - intros rs. cbv zeta. unfold h3_stream.
    assert (forall r : Response, exists rest, h3_respond head_sent r = SendResponse (r_status r) (r_headers r) :: rest
      /\ (Finish ∈ rest <-> head_sent = true)
      /\ (forall bytes, SendData bytes ∈ rest <-> head_sent = true /\ bytes = r_body r /\ bytes <> [])) as Hr.
    { intros r. eexists. split; [reflexivity|]. destruct head_sent; [|set_solver].
      case_bool_decide as E; [rewrite E|]; cbn [app]; split; set_solver. }
    destruct (h3_collect max_body [] rs); cbn [snd h3_response h3_writes h3_nothing]; [apply Hr| |done..].
    destruct (handle_h3 _ _ _ _ _ _ _ _) as [st1 e1]. destruct (ef_response e1) as [[r call]|]; [apply Hr|done].
Qed.
(** *** One HTTP/3 connection *)

(** What [accept], and [resolve_request] on the stream it gives, come to: a request
    with its body and the outcome of sending the head, in the world it is handled in. *)
Inductive H3Accept : Type :=
  | H3Request (w : World) (head_sent : bool) (p : Parts) (rs : list Recv)
  | H3Unresolved
  | H3Closed
  | H3AcceptError.

(** The tasks [serve_http3] spawns, each as the step it makes of the state. *)
Fixpoint serve_http3 (max_body : Z) (accepted : list H3Accept) : list (State -> State * H3Effects) :=
  match accepted with
  | H3Request w head_sent p rs :: r =>
      (fun st => h3_stream w max_body head_sent st p rs) :: serve_http3 max_body r
  | H3Unresolved :: r => serve_http3 max_body r
  | [] | H3Closed :: _ | H3AcceptError :: _ => []
  end.

Definition h3_ends (x : H3Accept) : bool :=
  match x with H3Closed | H3AcceptError => true | _ => false end.
Definition is_h3_request (x : H3Accept) : Prop :=
  match x with H3Request _ _ _ _ => True | _ => False end.
#[global] Instance is_h3_request_dec x : Decision (is_h3_request x).
Proof. destruct x; apply _. Defined.

(** Up to the end of the connection every request gets a task, whatever streams
    around it failed to resolve; after it none does. *)
Theorem serve_http3_spec max_body pre x post :
  existsb h3_ends pre = false -> h3_ends x = true ->
  serve_http3 max_body (pre ++ x :: post) = serve_http3 max_body pre
  /\ length (serve_http3 max_body pre) = length (filter is_h3_request pre)
  /\ (forall w head_sent p rs, H3Request w head_sent p rs ∈ pre ->
        (fun st => h3_stream w max_body head_sent st p rs) ∈ serve_http3 max_body pre).
Proof.
  intros Hp Hx. induction pre as [|y pre IH].
  - split_and!; [by destruct x|done|set_solver].
  - cbn in Hp. apply orb_false_iff in Hp as [Hy Hp]. destruct (IH Hp) as (E & Hl & Hin).
    destruct y as [w0 b0 p0 rs0| | |]; try done; cbn [app serve_http3]; rewrite filter_cons.
    + rewrite decide_True, E by done. cbn [length]. rewrite Hl. split_and!; [done..|].
      intros w b p rs [[= -> -> -> ->]|Hr]%elem_of_cons; [by left|right; by apply Hin].
    + rewrite decide_False by (by intros []). split_and!; [done..|].
      intros w b p rs [[=]|Hr]%elem_of_cons. by apply Hin.
Qed.
End requests.

(** ** Options no listener looks at *)

Section ignored.
Context {U : Unicode} {H : HttpLib} {N : IpNetLib} {R : RegexLib} {M : MaxMindDb} {T : Rustls} {L : Type}.

(** Every acceptor offers h2, also for a block whose [http2] is false. *)
Lemma http2_flag_gap (fs : Files (L := L)) block idx acme timeouts l a :
  listener_start fs block idx true acme timeouts = Ok l -> ls_acceptor l = Some a ->
  ("h2" : str) ∈ ta_alpn a.
Proof.
  unfold listener_start. intros Hl Ha. apply res_bind_ok in Hl as (lg & _ & [= <-]). cbn [ls_acceptor] in Ha.
  destruct (hb_ssl block) as [ssl|]; [|done]. cbn [mbind option_bind] in Ha. unfold acceptor_for in Ha.
  destruct acme as [mgr|].
  - unfold build_tls_acceptor_acme in Ha. destruct (load_certified_key _ _ _); [|done..]. injection Ha as <-. cbn. set_solver.
  - unfold build_tls_acceptor in Ha. repeat (match type of Ha with context [ok_of (res_bind ?m _)] => destruct m; [cbn [res_bind] in Ha|done..] end).
    destruct (negb _); [done|]. injection Ha as <-. cbn. set_solver.
Qed.

(** The [idle] timeout reaches neither the handler nor the connections. *)
Lemma idle_timeout_gap (block : HttpBlock) store is_tls rate i i' request keepalive proxy_read :
  let t := mkTimeouts i request keepalive proxy_read in
  let t' := mkTimeouts i' request keepalive proxy_read in
  HandlerService_new block store is_tls t = HandlerService_new block store is_tls t'
  /\ http1_settings t = http1_settings t' /\ http2_settings rate t = http2_settings rate t'.
Proof. done. Qed.
End ignored.

(** ** What a listener promises to the process that runs it *)

(** The arguments [run] spawns an accept loop with. *)
Record Seed : Type := mkSeed {
  sd_quic : bool;
  sd_idx : nat;
  sd_is_tls : bool;
  sd_block : HttpBlock;
  sd_acme : option AcmeConfig;
  sd_timeouts : TimeoutSettings;
}.

Section reloadable.
Context {U : Unicode} {H : HttpLib} {N : IpNetLib} {R : RegexLib} {M : MaxMindDb} {T : Rustls} {L : Type}.

(** Starting and reloading give nothing when the task ends instead. *)
Class Reloadable (W : Type) : Type := {
  rl_start : Files (L := L) -> bool -> Seed -> option W;
  rl_reload : Files (L := L) -> Config -> W -> option W;
  rl_idx : W -> nat;
  rl_service : W -> HandlerService;
}.

(** The block whose handler serves the connections accepted now. *)
Definition rl_block {W} `{Reloadable W} (w : W) : HttpBlock := hs_block (rl_service w).

Class ReloadableLaws (W : Type) `{Reloadable W} : Prop := {
  rl_start_block : forall fs endpoint sd w,
    rl_start fs endpoint sd = Some w -> rl_idx w = sd_idx sd /\ rl_block w = sd_block sd;
  rl_reload_block : forall fs cfg w w',
    rl_reload fs cfg w = Some w' ->
    rl_idx w' = rl_idx w /\ rl_block w' = default (rl_block w) (cfg_http cfg !! rl_idx w);
}.

#[global] Instance tcp_reloadable : Reloadable (Listener (L := L)) := {|
  rl_start fs _ sd := ok_of (listener_start fs (sd_block sd) (sd_idx sd) (sd_is_tls sd) (sd_acme sd) (sd_timeouts sd));
  rl_reload fs cfg l := ok_of (listener_reload fs cfg l);
  rl_idx := ls_idx;
  rl_service l := fst (ls_handler l);
|}.
#[global] Instance quic_reloadable : Reloadable (QuicListener (L := L)) := {|
  rl_start fs endpoint sd := ok_of (quic_start fs endpoint (sd_block sd) (sd_idx sd) (sd_acme sd) (sd_timeouts sd));
  rl_reload fs cfg l := ok_of (quic_reload fs cfg l);
  rl_idx := ql_idx;
  rl_service l := fst (ql_handler l);
|}.

Lemma ok_of_Some {E A} (r : res E A) a : ok_of r = Some a <-> r = Ok a.
Proof. destruct r; cbn; naive_solver. Qed.

#[global] Instance tcp_laws : ReloadableLaws (Listener (L := L)).
Proof.
  split.
  - intros fs ep sd w Hw%ok_of_Some. apply res_bind_ok in Hw as (lg & _ & [= <-]). done.
  - intros fs cfg w w' Hw%ok_of_Some. cbn in Hw. unfold listener_reload in Hw. cbn [rl_idx tcp_reloadable].
    destruct (cfg_http cfg !! ls_idx w) as [b|]; [|by injection Hw as <-].
    apply res_bind_ok in Hw as (lg & _ & [= <-]). done.
Qed.
#[global] Instance quic_laws : ReloadableLaws (QuicListener (L := L)).
Proof.
  split.
  - intros fs ep sd w Hw%ok_of_Some. cbn in Hw. unfold quic_start in Hw.
    apply res_bind_ok in Hw as (ssl & _ & Hw). apply res_bind_ok in Hw as (qc & _ & Hw).
    destruct ep; [|done]. apply res_bind_ok in Hw as (lg & _ & [= <-]). done.
  - intros fs cfg w w' Hw%ok_of_Some. cbn in Hw. unfold quic_reload in Hw. cbn [rl_idx quic_reloadable].
    destruct (cfg_http cfg !! ql_idx w) as [b|]; [|by injection Hw as <-].
    apply res_bind_ok in Hw as (lg & _ & [= <-]). done.
Qed.

(** A server has listeners of both kinds. *)
#[global] Instance sum_reloadable {A B} `{Reloadable A} `{Reloadable B} : Reloadable (A + B) := {|
  rl_start fs endpoint sd :=
    if sd_quic sd then inr <$> rl_start (W := B) fs endpoint sd else inl <$> rl_start (W := A) fs endpoint sd;
  rl_reload fs cfg w :=
    match w with
    | inl a => inl <$> rl_reload fs cfg a
    | inr b => inr <$> rl_reload fs cfg b
    end;
  rl_idx w := match w with inl a => rl_idx a | inr b => rl_idx b end;
  rl_service w := match w with inl a => rl_service a | inr b => rl_service b end;
|}.
#[global] Instance sum_laws {A B} `{ReloadableLaws A} `{ReloadableLaws B} : ReloadableLaws (A + B).
Proof.
  split.
  - intros fs ep sd w Hw. cbn in Hw. destruct (sd_quic sd);
      apply fmap_Some in Hw as (x & Hx & ->); by apply rl_start_block in Hx.
  - intros fs cfg [a|b] w' Hw; cbn in Hw;
      apply fmap_Some in Hw as (x & Hx & ->); by apply rl_reload_block in Hx.
Qed.
End reloadable.

(** ** Concrete inputs *)

#[local] Existing Instance id_unicode.
#[local] Existing Instance assoc_http.
#[local] Existing Instance cidr_nets.
#[local] Existing Instance literal_regex.
#[local] Existing Instance stored_gz.
#[local] Existing Instance one_file.
#[local] Existing Instance one_country.
#[local] Existing Instance text_tls.

(** A TLS block whose certificate ACME issues. *)
Definition acme_http : HttpBlock :=
  mkHttp [mkListen 443 "https" None] (strs ["a.example"]%string) None
    (Some (mkSsl None None (Some demo_acme_config) []))
    true true [] [] None [] "/log" None None true true None None "any" None true false None None None None
    None None None [] None None None.
Definition demo_files : Files := mkFiles (fun p => Some p) (fun p => Some p).
Definition demo_listener : Listener :=
  mkListener (L := str) 0 true None acme_http TimeoutSettings_default "/log"
    (HandlerService_new acme_http false true TimeoutSettings_default) None.

Lemma accept_one_spec_witness :
  is_rejected (snd (accept_one None 9999 demo_listener)) = true
  <-> check_memory_pressure None MEMORY_PRESSURE_THRESHOLD = true \/ MAX_CONNECTIONS <= 9999.
Proof. apply (accept_one_spec None 9999 demo_listener). lia. Defined.

(** The reloaded block has its certificate in files, and TLS 1.3 only. *)
Definition reloaded_http : HttpBlock :=
  mkHttp [] [] None (Some demo_ssl) true false [] [] None [] "/log2" None None true true None None "any" None
    true false None None None None None None None [] None None None.
Definition reloaded : Config :=
  mkConfig (mkGlobal default_worker_processes default_error_log None None None) [reloaded_http] [] None.
Definition reloaded_listener (acceptor : option TlsAcceptor) : Listener :=
  mkListener (L := str) 0 true None reloaded_http TimeoutSettings_default "/log2"
    (HandlerService_new reloaded_http false true TimeoutSettings_default) acceptor.

Lemma listener_reload_spec_witness :
  ls_acceptor (reloaded_listener (acceptor_for (fun p => Some p) 0 None demo_ssl))
  = acceptor_for (fun p => Some p) 0 None demo_ssl.
Proof.
  refine (proj1 (proj2 (proj2 (proj2 (proj2 (proj2
    (listener_reload_spec demo_files reloaded demo_listener _ _)))))) demo_ssl _ _); reflexivity.
Defined.

Lemma reload_is_restart_witness :
  listener_reload demo_files reloaded demo_listener
  = Ok (reloaded_listener (acceptor_for (fun p => Some p) 0 None demo_ssl)).
Proof.
  rewrite (reload_is_restart demo_files reloaded demo_listener reloaded_http); [|reflexivity|by left].
  reflexivity.
Defined.

Definition quic_demo (cert : str) (block : HttpBlock) (logger : str) : QuicListener :=
  mkQuicListener (L := str) 0 (mkQuic cert cert (strs ["h3"]%string) 100 100) block logger
    (HandlerService_new block false true TimeoutSettings_default).

(** The certificate file now reads [c], and the listener goes on with [old]. *)
Lemma quic_reload_keeps_cert_witness :
  quic_demo "old" reloaded_http "/log2" = with_quic_config (mkQuic ("old" : str) ("old" : str) (strs ["h3"]%string) 100 100)
    (quic_demo "c" reloaded_http "/log2").
Proof.
  refine (proj2 (proj2 (quic_reload_keeps_cert (mkFiles (fun _ => Some ("c" : str)) (fun p => Some p)) reloaded (quic_demo "old" acme_http "/log")
    (quic_demo "old" reloaded_http "/log2") _)) (Some demo_acme_config) _ _).
  - reflexivity.
  - reflexivity.
Defined.

(** A two-byte body against a limit of one. *)
Definition demo_service : HandlerService := service acme_http false true TimeoutSettings_default.
Definition demo_h3_effects : H3Effects :=
  snd (h3_stream demo_service (fun _ => 0) (fun _ _ => 0) (V4 (V4Octets 127 0 0 1)) demo_world 1 true
    (snd (HandlerService_new acme_http false true TimeoutSettings_default))
    (mkParts assoc_http GET (mkUri None "/" None) HTTP_3 []) [Data [("a" : str); ("b" : str)]; End]).

Lemma h3_stream_spec_witness : h3_response demo_h3_effects = Some too_large /\ h3_log demo_h3_effects = None.
Proof.
  pose proof (proj1 (h3_stream_spec demo_service (fun _ => 0) (fun _ _ => 0)
    (V4 (V4Octets 127 0 0 1)) demo_world 1 true
    (snd (HandlerService_new acme_http false true TimeoutSettings_default))
    (mkParts assoc_http GET (mkUri None "/" None) HTTP_3 []) ltac:(lia))
    [[("a" : str); ("b" : str)]] [End]) as Hs.
  destruct Hs as (_ & Hr & Hl & _). split; [exact Hr|exact Hl].
Defined.
