(* ===== verification/Broadcast.v ===== *)
(** * The shutdown and reload channels (tokio::sync::broadcast)

    What the server relies on of a broadcast channel, seen from one receiver: a send
    reaches every receiver, a receiver that fell behind still gets at least one
    value, and a receive takes something away.  The server only looks at whether
    [recv] is ready: it treats a value and a [Lagged] error alike. *)

From S2P Require Import Prelude.

(** [fresh]: a receiver just subscribed.  [deliver]: the receiver after a send.
    [recv]: the receiver after [recv] completes, or [None] while it waits.
    [backlog]: how often [recv] completes before it waits again. *)
Class Broadcast : Type := {
  Rx : Type;
  fresh : Rx;
  deliver : Rx -> Rx;
  recv : Rx -> option Rx;
  backlog : Rx -> nat;
}.

Class BroadcastLaws (B : Broadcast) : Prop := {
  backlog_fresh : backlog fresh = 0%nat;
  recv_waits : forall r, recv r = None <-> backlog r = 0%nat;
  recv_takes : forall r r', recv r = Some r' -> backlog r = S (backlog r');
  deliver_backlog : forall r, (1 <= backlog (deliver r))%nat;
}.

Section facts.
Context {B : Broadcast} {BL : BroadcastLaws B}.

Lemma recv_ready r : (0 < backlog r)%nat -> exists r', recv r = Some r' /\ backlog r = S (backlog r').
Proof.
  intros Hr. destruct (recv r) as [r'|] eqn:E; [exists r'; split; [done|by apply recv_takes]|].
  apply recv_waits in E. lia.
Qed.

Lemma recv_none_backlog r : recv r = None -> backlog r = 0%nat.
Proof. apply recv_waits. Qed.

Lemma recv_some_backlog r r' : recv r = Some r' -> (0 < backlog r)%nat.
Proof. intros E%recv_takes. lia. Qed.
End facts.

(** ** A channel of capacity one

    A receiver is the number of values sent that it has not seen; the channel keeps
    the last, so a receiver further behind gets [Lagged] first and then that value. *)
Definition ring_recv (unread : nat) : option nat :=
  match unread with
  | O => None
  | S O => Some 0%nat
  | S (S _) => Some 1%nat
  end.
Definition ring : Broadcast := {|
  Rx := nat;
  fresh := 0%nat;
  deliver := S;
  recv := ring_recv;
  backlog n := min n 2;
|}.

Lemma ring_laws : BroadcastLaws ring.
Proof.
  split.
  - done.
  - intros [|[|n]]; cbn; split; intros E; try done; lia.
  - intros [|[|n]] r' E; cbn in *; simplify_eq; cbn; lia.
  - intros [|n]; cbn; lia.
Qed.
