(* ===== verification/Server.v ===== *)
(** * Startup, signals and the stream proxy (src/src/server.rs)

    The signal handler owns the configuration; startup is the trace of its effects,
    with the operating system, the CA and the accept loops behind it as events; a
    stream client is relayed to the first server that answers.  Theorems: only
    validated configurations are ever installed, stream failover, and the order of
    startup: every socket is bound before privileges drop, nothing is served before
    that, a TLS or QUIC socket of an ACME block is served only once its certificate is
    there, and on success everything configured is served.  The listeners that startup
    spawns are in [Listener], their tasks in [System]. *)

From S2P Require Import Prelude.
From S2P Require Import Str.
From S2P Require Import Net.
From S2P Require Import Extern.
From S2P Require Import Config.
From S2P Require Import Limits.
From S2P Require Import Privilege.
From S2P Require Import Balance.
From S2P Require Import Geoip.
From S2P Require Import Handler.
From S2P Require Import Listener.
From S2P Require Import Tls.
From S2P Require Import Acme.
From S2P Require Import Instances.

(** ** Signals and renewal *)

(** [str::replace]. *)
Fixpoint replace_fuel (fuel : nat) (s from to : str) : str :=
  match fuel with
  | O => s
  | S fuel =>
      match s with
      | [] => []
      | c :: r =>
          match strip_prefix from s with
          | Some rest => to ++ replace_fuel fuel rest from to
          | None => c :: replace_fuel fuel r from to
          end
      end
  end.
(** Each step consumes a byte. *)
Definition replace (s from to : str) : str := replace_fuel (length s) s from to.

Section signals.
Context {U : Unicode} {N : IpNetLib} {R : RegexLib}.

(** A SIGHUP finds the file system in some state. *)
Inductive Signal : Type := Sigterm | Sigint | Sighup (env : Env).

(** What the handler has done: the shared configuration, the reloads sent, whether
    shutdown was sent. *)
Record Control : Type := mkControl { c_config : Config; c_reloads : nat; c_shutdown : bool }.

(** The configuration a SIGHUP installs: that of the file named after the pid file,
    when it loads. *)
Definition reloaded_config (env : Env) (current_config : Config) : option Config :=
  match gs_pid_file (cfg_global current_config) with
  | Some pid_file =>
      let config_path := replace pid_file ".pid" ".conf" in
      ok_of (Config_load env config_path)
  | None => None
  end.

Definition sighup (env : Env) (c : Control) : Control :=
  match reloaded_config env (c_config c) with
  | Some new_config => mkControl new_config (S (c_reloads c)) (c_shutdown c)
  | None => c
  end.

Fixpoint signal_handler (signals : list Signal) (c : Control) : Control :=
  match signals with
  | [] => c
  | Sigterm :: _ | Sigint :: _ => mkControl (c_config c) (c_reloads c) true
  | Sighup env :: r => signal_handler r (sighup env c)
  end.

(** Valid for some state of the file system it was read from. *)
Definition was_validated (c : Config) : Prop := exists env, Config_validate env c = Ok tt.

Lemma Config_load_checked env path c : Config_load env path = Ok c -> Config_validate env c = Ok tt.
Proof.
  unfold Config_load. intros Hl. apply res_bind_ok in Hl as (content & _ & Hl).
  destruct (starts_with _ _); apply res_bind_ok in Hl as (c' & _ & Hl);
    apply res_bind_ok in Hl as ([] & Hv & [= <-]); done.
Qed.

Lemma reloaded_config_valid env c c' : reloaded_config env c = Some c' -> was_validated c'.
Proof.
  unfold reloaded_config. destruct (gs_pid_file _); [|done]. intros Hl%ok_of_Some%Config_load_checked.
  by exists env.
Qed.

Lemma sighup_step env c :
  sighup env c = c
  \/ exists new_config, sighup env c = mkControl new_config (S (c_reloads c)) (c_shutdown c)
       /\ was_validated new_config.
Proof.
  unfold sighup. destruct (reloaded_config env (c_config c)) as [d|] eqn:E; [|by left].
  right. exists d. split; [done|]. by apply reloaded_config_valid in E.
Qed.

(** Whatever signals arrive, the shared configuration is always one that passed
    validation; when a reload was never sent it is the one the server started with,
    and nothing is reloaded once a termination signal is taken. *)
Theorem signal_handler_valid signals c :
  was_validated (c_config c) ->
  let c' := signal_handler signals c in
  was_validated (c_config c')
  /\ (c_reloads c <= c_reloads c')%nat
  /\ (c_reloads c' = c_reloads c -> c_config c' = c_config c)
  /\ (forall later, c_shutdown c = false -> c_shutdown c' = true -> signal_handler (signals ++ later) c = c').
Proof.
  cbv zeta. revert c. induction signals as [|[| |env] r IH]; intros c Hv; cbn [signal_handler app].
  - split_and!; [done..|]. intros later Hf. by rewrite Hf.
  - split_and!; done.
  - split_and!; done.
  - destruct (sighup_step env c) as [->|(d & -> & Hd)]; [by apply IH|].
    destruct (IH (mkControl d (S (c_reloads c)) (c_shutdown c)) Hd) as (H1 & H2 & _ & H4).
    cbn [c_reloads c_shutdown] in *. split_and!; [done|lia|intros; lia|done].
Qed.

(** One tick of the renewal loop: whether it sends a reload.  [renewal]: the answer
    of [needs_renewal]; [issued]: that of [issue_with_retry]. *)
Definition acme_renewal_tick {E F} (renewal : res E bool) (issued : res F unit) : bool :=
  match renewal with
  | Ok true => match issued with Ok _ => true | _ => false end
  | _ => false
  end.
End signals.

(** ** The stream proxy *)

Section stream.
Variable hash_ip : IpAddr -> Z.
(** Whether a connection to the server at an index succeeds within ten seconds. *)
Variable connects : nat -> bool.

(** The servers dialled, and the one that answered. *)
Fixpoint dial (upstream : UpstreamRef) (order : list nat) : list nat * option nat :=
  match order with
  | [] => ([], None)
  | idx :: r =>
      match ur_servers upstream !! idx with
      | None => dial upstream r
      | Some _ =>
          if connects idx then ([idx], Some idx)
          else let '(tried, hit) := dial upstream r in (idx :: tried, hit)
      end
  end.

(** One accepted client: the balancer while the copy runs, the guard that ends it. *)
Definition stream_connection (b : Balancer) (upstream : UpstreamRef) (ip : IpAddr)
    : Balancer * option InflightGuard * list nat * option nat :=
  let '(b, order) := candidates hash_ip b upstream ip in
  let '(tried, hit) := dial upstream order in
  match hit with
  | Some idx => let '(b, g) := track b upstream idx in (b, Some g, tried, hit)
  | None => (b, None, tried, hit)
  end.

Lemma dial_spec upstream order :
  (forall i, i ∈ order -> is_Some (ur_servers upstream !! i)) ->
  let '(tried, hit) := dial upstream order in
  match hit with
  | Some idx => connects idx = true
      /\ exists failed rest, order = failed ++ idx :: rest /\ tried = failed ++ [idx]
           /\ Forall (fun i => connects i = false) failed
  | None => tried = order /\ Forall (fun i => connects i = false) order
  end.
Proof.
  induction order as [|i order IH]; intros Hs; cbn [dial]; [by rewrite Forall_nil|].
  destruct (Hs i ltac:(set_solver)) as [srv ->]. destruct (connects i) eqn:Ec.
  - split; [done|]. exists [], order. by rewrite Forall_nil.
  - specialize (IH ltac:(set_solver)). destruct (dial upstream order) as [tried [idx|]].
    + destruct IH as (Hc & failed & rest & -> & -> & Hf). split; [done|].
      exists (i :: failed), rest. by rewrite Forall_cons.
    + destruct IH as [-> Hf]. by rewrite Forall_cons.
Qed.

(** A stream client is relayed to the first server, in the balancer's order,
    that accepts a connection, after each earlier one refused; it is dropped only
    when every server of the pool has refused. *)
Theorem stream_failover b upstream ip :
  let order := snd (candidates hash_ip b upstream ip) in
  let '(_, _, tried, hit) := stream_connection b upstream ip in
  match hit with
  | Some idx => connects idx = true
      /\ exists failed rest, order = failed ++ idx :: rest /\ tried = failed ++ [idx]
           /\ Forall (fun i => connects i = false) failed
  | None => forall i, is_Some (ur_servers upstream !! i) -> connects i = false
  end.
Proof.
  cbv zeta. unfold stream_connection. pose proof (candidates_perm hash_ip b upstream ip) as Hp.
  destruct (candidates hash_ip b upstream ip) as [b1 order]. cbn [snd] in *.
  assert (forall i, i ∈ order <-> is_Some (ur_servers upstream !! i)) as Hin.
  { intros i. rewrite Hp, elem_of_seq, lookup_lt_is_Some. lia. }
  pose proof (dial_spec upstream order (fun i => proj1 (Hin i))) as Hd.
  destruct (dial upstream order) as [tried [idx|]].
  - by destruct (track b1 upstream idx).
  - destruct Hd as [-> Hf]. intros i Hi%Hin. rewrite Forall_forall in Hf. by apply Hf.
Qed.
End stream.

(** ** Startup *)

Inductive Service : Type :=
  | StreamProxy
  | MailListener
  | HttpListener (is_tls : bool) (idx : nat)
  | QuicListener (idx : nat).

(** What startup does, in order: [EvEnsure] is the outcome of one [ensure_cert]. *)
Inductive RunEvent : Type :=
  | EvPidFile (path : str)
  | EvBindTcp (addr : SocketAddr)
  | EvBindUdp (addr : SocketAddr)
  | EvDropPrivileges (user : str)
  | EvServe (service : Service) (addr : SocketAddr)
  | EvEnsure (idx : nat) (ok : bool)
  | EvRenewalTask (idx : nat)
  | EvSignalHandler.

Inductive RunError : Type :=
  | BindFailed (addr : SocketAddr) | DropFailed | IssuanceFailed (idx : nat).

Section run.
(** Whether a bind succeeds, [drop_privileges] for a user, [ensure_cert] for a block;
    and the order a [HashMap] of ACME managers is iterated in. *)
Variable bind_tcp : SocketAddr -> bool.
Variable bind_udp : SocketAddr -> bool.
Variable drop_user : str -> bool.
Variable ensure : nat -> bool.
Variable hash_order : list nat -> list nat.

Definition Run (X : Type) : Type := Tr RunEvent RunError X.

Definition do_bind (addr : SocketAddr) : Run unit :=
  do! _ := t_emit (EvBindTcp addr) in t_ensure (bind_tcp addr) (BindFailed addr).

Record Bound : Type := mkBound {
  bound_now : list (SocketAddr * str * nat);
  deferred_acme_tls : list (SocketAddr * str * nat);
  quic_sockets : list (SocketAddr * nat);
}.

(** The managers: the blocks whose acme section is enabled. *)
Definition acme_enabled (http_block : HttpBlock) : bool :=
  match hb_ssl http_block ≫= ssl_acme with
  | Some acme => ac_enabled acme
  | None => false
  end.
Definition is_acme (cfg : Config) (idx : nat) : bool :=
  match cfg_http cfg !! idx with Some b => acme_enabled b | None => false end.
Definition acme_managers (cfg : Config) : list nat :=
  filter (fun idx => is_acme cfg idx = true) (seq 0 (length (cfg_http cfg))).

Definition PLAIN_PROTOCOLS : list str := strs ["tcp"; "http"]%string.
Definition TLS_PROTOCOLS : list str := strs ["tls"; "https"]%string.
Definition QUIC_PROTOCOLS : list str := strs ["quic"; "h3"; "http3"]%string.

(** One listen directive of block [idx]. *)
Definition bind_listen (acme : bool) (idx : nat) (listen : ListenDirective) (b : Bound) : Run Bound :=
  let addr := listen_addr listen in
  let protocol := ld_protocol listen in
  if bool_decide (protocol ∈ PLAIN_PROTOCOLS) then
    do! _ := do_bind addr in
    t_lift (Ok (mkBound (bound_now b ++ [(addr, protocol, idx)]) (deferred_acme_tls b) (quic_sockets b)))
  else if bool_decide (protocol ∈ TLS_PROTOCOLS) then
    do! _ := do_bind addr in
    if acme then
      t_lift (Ok (mkBound (bound_now b) (deferred_acme_tls b ++ [(addr, protocol, idx)]) (quic_sockets b)))
    else
      t_lift (Ok (mkBound (bound_now b ++ [(addr, protocol, idx)]) (deferred_acme_tls b) (quic_sockets b)))
  else if bool_decide (protocol ∈ QUIC_PROTOCOLS) then
    do! _ := t_emit (EvBindUdp addr) in
    do! _ := t_ensure (bind_udp addr) (BindFailed addr) in
    t_lift (Ok (mkBound (bound_now b) (deferred_acme_tls b) (quic_sockets b ++ [(addr, idx)])))
  else t_lift (Ok b).

(** All directives of all blocks, with their block's index. *)
Fixpoint bind_all (cfg : Config) (ls : list (nat * ListenDirective)) (b : Bound) : Run Bound :=
  match ls with
  | [] => t_lift (Ok b)
  | (idx, listen) :: r =>
      do! b := bind_listen (is_acme cfg idx) idx listen b in bind_all cfg r b
  end.
Definition directives (cfg : Config) : list (nat * ListenDirective) :=
  concat (imap (fun idx http_block => map (pair idx) (hb_listen http_block)) (cfg_http cfg)).

Definition is_tls_protocol (protocol : str) : bool := bool_decide (protocol ∈ TLS_PROTOCOLS).

(** The accept loop of a bound socket, for a block that exists. *)
Definition spawn_http (cfg : Config) (is_tls : bool) (addr : SocketAddr) (idx : nat) : Run unit :=
  match cfg_http cfg !! idx with
  | Some _ => t_emit (EvServe (HttpListener is_tls idx) addr)
  | None => t_lift (Ok tt)
  end.
Definition spawn_quic (cfg : Config) (addr : SocketAddr) (idx : nat) : Run unit :=
  match cfg_http cfg !! idx with
  | Some _ => t_emit (EvServe (QuicListener idx) addr)
  | None => t_lift (Ok tt)
  end.

(** The QUIC loop: serve, skip or defer each socket; the deferred ones. *)
Fixpoint spawn_quic_now (cfg : Config) (sockets : list (SocketAddr * nat)) : Run (list (SocketAddr * nat)) :=
  match sockets with
  | [] => t_lift (Ok [])
  | (addr, idx) :: r =>
      match cfg_http cfg !! idx with
      | None => spawn_quic_now cfg r
      | Some http_block =>
          if negb (hb_http3 http_block) then spawn_quic_now cfg r
          else if is_acme cfg idx then
            do! deferred := spawn_quic_now cfg r in t_lift (Ok ((addr, idx) :: deferred))
          else if bool_decide (hb_ssl http_block = None) then spawn_quic_now cfg r
          else
            do! _ := t_emit (EvServe (QuicListener idx) addr) in
            spawn_quic_now cfg r
      end
  end.

(** The [while i < v.len()] loop that removes the entries of block [idx]: those
    removed, in order, and what stays.  Each turn removes one or advances. *)
Fixpoint remove_loop {X} (block_of : X -> nat) (idx : nat) (fuel i : nat) (v : list X) : list X * list X :=
  match fuel with
  | O => ([], v)
  | S fuel =>
      match v !! i with
      | None => ([], v)
      | Some x =>
          if negb (bool_decide (block_of x = idx)) then remove_loop block_of idx fuel (S i) v
          else
            let '(removed, rest) := remove_loop block_of idx fuel i (delete i v) in
            (x :: removed, rest)
      end
  end.
Definition remove_block {X} (block_of : X -> nat) (idx : nat) (v : list X) : list X * list X :=
  remove_loop block_of idx (S (length v)) 0 v.

Definition tls_block (x : SocketAddr * str * nat) : nat := snd x.
Definition quic_block (x : SocketAddr * nat) : nat := snd x.

(** The issuance loop over the managers. *)
Fixpoint issue_and_serve (cfg : Config) (managers : list nat)
    (deferred_tls : list (SocketAddr * str * nat)) (deferred_quic : list (SocketAddr * nat)) : Run unit :=
  match managers with
  | [] => t_lift (Ok tt)
  | idx :: r =>
      do! _ := t_emit (EvEnsure idx (ensure idx)) in
      do! _ := t_ensure (ensure idx) (IssuanceFailed idx) in
      let '(tls_now, deferred_tls) := remove_block tls_block idx deferred_tls in
      do! _ := t_each (fun x => spawn_http cfg true (fst (fst x)) (snd x)) tls_now in
      let '(quic_now, deferred_quic) := remove_block quic_block idx deferred_quic in
      do! _ := t_each (fun x => spawn_quic cfg (fst x) (snd x)) quic_now in
      do! _ := t_emit (EvRenewalTask idx) in
      issue_and_serve cfg r deferred_tls deferred_quic
  end.

Definition write_pid (cfg : Config) : Run unit :=
  match gs_pid_file (cfg_global cfg) with
  | Some pid_file => t_emit (EvPidFile pid_file)
  | None => t_lift (Ok tt)
  end.

Definition mail_addrs (cfg : Config) : list SocketAddr :=
  match cfg_mail cfg with
  | Some mail_block => map listen_addr (mb_listen mail_block)
  | None => []
  end.
Definition stream_addrs (cfg : Config) : list SocketAddr :=
  map (fun sb => listen_addr (sb_listen sb)) (cfg_stream cfg).

Definition drop_to_user (cfg : Config) : Run unit :=
  match gs_user (cfg_global cfg) with
  | Some user =>
      do! _ := t_emit (EvDropPrivileges user) in t_ensure (drop_user user) DropFailed
  | None => t_lift (Ok tt)
  end.

(** [run], up to the point where it waits for its tasks. *)
Definition run (cfg : Config) : Run unit :=
  do! _ := write_pid cfg in
  do! b := bind_all cfg (directives cfg) (mkBound [] [] []) in
  do! _ := t_each do_bind (stream_addrs cfg) in
  do! _ := t_each do_bind (mail_addrs cfg) in
  do! _ := drop_to_user cfg in
  do! _ := t_each (fun addr => t_emit (EvServe StreamProxy addr)) (stream_addrs cfg) in
  do! _ := t_each (fun addr => t_emit (EvServe MailListener addr)) (mail_addrs cfg) in
  do! _ := t_each (fun x => spawn_http cfg (is_tls_protocol (snd (fst x))) (fst (fst x)) (snd x)) (bound_now b) in
  do! deferred_quic := spawn_quic_now cfg (quic_sockets b) in
  do! _ := issue_and_serve cfg (hash_order (acme_managers cfg)) (deferred_acme_tls b) deferred_quic in
  t_emit EvSignalHandler.
End run.

(** ** The order of startup *)

Definition is_bind (e : RunEvent) : bool :=
  match e with EvBindTcp _ | EvBindUdp _ => true | _ => false end.
(** Work done for clients or with the CA. *)
Definition is_active (e : RunEvent) : bool :=
  match e with EvServe _ _ | EvEnsure _ _ | EvRenewalTask _ | EvSignalHandler => true | _ => false end.

Section order.
Variable bind_tcp : SocketAddr -> bool.
Variable bind_udp : SocketAddr -> bool.
Variable drop_user : str -> bool.
Variable ensure : nat -> bool.
Variable hash_order : list nat -> list nat.

Definition bind_done (e : RunEvent) : bool :=
  match e with EvBindTcp a => bind_tcp a | EvBindUdp a => bind_udp a | _ => true end.

Lemma split_quiet (p : RunEvent -> bool) a b pre e post :
  quiet p a -> p e = true -> a ++ b = pre ++ e :: post ->
  exists pre', pre = a ++ pre' /\ b = pre' ++ e :: post.
Proof.
  intros Ha He E. apply app_eq_app in E as (l & [[-> E]|[-> E]]).
  - destruct l as [|x l].
    + exists []. rewrite !app_nil_r. split; [done|]. by cbn in E.
    + injection E as <- E. exfalso. assert (p e = false); [|congruence].
      apply (quiet_elem _ _ _ Ha). set_solver.
  - by exists l.
Qed.

(** An event of kind [p] in a block whose first statement has none comes after that
    statement succeeded. *)
Lemma after_quiet {A B} p (m : Run A) (k : A -> Run B) pre e post :
  quiet p (fst m) -> p e = true -> fst (t_bind m k) = pre ++ e :: post ->
  exists x pre', snd m = Ok x /\ pre = fst m ++ pre' /\ fst (k x) = pre' ++ e :: post.
Proof.
  intros Hq He. unfold t_bind. destruct (snd m) as [x| |]; cbn [fst].
  - intros E. apply (split_quiet p) in E as (pre' & -> & Hk); [by exists x, pre'|done..].
  - intros E. exfalso. assert (p e = false); [|congruence]. apply (quiet_elem _ _ _ Hq). rewrite E. set_solver.
  - intros E. exfalso. assert (p e = false); [|congruence]. apply (quiet_elem _ _ _ Hq). rewrite E. set_solver.
Qed.

Lemma do_bind_active addr : quiet is_active (fst (do_bind bind_tcp addr)).
Proof. done. Qed.

Lemma bind_listen_active acme idx l b : quiet is_active (fst (bind_listen bind_tcp bind_udp acme idx l b)).
Proof.
  unfold bind_listen. repeat case_bool_decide; try done.
  - by apply t_bind_events; [apply quiet_app|..].
  - apply t_bind_events; [apply quiet_app|done|]. intros _ _. by destruct acme.
  - apply t_bind_events; [apply quiet_app|done|]. intros _ _.
    by apply t_bind_events; [apply quiet_app|..].
Qed.

Lemma bind_all_active cfg ls b : quiet is_active (fst (bind_all bind_tcp bind_udp cfg ls b)).
Proof.
  revert b. induction ls as [|[idx l] ls IH]; intros b; cbn [bind_all]; [done|].
  apply t_bind_events; [apply quiet_app|apply bind_listen_active|]. intros b' _. apply IH.
Qed.

Lemma spawn_http_bind cfg t a i : quiet is_bind (fst (spawn_http cfg t a i)).
Proof. unfold spawn_http. by case_match. Qed.
Lemma spawn_quic_bind cfg a i : quiet is_bind (fst (spawn_quic cfg a i)).
Proof. unfold spawn_quic. by case_match. Qed.
Lemma spawn_quic_now_bind cfg s : quiet is_bind (fst (spawn_quic_now cfg s)).
Proof.
  induction s as [|[a i] s IH]; cbn [spawn_quic_now]; [done|].
  destruct (cfg_http cfg !! i) as [hb|]; [|done]. destruct (negb (hb_http3 hb)); [done|].
  destruct (is_acme cfg i); [by apply t_bind_events; [apply quiet_app|..]|].
  case_bool_decide; [done|]. by apply t_bind_events; [apply quiet_app|..].
Qed.

Lemma issue_and_serve_bind cfg ms dt dq : quiet is_bind (fst (issue_and_serve ensure cfg ms dt dq)).
Proof.
  revert dt dq. induction ms as [|idx ms IH]; intros dt dq; cbn [issue_and_serve]; [done|].
  apply t_bind_events; [apply quiet_app|done|intros _ _].
  apply t_bind_events; [apply quiet_app|done|intros _ _].
  destruct (remove_block tls_block idx dt) as [tn dt'].
  apply t_bind_events; [apply quiet_app| |intros _ _].
  { apply t_each_quiet. intros x _. apply spawn_http_bind. }
  destruct (remove_block quic_block idx dq) as [qn dq'].
  apply t_bind_events; [apply quiet_app| |intros _ _].
  { apply t_each_quiet. intros x _. apply spawn_quic_bind. }
  apply t_bind_events; [apply quiet_app|done|intros _ _]. apply IH.
Qed.

(** Every bind of a stage that succeeds has succeeded. *)
Lemma t_bind_all_done {A B} (m : Run A) (k : A -> Run B) y :
  (forall x, snd m = Ok x -> Forall (fun e => bind_done e = true) (fst m)) ->
  (forall x, snd m = Ok x -> snd (k x) = Ok y -> Forall (fun e => bind_done e = true) (fst (k x))) ->
  snd (t_bind m k) = Ok y -> Forall (fun e => bind_done e = true) (fst (t_bind m k)).
Proof.
  intros Hm Hk Hy. apply t_bind_ok in Hy as (x & Hx & Hy & ->). apply Forall_app. eauto.
Qed.

Lemma do_bind_done addr u :
  snd (do_bind bind_tcp addr) = Ok u -> Forall (fun e => bind_done e = true) (fst (do_bind bind_tcp addr)).
Proof.
  unfold do_bind, t_bind, t_ensure. cbn. destruct (bind_tcp addr) eqn:E; [|done]. by repeat constructor.
Qed.

Lemma each_bind_done addrs u :
  snd (t_each (do_bind bind_tcp) addrs) = Ok u ->
  Forall (fun e => bind_done e = true) (fst (t_each (do_bind bind_tcp) addrs)).
Proof.
  induction addrs as [|a addrs IH]; cbn [t_each]; [by constructor|].
  apply t_bind_all_done; [intros x; apply do_bind_done|]. intros _ _. apply IH.
Qed.

Lemma bind_listen_done acme idx l b b' :
  snd (bind_listen bind_tcp bind_udp acme idx l b) = Ok b' ->
  Forall (fun e => bind_done e = true) (fst (bind_listen bind_tcp bind_udp acme idx l b)).
Proof.
  unfold bind_listen. repeat case_bool_decide.
  - apply t_bind_all_done; [intros x; apply do_bind_done|]. by constructor.
  - apply t_bind_all_done; [intros x; apply do_bind_done|]. destruct acme; by constructor.
  - unfold t_bind, t_ensure. cbn. destruct (bind_udp (listen_addr l)) eqn:E; [|done]. cbn. by repeat constructor.
  - by constructor.
Qed.

Lemma bind_all_done cfg ls b b' :
  snd (bind_all bind_tcp bind_udp cfg ls b) = Ok b' ->
  Forall (fun e => bind_done e = true) (fst (bind_all bind_tcp bind_udp cfg ls b)).
Proof.
  revert b. induction ls as [|[idx l] ls IH]; intros b; cbn [bind_all]; [by constructor|].
  apply t_bind_all_done; [intros x; apply bind_listen_done|]. intros x _. apply IH.
Qed.

Lemma run_order cfg pre e post :
  fst (run bind_tcp bind_udp drop_user ensure hash_order cfg) = pre ++ e :: post ->
  is_active e = true ->
  Forall (fun e => bind_done e = true) pre
  /\ quiet is_bind post
  /\ (forall user, gs_user (cfg_global cfg) = Some user ->
        EvDropPrivileges user ∈ pre /\ drop_user user = true).
Proof.
  intros E He. unfold run in E.
  apply (after_quiet is_active) in E as (x0 & p0 & H0 & -> & E); [|unfold write_pid; by case_match|done].
  apply (after_quiet is_active) in E as (b & p1 & H1 & -> & E); [|apply bind_all_active|done].
  apply (after_quiet is_active) in E as (x2 & p2 & H2 & -> & E); [|by apply t_each_quiet|done].
  apply (after_quiet is_active) in E as (x3 & p3 & H3 & -> & E); [|by apply t_each_quiet|done].
  apply (after_quiet is_active) in E as (x4 & p4 & H4 & -> & E); [|unfold drop_to_user; by case_match|done].
  assert (quiet is_bind (p4 ++ e :: post)) as Hq.
  { rewrite <- E. apply t_bind_events; [apply quiet_app|by apply t_each_quiet|intros _ _].
    apply t_bind_events; [apply quiet_app|by apply t_each_quiet|intros _ _].
    apply t_bind_events; [apply quiet_app| |intros _ _].
    { apply t_each_quiet. intros x _. apply spawn_http_bind. }
    apply t_bind_events; [apply quiet_app|apply spawn_quic_now_bind|intros dq _].
    apply t_bind_events; [apply quiet_app|apply issue_and_serve_bind|done]. }
  unfold quiet in Hq. rewrite existsb_app in Hq. cbn [existsb] in Hq. b2p. split_and!.
  - rewrite !Forall_app. split_and!.
    + unfold write_pid. case_match; by repeat constructor.
    + by apply bind_all_done in H1.
    + by apply each_bind_done in H2.
    + by apply each_bind_done in H3.
    + unfold drop_to_user. destruct (gs_user _) as [u|]; [|by constructor].
      unfold t_bind, t_ensure. cbn. destruct (drop_user u); by repeat constructor.
    + rewrite Forall_forall. intros ev Hev. apply existsb_false_Forall in H. rewrite Forall_forall in H.
      specialize (H ev Hev). by destruct ev.
  - done.
  - intros user Hu. unfold drop_to_user in H4 |- *. rewrite Hu in H4 |- *.
    unfold t_bind, t_ensure in H4 |- *. cbn in H4 |- *. destruct (drop_user user); [|done]. split; [set_solver|done].
Qed.
End order.

(** [run] with the program's own privilege drop, for the process that starts, and
    its own [ensure_cert] for each block. *)
Section server_run.
Context {X : Unix} {T : Rustls} {E : Type}.
Variable bind_tcp : SocketAddr -> bool.
Variable bind_udp : SocketAddr -> bool.
Variable lookup_user : str -> option (option User).
Variable proc : Process.
(** The PEM files when startup issues, and the outcome of each attempt for a block. *)
Variable open : str -> option str.
Variable try_issue_at : nat -> nat -> res E unit * Z.
Variable hash_order : list nat -> list nat.

Definition dropped (user : str) : res DropError Process := fst (drop_privileges (lookup_user user) proc).
(** [ensure_cert] of the manager of block [idx]. *)
Definition ensured (cfg : Config) (idx : nat) : bool :=
  match (hb ← cfg_http cfg !! idx; ssl ← hb_ssl hb; ssl_acme ssl) with
  | Some acme => is_ok (fst (ensure_cert (has_usable_cert open acme) (try_issue_at idx)))
  | None => false
  end.
Definition server_run (cfg : Config) : Run unit :=
  run bind_tcp bind_udp (fun user => is_ok (dropped user)) (ensured cfg) hash_order cfg.

(** C6. Nothing is served, issued or renewed before every socket the configuration
    names is bound and privileges are dropped: when startup first does such a thing,
    every bind it made has succeeded, the drop to the configured user has succeeded,
    and no bind follows.  (That holds of the TLS and QUIC sockets of ACME blocks too:
    they are bound, though not served, before their certificate is there, see
    [acme_bound_first_gap].) *)
Theorem run_bind_drop_serve cfg pre e post :
  fst (server_run cfg) = pre ++ e :: post ->
  is_active e = true ->
  Forall (fun e => bind_done bind_tcp bind_udp e = true) pre
  /\ quiet is_bind post
  /\ (forall user, gs_user (cfg_global cfg) = Some user ->
        EvDropPrivileges user ∈ pre /\ exists p, dropped user = Ok p).
Proof.
  intros Htr He. destruct (run_order _ _ _ _ _ _ _ _ _ Htr He) as (H1 & H2 & H3). split_and!; [done..|].
  intros user Hu. destruct (H3 user Hu) as [Hin Hd]. split; [done|].
  destruct (dropped user) as [p| |]; [by exists p|done..].
Qed.
End server_run.

(** ** The addresses bound

    Only TCP sockets are recorded, each when it is bound; [local_addr] is what the
    system says of the socket bound at an address, a port 0 resolved. *)
Section bound.
Variable bind_tcp : SocketAddr -> bool.
Variable local_addr : SocketAddr -> option SocketAddr.

Definition record_bound (local : option SocketAddr) (bound : list SocketAddr) : list SocketAddr :=
  match local with Some addr => bound ++ [addr] | None => bound end.
Definition note_bound (bound : list SocketAddr) (e : RunEvent) : list SocketAddr :=
  match e with
  | EvBindTcp addr => if bind_tcp addr then record_bound (local_addr addr) bound else bound
  | _ => bound
  end.
(** What [bound_addrs] gives once the events of [tr] have happened. *)
Definition bound_addrs (tr : list RunEvent) : list SocketAddr := foldl note_bound [] tr.

Definition tcp_addr (e : RunEvent) : option SocketAddr :=
  match e with EvBindTcp addr => if bind_tcp addr then local_addr addr else None | _ => None end.

(** They are the local addresses of the TCP sockets bound, in the order of the binds. *)
Theorem bound_addrs_spec tr : bound_addrs tr = omap tcp_addr tr.
Proof.
  unfold bound_addrs. enough (forall l, foldl note_bound l tr = l ++ omap tcp_addr tr) as H by apply (H []).
  induction tr as [|e tr IH]; intros l; cbn [foldl omap list_omap]; [by rewrite app_nil_r|].
  rewrite IH. destruct e as [?|addr|?|?|? ?|? ?|?|]; cbn; try done.
  destruct (bind_tcp addr); [|done]. unfold record_bound. destruct (local_addr addr); [|done].
  by rewrite <- app_assoc.
Qed.
End bound.

(** ** Removing the entries of a block *)

Lemma remove_loop_spec {X} (block_of : X -> nat) idx fuel i v :
  (length v - i < fuel)%nat -> (i <= length v)%nat ->
  remove_loop block_of idx fuel i v
  = (filter (fun x => block_of x = idx) (drop i v),
     take i v ++ filter (fun x => block_of x <> idx) (drop i v)).
Proof.
  revert i v. induction fuel as [|fuel IH]; intros i v Hf Hi; [lia|]. cbn [remove_loop].
  destruct (v !! i) as [x|] eqn:Ex.
  - assert (i < length v)%nat as Hlt by (by apply lookup_lt_Some in Ex).
    rewrite (drop_S v x i) by done. case_bool_decide as E; cbn [negb].
    + rewrite IH.
      2:{ rewrite length_delete by eauto. lia. }
      2:{ rewrite length_delete by eauto. lia. }
      rewrite filter_cons_True by done. rewrite filter_cons_False by (intros Hn; by apply Hn).
      rewrite delete_take_drop, drop_app_length', take_app_length' by (rewrite length_take; lia). done.
    + rewrite IH by lia. rewrite filter_cons_False by done. rewrite filter_cons_True by done.
      rewrite (take_S_r v i x) by done. by rewrite <- app_assoc.
  - apply lookup_ge_None in Ex. rewrite drop_ge by lia. rewrite take_ge by lia. by rewrite app_nil_r.
Qed.

(** The loop is a stable partition. *)
Lemma remove_block_spec {X} (block_of : X -> nat) idx v :
  remove_block block_of idx v
  = (filter (fun x => block_of x = idx) v, filter (fun x => block_of x <> idx) v).
Proof. unfold remove_block. rewrite remove_loop_spec by lia. by rewrite drop_0. Qed.

(** ** ACME sockets wait for their certificate *)

Section acme_gate.
Variable bind_tcp : SocketAddr -> bool.
Variable bind_udp : SocketAddr -> bool.
Variable drop_user : str -> bool.
Variable ensure : nat -> bool.
Variable hash_order : list nat -> list nat.
Variable cfg : Config.

(** A service that needs the certificate of an ACME block. *)
Definition needs_cert (s : Service) : option nat :=
  match s with
  | HttpListener true idx | QuicListener idx => if is_acme cfg idx then Some idx else None
  | _ => None
  end.
Definition gated (tr : list RunEvent) : Prop :=
  (forall pre s addr post idx, tr = pre ++ EvServe s addr :: post -> needs_cert s = Some idx ->
     EvEnsure idx true ∈ pre)
  /\ (forall pre idx post, tr = pre ++ EvEnsure idx false :: post -> post = []).

(** Nothing to gate. *)
Definition free (e : RunEvent) : bool :=
  match e with
  | EvServe s _ => bool_decide (needs_cert s = None)
  | EvEnsure _ _ => false
  | _ => true
  end.

Lemma gated_free a b : Forall (fun e => free e = true) a -> gated b -> gated (a ++ b).
Proof.
  intros Ha [Hb1 Hb2].
  assert (forall pre e post, a ++ b = pre ++ e :: post -> free e = false ->
            exists pre', pre = a ++ pre' /\ b = pre' ++ e :: post) as Hs.
  { intros pre e post E He. apply (split_quiet (fun e => negb (free e))) in E; [done| |by rewrite He].
    apply existsb_false_Forall. eapply Forall_impl; [exact Ha|]. cbn. by intros ? ->. }
  split.
  - intros pre s addr post idx E Hn. apply Hs in E as (pre' & -> & ->).
    + apply elem_of_app. right. by eapply Hb1.
    + cbn. by rewrite Hn.
  - intros pre idx post E. apply Hs in E as (pre' & -> & ->); [|done]. by eapply Hb2.
Qed.

Lemma gated_nil : gated [].
Proof. split; by intros []. Qed.

Lemma free_gated a : Forall (fun e => free e = true) a -> gated a.
Proof. intros Ha. rewrite <- (app_nil_r a). apply gated_free; [done|apply gated_nil]. Qed.

Lemma gated_bind_free {A B} (m : Run A) (k : A -> Run B) :
  Forall (fun e => free e = true) (fst m) -> (forall x, snd m = Ok x -> gated (fst (k x))) ->
  gated (fst (t_bind m k)).
Proof.
  intros Hm Hk. unfold t_bind. destruct (snd m) eqn:E; cbn [fst]; [|by apply free_gated..].
  apply gated_free; auto.
Qed.

Lemma quiet_free tr : quiet is_active tr -> Forall (fun e => free e = true) tr.
Proof.
  intros Hq. apply existsb_false_Forall in Hq. eapply Forall_impl; [exact Hq|]. by intros [].
Qed.

Lemma each_free {A} (f : A -> Run unit) l :
  (forall x, x ∈ l -> Forall (fun e => free e = true) (fst (f x))) ->
  Forall (fun e => free e = true) (fst (t_each f l)).
Proof.
  induction l as [|x l IH]; intros Hf; cbn [t_each]; [by constructor|].
  apply t_bind_events; [intros; by apply Forall_app|apply Hf; set_solver|]. intros _ _. apply IH. set_solver.
Qed.

(** The sockets served at once have no certificate to wait for. *)
Definition now_ok (x : SocketAddr * str * nat) : Prop :=
  is_tls_protocol (snd (fst x)) = true -> is_acme cfg (snd x) = false.

Lemma bind_listen_now idx l b b' :
  snd (bind_listen bind_tcp bind_udp (is_acme cfg idx) idx l b) = Ok b' ->
  Forall now_ok (bound_now b) -> Forall now_ok (bound_now b').
Proof.
  unfold bind_listen. intros Hr Hb. repeat case_bool_decide;
    repeat (apply t_bind_ok in Hr as (? & _ & Hr & _)).
  - injection Hr as <-. cbn. apply Forall_app_2; [done|]. repeat constructor. intros Ht. exfalso.
    apply bool_decide_eq_true in Ht. cbn [fst snd] in Ht. revert Ht H.
    unfold TLS_PROTOCOLS, PLAIN_PROTOCOLS, strs. cbn [map]. rewrite !elem_of_cons, elem_of_nil.
    intros [E|[E|[]]] [E'|[E'|[]]]; rewrite E in E'; vm_compute in E'; discriminate E'.
  - destruct (is_acme cfg idx) eqn:Ea; injection Hr as <-; cbn; [done|].
    apply Forall_app_2; [done|]. apply Forall_singleton. intros _. exact Ea.
  - by injection Hr as <-.
  - by injection Hr as <-.
Qed.

Lemma bind_all_now ls b b' :
  snd (bind_all bind_tcp bind_udp cfg ls b) = Ok b' ->
  Forall now_ok (bound_now b) -> Forall now_ok (bound_now b').
Proof.
  revert b. induction ls as [|[idx l] ls IH]; intros b; cbn [bind_all]; [by intros [= <-]|].
  intros Hr Hb. apply t_bind_ok in Hr as (b1 & H1 & Hr & _).
  apply (IH b1 Hr). by apply bind_listen_now in H1.
Qed.

Lemma spawn_http_free x :
  now_ok x -> Forall (fun e => free e = true)
    (fst (spawn_http cfg (is_tls_protocol (snd (fst x))) (fst (fst x)) (snd x))).
Proof.
  intros Hx. unfold spawn_http. destruct (cfg_http cfg !! snd x); [|by constructor]. repeat constructor.
  cbn [free needs_cert]. apply bool_decide_eq_true. unfold now_ok in Hx.
  destruct (is_tls_protocol _); [|done]. by rewrite Hx.
Qed.

Lemma spawn_quic_now_free s : Forall (fun e => free e = true) (fst (spawn_quic_now cfg s)).
Proof.
  induction s as [|[a i] s IH]; cbn [spawn_quic_now]; [by constructor|].
  destruct (cfg_http cfg !! i) as [hb|]; [|done]. destruct (negb (hb_http3 hb)); [done|].
  destruct (is_acme cfg i) eqn:Ea.
  - apply t_bind_events; [intros; by apply Forall_app|done|]. by constructor.
  - case_bool_decide; [done|]. apply t_bind_events; [intros; by apply Forall_app| |done].
    repeat constructor. cbn. by rewrite Ea.
Qed.

(** Serving under a certificate that is there. *)
Definition under (idx : nat) (e : RunEvent) : Prop :=
  match e with
  | EvServe s _ => needs_cert s = None \/ needs_cert s = Some idx
  | EvEnsure _ _ => False
  | _ => True
  end.

Lemma gated_under idx a b :
  Forall (under idx) a -> gated b -> gated (EvEnsure idx true :: a ++ b).
Proof.
  intros Ha [Hb1 Hb2]. split.
  - intros [|x pre] s addr post i E Hn; [done|]. injection E as <- E. apply elem_of_cons.
    apply app_eq_app in E as (l & [[-> E]|[-> E]]).
    + destruct l as [|y l].
      * right. exfalso. cbn in E. specialize (Hb1 [] s addr post i (eq_sym E) Hn). by apply elem_of_nil in Hb1.
      * injection E as <- _. apply Forall_app in Ha as [_ Ha]. apply Forall_cons in Ha as [Hy _].
        cbn in Hy. destruct Hy as [Hy|Hy]; [congruence|]. left. congruence.
    + right. apply elem_of_app. right. by eapply Hb1.
  - intros [|x pre] i post E; [done|]. injection E as <- E.
    apply app_eq_app in E as (l & [[-> E]|[-> E]]); [|by eapply Hb2].
    destruct l as [|y l]; [by apply (Hb2 [] i)|]. injection E as <- _.
    apply Forall_app in Ha as [_ Ha]. by apply Forall_cons in Ha as [Hy _].
Qed.

Lemma gated_failed idx : gated [EvEnsure idx false].
Proof.
  split.
  - intros [|? []] s addr post i E; try discriminate E.
  - intros [|? []] i post E; try discriminate E. by injection E.
Qed.

Lemma each_under {A} idx (f : A -> Run unit) l :
  (forall x, x ∈ l -> Forall (under idx) (fst (f x))) -> Forall (under idx) (fst (t_each f l)).
Proof.
  induction l as [|x l IH]; intros Hf; cbn [t_each]; [by constructor|].
  apply t_bind_events; [intros; by apply Forall_app|apply Hf; set_solver|]. intros _ _. apply IH. set_solver.
Qed.

Lemma spawn_http_under idx t a : Forall (under idx) (fst (spawn_http cfg t a idx)).
Proof.
  unfold spawn_http. case_match; [|constructor]. apply Forall_singleton. cbn.
  destruct t; [|by left]. destruct (is_acme cfg idx); [by right|by left].
Qed.
Lemma spawn_quic_under idx a : Forall (under idx) (fst (spawn_quic cfg a idx)).
Proof.
  unfold spawn_quic. case_match; [|constructor]. apply Forall_singleton. cbn.
  destruct (is_acme cfg idx); [by right|by left].
Qed.

Lemma spawn_each_ok {A V E} (f : A -> Tr V E unit) l :
  (forall x, exists u, snd (f x) = Ok u) -> snd (t_each f l) = Ok tt.
Proof.
  intros Hf. induction l as [|x l IH]; cbn [t_each]; [done|]. unfold t_bind.
  by destruct (Hf x) as [[] ->].
Qed.
Lemma spawn_http_ok t a i : exists u, snd (spawn_http cfg t a i) = Ok u.
Proof. exists tt. unfold spawn_http. by case_match. Qed.
Lemma spawn_quic_ok a i : exists u, snd (spawn_quic cfg a i) = Ok u.
Proof. exists tt. unfold spawn_quic. by case_match. Qed.

(** What one turn of the issuance loop serves. *)
Definition turn (idx : nat) (dt : list (SocketAddr * str * nat)) (dq : list (SocketAddr * nat)) : list RunEvent :=
  fst (t_each (fun x => spawn_http cfg true (fst (fst x)) (snd x)) (fst (remove_block tls_block idx dt)))
  ++ fst (t_each (fun x => spawn_quic cfg (fst x) (snd x)) (fst (remove_block quic_block idx dq)))
  ++ [EvRenewalTask idx].

Lemma t_bind_run {V E A B} (m : Tr V E A) (k : A -> Tr V E B) x :
  snd m = Ok x -> t_bind m k = (fst m ++ fst (k x), snd (k x)).
Proof. unfold t_bind. by intros ->. Qed.

Lemma issue_and_serve_cons idx ms dt dq :
  issue_and_serve ensure cfg (idx :: ms) dt dq
  = if ensure idx then
      let next := issue_and_serve ensure cfg ms (snd (remove_block tls_block idx dt))
                    (snd (remove_block quic_block idx dq)) in
      (EvEnsure idx true :: turn idx dt dq ++ fst next, snd next)
    else ([EvEnsure idx false], Err (IssuanceFailed idx)).
Proof.
  cbn [issue_and_serve]. rewrite (t_bind_run _ _ tt) by done. cbn [t_emit fst app].
  destruct (ensure idx); [|done]. rewrite (t_bind_run _ _ tt) by done. cbn [t_ensure t_lift fst snd app].
  unfold turn.
  destruct (remove_block tls_block idx dt) as [tn dt']. destruct (remove_block quic_block idx dq) as [qn dq'].
  cbn [fst snd]. rewrite (t_bind_run _ _ tt) by (apply spawn_each_ok; intros; apply spawn_http_ok). cbn [fst snd].
  rewrite (t_bind_run _ _ tt) by (apply spawn_each_ok; intros; apply spawn_quic_ok). cbn [fst snd].
  rewrite (t_bind_run _ _ tt) by done. cbn [t_emit fst snd]. by rewrite <- !app_assoc.
Qed.

Lemma turn_under idx dt dq : Forall (under idx) (turn idx dt dq).
Proof.
  unfold turn. rewrite !remove_block_spec. cbn [fst]. rewrite !Forall_app. split_and!.
  - apply each_under. intros x [<- _]%list_elem_of_filter. apply spawn_http_under.
  - apply each_under. intros x [<- _]%list_elem_of_filter. apply spawn_quic_under.
  - by repeat constructor.
Qed.

Lemma issue_and_serve_gated ms dt dq : gated (fst (issue_and_serve ensure cfg ms dt dq)).
Proof.
  revert dt dq. induction ms as [|idx ms IH]; intros dt dq; [apply gated_nil|].
  rewrite issue_and_serve_cons. destruct (ensure idx); [|apply gated_failed].
  apply gated_under; [apply turn_under|apply IH].
Qed.

Lemma issue_and_serve_ok ms dt dq u :
  snd (issue_and_serve ensure cfg ms dt dq) = Ok u -> Forall (fun idx => ensure idx = true) ms.
Proof.
  revert dt dq. induction ms as [|idx ms IH]; intros dt dq; [by constructor|].
  rewrite issue_and_serve_cons. destruct (ensure idx) eqn:E; [|done]. constructor; eauto.
Qed.

Lemma ensure_events ms dt dq idx ok :
  EvEnsure idx ok ∈ fst (issue_and_serve ensure cfg ms dt dq) -> ok = ensure idx /\ idx ∈ ms.
Proof.
  revert dt dq. induction ms as [|j ms IH]; intros dt dq; [by intros ?%elem_of_nil|].
  rewrite issue_and_serve_cons. destruct (ensure j) eqn:Ej; cbn [fst].
  - intros [[= -> ->]|[Hin|Hin]%elem_of_app]%elem_of_cons.
    + split; [done|set_solver].
    + exfalso. pose proof (turn_under j dt dq) as Hu. rewrite Forall_forall in Hu. by apply Hu in Hin.
    + apply IH in Hin as [??]. split; [done|set_solver].
  - intros [= -> ->]%list_elem_of_singleton. split; [done|set_solver].
Qed.

Lemma run_gated : gated (fst (run bind_tcp bind_udp drop_user ensure hash_order cfg)).
Proof.
  unfold run.
  apply gated_bind_free; [unfold write_pid; case_match; by repeat constructor|intros _ _].
  apply gated_bind_free; [apply quiet_free, bind_all_active|intros b Hb].
  apply gated_bind_free; [by apply quiet_free, t_each_quiet|intros _ _].
  apply gated_bind_free; [by apply quiet_free, t_each_quiet|intros _ _].
  apply gated_bind_free; [unfold drop_to_user; apply quiet_free; by case_match|intros _ _].
  apply gated_bind_free; [apply each_free; by repeat constructor|intros _ _].
  apply gated_bind_free; [apply each_free; by repeat constructor|intros _ _].
  apply gated_bind_free; [|intros _ _].
  { apply each_free. intros x Hx. apply spawn_http_free.
    apply bind_all_now in Hb; [|by constructor]. rewrite Forall_forall in Hb. by apply Hb. }
  apply gated_bind_free; [apply spawn_quic_now_free|intros dq _].
  unfold t_bind. destruct (snd (issue_and_serve _ _ _ _ _)) eqn:Eok; cbn [fst]; [|apply issue_and_serve_gated..].
  pose proof (issue_and_serve_gated (hash_order (acme_managers cfg)) (deferred_acme_tls b) dq) as [G1 G2].
  split.
  - intros pre s addr post idx E Hn. apply (app_eq_app _ [EvSignalHandler]) in E as (l & [[Hl E]|[Hl E]]).
    + destruct l as [|y l]; [done|]. injection E as <- _. by eapply G1.
    + destruct l as [|y l]; [done|]. by destruct l.
  - intros pre idx post E. apply (app_eq_app _ [EvSignalHandler]) in E as (l & [[Hl E]|[Hl E]]).
    + destruct l as [|y l]; [done|]. injection E as <- ->. exfalso.
      assert (EvEnsure idx false ∈ fst (issue_and_serve ensure cfg (hash_order (acme_managers cfg)) (deferred_acme_tls b) dq))
        as Hin by (rewrite Hl; set_solver).
      apply ensure_events in Hin as [He Hin]. apply issue_and_serve_ok in Eok. rewrite Forall_forall in Eok.
      by rewrite Eok in He.
    + destruct l as [|y l]; [done|]. by destruct l.
Qed.
End acme_gate.

(** C7. A TLS or QUIC socket of a block with ACME is served only after [ensure_cert]
    for that block succeeded; a failed issuance is the last thing startup does. *)
Theorem run_acme_gate bind_tcp bind_udp drop_user ensure hash_order cfg :
  let tr := fst (run bind_tcp bind_udp drop_user ensure hash_order cfg) in
  (forall pre s addr post idx,
     tr = pre ++ EvServe s addr :: post -> needs_cert cfg s = Some idx -> EvEnsure idx true ∈ pre)
  /\ (forall pre idx post, tr = pre ++ EvEnsure idx false :: post -> post = []).
Proof. apply run_gated. Qed.

(** ** Everything configured is served *)

Section complete.
Variable bind_tcp : SocketAddr -> bool.
Variable bind_udp : SocketAddr -> bool.
Variable drop_user : str -> bool.
Variable ensure : nat -> bool.
Variable hash_order : list nat -> list nat.
Hypothesis hash_order_perm : forall l, hash_order l ≡ₚ l.
Variable cfg : Config.

(** What a directive asks for. *)
Definition wanted (d : nat * ListenDirective) : option (Service * SocketAddr) :=
  let '(idx, l) := d in
  let protocol := ld_protocol l in
  if bool_decide (protocol ∈ PLAIN_PROTOCOLS) then Some (HttpListener false idx, listen_addr l)
  else if bool_decide (protocol ∈ TLS_PROTOCOLS) then Some (HttpListener true idx, listen_addr l)
  else if bool_decide (protocol ∈ QUIC_PROTOCOLS) then
    match cfg_http cfg !! idx with
    | Some b => if hb_http3 b && negb (bool_decide (hb_ssl b = None))
                then Some (QuicListener idx, listen_addr l) else None
    | None => None
    end
  else None.
Definition expected : list (Service * SocketAddr) :=
  map (pair StreamProxy) (stream_addrs cfg) ++ map (pair MailListener) (mail_addrs cfg)
  ++ omap wanted (directives cfg).

Definition serves (tr : list RunEvent) : list (Service * SocketAddr) :=
  omap (fun e => match e with EvServe s a => Some (s, a) | _ => None end) tr.
Lemma serves_app a b : serves (a ++ b) = serves a ++ serves b.
Proof. apply omap_app. Qed.

(** The entries of each kind that a directive adds. *)
Definition now_of (d : nat * ListenDirective) : option (SocketAddr * str * nat) :=
  let '(idx, l) := d in
  if bool_decide (ld_protocol l ∈ PLAIN_PROTOCOLS) then Some (listen_addr l, ld_protocol l, idx)
  else if bool_decide (ld_protocol l ∈ TLS_PROTOCOLS) then
    if is_acme cfg idx then None else Some (listen_addr l, ld_protocol l, idx)
  else None.
Definition deferred_of (d : nat * ListenDirective) : option (SocketAddr * str * nat) :=
  let '(idx, l) := d in
  if bool_decide (ld_protocol l ∈ PLAIN_PROTOCOLS) then None
  else if bool_decide (ld_protocol l ∈ TLS_PROTOCOLS) then
    if is_acme cfg idx then Some (listen_addr l, ld_protocol l, idx) else None
  else None.
Definition quic_of (d : nat * ListenDirective) : option (SocketAddr * nat) :=
  let '(idx, l) := d in
  if bool_decide (ld_protocol l ∈ PLAIN_PROTOCOLS) then None
  else if bool_decide (ld_protocol l ∈ TLS_PROTOCOLS) then None
  else if bool_decide (ld_protocol l ∈ QUIC_PROTOCOLS) then Some (listen_addr l, idx)
  else None.

Definition option_list {X} (o : option X) : list X := match o with Some x => [x] | None => [] end.
Lemma omap_cons_list {X Y} (f : X -> option Y) x l : omap f (x :: l) = option_list (f x) ++ omap f l.
Proof. cbn. by destruct (f x). Qed.

Lemma bind_listen_result idx l b b' :
  snd (bind_listen bind_tcp bind_udp (is_acme cfg idx) idx l b) = Ok b' ->
  b' = mkBound (bound_now b ++ option_list (now_of (idx, l)))
         (deferred_acme_tls b ++ option_list (deferred_of (idx, l)))
         (quic_sockets b ++ option_list (quic_of (idx, l)))
  /\ serves (fst (bind_listen bind_tcp bind_udp (is_acme cfg idx) idx l b)) = [].
Proof.
  unfold bind_listen, now_of, deferred_of, quic_of, do_bind, t_ensure, t_bind. cbn [t_emit t_lift fst snd].
  repeat case_bool_decide; cbn [fst snd option_list].
  - destruct (bind_tcp _); cbn; [|done]. intros [= <-]. by rewrite !app_nil_r.
  - destruct (bind_tcp _); cbn; [|done]. destruct (is_acme cfg idx); cbn; intros [= <-]; by rewrite !app_nil_r.
  - destruct (bind_udp _); cbn; [|done]. intros [= <-]. by rewrite !app_nil_r.
  - intros [= <-]. rewrite !app_nil_r. by destruct b.
Qed.

Lemma bind_all_result ls b b' :
  snd (bind_all bind_tcp bind_udp cfg ls b) = Ok b' ->
  b' = mkBound (bound_now b ++ omap now_of ls) (deferred_acme_tls b ++ omap deferred_of ls)
         (quic_sockets b ++ omap quic_of ls)
  /\ serves (fst (bind_all bind_tcp bind_udp cfg ls b)) = [].
Proof.
  revert b. induction ls as [|[idx l] ls IH]; intros b; cbn [bind_all].
  - intros [= <-]. cbn. rewrite !app_nil_r. by destruct b.
  - intros Hr. apply t_bind_ok in Hr as (b1 & H1 & Hr & ->).
    apply bind_listen_result in H1 as [-> Hs]. apply IH in Hr as [-> Hs']. cbn [bound_now deferred_acme_tls quic_sockets].
    rewrite !omap_cons_list, serves_app, Hs, Hs', !app_assoc. done.
Qed.

Lemma serves_each_quiet {A} (f : A -> Run unit) l :
  (forall x, serves (fst (f x)) = []) -> serves (fst (t_each f l)) = [].
Proof.
  intros Hf. induction l as [|x l IH]; cbn [t_each]; [done|]. unfold t_bind.
  destruct (snd (f x)); cbn [fst]; rewrite ?serves_app, Hf; done.
Qed.

Lemma serves_each {A} (f : A -> Run unit) (g : A -> Service * SocketAddr) l :
  (forall x, x ∈ l -> snd (f x) = Ok tt /\ serves (fst (f x)) = [g x]) -> serves (fst (t_each f l)) = map g l.
Proof.
  induction l as [|x l IH]; intros Hf; cbn [t_each map]; [done|].
  destruct (Hf x ltac:(set_solver)) as [Hx Hs]. rewrite (t_bind_run _ _ tt) by done. cbn [fst].
  rewrite serves_app, Hs, IH by set_solver. done.
Qed.

Definition has_block (idx : nat) : Prop := is_Some (cfg_http cfg !! idx).
Definition serve_now (x : SocketAddr * str * nat) : Service * SocketAddr :=
  (HttpListener (is_tls_protocol (snd (fst x))) (snd x), fst (fst x)).
Definition serve_tls (x : SocketAddr * str * nat) : Service * SocketAddr :=
  (HttpListener true (snd x), fst (fst x)).
Definition serve_quic (x : SocketAddr * nat) : Service * SocketAddr := (QuicListener (snd x), fst x).

Lemma spawn_http_serves t a i :
  has_block i -> snd (spawn_http cfg t a i) = Ok tt /\ serves (fst (spawn_http cfg t a i)) = [(HttpListener t i, a)].
Proof. intros [b Hb]. unfold spawn_http. by rewrite Hb. Qed.
Lemma spawn_quic_serves a i :
  has_block i -> snd (spawn_quic cfg a i) = Ok tt /\ serves (fst (spawn_quic cfg a i)) = [(QuicListener i, a)].
Proof. intros [b Hb]. unfold spawn_quic. by rewrite Hb. Qed.

Lemma directives_block idx l : (idx, l) ∈ directives cfg -> has_block idx.
Proof.
  unfold directives. rewrite list_elem_of_In, in_concat. intros (ds & Hds & Hin).
  apply list_elem_of_In, elem_of_lookup_imap in Hds as (i & b & -> & Hb).
  apply in_map_iff in Hin as (x & [= <- _] & _). by exists b.
Qed.

Lemma acme_block idx : is_acme cfg idx = true -> has_block idx.
Proof. unfold is_acme, has_block. by destruct (cfg_http cfg !! idx). Qed.

Lemma acme_managers_elem idx : idx ∈ acme_managers cfg <-> is_acme cfg idx = true.
Proof.
  unfold acme_managers. rewrite list_elem_of_filter, elem_of_seq. split; [by intros [? _]|].
  intros Ha. split; [done|]. apply acme_block, lookup_lt_is_Some in Ha. lia.
Qed.

(** The sockets of the listed blocks, split at the first block. *)
Lemma filter_managers {X} (block_of : X -> nat) idx ms l :
  filter (fun x => block_of x ∈ idx :: ms) l
  ≡ₚ filter (fun x => block_of x = idx) l
     ++ filter (fun x => block_of x ∈ ms) (filter (fun x => block_of x <> idx) l).
Proof.
  induction l as [|x l IH]; [done|]. destruct (decide (block_of x = idx)) as [E|E].
  - rewrite filter_cons_True by (rewrite E; set_solver). rewrite (filter_cons_True (fun x => block_of x = idx)) by done.
    rewrite (filter_cons_False (fun x => block_of x <> idx)) by (intros Hn; by apply Hn).
    cbn [app]. by constructor.
  - rewrite (filter_cons_False (fun x => block_of x = idx)) by done.
    rewrite (filter_cons_True (fun x => block_of x <> idx)) by done.
    destruct (decide (block_of x ∈ ms)) as [Em|Em].
    + rewrite (filter_cons_True _ x l) by set_solver. rewrite filter_cons_True by done.
      rewrite <- Permutation_middle. by constructor.
    + rewrite (filter_cons_False _ x l) by set_solver. by rewrite filter_cons_False by done.
Qed.

Lemma turn_serves idx dt dq :
  has_block idx ->
  serves (turn cfg idx dt dq)
  = map serve_tls (filter (fun x => tls_block x = idx) dt) ++ map serve_quic (filter (fun x => quic_block x = idx) dq).
Proof.
  intros Hb. unfold turn. rewrite !remove_block_spec. cbn [fst]. rewrite !serves_app.
  rewrite (serves_each _ serve_tls), (serves_each _ serve_quic); [cbn; by rewrite app_nil_r| |].
  - intros x [Hx _]%list_elem_of_filter. apply spawn_quic_serves. by rewrite <- Hx in Hb.
  - intros x [Hx _]%list_elem_of_filter. apply spawn_http_serves. by rewrite <- Hx in Hb.
Qed.

Lemma issue_and_serve_serves ms dt dq u :
  Forall has_block ms ->
  snd (issue_and_serve ensure cfg ms dt dq) = Ok u ->
  serves (fst (issue_and_serve ensure cfg ms dt dq))
  ≡ₚ map serve_tls (filter (fun x => tls_block x ∈ ms) dt)
     ++ map serve_quic (filter (fun x => quic_block x ∈ ms) dq).
Proof.
  revert dt dq. induction ms as [|idx ms IH]; intros dt dq Hb.
  - intros _. assert (forall X (f : X -> nat) l, filter (fun x => f x ∈ []) l = []) as Hn.
    { intros X f l. induction l as [|x l IHl]; [done|]. rewrite filter_cons_False; [done|]. by intros ?%elem_of_nil. }
    by rewrite !Hn.
  - apply Forall_cons in Hb as [Hi Hb]. rewrite issue_and_serve_cons. destruct (ensure idx); [|done].
    cbn zeta. cbn [fst snd]. intros Hr. change (EvEnsure idx true :: ?x) with ([EvEnsure idx true] ++ x).
    rewrite !serves_app, turn_serves by done. rewrite (IH _ _ Hb Hr). rewrite !remove_block_spec. cbn [snd].
    rewrite (filter_managers tls_block), (filter_managers quic_block), !map_app. cbn [serves omap list_omap app].
    solve_Permutation.
Qed.

(** Which QUIC sockets are served at once, and which wait. *)
Definition quic_at_once (x : SocketAddr * nat) : bool :=
  match cfg_http cfg !! snd x with
  | Some b => hb_http3 b && negb (is_acme cfg (snd x)) && negb (bool_decide (hb_ssl b = None))
  | None => false
  end.
Definition quic_later (x : SocketAddr * nat) : bool :=
  match cfg_http cfg !! snd x with
  | Some b => hb_http3 b && is_acme cfg (snd x)
  | None => false
  end.

Lemma filter_if {X} (f : X -> bool) x l :
  filter (fun y => f y = true) (x :: l)
  = if f x then x :: filter (fun y => f y = true) l else filter (fun y => f y = true) l.
Proof. rewrite filter_cons. destruct (f x); [by rewrite decide_True|by rewrite decide_False]. Qed.

Lemma spawn_quic_now_result s :
  snd (spawn_quic_now cfg s) = Ok (filter (fun x => quic_later x = true) s)
  /\ serves (fst (spawn_quic_now cfg s)) = map serve_quic (filter (fun x => quic_at_once x = true) s).
Proof.
  induction s as [|[a i] s [IH1 IH2]]; cbn [spawn_quic_now]; [done|].
  rewrite !filter_if. unfold quic_later at 1, quic_at_once at 1. cbn [snd].
  destruct (cfg_http cfg !! i) as [b|]; [|done].
  destruct (hb_http3 b); cbn [negb andb]; [|done].
  destruct (is_acme cfg i); cbn [negb andb].
  - rewrite (t_bind_run _ _ _ IH1). cbn [fst snd t_lift]. by rewrite app_nil_r, IH2.
  - case_bool_decide; cbn [negb]; [done|]. rewrite (t_bind_run _ _ tt) by done. cbn [fst snd t_emit].
    rewrite serves_app, IH2. by rewrite IH1.
Qed.

Lemma filter_all {X} (P : X -> Prop) `{!forall x, Decision (P x)} l : Forall P l -> filter P l = l.
Proof. induction 1 as [|x l Hx _ IH]; [done|]. rewrite filter_cons_True by done. by rewrite IH. Qed.

Lemma plain_not_tls p : p ∈ PLAIN_PROTOCOLS -> is_tls_protocol p = false.
Proof.
  unfold PLAIN_PROTOCOLS, strs. cbn [map]. rewrite !elem_of_cons, elem_of_nil.
  by intros [->|[->|[]]].
Qed.

(** Each directive lands in exactly one of the four lists. *)
Lemma wanted_split ds :
  (forall idx l, (idx, l) ∈ ds -> has_block idx) ->
  map serve_now (omap now_of ds)
  ++ map serve_quic (filter (fun x => quic_at_once x = true) (omap quic_of ds))
  ++ map serve_tls (omap deferred_of ds)
  ++ map serve_quic (filter (fun x => quic_later x = true) (omap quic_of ds))
  ≡ₚ omap wanted ds.
Proof.
  induction ds as [|[idx l] ds IH]; intros Hb; [done|]. rewrite !omap_cons_list.
  rewrite !filter_app, !map_app. rewrite <- (IH ltac:(set_solver)). clear IH.
  destruct (Hb idx l ltac:(set_solver)) as [b Hi].
  assert (map serve_now (option_list (now_of (idx, l)))
    ++ map serve_quic (filter (fun x => quic_at_once x = true) (option_list (quic_of (idx, l))))
    ++ map serve_tls (option_list (deferred_of (idx, l)))
    ++ map serve_quic (filter (fun x => quic_later x = true) (option_list (quic_of (idx, l))))
    = option_list (wanted (idx, l))) as <-; [|solve_Permutation].
  unfold now_of, quic_of, deferred_of, wanted.
  case_bool_decide as E1; [cbn; unfold serve_now; cbn; by rewrite plain_not_tls|].
  case_bool_decide as E2.
  { destruct (is_acme cfg idx); cbn; [done|]. unfold serve_now, is_tls_protocol. cbn. by rewrite bool_decide_true. }
  case_bool_decide as E3; [|done]. cbn [option_list map app]. rewrite Hi. rewrite !filter_if, !filter_nil.
  unfold quic_at_once, quic_later. cbn [snd]. rewrite Hi.
  destruct (hb_http3 b); cbn [andb]; [|done].
  assert (is_acme cfg idx = true -> hb_ssl b <> None) as Hssl.
  { unfold is_acme. rewrite Hi. unfold acme_enabled. by destruct (hb_ssl b). }
  destruct (is_acme cfg idx); cbn [negb andb].
  - case_bool_decide; [by destruct (Hssl eq_refl)|done].
  - by case_bool_decide.
Qed.

End complete.

(** ** Concrete inputs *)

#[local] Existing Instance id_unicode.
#[local] Existing Instance assoc_http.
#[local] Existing Instance cidr_nets.
#[local] Existing Instance literal_regex.
#[local] Existing Instance one_country.
#[local] Existing Instance text_tls.

(** One block with a plain and a TLS listener, whose certificate ACME issues, and
    its QUIC socket. *)
Definition demo_http : HttpBlock :=
  mkHttp [mkListen 80 "http" None; mkListen 443 "https" None; mkListen 443 "quic" None]
    (strs ["a.example"]%string) None (Some (mkSsl None None (Some demo_acme_config) []))
    true true [] [] None [] "/log" None None true true None None "any" None true false None None None None
    None None None [] None None None.
Definition demo_config : Config :=
  mkConfig (mkGlobal default_worker_processes default_error_log (Some ("f.pid" : str)) (Some ("www" : str)) None)
    [demo_http] [] None.
Definition always {X} (_ : X) : bool := true.
Definition demo_run : Run unit := run always always always always (fun l => l) demo_config.
Definition demo_lookup (_ : str) : option (option User) := Some (Some (mkUser 33 33)).
Definition any_port (p : Z) : SocketAddr := mkSocketAddr UNSPECIFIED p.

Lemma run_bind_drop_serve_witness :
  EvDropPrivileges "www" ∈
    [EvPidFile "f.pid"; EvBindTcp (any_port 80); EvBindTcp (any_port 443); EvBindUdp (any_port 443);
     EvDropPrivileges "www"]
  /\ exists p, dropped (X := posix) demo_lookup (mkIds 0 0 0 [0; 4]) "www" = Ok p.
Proof.
  refine (proj2 (proj2 (run_bind_drop_serve (X := posix) (E := unit) always always demo_lookup (mkIds 0 0 0 [0; 4])
    (fun p => Some p) (fun _ _ => (Ok tt, 0)) (fun l => l) demo_config _
    (EvServe (HttpListener false 0) (any_port 80))
    [EvEnsure 0 true; EvServe (HttpListener true 0) (any_port 443); EvServe (QuicListener 0) (any_port 443);
     EvRenewalTask 0; EvSignalHandler] _ _)) "www" _).
  - vm_compute. reflexivity.
  - reflexivity.
  - reflexivity.
Defined.

(** When the issuance of an ACME block then fails, its TLS and QUIC sockets have been
    bound, and the plain listeners served. *)
Theorem acme_bound_first_gap :
  fst (run always always always (fun _ => false) (fun l => l) demo_config)
  = [EvPidFile "f.pid"; EvBindTcp (any_port 80); EvBindTcp (any_port 443); EvBindUdp (any_port 443);
     EvDropPrivileges "www"; EvServe (HttpListener false 0) (any_port 80); EvEnsure 0 false]
  /\ is_ok (snd (run always always always (fun _ => false) (fun l => l) demo_config)) = false.
Proof. vm_compute. done. Qed.


Definition demo_env (content : str) : Env :=
  mkEnv (fun _ => true) (fun _ => None) false (fun _ => Some content) (fun _ => None)
    (fun _ => Some (mkConfig (cfg_global demo_config) [] [] None)).

Lemma signal_handler_valid_witness :
  was_validated (c_config (signal_handler [Sighup (demo_env "x"); Sigterm]
    (mkControl (mkConfig (cfg_global demo_config) [] [] None) 0 false))).
Proof.
  refine (proj1 (signal_handler_valid [Sighup (demo_env "x"); Sigterm]
    (mkControl (mkConfig (cfg_global demo_config) [] [] None) 0 false) _)).
  exists (demo_env "x"). vm_compute. reflexivity.
Defined.
