(* ===== verification/StreamProxy.v ===== *)
(** * The stream proxy's task (src/src/server.rs)

    [accept_stream_loop] and the tasks it spawns: every accepted client ranks the
    servers, dials them in turn and is relayed to the first that connects, and all of
    them share one balancer.  A task is cut where it awaits, and the tasks interleave.
    Theorem: at every moment the gauge of each server is the number of clients being
    relayed to it; no client dials a server twice or one outside the pool; after
    shutdown no client is accepted, and those there are go on. *)

From S2P Require Import Prelude.
From S2P Require Import Str.
From S2P Require Import Net.
From S2P Require Import Config.
From S2P Require Import Balance.
From S2P Require Import Broadcast.

Section stream.
Variable hash_ip : IpAddr -> Z.
Context {B : Broadcast}.
Variable upstream : UpstreamRef.

(** A client's task: about to rank the servers, before the dial of the first server
    of a list, or copying, with the guard it holds. *)
Inductive Session : Type :=
  | Choosing (ip : IpAddr)
  | Dialing (order : list nat)
  | Relaying (idx : nat) (inflight : InflightGuard).

Record StreamLoop : Type := mkStreamLoop {
  sl_balancer : Balancer;
  sl_sessions : list Session;
  sl_running : bool;
  sl_shutdown : Rx;
}.

Definition stream_start : StreamLoop := mkStreamLoop (for_upstream upstream) [] true fresh.

(** The state with one session replaced, or gone. *)
Definition with_session (l : StreamLoop) (b : Balancer) (s1 : list Session) (x : option Session) (s2 : list Session)
    : StreamLoop :=
  mkStreamLoop b (s1 ++ option_list x ++ s2) (sl_running l) (sl_shutdown l).

Inductive stream_step : StreamLoop -> StreamLoop -> Prop :=
  (* The loop: shutdown first, then an accepted client; a failed accept only waits. *)
  | ss_told l : stream_step l (mkStreamLoop (sl_balancer l) (sl_sessions l) (sl_running l) (deliver (sl_shutdown l)))
  | ss_shutdown l rx :
      sl_running l = true -> recv (sl_shutdown l) = Some rx ->
      stream_step l (mkStreamLoop (sl_balancer l) (sl_sessions l) false rx)
  | ss_accept l ip :
      sl_running l = true -> recv (sl_shutdown l) = None ->
      stream_step l (mkStreamLoop (sl_balancer l) (Choosing ip :: sl_sessions l) true (sl_shutdown l))
  | ss_accept_error l :
      sl_running l = true -> recv (sl_shutdown l) = None -> stream_step l l
  (* A client's task. *)
  | ss_rank l s1 ip s2 :
      sl_sessions l = s1 ++ Choosing ip :: s2 ->
      stream_step l (with_session l (fst (candidates hash_ip (sl_balancer l) upstream ip)) s1
                       (Some (Dialing (snd (candidates hash_ip (sl_balancer l) upstream ip)))) s2)
  | ss_skip l s1 idx order s2 :
      sl_sessions l = s1 ++ Dialing (idx :: order) :: s2 -> ur_servers upstream !! idx = None ->
      stream_step l (with_session l (sl_balancer l) s1 (Some (Dialing order)) s2)
  | ss_connected l s1 idx order s2 :
      sl_sessions l = s1 ++ Dialing (idx :: order) :: s2 -> is_Some (ur_servers upstream !! idx) ->
      stream_step l (with_session l (fst (track (sl_balancer l) upstream idx)) s1
                       (Some (Relaying idx (snd (track (sl_balancer l) upstream idx)))) s2)
  | ss_unreachable l s1 idx order s2 :
      sl_sessions l = s1 ++ Dialing (idx :: order) :: s2 -> is_Some (ur_servers upstream !! idx) ->
      stream_step l (with_session l (sl_balancer l) s1 (Some (Dialing order)) s2)
  | ss_give_up l s1 s2 :
      sl_sessions l = s1 ++ Dialing [] :: s2 -> stream_step l (with_session l (sl_balancer l) s1 None s2)
  | ss_done l s1 idx g s2 :
      sl_sessions l = s1 ++ Relaying idx g :: s2 ->
      stream_step l (with_session l (drop_guard (sl_balancer l) g) s1 None s2).

(** ** The tasks as users of the balancer *)

Definition guard_of (x : Session) : option InflightGuard :=
  match x with Relaying _ g => Some g | _ => None end.
Definition guards (l : StreamLoop) : Balancer * list InflightGuard :=
  (sl_balancer l, omap guard_of (sl_sessions l)).

(** What every task respects: it dials servers of the pool, each once, and holds a
    guard of the shared pool for the server it relays to. *)
Definition session_ok (x : Session) : Prop :=
  match x with
  | Choosing _ => True
  | Dialing order => NoDup order /\ (forall i, i ∈ order -> is_Some (ur_servers upstream !! i))
  | Relaying idx g => g = mkGuard (Some (ur_name upstream)) idx /\ is_Some (ur_servers upstream !! idx)
  end.
(** The balancer has the pool, with a gauge per server. *)
Definition has_pool (b : Balancer) : Prop :=
  exists p, pools b !! ur_name upstream = Some p /\ length (inflight p) = length (ur_servers upstream).

Definition loop_ok (l : StreamLoop) : Prop :=
  gauges_ok (guards l) /\ has_pool (sl_balancer l) /\ Forall session_ok (sl_sessions l).

Lemma set_pool_has b q name :
  has_pool b -> (name = ur_name upstream -> length (inflight q) = length (ur_servers upstream)) ->
  has_pool (set_pool b name q).
Proof.
  intros (p & Hp & Hl) Hq. unfold has_pool. rewrite pools_set_pool. case_decide as E.
  - destruct E as [<- _]. exists q. auto.
  - by exists p.
Qed.

Lemma candidates_has b ip : has_pool b -> has_pool (fst (candidates hash_ip b upstream ip)).
Proof.
  intros Hb. unfold candidates. repeat case_bool_decide; try done. cbn [fst]. apply set_pool_has; [done|].
  intros _. cbn [inflight]. destruct Hb as (p & Hp & Hl). unfold pool. by rewrite Hp.
Qed.

Lemma gauge_has b idx d p :
  has_pool b -> pools b !! ur_name upstream = Some p -> has_pool (set_pool b (ur_name upstream) (gauge_add p idx d)).
Proof.
  intros Hb Hp. apply set_pool_has; [done|]. intros _. cbn. rewrite length_alter.
  destruct Hb as (p' & Hp' & Hl). congruence.
Qed.

Lemma track_has b idx :
  has_pool b -> has_pool (fst (track b upstream idx))
  /\ snd (track b upstream idx) = mkGuard (Some (ur_name upstream)) idx.
Proof.
  intros Hb. unfold track. destruct (pools b !! ur_name upstream) as [p|] eqn:E.
  - split; [|done]. by apply gauge_has.
  - destruct Hb as (p & Hp & _). congruence.
Qed.

Lemma drop_has b idx : has_pool b -> has_pool (drop_guard b (mkGuard (Some (ur_name upstream)) idx)).
Proof.
  intros Hb. unfold drop_guard. cbn [ig_pool ig_idx]. destruct (pools b !! ur_name upstream) as [p|] eqn:E; [|done].
  by apply gauge_has.
Qed.

Lemma stream_start_ok : loop_ok stream_start.
Proof.
  split_and!; [|exists (fresh_pool upstream)|constructor].
  - intros n p i v. cbn [guards fst snd stream_start sl_balancer sl_sessions for_upstream pools].
    intros [<- <-]%lookup_singleton_Some Hv. cbn in Hv. rewrite list_lookup_fmap in Hv.
    by apply fmap_Some in Hv as (? & _ & ->).
  - cbn. rewrite lookup_singleton_eq. split; [done|]. by rewrite length_map.
Qed.

(** Replacing a session by one that holds no more guards than it did. *)
Lemma replace_ok l b s1 x y s2 :
  loop_ok l -> sl_sessions l = s1 ++ x :: s2 -> has_pool b -> (forall s, y = Some s -> session_ok s) ->
  gauges_ok (b, omap guard_of s1 ++ omap guard_of (option_list y) ++ omap guard_of s2) ->
  loop_ok (with_session l b s1 y s2).
Proof.
  intros (_ & _ & Hs) E Hb Hy Hg. rewrite E in Hs. apply Forall_app in Hs as [H1 H2]. apply Forall_cons in H2 as [_ H2].
  split_and!; [|done|].
  - unfold guards, with_session. cbn [sl_balancer sl_sessions]. by rewrite !omap_app.
  - unfold with_session. cbn [sl_sessions]. apply Forall_app. split; [done|]. apply Forall_app. split; [|done].
    destruct y as [s|]; [|constructor]. constructor; [by apply Hy|constructor].
Qed.

Lemma guards_split l s1 x s2 :
  loop_ok l -> sl_sessions l = s1 ++ x :: s2 ->
  gauges_ok (sl_balancer l, omap guard_of s1 ++ option_list (guard_of x) ++ omap guard_of s2)
  /\ has_pool (sl_balancer l) /\ session_ok x.
Proof.
  intros (Hg & Hp & Hs) E. unfold guards in Hg. rewrite E in Hg, Hs. rewrite omap_app in Hg. cbn [omap list_omap] in Hg.
  apply Forall_app in Hs as [_ Hs]. apply Forall_cons in Hs as [Hx _]. split_and!; [|done|done].
  by destruct (guard_of x).
Qed.

Lemma stream_step_ok l l' : loop_ok l -> stream_step l l' -> loop_ok l'.
Proof.
  intros Hl Hs. destruct Hs as [l|l rx _ _|l ip _ _|l _ _|l s1 ip s2 E|l s1 idx order s2 E En|
    l s1 idx order s2 E Es|l s1 idx order s2 E Es|l s1 s2 E|l s1 idx g s2 E].
  - exact Hl.
  - exact Hl.
  - destruct Hl as (Hg & Hp & Hf). split_and!; [done..|]. by constructor.
  - exact Hl.
  - destruct (guards_split _ _ _ _ Hl E) as (Hg & Hp & _).
    eapply replace_ok; [done|exact E|by apply candidates_has| |].
    + intros s [= <-]. destruct (candidates_permutation hash_ip (sl_balancer l) upstream ip) as [Hn Hin].
      split; [done|]. intros i Hi. by apply Hin.
    + cbn in Hg |- *. by apply (gauges_step hash_ip _ _ Hg), bs_candidates.
  - destruct (guards_split _ _ _ _ Hl E) as (Hg & Hp & Hn & Hin).
    eapply replace_ok; [done|exact E|done| |exact Hg]. intros s [= <-]. apply NoDup_cons in Hn as [_ Hn].
    split; [done|]. set_solver.
  - destruct (guards_split _ _ _ _ Hl E) as (Hg & Hp & _).
    destruct (track_has (sl_balancer l) idx Hp) as [Hp' Ht].
    eapply replace_ok; [done|exact E|done| |].
    + intros s [= <-]. by split.
    + cbn in Hg |- *. pose proof (gauges_step hash_ip _ _ Hg (bs_track hash_ip _ _ upstream idx)) as Ha.
      refine (gauges_perm _ _ _ _ Ha). cbn. apply Permutation_middle.
  - destruct (guards_split _ _ _ _ Hl E) as (Hg & Hp & Hn & Hin).
    eapply replace_ok; [done|exact E|done| |exact Hg]. intros s [= <-]. apply NoDup_cons in Hn as [_ Hn].
    split; [done|]. set_solver.
  - destruct (guards_split _ _ _ _ Hl E) as (Hg & Hp & _). by eapply replace_ok.
  - destruct (guards_split _ _ _ _ Hl E) as (Hg & Hp & -> & _).
    eapply replace_ok; [done|exact E|by apply drop_has|done|].
    cbn in Hg |- *. by apply (gauges_step hash_ip _ _ Hg), bs_drop.
Qed.

(** The clients being relayed to a server. *)
Definition relays (idx : nat) (ss : list Session) : nat :=
  length (filter (fun x => ig_idx <$> guard_of x = Some idx) ss).

Lemma live_relays idx ss :
  Forall session_ok ss ->
  live (ur_name upstream) idx (omap guard_of ss)
  = Z.of_nat (relays idx ss).
Proof.
  unfold relays. induction 1 as [|x ss Hx _ IH]; [done|]. cbn [omap list_omap]. rewrite filter_cons.
  destruct x as [ip|order|i g]; cbn [guard_of fmap option_fmap option_map]; [rewrite decide_False by done; exact IH..|].
  destruct Hx as [-> _]. rewrite live_cons, IH. unfold counts_for. cbn [ig_pool ig_idx].
  destruct (decide (Some i = Some idx)) as [[= ->]|Hn]; [rewrite decide_True by done; cbn [length]; lia|].
  rewrite decide_False by (intros [_ ->]; done). lia.
Qed.

(** C31. In every state the stream proxy reaches, the in-flight gauge of each server
    is the number of clients being relayed to it, so least-conn never drifts; a client
    only ever dials servers of the pool, each once; and after the shutdown arm no
    client is accepted any more. *)
Theorem stream_gauges l :
  rtc stream_step stream_start l -> Z.of_nat (length (sl_sessions l)) < 2 ^ 64 ->
  (forall p i v, pools (sl_balancer l) !! ur_name upstream = Some p -> inflight p !! i = Some v ->
     v = Z.of_nat (relays i (sl_sessions l)))
  /\ is_Some (pools (sl_balancer l) !! ur_name upstream)
  /\ (forall order, Dialing order ∈ sl_sessions l ->
        NoDup order /\ (forall i, i ∈ order -> is_Some (ur_servers upstream !! i)))
  /\ (forall l', stream_step l l' -> sl_running l = false ->
        sl_running l' = false /\ (length (sl_sessions l') <= length (sl_sessions l))%nat).
Proof.
  intros Hr Hlen. assert (loop_ok l) as (Hg & (p0 & Hp0 & _) & Hs).
  { pose proof stream_start_ok as H0. revert H0. induction Hr; eauto using stream_step_ok. }
  split_and!.
  - intros p i v Hp Hv. rewrite (Hg (ur_name upstream) p i v Hp Hv). cbn [snd guards].
    rewrite live_relays by done. apply Z.mod_small.
    assert (relays i (sl_sessions l) <= length (sl_sessions l))%nat by apply length_filter. lia.
  - by exists p0.
  - rewrite Forall_forall in Hs. intros order Ho. apply (Hs _ Ho).
  - intros l' Hst Hf. destruct Hst as [l|l rx Hrun|l ip Hrun|l Hrun|l s1 ip s2 E|l s1 idx order s2 E|
      l s1 idx order s2 E|l s1 idx order s2 E|l s1 s2 E|l s1 idx g s2 E]; try congruence; [done|..];
      (split; [done|]); rewrite E; unfold with_session; cbn [sl_sessions];
      rewrite !length_app; simpl; lia.
Qed.
End stream.

(** A client of a least-conn pool is accepted, ranks the two servers and is relayed
    to the first. *)
Lemma stream_gauges_witness :
  exists l : @StreamLoop ring, sl_sessions l = [Relaying 0 (mkGuard (Some (ur_name (example_pool "least-conn"))) 0)]
  /\ (forall p i v, pools (sl_balancer l) !! ur_name (example_pool "least-conn") = Some p -> inflight p !! i = Some v ->
        v = Z.of_nat (relays i (sl_sessions l))).
Proof.
  set (ip := V4 (V4Octets 1 2 3 4)). set (u := example_pool "least-conn"). set (h := fun _ : IpAddr => 0).
  set (l0 := @stream_start ring u). set (b1 := fst (candidates h (sl_balancer l0) u ip)).
  exists (mkStreamLoop (B := ring) (fst (track b1 u 0)) [Relaying 0 (mkGuard (Some (ur_name u)) 0)] true fresh).
  split; [reflexivity|]. refine (proj1 (stream_gauges h u _ _ _)); [|cbn; lia].
  eapply rtc_l; [apply (ss_accept h u l0 ip); reflexivity|].
  eapply rtc_l; [apply (ss_rank h u _ [] ip []); reflexivity|].
  eapply rtc_l; [apply (ss_connected h u _ [] 0%nat [1%nat] []); [vm_compute; reflexivity|by eexists]|].
  apply rtc_refl.
Defined.
