(* ===== verification/System.v ===== *)
(** * The running server (src/src/server.rs)

    The tasks [run] spawns, with the signal handler and the connections, as one step
    relation: each [select!] arm is a step, an arm that awaits is split where it
    awaits, and tasks interleave.  The arms are tried in the order of the source
    ([biased]): shutdown, reload, accept.  Theorems: the whole is a refinement of a
    small specification (a published configuration that each listener adopts whole);
    connections keep the block they were accepted under and never outnumber the cap;
    no reload is lost; shutdown stops admission and every task but a renewal inside an
    issuance.  Gaps: nothing waits for the connections; a renewal holds shutdown up;
    the connections of stream proxies and of the mail listener have no cap. *)

From S2P Require Import Prelude.
From S2P Require Import Str.
From S2P Require Import Net.
From S2P Require Import Extern.
From S2P Require Import Config.
From S2P Require Import Limits.
From S2P Require Import Geoip.
From S2P Require Import Handler.
From S2P Require Import Tls.
From S2P Require Import Acme.
From S2P Require Import Listener.
From S2P Require Import Broadcast.
From S2P Require Import Server.
From S2P Require Import Instances.

Section system.
Context {U : Unicode} {H : HttpLib} {N : IpNetLib} {R : RegexLib} {M : MaxMindDb} {T : Rustls} {L : Type}.
Context {W : Type} {RW : Reloadable (L := L) W} {RL : ReloadableLaws W}.
Context {B : Broadcast} {BL : BroadcastLaws B}.

(** ** State *)

(** Where an accept loop is: [Reading]: in the reload arm, before it reads the shared
    configuration; [Installing]: with the configuration it read; [BackingOff]: inside
    [acquire_connection], about to give its increment back. *)
Inductive Phase : Type :=
  | Starting (sd : Seed)
  | Selecting (w : W)
  | Reading (w : W)
  | Installing (w : W) (c : Config)
  | BackingOff (w : W)
  | Ended.

Record Loop : Type := mkLoop { lp_phase : Phase; lp_shutdown : Rx; lp_reload : Rx }.

(** The stream, mail and renewal tasks.  [OtIssuing]: a renewal task inside its timer
    arm, awaiting [issue_with_retry], where it does not look at the shutdown channel. *)
Inductive OtherKind : Type := StreamTask | MailTask | RenewalTask (idx : nat).
Inductive OtherState : Type := OtSelecting | OtIssuing | OtEnded.
Record Other : Type := mkOther { ot_kind : OtherKind; ot_state : OtherState; ot_shutdown : Rx }.
Definition set_state (o : Other) (s : OtherState) : Other := mkOther (ot_kind o) s (ot_shutdown o).

(** The signal handler: between signals, or between its write of the configuration
    and its send, or gone. *)
Inductive Signals : Type := Waiting | Swapped | Gone.

(** [y_config]: the shared configuration.  [y_active]: the connection counter.
    [y_conns]: each live HTTP/1, HTTP/2 or HTTP/3 connection, with the listener as it
    was when it accepted.  [y_stopping]: whether shutdown has been sent.  [y_plain]:
    each live connection of a stream proxy or the mail listener, by its task: nothing
    counts those. *)
Record Sys : Type := mkSys {
  y_config : Config;
  y_signals : Signals;
  y_loops : list Loop;
  y_others : list Other;
  y_active : Z;
  y_conns : list W;
  y_stopping : bool;
  y_plain : list nat;
}.

Definition set_phase (l : Loop) (p : Phase) : Loop := mkLoop p (lp_shutdown l) (lp_reload l).
Definition put_loop (i : nat) (l : Loop) (y : Sys) : Sys :=
  mkSys (y_config y) (y_signals y) (<[i := l]> (y_loops y)) (y_others y) (y_active y) (y_conns y) (y_stopping y) (y_plain y).
Definition put_other (i : nat) (o : Other) (y : Sys) : Sys :=
  mkSys (y_config y) (y_signals y) (y_loops y) (<[i := o]> (y_others y)) (y_active y) (y_conns y) (y_stopping y) (y_plain y).
Definition set_active (a : Z) (y : Sys) : Sys :=
  mkSys (y_config y) (y_signals y) (y_loops y) (y_others y) a (y_conns y) (y_stopping y) (y_plain y).
Definition set_conns (cs : list W) (y : Sys) : Sys :=
  mkSys (y_config y) (y_signals y) (y_loops y) (y_others y) (y_active y) cs (y_stopping y) (y_plain y).
Definition set_signals (s : Signals) (y : Sys) : Sys :=
  mkSys (y_config y) s (y_loops y) (y_others y) (y_active y) (y_conns y) (y_stopping y) (y_plain y).

Definition set_plain (ps : list nat) (y : Sys) : Sys :=
  mkSys (y_config y) (y_signals y) (y_loops y) (y_others y) (y_active y) (y_conns y) (y_stopping y) ps.

(** [*guard = new_config]. *)
Definition swap_config (c : Config) (y : Sys) : Sys :=
  mkSys c Swapped (y_loops y) (y_others y) (y_active y) (y_conns y) (y_stopping y) (y_plain y).
(** [reload_tx.send(())]. *)
Definition send_reload (y : Sys) : Sys :=
  mkSys (y_config y) (y_signals y)
    (map (fun l => mkLoop (lp_phase l) (lp_shutdown l) (deliver (lp_reload l))) (y_loops y))
    (y_others y) (y_active y) (y_conns y) (y_stopping y) (y_plain y).
(** [shutdown_tx.send(())]. *)
Definition send_shutdown (y : Sys) : Sys :=
  mkSys (y_config y) (y_signals y)
    (map (fun l => mkLoop (lp_phase l) (deliver (lp_shutdown l)) (lp_reload l)) (y_loops y))
    (map (fun o => mkOther (ot_kind o) (ot_state o) (deliver (ot_shutdown o))) (y_others y))
    (y_active y) (y_conns y) true (y_plain y).

(** ** Steps *)

(** What a step is: a write or send from outside the loops, a move of a loop towards
    its next [select!], an accepted connection let in or refused, the end of one. *)
Inductive Label : Type := Control | Internal | LetIn | Refuse | Close.

Inductive sstep : Label -> Sys -> Sys -> Prop :=
  (* The signal handler. *)
  | sighup_swap env c y :
      y_signals y = Waiting -> reloaded_config env (y_config y) = Some c ->
      sstep Control y (swap_config c y)
  | sighup_send y :
      y_signals y = Swapped -> sstep Control y (set_signals Waiting (send_reload y))
  | sigterm y :
      y_signals y = Waiting -> sstep Control y (set_signals Gone (send_shutdown y))
  (* Holders of [shutdown_tx] and [reload_tx]. *)
  | outside_shutdown y : sstep Control y (send_shutdown y)
  | outside_reload y : sstep Control y (send_reload y)
  (* A renewal: the timer arm finds it due and awaits the issuance; when that ends, it
     sends a reload if it issued, and goes back to its [select!]. *)
  | renewal_begin {E} i o idx (renewal : res E bool) y :
      y_others y !! i = Some o -> ot_kind o = RenewalTask idx -> ot_state o = OtSelecting ->
      recv (ot_shutdown o) = None -> renewal = Ok true ->
      sstep Control y (put_other i (set_state o OtIssuing) y)
  | renewal_done {F} i o (issued : res F unit) y :
      y_others y !! i = Some o -> ot_state o = OtIssuing -> total issued ->
      sstep Control y
        (put_other i (set_state o OtSelecting)
           (if acme_renewal_tick (Ok (E := F) true) issued then send_reload y else y))
  (* An accept loop. *)
  | loop_start fs endpoint i l sd y :
      y_loops y !! i = Some l -> lp_phase l = Starting sd ->
      sstep Internal y
        (put_loop i (set_phase l match rl_start fs endpoint sd with Some w => Selecting w | None => Ended end) y)
  | arm_shutdown i l w rx y :
      y_loops y !! i = Some l -> lp_phase l = Selecting w -> recv (lp_shutdown l) = Some rx ->
      sstep Internal y (put_loop i (mkLoop Ended rx (lp_reload l)) y)
  | arm_reload i l w rx y :
      y_loops y !! i = Some l -> lp_phase l = Selecting w -> recv (lp_shutdown l) = None ->
      recv (lp_reload l) = Some rx ->
      sstep Internal y (put_loop i (mkLoop (Reading w) (lp_shutdown l) rx) y)
  | reload_read i l w y :
      y_loops y !! i = Some l -> lp_phase l = Reading w ->
      sstep Internal y (put_loop i (set_phase l (Installing w (y_config y))) y)
  | reload_install fs i l w c y :
      y_loops y !! i = Some l -> lp_phase l = Installing w c ->
      sstep Internal y
        (put_loop i (set_phase l match rl_reload fs c w with Some w' => Selecting w' | None => Ended end) y)
  | arm_accept_pressure i l w y :
      y_loops y !! i = Some l -> lp_phase l = Selecting w -> recv (lp_shutdown l) = None ->
      recv (lp_reload l) = None ->
      sstep Refuse y y
  | arm_accept_serve i l w y :
      y_loops y !! i = Some l -> lp_phase l = Selecting w -> recv (lp_shutdown l) = None ->
      recv (lp_reload l) = None -> (MAX_CONNECTIONS <=? fst (fetch_add (y_active y))) = false ->
      sstep LetIn y (set_conns (w :: y_conns y) (set_active (snd (fetch_add (y_active y))) y))
  | arm_accept_over i l w y :
      y_loops y !! i = Some l -> lp_phase l = Selecting w -> recv (lp_shutdown l) = None ->
      recv (lp_reload l) = None -> (MAX_CONNECTIONS <=? fst (fetch_add (y_active y))) = true ->
      sstep Refuse y
        (put_loop i (set_phase l (BackingOff w)) (set_active (snd (fetch_add (y_active y))) y))
  | back_off i l w y :
      y_loops y !! i = Some l -> lp_phase l = BackingOff w ->
      sstep Internal y (put_loop i (set_phase l (Selecting w)) (set_active (snd (fetch_sub (y_active y))) y))
  (* Stream, mail and renewal tasks. *)
  | other_shutdown i o rx y :
      y_others y !! i = Some o -> ot_state o = OtSelecting -> recv (ot_shutdown o) = Some rx ->
      sstep Internal y (put_other i (mkOther (ot_kind o) OtEnded rx) y)
  (* The guard of a connection drops. *)
  | conn_end c1 w c2 y :
      y_conns y = c1 ++ w :: c2 ->
      sstep Close y (set_conns (c1 ++ c2) (set_active (ConnectionGuard_drop (y_active y)) y))
  (* A stream proxy or the mail listener accepts, without counting; a session ends. *)
  | plain_accept i o y :
      y_others y !! i = Some o -> (forall idx, ot_kind o <> RenewalTask idx) -> ot_state o = OtSelecting ->
      recv (ot_shutdown o) = None ->
      sstep LetIn y (set_plain (i :: y_plain y) y)
  | plain_end p1 i p2 y :
      y_plain y = p1 ++ i :: p2 -> sstep Close y (set_plain (p1 ++ p2) y).

Definition moves (y y' : Sys) : Prop := exists a, sstep a y y'.

(** ** The state [run] leaves behind *)

Definition manager (cfg : Config) (idx : nat) : option AcmeConfig :=
  if is_acme cfg idx then hb ← cfg_http cfg !! idx; ssl ← hb_ssl hb; ssl_acme ssl else None.
Definition seed_of (cfg : Config) (e : RunEvent) : option Seed :=
  let timeouts := default TimeoutSettings_default (gs_timeouts (cfg_global cfg)) in
  match e with
  | EvServe (HttpListener is_tls idx) _ =>
      (fun block => mkSeed false idx is_tls block (manager cfg idx) timeouts) <$> cfg_http cfg !! idx
  | EvServe (QuicListener idx) _ =>
      (fun block => mkSeed true idx true block (manager cfg idx) timeouts) <$> cfg_http cfg !! idx
  | _ => None
  end.
Definition other_of (e : RunEvent) : option OtherKind :=
  match e with
  | EvServe StreamProxy _ => Some StreamTask
  | EvServe MailListener _ => Some MailTask
  | EvRenewalTask idx => Some (RenewalTask idx)
  | _ => None
  end.

(** The tasks spawned by a startup with the trace [tr]. *)
Definition boot (cfg : Config) (tr : list RunEvent) : Sys :=
  mkSys cfg Waiting
    (map (fun sd => mkLoop (Starting sd) fresh fresh) (omap (seed_of cfg) tr))
    (map (fun k => mkOther k OtSelecting fresh) (omap other_of tr))
    0 [] false [].
Definition reachable (cfg : Config) (tr : list RunEvent) : Sys -> Prop := rtc moves (boot cfg tr).

(** [run] returns when every task has been joined. *)
Definition all_joined (y : Sys) : bool :=
  forallb (fun l => match lp_phase l with Ended => true | _ => false end) (y_loops y)
  && forallb (fun o => match ot_state o with OtEnded => true | _ => false end) (y_others y).

(** ** The specification

    A configuration is published; a running listener adopts from it the block of its
    index, or keeps its own when there is none; connections are let in, under the
    block of their listener, while fewer than the cap are live and nobody has asked
    to stop. *)

Record Spec : Type := mkSpec {
  a_config : Config;
  a_loops : list (option (nat * HttpBlock));
  a_conns : list HttpBlock;
  a_stopping : bool;
}.

Inductive astep : Spec -> Spec -> Prop :=
  | a_publish c' c ls cs st : was_validated c' -> astep (mkSpec c ls cs st) (mkSpec c' ls cs st)
  | a_adopt i idx b c ls cs st :
      ls !! i = Some (Some (idx, b)) ->
      astep (mkSpec c ls cs st) (mkSpec c (<[i := Some (idx, default b (cfg_http c !! idx))]> ls) cs st)
  | a_let_in i idx b c ls cs :
      ls !! i = Some (Some (idx, b)) -> Z.of_nat (length cs) < MAX_CONNECTIONS ->
      astep (mkSpec c ls cs false) (mkSpec c ls (b :: cs) false)
  | a_close b c1 c2 c ls st : astep (mkSpec c ls (c1 ++ b :: c2) st) (mkSpec c ls (c1 ++ c2) st)
  | a_stop i x c ls cs st : ls !! i = Some (Some x) -> astep (mkSpec c ls cs st) (mkSpec c (<[i := None]> ls) cs st)
  | a_shutdown c ls cs st : astep (mkSpec c ls cs st) (mkSpec c ls cs true).

(** What the specification sees of a loop: a configuration counts as adopted when it
    is read. *)
Definition view (p : Phase) : option (nat * HttpBlock) :=
  match p with
  | Starting sd => Some (sd_idx sd, sd_block sd)
  | Selecting w | Reading w | BackingOff w => Some (rl_idx w, rl_block w)
  | Installing w c => Some (rl_idx w, default (rl_block w) (cfg_http c !! rl_idx w))
  | Ended => None
  end.
Definition abs (y : Sys) : Spec :=
  mkSpec (y_config y) (map (fun l => view (lp_phase l)) (y_loops y)) (map rl_block (y_conns y)) (y_stopping y).

(** ** Invariants *)

(** The counter is the live connections and the refusals still inside
    [acquire_connection]. *)
Definition attempt_of (l : Loop) : Limits.Phase :=
  match lp_phase l with BackingOff _ => Backoff | _ => Idle end.
Definition counted (n : nat) (y : Sys) : Prop :=
  length (y_loops y) = n
  /\ y_active y = Z.of_nat (length (y_conns y)) + count Backoff (map attempt_of (y_loops y))
  /\ Z.of_nat (length (y_conns y)) <= MAX_CONNECTIONS.

(** A task that has not ended has the shutdown before it. *)
Definition told (y : Sys) : Prop :=
  y_stopping y = true ->
  Forall (fun l => lp_phase l <> Ended -> (0 < backlog (lp_shutdown l))%nat) (y_loops y)
  /\ Forall (fun o => ot_state o <> OtEnded -> (0 < backlog (ot_shutdown o))%nat) (y_others y).

(** A loop serves the block of the shared configuration, or a reload is on its way. *)
Definition current (cfg : Config) (idx : nat) (b : HttpBlock) : Prop := default b (cfg_http cfg !! idx) = b.
Definition up_to_date (cfg : Config) (s : Signals) (l : Loop) : Prop :=
  s = Swapped \/ (0 < backlog (lp_reload l))%nat
  \/ match lp_phase l with
     | Starting sd => current cfg (sd_idx sd) (sd_block sd)
     | Selecting w | BackingOff w => current cfg (rl_idx w) (rl_block w)
     | Installing _ c => c = cfg
     | Reading _ | Ended => True
     end.

(** Blocks come from configurations that passed validation. *)
Definition valid_block (b : HttpBlock) : Prop := exists c idx, was_validated c /\ cfg_http c !! idx = Some b.
Definition valid_phase (p : Phase) : Prop :=
  match p with
  | Starting sd => valid_block (sd_block sd)
  | Selecting w | Reading w | BackingOff w => valid_block (rl_block w)
  | Installing w c => valid_block (rl_block w) /\ was_validated c
  | Ended => True
  end.
Definition valid (y : Sys) : Prop :=
  was_validated (y_config y)
  /\ Forall (fun l => valid_phase (lp_phase l)) (y_loops y)
  /\ Forall (fun w => valid_block (rl_block w)) (y_conns y).

Lemma current_reload cfg (w w' : W) :
  rl_idx w' = rl_idx w -> rl_block w' = default (rl_block w) (cfg_http cfg !! rl_idx w) ->
  current cfg (rl_idx w') (rl_block w').
Proof. unfold current. intros -> ->. by destruct (cfg_http cfg !! rl_idx w). Qed.

Lemma valid_default b cfg idx : valid_block b -> was_validated cfg -> valid_block (default b (cfg_http cfg !! idx)).
Proof. intros Hb Hc. destruct (cfg_http cfg !! idx) as [b'|] eqn:E; [|done]. by exists cfg, idx. Qed.

(** The loop a step acts on, from an invariant of all loops. *)
Lemma loop_at (P : Loop -> Prop) y i l : Forall P (y_loops y) -> y_loops y !! i = Some l -> P l.
Proof. intros HP Hi. by apply (Forall_lookup_1 _ _ _ _ HP Hi). Qed.

Lemma told_put y i l :
  told y -> (y_stopping y = true -> lp_phase l <> Ended -> (0 < backlog (lp_shutdown l))%nat) ->
  told (put_loop i l y).
Proof. intros Ht Hl Hs. destruct (Ht Hs) as [H1 H2]. split; [|done]. cbn. apply Forall_insert; [done|]. by apply Hl. Qed.

Lemma told_set_phase y i l p :
  told y -> y_loops y !! i = Some l -> lp_phase l <> Ended -> told (put_loop i (set_phase l p) y).
Proof.
  intros Ht Hi He. apply told_put; [done|]. intros Hs _. destruct (Ht Hs) as [H1 _].
  by apply (loop_at _ _ _ _ H1 Hi).
Qed.

Lemma told_send_reload y : told y -> told (send_reload y).
Proof. intros Ht Hs. destruct (Ht Hs) as [H1 H2]. split; [|done]. by apply Forall_fmap. Qed.

Lemma told_set_state y i o s :
  told y -> y_others y !! i = Some o -> ot_state o <> OtEnded -> told (put_other i (set_state o s) y).
Proof.
  intros Ht Hi He Hs. destruct (Ht Hs) as [H1 H2]. split; [done|]. cbn. apply Forall_insert; [done|].
  intros _. cbn. by apply (Forall_lookup_1 _ _ _ _ H2 Hi).
Qed.

Lemma step_told a y y' : told y -> sstep a y y' -> told y'.
Proof.
  intros Ht Hs. destruct Hs; try done.
  - (* sighup_send *) by apply (told_send_reload y).
  - (* sigterm *) intros _. split; apply Forall_fmap, Forall_true; intros x _; apply deliver_backlog.
  - (* outside_shutdown *) intros _. split; apply Forall_fmap, Forall_true; intros x _; apply deliver_backlog.
  - (* outside_reload *) by apply told_send_reload.
  - (* renewal_begin *) apply (told_set_state y i o); [done..|]. congruence.
  - (* renewal_done *) destruct (acme_renewal_tick _ _).
    + apply (told_set_state (send_reload y) i o); [by apply told_send_reload|done|congruence].
    + apply (told_set_state y i o); [done..|]. congruence.
  - apply told_set_phase; [done..|]. congruence.
  - apply told_put; [done|]. cbn. congruence.
  - apply told_put; [done|]. cbn. intros Hs _. destruct (Ht Hs) as [Hl _].
    apply (loop_at _ _ _ _ Hl H0). congruence.
  - apply told_set_phase; [done..|]. congruence.
  - apply told_set_phase; [done..|]. congruence.
  - apply (told_set_phase (set_active _ y)); [done..|]. congruence.
  - apply (told_set_phase (set_active _ y)); [done..|]. congruence.
  - (* other_shutdown *) intros Hs. destruct (Ht Hs) as [Hl Ho]. split; [done|]. cbn. by apply Forall_insert.
Qed.

(** *** No reload is lost *)

Definition all_current (y : Sys) : Prop := Forall (up_to_date (y_config y) (y_signals y)) (y_loops y).

Lemma current_put y i l :
  all_current y -> up_to_date (y_config y) (y_signals y) l -> all_current (put_loop i l y).
Proof. intros Hy Hl. by apply Forall_insert. Qed.

(** Moving on with the same reload receiver and an equally current block. *)
Lemma up_to_date_phase cfg s l p :
  up_to_date cfg s l ->
  (match lp_phase l with
   | Starting sd => current cfg (sd_idx sd) (sd_block sd)
   | Selecting w | BackingOff w => current cfg (rl_idx w) (rl_block w)
   | Installing _ c => c = cfg
   | Reading _ | Ended => True
   end -> up_to_date cfg s (set_phase l p)) ->
  up_to_date cfg s (set_phase l p).
Proof. intros [Hs|[Hb|Hc]] Hp; [by left|by right; left|auto]. Qed.

Lemma all_current_delivered cfg s ls :
  Forall (up_to_date cfg s)
    (map (fun l => mkLoop (lp_phase l) (lp_shutdown l) (deliver (lp_reload l))) ls).
Proof. apply Forall_fmap, Forall_true. intros l. right. left. apply deliver_backlog. Qed.

Lemma step_current a y y' : all_current y -> sstep a y y' -> all_current y'.
Proof.
  intros Hy Hs. destruct Hs as [| |y Hw|y| | |? i o issued y|fs ep i l sd y Hi Hp|i l w rx y Hi Hp _|i l w rx y Hi Hp _ Hr
    |i l w y Hi Hp|fs i l w c y Hi Hp| | |i l w y Hi Hp|i l w y Hi Hp| | | |]; try done;
    try (pose proof (loop_at _ _ _ _ Hy Hi) as Hl).
  - (* sighup_swap *) apply Forall_true. intros l. by left.
  - (* sighup_send *) apply all_current_delivered.
  - (* sigterm *) apply Forall_fmap. eapply Forall_impl; [exact Hy|]. intros l [Hl|Hl]; [congruence|by right].
  - (* outside_shutdown *) by apply Forall_fmap.
  - apply all_current_delivered.
  - (* renewal_done *) destruct (acme_renewal_tick _ _); [apply all_current_delivered|done].
  - (* loop_start *) apply current_put; [done|]. apply up_to_date_phase; [done|]. rewrite Hp. intros Hc.
    right. right. cbn. destruct (rl_start fs ep sd) as [w|] eqn:Es; [|done].
    apply rl_start_block in Es as [-> ->]. done.
  - (* arm_shutdown *) apply current_put; [done|]. right. by right.
  - (* arm_reload *) apply current_put; [done|]. right. by right.
  - (* reload_read *) apply current_put; [done|]. apply up_to_date_phase; [done|]. intros _. right. by right.
  - (* reload_install *) apply current_put; [done|]. apply up_to_date_phase; [done|]. rewrite Hp. intros ->.
    right. right. cbn. destruct (rl_reload fs (y_config y) w) as [w'|] eqn:Er; [|done].
    apply rl_reload_block in Er as [Ei Eb]. by eapply current_reload.
  - (* arm_accept_over *) apply (current_put (set_active _ y)); [done|]. apply up_to_date_phase; [done|].
    rewrite Hp. intros Hc. right. by right.
  - (* back_off *) apply (current_put (set_active _ y)); [done|]. apply up_to_date_phase; [done|].
    rewrite Hp. intros Hc. right. by right.
Qed.

(** *** Only validated configurations serve *)

Lemma valid_put y i l : valid y -> valid_phase (lp_phase l) -> valid (put_loop i l y).
Proof. intros (Hc & Hl & Hw) Hp. split; [done|]. split; [|done]. by apply Forall_insert. Qed.

Lemma valid_mapped y (f : Loop -> Loop) :
  (forall l, lp_phase (f l) = lp_phase l) ->
  Forall (fun l => valid_phase (lp_phase l)) (y_loops y) ->
  Forall (fun l => valid_phase (lp_phase l)) (map f (y_loops y)).
Proof. intros Hf Hl. apply Forall_fmap. eapply Forall_impl; [exact Hl|]. intros l. cbn. by rewrite Hf. Qed.

Lemma step_valid a y y' : valid y -> sstep a y y' -> valid y'.
Proof.
  intros Hy Hs. pose proof Hy as (Hc & Hl & Hw). destruct Hs as [env c y _ Hr| | | | | |? i o issued y|fs ep i l sd y Hi Hp|i l w rx y Hi Hp _
    |i l w rx y Hi Hp _ Hr|i l w y Hi Hp|fs i l w c y Hi Hp| |i l w y Hi Hp|i l w y Hi Hp|i l w y Hi Hp| |c1 w c2 y Hcs| |];
    try done; try (pose proof (loop_at _ _ _ _ Hl Hi) as Hv; cbn in Hv; rewrite Hp in Hv).
  - split; [|done]. by apply reloaded_config_valid in Hr.
  - split; [done|]. split; [|done]. by apply valid_mapped.
  - split; [done|]. split; [|done]. by apply valid_mapped.
  - split; [done|]. split; [|done]. by apply valid_mapped.
  - split; [done|]. split; [|done]. by apply valid_mapped.
  - destruct (acme_renewal_tick _ _); [|done]. split; [done|]. split; [|done]. by apply valid_mapped.
  - apply valid_put; [done|]. cbn. destruct (rl_start fs ep sd) as [w|] eqn:Es; [|done].
    apply rl_start_block in Es as [_ E]. cbn. by rewrite E.
  - by apply valid_put.
  - by apply valid_put.
  - by apply valid_put.
  - apply valid_put; [done|]. cbn. destruct (rl_reload fs c w) as [w'|] eqn:Er; [|done].
    apply rl_reload_block in Er as [_ E]. cbn. rewrite E. destruct Hv. by apply valid_default.
  - split; [done|]. split; [done|]. by constructor.
  - by apply (valid_put (set_active _ y)).
  - by apply (valid_put (set_active _ y)).
  - split; [done|]. split; [done|]. cbn. rewrite Hcs in Hw. apply Forall_app in Hw as [H1 H2].
    apply Forall_cons in H2 as [_ H2]. by apply Forall_app.
Qed.

(** *** The counter *)

Lemma attempts_put y i l l' :
  y_loops y !! i = Some l ->
  count Backoff (map attempt_of (<[i := l']> (y_loops y)))
  = count Backoff (map attempt_of (y_loops y))
    - (if decide (attempt_of l = Backoff) then 1 else 0) + (if decide (attempt_of l' = Backoff) then 1 else 0).
Proof.
  intros Hi. rewrite (list_fmap_insert attempt_of). apply count_insert. by rewrite list_lookup_fmap, Hi.
Qed.

Lemma counted_mapped n y (f : Loop -> Loop) :
  (forall l, lp_phase (f l) = lp_phase l) -> counted n y ->
  length (map f (y_loops y)) = n
  /\ y_active y = Z.of_nat (length (y_conns y)) + count Backoff (map attempt_of (map f (y_loops y)))
  /\ Z.of_nat (length (y_conns y)) <= MAX_CONNECTIONS.
Proof.
  intros Hf (Hn & Hc & Hm). rewrite length_map, map_map. split; [done|]. split; [|done].
  rewrite Hc. do 2 f_equal. apply map_ext. intros l. unfold attempt_of. by rewrite Hf.
Qed.

(** A step of a loop that is in no attempt before or after it. *)
Lemma counted_put n y i l l' :
  counted n y -> y_loops y !! i = Some l -> attempt_of l = Idle -> attempt_of l' = Idle ->
  counted n (put_loop i l' y).
Proof.
  intros (Hn & Hc & Hm) Hi Ha Ha'. split_and!; [by cbn; rewrite length_insert| |done].
  cbn [y_active y_conns y_loops put_loop]. rewrite (attempts_put _ _ _ _ Hi), Ha, Ha'. cbn. lia.
Qed.

Lemma counted_bounds n y : Z.of_nat n < 2 ^ 63 -> counted n y -> 0 <= y_active y < 2 ^ 64 - 1.
Proof.
  intros Hn (Hl & Hc & Hm). pose proof (count_nonneg Backoff (map attempt_of (y_loops y))) as Hb.
  rewrite length_map, Hl in Hb. rewrite Hc. unfold MAX_CONNECTIONS in Hm. lia.
Qed.

Lemma counted_send_reload n y : counted n y -> counted n (send_reload y).
Proof. by apply (counted_mapped n y (fun l => mkLoop (lp_phase l) (lp_shutdown l) (deliver (lp_reload l)))). Qed.
Lemma counted_send_shutdown n y : counted n y -> counted n (send_shutdown y).
Proof. by apply (counted_mapped n y (fun l => mkLoop (lp_phase l) (deliver (lp_shutdown l)) (lp_reload l))). Qed.

Lemma step_counted n a y y' : Z.of_nat n < 2 ^ 63 -> counted n y -> sstep a y y' -> counted n y'.
Proof.
  intros Hn Hy Hs. pose proof (counted_bounds n y Hn Hy) as Hb. pose proof Hy as (Hlen & Hc & Hm).
  destruct Hs as [| | | | | |? i o issued y|fs ep i l sd y Hi Hp|i l w rx y Hi Hp _
    |i l w rx y Hi Hp _ Hr|i l w y Hi Hp|fs i l w c y Hi Hp| |i l w y Hi Hp _ _ Ho|i l w y Hi Hp _ _ Ho|i l w y Hi Hp
    | |c1 w c2 y Hcs| |];
    try done; try (by apply counted_send_reload); try (by apply counted_send_shutdown);
    try (apply (counted_put _ _ _ l); [done|done|unfold attempt_of; by rewrite Hp|]).
  - destruct (acme_renewal_tick _ _); [by apply (counted_send_reload n y)|done].
  - unfold attempt_of. cbn. by destruct (rl_start fs ep sd).
  - done.
  - done.
  - done.
  - unfold attempt_of. cbn. by destruct (rl_reload fs c w).
  - (* arm_accept_serve *) cbn [fetch_add fst] in Ho. b2p. unfold counted. cbn. unfold wrap64.
    pose proof (count_nonneg Backoff (map attempt_of (y_loops y))).
    split_and!; [done|rewrite Z.mod_small; lia|lia].
  - (* arm_accept_over *) assert (attempt_of l = Idle) as Ha by (unfold attempt_of; by rewrite Hp).
    unfold counted. cbn. unfold wrap64. rewrite (attempts_put y i l _ Hi), Ha, length_insert. cbn. repeat (case_decide; try done).
    pose proof (count_nonneg Backoff (map attempt_of (y_loops y))). split_and!; [done|rewrite Z.mod_small; lia|done].
  - (* back_off *) assert (attempt_of l = Backoff) as Ha by (unfold attempt_of; by rewrite Hp).
    unfold counted. cbn. unfold wrap64. rewrite (attempts_put y i l _ Hi), Ha, length_insert. cbn. repeat (case_decide; try done).
    assert (0 < count Backoff (map attempt_of (y_loops y))).
    { pose proof (attempts_put y i l (set_phase l Ended) Hi) as Hx. rewrite Ha in Hx. cbn in Hx. repeat (case_decide; try done).
     
      pose proof (count_nonneg Backoff (map attempt_of (<[i:=set_phase l Ended]> (y_loops y)))). lia. }
    split_and!; [done|rewrite Z.mod_small; lia|done].
  - (* conn_end *) unfold counted, ConnectionGuard_drop, release_connection. cbn. unfold wrap64.
    pose proof (count_nonneg Backoff (map attempt_of (y_loops y))).
    rewrite Hcs in *. rewrite !length_app in *. cbn [length] in *. split_and!; [done|rewrite Z.mod_small; lia|lia].
Qed.

(** *** All of them, from boot on *)

Record inv (n : nat) (y : Sys) : Prop := mkInv {
  inv_counted : counted n y;
  inv_told : told y;
  inv_current : all_current y;
  inv_valid : valid y;
}.

Lemma step_inv n a y y' : Z.of_nat n < 2 ^ 63 -> inv n y -> sstep a y y' -> inv n y'.
Proof.
  intros Hn [H1 H2 H3 H4] Hs. split; eauto using step_counted, step_told, step_current, step_valid.
Qed.

Lemma seed_of_block cfg e sd : seed_of cfg e = Some sd -> cfg_http cfg !! sd_idx sd = Some (sd_block sd).
Proof.
  destruct e as [| | | |[| |t idx|idx] a| | |]; try done; cbn; intros (b & Hb & ->)%fmap_Some; exact Hb.
Qed.

Lemma boot_seeds cfg tr : Forall (fun sd => cfg_http cfg !! sd_idx sd = Some (sd_block sd)) (omap (seed_of cfg) tr).
Proof.
  apply Forall_forall. intros sd (e & _ & He)%list_elem_of_omap. by apply seed_of_block in He.
Qed.

Lemma boot_inv cfg tr : was_validated cfg -> inv (length (y_loops (boot cfg tr))) (boot cfg tr).
Proof.
  intros Hv. pose proof (boot_seeds cfg tr) as Hs. split.
  - split; [done|]. cbn. split; [|done]. clear. induction (omap (seed_of cfg) tr) as [|sd r IH]; [done|]. exact IH.
  - done.
  - apply Forall_fmap. eapply Forall_impl; [exact Hs|]. intros sd E. right. right. cbn. unfold current. by rewrite E.
  - split; [done|]. split; [|by constructor]. apply Forall_fmap. eapply Forall_impl; [exact Hs|].
    intros sd E. cbn. by exists cfg, (sd_idx sd).
Qed.

Lemma omap_shorter {A C} (f : A -> option C) l : (length (omap f l) <= length l)%nat.
Proof. induction l as [|x l IH]; cbn; [lia|]. destruct (f x); cbn; lia. Qed.

Lemma system_inv cfg tr y :
  was_validated cfg -> Z.of_nat (length tr) < 2 ^ 63 -> reachable cfg tr y ->
  inv (length (y_loops (boot cfg tr))) y.
Proof.
  intros Hv Hn. assert (Z.of_nat (length (y_loops (boot cfg tr))) < 2 ^ 63) as Hb.
  { cbn. rewrite length_map. pose proof (omap_shorter (seed_of cfg) tr). lia. }
  unfold reachable. pose proof (boot_inv cfg tr Hv) as Hi. revert Hi Hb.
  generalize (length (y_loops (boot cfg tr))). intros n Hi Hb Hr. revert Hi.
  induction Hr as [|y0 y1 y2 [a Hs] _ IH]; intros Hi; [done|]. apply IH. by eapply step_inv.
Qed.

(** ** The refinement *)

Lemma views_put i l' ls :
  map (fun l => view (lp_phase l)) (<[i := l']> ls)
  = <[i := view (lp_phase l')]> (map (fun l => view (lp_phase l)) ls).
Proof. apply (list_fmap_insert (fun l => view (lp_phase l))). Qed.

Lemma view_at ls i l : ls !! i = Some l -> map (fun l => view (lp_phase l)) ls !! i = Some (view (lp_phase l)).
Proof. intros Hi. by rewrite list_lookup_fmap, Hi. Qed.

(** A loop that moves without changing what the specification sees. *)
Lemma abs_stutter y i l l' :
  y_loops y !! i = Some l -> view (lp_phase l') = view (lp_phase l) -> abs (put_loop i l' y) = abs y.
Proof.
  intros Hi Hv. unfold abs. cbn. f_equal. rewrite views_put, Hv. apply list_insert_id. by apply view_at.
Qed.

Lemma abs_stop y i l l' x :
  y_loops y !! i = Some l -> view (lp_phase l) = Some x -> view (lp_phase l') = None ->
  astep (abs y) (abs (put_loop i l' y)).
Proof.
  intros Hi Hv Hv'. unfold abs. cbn. rewrite views_put, Hv'. apply (a_stop i x). rewrite (view_at _ _ _ Hi). by rewrite Hv.
Qed.

Lemma abs_mapped y (f : Loop -> Loop) :
  (forall l, lp_phase (f l) = lp_phase l) ->
  map (fun l => view (lp_phase l)) (map f (y_loops y)) = map (fun l => view (lp_phase l)) (y_loops y).
Proof. intros Hf. rewrite map_map. apply map_ext. intros l. by rewrite Hf. Qed.

Lemma abs_send_reload y : abs (send_reload y) = abs y.
Proof. unfold abs. cbn. f_equal. by apply (abs_mapped y (fun l => mkLoop (lp_phase l) _ _)). Qed.

Lemma abs_send_shutdown y : astep (abs y) (abs (send_shutdown y)).
Proof.
  unfold abs. cbn. rewrite (abs_mapped y (fun l => mkLoop (lp_phase l) (deliver (lp_shutdown l)) (lp_reload l))) by done.
  apply a_shutdown.
Qed.

Lemma step_refines n a y y' :
  Z.of_nat n < 2 ^ 63 -> inv n y -> sstep a y y' -> abs y' = abs y \/ astep (abs y) (abs y').
Proof.
  intros Hn [Hcount Htold _ _] Hs.
  pose proof (counted_bounds n y Hn Hcount) as Hb. destruct Hcount as (_ & Hact & Hmax).
  destruct Hs as [env c y _ Hr|y _|y _|y|y|? i o idx renewal y|? i o issued y|fs ep i l sd y Hi Hp|i l w rx y Hi Hp _
    |i l w rx y Hi Hp _ Hr|i l w y Hi Hp|fs i l w c y Hi Hp| |i l w y Hi Hp Hsd _ Ho|i l w y Hi Hp _ _ Ho|i l w y Hi Hp
    | |c1 w c2 y Hcs| |].
  - right. apply a_publish. by apply reloaded_config_valid in Hr.
  - left. apply abs_send_reload.
  - right. apply abs_send_shutdown.
  - right. apply abs_send_shutdown.
  - left. apply abs_send_reload.
  - by left.
  - left. destruct (acme_renewal_tick _ _); [apply (abs_send_reload y)|done].
  - destruct (rl_start fs ep sd) as [w|] eqn:Es.
    + left. apply (abs_stutter _ _ l); [done|]. rewrite Hp. cbn. by apply rl_start_block in Es as [-> ->].
    + right. eapply abs_stop; [done|by rewrite Hp|done].
  - right. eapply abs_stop; [done|by rewrite Hp|done].
  - left. apply (abs_stutter _ _ l); [done|]. by rewrite Hp.
  - right. unfold abs. cbn. rewrite views_put. cbn. apply a_adopt. by rewrite (view_at _ _ _ Hi), Hp.
  - destruct (rl_reload fs c w) as [w'|] eqn:Er.
    + left. apply (abs_stutter _ _ l); [done|]. rewrite Hp. cbn. by apply rl_reload_block in Er as [-> ->].
    + right. eapply abs_stop; [done|by rewrite Hp|done].
  - by left.
  - (* arm_accept_serve *) right. unfold abs. cbn. destruct (y_stopping y) eqn:Est.
    { exfalso. destruct (Htold Est) as [Hl _]. pose proof (loop_at _ _ _ _ Hl Hi) as Hl'. cbn in Hl'.
      apply recv_none_backlog in Hsd. rewrite Hp in Hl'. specialize (Hl' ltac:(done)). lia. }
    apply (a_let_in i (rl_idx w)); [by rewrite (view_at _ _ _ Hi), Hp|].
    cbn [fetch_add fst] in Ho. b2p. rewrite length_map.
    pose proof (count_nonneg Backoff (map attempt_of (y_loops y))). lia.
  - left. apply (abs_stutter (set_active _ y) _ l); [done|]. by rewrite Hp.
  - left. apply (abs_stutter (set_active _ y) _ l); [done|]. by rewrite Hp.
  - by left.
  - right. unfold abs. cbn. rewrite Hcs, !map_app. apply a_close.
  - by left.
  - by left.
Qed.

(** C1. The server refines its specification: from startup on, whatever the order of
    signals, renewals, connections and the steps of its tasks, every step is one of
    the specification or invisible to it.  So only validated configurations are
    published; a listener takes its block whole, from the configuration published at
    that moment, never an older one; connections keep the block they were let in
    under; none is let in at the cap or after shutdown was sent. *)
Theorem system_refines cfg tr y :
  was_validated cfg -> Z.of_nat (length tr) < 2 ^ 63 -> reachable cfg tr y ->
  rtc astep (abs (boot cfg tr)) (abs y)
  /\ forall a y', sstep a y y' -> abs y' = abs y \/ astep (abs y) (abs y').
Proof.
  intros Hv Hn Hr. assert (Z.of_nat (length (y_loops (boot cfg tr))) < 2 ^ 63) as Hb.
  { cbn. rewrite length_map. pose proof (omap_shorter (seed_of cfg) tr). lia. }
  split; [|intros a y' Hs; eapply step_refines; [exact Hb|by apply system_inv|exact Hs]].
  pose proof (boot_inv cfg tr Hv) as Hi. revert Hi Hb. generalize (length (y_loops (boot cfg tr))). unfold reachable in Hr.
  intros n Hi Hb. induction Hr as [|y0 y1 y2 [a Hs] _ IH]; [done|].
  specialize (IH (step_inv _ _ _ _ Hb Hi Hs)). destruct (step_refines _ _ _ _ Hb Hi Hs) as [E|E].
  - by rewrite E in IH.
  - by eapply rtc_l.
Qed.


(** ** Reload and shutdown complete *)

(** What a loop still has to do before it waits in its [select!]. *)
Definition phase_work (p : Phase) : nat :=
  match p with
  | Ended => 0
  | Selecting _ => 1
  | Starting _ | Installing _ _ | BackingOff _ => 2
  | Reading _ => 3
  end.
Definition loop_work (l : Loop) : nat :=
  match lp_phase l with Ended => 0 | p => phase_work p + 3 * backlog (lp_reload l) end.
Definition other_work (o : Other) : nat := match ot_state o with OtSelecting => 1 | _ => 0 end.
Definition work (y : Sys) : nat := sum_list_with loop_work (y_loops y) + sum_list_with other_work (y_others y).

(** Nothing left to do: each loop has ended, or waits for connections with the block
    of the shared configuration. *)
Definition settled_loop (y : Sys) (l : Loop) : Prop :=
  match lp_phase l with
  | Ended => True
  | Selecting w => y_stopping y = false /\ (y_signals y = Swapped \/ current (y_config y) (rl_idx w) (rl_block w))
  | _ => False
  end.
(** A stream, mail or renewal task that can only wait for its issuance to end. *)
Definition ended_or_issuing (o : Other) : Prop := ot_state o = OtEnded \/ ot_state o = OtIssuing.
Definition settled (y : Sys) : Prop :=
  Forall (settled_loop y) (y_loops y) /\ (y_stopping y = true -> Forall ended_or_issuing (y_others y)).

Lemma work_put y i l l' :
  y_loops y !! i = Some l -> (loop_work l' < loop_work l)%nat -> (work (put_loop i l' y) < work y)%nat.
Proof.
  intros Hi Hl. unfold work. cbn. pose proof (sum_list_with_insert loop_work _ _ _ l' Hi). lia.
Qed.

Lemma internal_work y y' : sstep Internal y y' -> (work y' < work y)%nat.
Proof.
  intros Hs. inversion Hs as [| | | | | | |fs ep i l sd ? Hi Hp|i l w rx ? Hi Hp _|i l w rx ? Hi Hp _ Hr
    |i l w ? Hi Hp|fs i l w c ? Hi Hp| | | |i l w ? Hi Hp|i o rx ? Hi Ho _| | |]; subst.
  - apply (work_put _ _ l); [done|]. unfold loop_work. rewrite Hp. cbn. destruct (rl_start fs ep sd); lia.
  - apply (work_put _ _ l); [done|]. unfold loop_work. rewrite Hp. cbn. lia.
  - apply (work_put _ _ l); [done|]. unfold loop_work. rewrite Hp. cbn. apply recv_takes in Hr. lia.
  - apply (work_put _ _ l); [done|]. unfold loop_work. rewrite Hp. cbn. lia.
  - apply (work_put _ _ l); [done|]. unfold loop_work. rewrite Hp. cbn. destruct (rl_reload fs c w); lia.
  - apply (work_put (set_active _ y) _ l); [done|]. unfold loop_work. rewrite Hp. cbn. lia.
  - unfold work. cbn. pose proof (sum_list_with_insert other_work _ _ _ (mkOther (ot_kind o) OtEnded rx) Hi) as Hw.
    unfold other_work at 2 4 in Hw. rewrite Ho in Hw. cbn in Hw. lia.
Qed.

(** A loop that is not settled has a step. *)
Lemma loop_progress y i l :
  y_loops y !! i = Some l -> told y -> all_current y ->
  (exists y', sstep Internal y y') \/ settled_loop y l.
Proof.
  intros Hi Ht Hy. unfold settled_loop. pose proof (loop_at _ _ _ _ Hy Hi) as Hc.
  destruct (lp_phase l) as [sd|w|w|w c|w|] eqn:Hp.
  - left. eexists. by apply (loop_start (mkFiles (fun _ => None) (fun _ => None)) true i l sd).
  - destruct (recv (lp_shutdown l)) as [rx|] eqn:Esd; [left; eexists; by eapply arm_shutdown|].
    destruct (recv (lp_reload l)) as [rx|] eqn:Erl; [left; eexists; by eapply arm_reload|].
    right. apply recv_none_backlog in Esd, Erl. split.
    + destruct (y_stopping y) eqn:Est; [|done]. exfalso. destruct (Ht Est) as [Hl _].
      pose proof (loop_at _ _ _ _ Hl Hi) as Hl'. cbn in Hl'. rewrite Hp in Hl'. specialize (Hl' ltac:(done)). lia.
    + destruct Hc as [Hc|[Hc|Hc]]; [by left|lia|]. rewrite Hp in Hc. by right.
  - left. eexists. by eapply reload_read.
  - left. eexists. by apply (reload_install (mkFiles (fun _ => None) (fun _ => None)) i l w c).
  - left. eexists. by eapply back_off.
  - by right.
Qed.

Lemma forall_or_exists {A} (P : A -> Prop) (Q : Prop) (l : list A) :
  (forall i x, l !! i = Some x -> Q \/ P x) -> Q \/ Forall P l.
Proof.
  induction l as [|x l IH]; intros Hl; [right; by constructor|].
  destruct (Hl 0%nat x eq_refl) as [?|Hx]; [by left|].
  destruct IH as [?|Hr]; [intros i z Hi; by apply (Hl (S i))|by left|]. right. by constructor.
Qed.

Lemma progress n y : inv n y -> (exists y', sstep Internal y y') \/ settled y.
Proof.
  intros [_ Ht Hy _].
  destruct (forall_or_exists (settled_loop y) (exists y', sstep Internal y y') (y_loops y)) as [?|Hl]; [|by left|].
  { intros i l Hi. by eapply loop_progress. }
  destruct (forall_or_exists (fun o => y_stopping y = true -> ended_or_issuing o) (exists y', sstep Internal y y')
              (y_others y)) as [?|Ho]; [|by left|].
  { intros i o Hi. destruct (y_stopping y) eqn:Est; [|by right]. unfold ended_or_issuing.
    destruct (ot_state o) eqn:Er; [|by right; right|by right; left].
    left. destruct (Ht Est) as [_ Hb]. pose proof (Forall_lookup_1 _ _ _ _ Hb Hi) as Hlt. cbn in Hlt.
    destruct (recv_ready (ot_shutdown o)) as (rx & Hrx & _); [apply Hlt; congruence|]. eexists. by eapply other_shutdown. }
  right. split; [done|]. intros Est. eapply Forall_impl; [exact Ho|]. by intros o Hx%(fun f => f Est).
Qed.

(** A settled server that is stopping has joined every task, or waits for issuances. *)
Lemma settled_stopping y :
  settled y -> y_stopping y = true ->
  all_joined y = true
  \/ Forall (fun l => lp_phase l = Ended) (y_loops y) /\ Forall ended_or_issuing (y_others y)
     /\ exists i o, y_others y !! i = Some o /\ ot_state o = OtIssuing.
Proof.
  intros [Hl Ho] Hst. specialize (Ho Hst).
  assert (Forall (fun l => lp_phase l = Ended) (y_loops y)) as He.
  { eapply Forall_impl; [exact Hl|]. intros l. unfold settled_loop. destruct (lp_phase l); try done. intros []. congruence. }
  destruct (forall_or_exists (fun o => ot_state o = OtEnded) (exists i o, y_others y !! i = Some o /\ ot_state o = OtIssuing)
              (y_others y)) as [?|Hall]; [|by right|].
  { intros i o Hi. destruct (Forall_lookup_1 _ _ _ _ Ho Hi) as [?|?]; [by right|left; eauto]. }
  left. unfold all_joined. apply andb_true_iff. rewrite Forall_forall in He. rewrite Forall_forall in Hall.
  split; apply forallb_forall; intros x Hx%list_elem_of_In.
  - by rewrite (He x Hx).
  - by rewrite (Hall x Hx).
Qed.

(** C8. No reload is lost and every reload ends.  Whatever happened, the loops can
    take at most [work y] steps of their own before a new configuration, shutdown or
    refusal makes more; and when none is left to take, each loop has ended or serves
    exactly the block the shared configuration has for it, in whatever order signals
    and reloads arrived, also when several reloads were merged by the channel.  (A
    configuration the signal handler has written, but whose reload it has not sent yet,
    is excepted; after shutdown the other tasks have ended too, or are renewals inside
    an issuance.) *)
Theorem reload_settles cfg tr y :
  was_validated cfg -> Z.of_nat (length tr) < 2 ^ 63 -> reachable cfg tr y ->
  (forall y', sstep Internal y y' -> (work y' < work y)%nat)
  /\ ((exists y', sstep Internal y y') \/ settled y)
  /\ (forall n ys, nsteps (sstep Internal) n y ys -> (n + work ys <= work y)%nat).
Proof.
  intros Hv Hn Hr. split; [apply internal_work|]. split; [eapply progress; by apply system_inv|].
  intros n ys Hs. induction Hs as [y|n y y1 y2 Hs _ IH]; [done|].
  pose proof (internal_work _ _ Hs). assert (reachable cfg tr y1) as Hr1.
  { eapply rtc_r; [exact Hr|]. by exists Internal. }
  specialize (IH Hr1). lia.
Qed.

Lemma stopping_stays a y y' : sstep a y y' -> y_stopping y = true -> y_stopping y' = true.
Proof. destruct 1; try done. by destruct (acme_renewal_tick _ _). Qed.

Lemma told_no_select y i l w :
  told y -> y_stopping y = true -> y_loops y !! i = Some l -> lp_phase l = Selecting w ->
  recv (lp_shutdown l) <> None.
Proof.
  intros Ht Hst Hi Hp Hn%recv_none_backlog. destruct (Ht Hst) as [Hl _].
  pose proof (loop_at _ _ _ _ Hl Hi) as Hb. cbn in Hb. rewrite Hp in Hb. specialize (Hb ltac:(done)). lia.
Qed.

(** A renewal whose issuance ends under shutdown is the task's last. *)
Lemma issuing_then_ends y i o :
  told y -> y_stopping y = true -> y_others y !! i = Some o -> ot_state o = OtIssuing ->
  forall F (issued : res F unit), total issued ->
  exists y1 y2 o', sstep Control y y1 /\ sstep Internal y1 y2
    /\ y_others y2 !! i = Some o' /\ ot_state o' = OtEnded /\ y_loops y2 = y_loops y1.
Proof.
  intros Ht Hst Hi Ho F issued Hret. pose proof (renewal_done i o issued y Hi Ho Hret) as Hdone.
  destruct (Ht Hst) as [_ Hb]. pose proof (Forall_lookup_1 _ _ _ _ Hb Hi) as Hlt. cbn in Hlt.
  destruct (recv_ready (ot_shutdown o)) as (rx & Hrx & _); [apply Hlt; congruence|].
  set (y0 := if acme_renewal_tick (Ok (E := F) true) issued then send_reload y else y) in Hdone.
  assert (y_others y0 = y_others y) as Ey by (unfold y0; by destruct (acme_renewal_tick _ _)).
  assert (i < length (y_others y))%nat as Hlen by (by eapply lookup_lt_Some).
  eexists _, _, (mkOther (ot_kind o) OtEnded rx). split; [exact Hdone|]. split.
  - apply (other_shutdown i (set_state o OtSelecting) rx); [|done|done]. cbn.
    by rewrite list_lookup_insert_eq by (by rewrite Ey).
  - split_and!; [|done..]. cbn. rewrite list_lookup_insert_eq; [done|]. by rewrite length_insert, Ey.
Qed.

(** C9. Shutdown completes, except for renewals: once it has been sent no connection of
    any kind is let in or even refused any more, whatever the peers do, and the live
    ones only get fewer; the tasks have a bounded number of steps of their own left;
    and when they are taken, either every task has ended, so [run] returns, or [run]
    waits for the renewal tasks inside an issuance and for nothing else, each of which
    ends after its issuance does ([renewal_blocks_shutdown_gap]: that wait is not
    bounded by the program). *)
Theorem shutdown_completes cfg tr y :
  was_validated cfg -> Z.of_nat (length tr) < 2 ^ 63 -> reachable cfg tr y -> y_stopping y = true ->
  (forall a y', sstep a y y' ->
     a <> LetIn /\ a <> Refuse /\ y_stopping y' = true
     /\ (a = Internal -> (work y' < work y)%nat)
     /\ (length (y_conns y') <= length (y_conns y))%nat /\ (length (y_plain y') <= length (y_plain y))%nat)
  /\ ((exists y', sstep Internal y y')
      \/ all_joined y = true
      \/ Forall (fun l => lp_phase l = Ended) (y_loops y) /\ Forall ended_or_issuing (y_others y)
         /\ exists i o, y_others y !! i = Some o /\ ot_state o = OtIssuing)
  /\ (forall i o F (issued : res F unit), y_others y !! i = Some o -> ot_state o = OtIssuing -> total issued ->
        exists y1 y2 o', sstep Control y y1 /\ sstep Internal y1 y2
          /\ y_others y2 !! i = Some o' /\ ot_state o' = OtEnded /\ y_loops y2 = y_loops y1).
Proof.
  intros Hv Hn Hr Hst. pose proof (system_inv cfg tr y Hv Hn Hr) as Hi. split_and!.
  - intros a y' Hs. assert (a <> LetIn /\ a <> Refuse) as [Ha Ha'].
    { split; intros ->; inversion Hs as [| | | | | | | | | | | | | | | | | |i o ? Ho _ Hsel Hsd|]; subst;
        try (eapply told_no_select; [exact (inv_told _ _ Hi)|done|done|done|done]).
      apply recv_none_backlog in Hsd. destruct (inv_told _ _ Hi Hst) as [_ Hb].
      pose proof (Forall_lookup_1 _ _ _ _ Hb Ho) as Hlt. cbn in Hlt. specialize (Hlt ltac:(congruence)). lia. }
    split_and!; [done|done|by eapply stopping_stays| | |].
    + intros ->. by apply internal_work.
    + destruct Hs as [| | | | | |? i o issued y| | | | | | | | | | |c1 w c2 y Hc| |]; try done; [by destruct (acme_renewal_tick _ _)|].
      cbn. rewrite Hc, !length_app. cbn. lia.
    + destruct Hs as [| | | | | |? i o issued y| | | | | | | | | | | | |p1 i p2 y Hc]; try done; [by destruct (acme_renewal_tick _ _)|].
      cbn. rewrite Hc, !length_app. cbn. lia.
  - destruct (progress _ _ Hi) as [Hp|Hsettled]; [by left|right]. by apply settled_stopping.
  - intros i o F issued Hio Hiss. by apply (issuing_then_ends y i o (inv_told _ _ Hi) Hst).
Qed.
End system.

(** ** A run of one plain HTTP listener *)

#[local] Existing Instance id_unicode.
#[local] Existing Instance assoc_http.
#[local] Existing Instance cidr_nets.
#[local] Existing Instance literal_regex.
#[local] Existing Instance one_country.
#[local] Existing Instance text_tls.
#[local] Existing Instance ring.
#[local] Existing Instance ring_laws.

Definition plain_config : Config :=
  mkConfig (mkGlobal default_worker_processes default_error_log None None None)
    [HttpBlock_default [mkListen 80 "http" None]] [] None.
Lemma plain_config_valid : was_validated plain_config.
Proof. exists (demo_env "x"). vm_compute. reflexivity. Qed.

Definition plain_trace : list RunEvent := [EvServe (HttpListener false 0) (any_port 80)].
Definition PlainSys : Type := Sys (W := Listener (L := str)).
Definition plain_listener : Listener (L := str) :=
  mkListener 0 false None (HttpBlock_default [mkListen 80 "http" None]) TimeoutSettings_default ("/log" : str)
    (HandlerService_new (HttpBlock_default [mkListen 80 "http" None]) false false TimeoutSettings_default) None.

Definition plain_loop (p : Phase (W := Listener (L := str))) (unread_shutdown : nat) : Loop :=
  mkLoop (B := ring) p unread_shutdown 0%nat.

(** Serving one client; told to stop; stopped. *)
Definition one_client : PlainSys :=
  mkSys plain_config Waiting [plain_loop (Selecting plain_listener) 0] [] 1 [plain_listener] false [].
Definition one_client_told : PlainSys :=
  mkSys plain_config Gone [plain_loop (Selecting plain_listener) 1] [] 1 [plain_listener] true [].
Definition one_client_left : PlainSys :=
  mkSys plain_config Gone [plain_loop Ended 0] [] 1 [plain_listener] true [].

Definition plain_seed : Seed :=
  mkSeed false 0 false (HttpBlock_default [mkListen 80 "http" None]) None TimeoutSettings_default.
Definition plain_waiting : PlainSys :=
  mkSys plain_config Waiting [plain_loop (Selecting plain_listener) 0] [] 0 [] false [].

Lemma reach_one_client : reachable plain_config plain_trace one_client.
Proof.
  apply (rtc_l _ _ plain_waiting).
  { exists Internal. exact (loop_start (mkFiles (fun p => Some p) (fun _ => Some ("/log" : str))) true 0
      (plain_loop (Starting plain_seed) 0) plain_seed (boot plain_config plain_trace) eq_refl eq_refl). }
  apply rtc_once. exists LetIn.
  exact (arm_accept_serve 0 (plain_loop (Selecting plain_listener) 0) plain_listener plain_waiting
    eq_refl eq_refl eq_refl eq_refl eq_refl).
Qed.

Lemma reach_one_client_told : reachable plain_config plain_trace one_client_told.
Proof. eapply rtc_r; [apply reach_one_client|]. exists Control. exact (sigterm one_client eq_refl). Qed.

Lemma reach_one_client_left : reachable plain_config plain_trace one_client_left.
Proof.
  eapply rtc_r; [apply reach_one_client_told|]. exists Internal.
  exact (arm_shutdown 0 (plain_loop (Selecting plain_listener) 1) plain_listener 0%nat one_client_told
    eq_refl eq_refl eq_refl).
Qed.

(** Shutdown does not wait for connections: their tasks are not in the set that
    [run] joins, so it returns, and the process exits, with requests in progress. *)
Theorem shutdown_abandons_gap :
  exists (cfg : Config) (tr : list RunEvent) (y : PlainSys),
    was_validated cfg /\ reachable cfg tr y /\ all_joined y = true /\ y_conns y <> [].
Proof.
  exists plain_config, plain_trace, one_client_left. split; [exact plain_config_valid|].
  split; [exact reach_one_client_left|]. split; [reflexivity|discriminate].
Qed.

(** A stream proxy lets any number of connections in, and the counter says 0: the cap
    of 10000 is not on them. *)
Definition stream_config : Config :=
  mkConfig (mkGlobal default_worker_processes default_error_log None None None) []
    [mkStream (mkListen 5432 "tcp" None) (mkUpstream "db" [mkServer "10.0.0.1:5432" 1] "round-robin") None] None.
Definition proxying (n : nat) : PlainSys :=
  mkSys stream_config Waiting [] [mkOther (B := ring) StreamTask OtSelecting 0%nat] 0 [] false (replicate n 0%nat).
Theorem plain_uncapped_gap n :
  was_validated stream_config
  /\ reachable stream_config [EvServe StreamProxy (any_port 5432)] (proxying n)
  /\ length (y_plain (proxying n)) = n /\ y_active (proxying n) = 0.
Proof.
  split_and!; [exists (demo_env "x"); vm_compute; reflexivity| |apply length_replicate|reflexivity].
  induction n as [|n IH]; [apply rtc_refl|]. eapply rtc_r; [exact IH|]. exists LetIn.
  exact (plain_accept (W := Listener (L := str)) 0 (mkOther StreamTask OtSelecting 0%nat) (proxying n) eq_refl ltac:(discriminate) eq_refl eq_refl).
Qed.

(** A server told to stop while a renewal awaits the CA: no task has a step left, and
    [run] has not returned; only the end of the issuance, which may retry five times
    and sleep as long as the CA asks, lets it. *)
Definition renewal_config : Config :=
  mkConfig (mkGlobal default_worker_processes default_error_log None None None) [acme_http] [] None.
Definition renewing (s : Signals) (told : nat) (stopping : bool) : PlainSys :=
  mkSys renewal_config s [] [mkOther (B := ring) (RenewalTask 0) OtIssuing told] 0 [] stopping [].
Theorem renewal_blocks_shutdown_gap :
  was_validated renewal_config
  /\ reachable renewal_config [EvRenewalTask 0] (renewing Gone 1 true)
  /\ (forall y', ~ sstep Internal (renewing Gone 1 true) y')
  /\ all_joined (renewing Gone 1 true) = false.
Proof.
  split_and!; [| | |reflexivity].
  - exists (mkEnv (fun _ => true) (fun _ => None) true (fun _ => None) (fun _ => None) (fun _ => None)). vm_compute. reflexivity.
  - eapply (rtc_l _ _ (renewing Waiting 0 false)); [|apply rtc_once].
    + exists Control. exact (renewal_begin (W := Listener (L := str)) (E := unit) 0 (mkOther (RenewalTask 0) OtSelecting 0%nat) 0 (Ok true)
        (boot renewal_config [EvRenewalTask 0]) eq_refl eq_refl eq_refl eq_refl eq_refl).
    + exists Control. exact (sigterm (renewing Waiting 0 false) eq_refl).
  - intros y' Hs. inversion Hs as [| | | | | | |? ? ? ? ? ? Hi|? ? ? ? ? Hi|? ? ? ? ? Hi|? ? ? ? Hi|? ? ? ? ? ? Hi| | | |? ? ? ? Hi|i o rx y Ho Hsel| | |];
      subst; try (apply lookup_lt_Some in Hi; cbn in Hi; lia).
    destruct i as [|i]; cbn in Ho; [injection Ho as <-; discriminate Hsel|by destruct i].
Qed.

Lemma system_refines_witness :
  rtc astep (abs (boot (W := Listener (L := str)) plain_config plain_trace)) (abs one_client).
Proof. exact (proj1 (system_refines plain_config plain_trace one_client plain_config_valid eq_refl reach_one_client)). Defined.


Lemma reload_settles_witness :
  (exists y', sstep Internal one_client_told y') \/ settled one_client_told.
Proof.
  exact (proj1 (proj2 (reload_settles plain_config plain_trace one_client_told plain_config_valid eq_refl
    reach_one_client_told))).
Defined.

(** At the server that was told to stop a client may only leave; the renewal that
    holds the other one up ends once its issuance has succeeded. *)
Lemma shutdown_completes_witness :
  (forall a y', sstep a one_client_told y' -> a <> LetIn /\ (length (y_conns y') <= 1)%nat)
  /\ exists y1 y2 : PlainSys, exists o', sstep Control (renewing Gone 1 true) y1 /\ sstep Internal y1 y2
       /\ y_others y2 !! 0%nat = Some o' /\ ot_state o' = OtEnded /\ y_loops y2 = y_loops y1.
Proof.
  destruct renewal_blocks_shutdown_gap as (Hv & Hr & _). split.
  - intros a y' Hs. destruct (proj1 (shutdown_completes plain_config plain_trace one_client_told plain_config_valid eq_refl
      reach_one_client_told eq_refl) a y' Hs) as (Ha & _ & _ & _ & Hc & _). split; [exact Ha|exact Hc].
  - exact (proj2 (proj2 (shutdown_completes renewal_config [EvRenewalTask 0] (renewing Gone 1 true) Hv eq_refl Hr eq_refl))
      0%nat (mkOther (RenewalTask 0) OtIssuing 1%nat) unit (Ok tt : res unit unit) eq_refl eq_refl I).
Defined.
