(* ===== verification/Main.v ===== *)
(** * The command line (src/src/main.rs)

    [main] loads and validates the configuration, and either reports that or hands it
    to the server.  Theorems: nothing of the server happens without a valid
    configuration, [--test] decides validity and touches nothing, and a reload does
    not read the file that [--config] named. *)

From S2P Require Import Prelude.
From S2P Require Import Str.
From S2P Require Import Net.
From S2P Require Import Extern.
From S2P Require Import Config.
From S2P Require Import Privilege.
From S2P Require Import Geoip.
From S2P Require Import Handler.
From S2P Require Import Tls.
From S2P Require Import Acme.
From S2P Require Import Listener.
From S2P Require Import Server.
From S2P Require Import Instances.

(** What [clap] parses the arguments into. *)
Record Args : Type := mkArgs { ag_config : option str; ag_test : bool }.

Definition DEFAULT_CONFIG_PATH : str := "./flexd.conf".

(** [Println]: a line on standard output. *)
Inductive MainEvent : Type := Println (line : str) | Running (e : RunEvent).
Inductive MainError : Type := BadConfig (e : ConfigError) | RunFailed (e : RunError).

(** The trace of [m] as part of a larger program. *)
Definition t_embed {V W E F A} (f : V -> W) (g : E -> F) (m : Tr V E A) : Tr W F A :=
  (map f (fst m), map_err g (snd m)).

Section main.
Context {U : Unicode} {N : IpNetLib} {R : RegexLib} {X : Unix} {T : Rustls} {E : Type}.
(** The files main and the server find, and what [run] depends on. *)
Variable env : Env.
Variable bind_tcp : SocketAddr -> bool.
Variable bind_udp : SocketAddr -> bool.
Variable lookup_user : str -> option (option User).
Variable proc : Process.
Variable open : str -> option str.
Variable try_issue_at : nat -> nat -> res E unit * Z.
Variable hash_order : list nat -> list nat.

Abbreviation server_run := (server_run bind_tcp bind_udp lookup_user proc open try_issue_at hash_order).

Definition config_path (args : Args) : str := default DEFAULT_CONFIG_PATH (ag_config args).

(** [main], up to the point where the server waits for its tasks. *)
Definition main (args : Args) : Tr MainEvent MainError unit :=
  do! config := t_lift (map_err BadConfig (Config_load env (config_path args))) in
  if ag_test args then t_emit (Println "configuration OK")
  else t_embed Running RunFailed (server_run config).

(** C13. The server only runs a configuration that was loaded from the path the
    arguments name and is well-formed, and then exactly as [run] does; [--test]
    succeeds exactly when that configuration is well-formed, and binds, serves and
    drops nothing; a file that does not load or validate ends the program with its
    error before anything has happened. *)
Theorem main_spec args :
  (forall e, Running e ∈ fst (main args) ->
     ag_test args = false
     /\ exists cfg, Config_load env (config_path args) = Ok cfg /\ wf_config env cfg
          /\ fst (main args) = map Running (fst (server_run cfg)))
  /\ (ag_test args = true ->
        (snd (main args) = Ok tt <-> exists cfg, Config_load env (config_path args) = Ok cfg)
        /\ forall e, e ∈ fst (main args) -> e = Println "configuration OK")
  /\ (forall err, Config_load env (config_path args) = Err err -> main args = ([], Err (BadConfig err))).
Proof.
  unfold main, t_bind. destruct (Config_load env (config_path args)) as [cfg|err|] eqn:El; cbn.
  - assert (wf_config env cfg) as Hwf by (by apply Config_validate_spec, (Config_load_checked env (config_path args))).
    destruct (ag_test args); cbn; (split_and!; [| |done]).
    + intros e He. by apply list_elem_of_singleton in He.
    + intros _. split; [|by intros e He%list_elem_of_singleton].
      split; [intros _; by exists cfg|done].
    + intros e _. split; [done|]. by exists cfg.
    + done.
  - split_and!; [set_solver| |by intros e [= <-]]. intros _. split; [|set_solver].
    split; [done|]. by intros [? ?].
  - split_and!; [set_solver| |done]. intros _. split; [|set_solver]. split; [done|]. by intros [? ?].
Qed.
End main.

(** ** Concrete inputs *)

#[local] Existing Instance id_unicode.
#[local] Existing Instance cidr_nets.
#[local] Existing Instance literal_regex.
#[local] Existing Instance text_tls.

(** A host whose only configuration file is not named after its pid file. *)
Definition SITE_PATH : str := "/etc/site.conf".
Definition site_config : Config :=
  mkConfig (mkGlobal default_worker_processes default_error_log (Some ("/run/flexd.pid" : str)) None None)
    [] [] None.
Definition site_env : Env :=
  mkEnv (fun _ => true) (fun _ => None) false
    (fun p => if bool_decide (p = SITE_PATH) then Some ("x" : str) else None)
    (fun _ => None) (fun _ => Some site_config).

(** A reload looks for the file named after the pid file, whatever [--config] named:
    here the server starts from its file and no reload ever succeeds. *)
Theorem reload_path_gap :
  Config_load site_env SITE_PATH = Ok site_config /\ reloaded_config site_env site_config = None.
Proof. split; vm_compute; reflexivity. Qed.

Definition site_main (path : str) : Tr MainEvent MainError unit :=
  main (X := posix) (E := unit) site_env always always (fun _ => None) (mkIds 0 0 0 [0]) (fun _ => None)
    (fun _ _ => (Ok tt, 0)) (fun l => l) (mkArgs (Some path) false).

Lemma main_spec_witness : wf_config site_env site_config.
Proof.
  assert (Running EvSignalHandler ∈ fst (site_main SITE_PATH)) as Hin by (apply list_elem_of_In; vm_compute; auto).
  destruct (proj1 (main_spec (X := posix) (E := unit) site_env always always (fun _ => None) (mkIds 0 0 0 [0])
    (fun _ => None) (fun _ _ => (Ok tt, 0)) (fun l => l) (mkArgs (Some SITE_PATH) false)) EvSignalHandler Hin)
    as (_ & cfg & Hl & Hwf & _).
  vm_compute in Hl. injection Hl as <-. exact Hwf.
Defined.
