(* ===== verification/Issuance.v ===== *)
(** * Issuance and the listeners (src/src/acme.rs, handler.rs, server.rs)

    An issuance publishes its challenges in a store that the block's listeners read
    at every request, and leaves its certificate in files that they read when they
    reload; here both sides meet.  A disk maps a path to bytes and mode.  Theorems: a
    challenge announced to the CA is answered by every listener of the block from
    then on; a finished issuance reaches a listener at its next reload, whole.  Gaps:
    at startup nothing can answer tls-alpn-01; a reload between the two writes pairs a
    new chain with the old key; two blocks with one directory share a certificate;
    a new key is readable until its mode is set. *)

From S2P Require Import Prelude.
From S2P Require Import Str.
From S2P Require Import Net.
From S2P Require Import Extern.
From S2P Require Import Config.
From S2P Require Import Geoip.
From S2P Require Import Proxy.
From S2P Require Import Handler.
From S2P Require Import Tls.
From S2P Require Import Acme.
From S2P Require Import Listener.
From S2P Require Import Server.
From S2P Require Import StaticFile.
From S2P Require Import Instances.

(** ** The life of a listener *)

Section life.
Context {U : Unicode} {H : HttpLib} {N : IpNetLib} {R : RegexLib} {M : MaxMindDb} {T : Rustls} {L : Type}.

(** A listener of the block [idx], whose manager has the configuration [acme]: started,
    and reloaded any number of times. *)
Inductive lives (idx : nat) (acme : option AcmeConfig) : Listener (L := L) -> Prop :=
  | lives_start fs block is_tls timeouts l :
      listener_start fs block idx is_tls acme timeouts = Ok l -> lives idx acme l
  | lives_reload fs cfg l l' : lives idx acme l -> listener_reload fs cfg l = Ok l' -> lives idx acme l'.

(** It holds the manager's store as long as it lives, and an acceptor of its resolves
    certificates through that store. *)
Lemma lives_store idx acme l :
  lives idx acme l ->
  ls_idx l = idx /\ ls_acme l = acme /\ hs_acme_store (fst (ls_handler l)) = acme_store acme
  /\ (is_Some acme -> forall a, ls_acceptor l = Some a ->
        ("acme-tls/1" : str) ∈ ta_alpn a /\ exists certs key, ta_certs a = Resolver certs key idx).
Proof.
  assert (forall open ssl a, is_Some acme -> acceptor_for open idx acme ssl = Some a ->
    ("acme-tls/1" : str) ∈ ta_alpn a /\ exists certs key, ta_certs a = Resolver certs key idx) as Ha.
  { intros open ssl a [mgr ->]. unfold acceptor_for. intros Ha%ok_of_Some. unfold build_tls_acceptor_acme in Ha.
    apply res_bind_ok in Ha as (ck & _ & [= <-]). split; [cbn; set_solver|]. by eexists _, _. }
  induction 1 as [fs b t ts l Hl|fs cfg l l' _ (Ei & Ea & Es & IH) Hl].
  - unfold listener_start in Hl. apply res_bind_ok in Hl as (lg & _ & [= <-]). cbn. split_and!; [done..|].
    intros Hs a. destruct t; [|done]. intros (ssl & _ & Hssl)%bind_Some. eauto.
  - unfold listener_reload in Hl. destruct (cfg_http cfg !! ls_idx l) as [block|]; [|by injection Hl as <-].
    apply res_bind_ok in Hl as (lg & _ & [= <-]). cbn. rewrite Ea, Ei. split_and!; [done..|].
    intros Hs a. destruct (ls_is_tls l); [|by apply IH]. destruct (hb_ssl block); [by eapply Ha|by apply IH].
Qed.
End life.

(** ** Challenges *)

Section challenge.
Context {A : AcmeEnv}.

(** An http-01 publication carries the key authorization of its token. *)
Definition genuine (e : Event) : Prop :=
  match e with EvPublishHttp token key_auth => key_auth = key_authorization token | _ => True end.

Lemma genuine_app a b : Forall genuine a -> Forall genuine b -> Forall genuine (a ++ b).
Proof. intros. by apply Forall_app. Qed.

Ltac bind_step := apply t_bind_events; [apply genuine_app|try by repeat constructor|intros ? _].

Lemma publish_genuine cfg kind d t : Forall genuine (fst (publish cfg kind d t)).
Proof.
  destruct kind; cbn [publish]; [by repeat constructor|by bind_step; repeat constructor|].
  unfold post_dns_webhook. do 4 bind_step. bind_step. by repeat constructor.
Qed.

Lemma respond_all_genuine cfg l : Forall genuine (fst (respond_all cfg l)).
Proof.
  induction l as [|az l IH]; cbn [respond_all]; [constructor|]. bind_step; [|exact IH].
  unfold respond. bind_step. case_match; [constructor|]. do 2 bind_step. case_match. bind_step.
  bind_step; [apply publish_genuine|]. bind_step. by repeat constructor.
Qed.

Lemma try_issue_genuine cfg names : Forall genuine (fst (try_issue cfg names)).
Proof.
  unfold try_issue. bind_step.
  - unfold obtain. bind_step; [rewrite AcmeHttpClient_new_quiet; constructor|]. do 6 bind_step.
    bind_step; [apply respond_all_genuine|]. do 6 bind_step. constructor.
  - destruct (write_cert_trace cfg (fst x) (snd x)) as (n & -> & _). apply Forall_take. by repeat constructor.
Qed.

(** A published token keeps its key authorization. *)
Lemma store_keeps st tr token :
  Forall genuine tr -> get_http01 st token = Some (key_authorization token) ->
  get_http01 (store_after st tr) token = Some (key_authorization token).
Proof.
  intros Ht. revert st. induction Ht as [|e tr He _ IH]; intros st Hst; [done|]. cbn [store_after foldl].
  apply IH. destruct e; try exact Hst. cbn in He. subst key_auth. unfold get_http01 in *. cbn.
  rewrite lookup_insert. by case_decide as Hd; [subst|].
Qed.

(** A certificate stays until another is published for its name. *)
Lemma alpn_keeps dflt st tr domain cert :
  (forall other, EvPublishAlpn domain other ∉ tr) ->
  resolve_cert dflt st (mkHello (Some ["acme-tls/1" : str]) (Some domain)) = Some cert ->
  resolve_cert dflt (store_after st tr) (mkHello (Some ["acme-tls/1" : str]) (Some domain)) = Some cert.
Proof.
  revert st. induction tr as [|e tr IH]; intros st Hn Hst; [done|]. cbn [store_after foldl].
  apply IH; [intros other Hin; apply (Hn other); by right|]. destruct e; try exact Hst.
  unfold resolve_cert in *. cbn in *. unfold get_tls_alpn in *. cbn. rewrite lookup_insert_ne; [done|].
  intros ->. apply (Hn cert0). by left.
Qed.
End challenge.

Section answered.
Context {U : Unicode} {H : HttpLib} {HL : HttpLaws H} {N : IpNetLib} {R : RegexLib} {M : MaxMindDb} {T : Rustls} {L : Type}.
Context {G : GzLib} {F : FileSystem} {A : AcmeEnv}.

(** C35. From the moment the CA is told that a challenge is ready until the attempt
    ends, whatever the store held before: every TCP listener of the manager's block
    (HTTP/3 listeners look no challenge up), in every state its reloads can leave it
    in, answers a request for the http-01 token with its key authorization; and an
    acceptor it has offers acme-tls/1 and resolves through the block's store, which
    answers such a handshake for the domain with the announced certificate, until
    another certificate is published for the same domain. *)
Theorem challenge_answered idx cfg (l : Listener (L := L)) names st0 pre kind domain token post :
  lives idx (Some cfg) l ->
  fst (try_issue cfg names) = pre ++ EvReady kind domain token :: post ->
  match kind with
  | PickHttp =>
      forall later rest hash_ip hash_session w st p body ip,
        post = later ++ rest ->
        w_http01 w = http01 (store_after st0 (pre ++ EvReady kind domain token :: later)) ->
        uri_path (p_uri p) = "/.well-known/acme-challenge/" ++ token -> token <> [] -> "/"%char ∉ token ->
        exists r call,
          handle (fst (ls_handler l)) hash_ip hash_session w st p body ip
          = (st, mkEffects (Some (r, call)) [] [] None)
          /\ r_status r = OK_200 /\ r_body r = key_authorization token
          /\ hm_get (r_headers r) "content-type" = Some ("application/octet-stream" : str)
  | PickAlpn =>
      exists cert, self_signed_acme domain (key_digest (key_authorization token)) = Some cert
        /\ (forall later rest dflt,
              post = later ++ rest -> (forall other, EvPublishAlpn domain other ∉ later) ->
              resolve_cert dflt (store_after st0 (pre ++ EvReady kind domain token :: later))
                (mkHello (Some ["acme-tls/1" : str]) (Some domain)) = Some cert)
        /\ (forall a, ls_acceptor l = Some a ->
              ("acme-tls/1" : str) ∈ ta_alpn a /\ exists certs key, ta_certs a = Resolver certs key idx)
  | PickDns => exists pre' e, pre = pre' ++ [e] /\ publishes e PickDns domain token
  end.
Proof.
  intros Hl E. destruct (lives_store _ _ _ Hl) as (_ & _ & Hs & Ha).
  pose proof (try_issue_announced cfg names st0 _ _ _ _ _ E) as Hp. destruct kind; [| |done].
  - intros later rest hash_ip hash_session w st p body ip Hpost Hw Hpath Hne Hsl.
    destruct (acme_challenge_first (fst (ls_handler l)) hash_ip hash_session w st p body ip token)
      as (r & call & Eh & Hr); [rewrite Hs; by vm_decide|done|].
    exists r, call. split; [done|]. rewrite Hw in Hr. unfold store_after in Hr. rewrite foldl_app in Hr.
    cbn [foldl apply_event] in Hr.
    pose proof (try_issue_genuine cfg names) as Hg. rewrite E, Hpost in Hg.
    apply Forall_app in Hg as [_ Hg]. apply Forall_cons in Hg as [_ Hg]. apply Forall_app in Hg as [Hg _].
    pose proof (store_keeps _ _ _ Hg Hp) as Hk. unfold get_http01, store_after in Hk. rewrite Hk in Hr. auto.
  - destruct Hp as (cert & Hc & Hcert). exists cert. split_and!; [done| |].
    + intros later rest dflt _ Hl'. unfold store_after. rewrite foldl_app. cbn [foldl apply_event].
      apply alpn_keeps; [done|exact Hc].
    + intros a Hacc. by apply Ha.
Qed.
End answered.

(** At startup nothing can answer tls-alpn-01: up to the first issuance of a block no
    TLS listener of it is served. *)
Lemma startup_tls_alpn_gap bind_tcp bind_udp drop_user ensure hash_order cfg pre idx ok post addr :
  fst (run bind_tcp bind_udp drop_user ensure hash_order cfg) = pre ++ EvEnsure idx ok :: post ->
  EvEnsure idx true ∉ pre -> is_acme cfg idx = true ->
  EvServe (HttpListener true idx) addr ∉ pre.
Proof.
  intros E Hfirst Ha Hin. apply list_elem_of_split in Hin as (p1 & p2 & ->).
  destruct (run_gated bind_tcp bind_udp drop_user ensure hash_order cfg) as [Hg _].
  rewrite E, <- app_assoc in Hg. apply Hfirst, elem_of_app. left.
  eapply (Hg p1 _ addr); [reflexivity|]. cbn. by rewrite Ha.
Qed.

(** ** Files *)

(** A regular file: its bytes and its mode. *)
Record File : Type := mkFile { fl_bytes : str; fl_mode : Z }.
Abbreviation Disk := (gmap str File).

(** Mode bits of others than the owner. *)
Definition exposed (mode : Z) : bool := negb (Z.land mode 63 =? 0).

Section disk.
Context {A : AcmeEnv}.
(** The mode a new file gets. *)
Variable new_mode : Z.

(** What the file events of an issuance do, when they succeed: [fs::write] creates
    or truncates, [set_permissions] changes the mode. *)
Definition disk_step (d : Disk) (e : Event) : Disk :=
  match e with
  | EvWrite path bytes =>
      <[path := mkFile bytes (match d !! path with Some f => fl_mode f | None => new_mode end)]> d
  | EvChmod path mode =>
      match d !! path with Some f => <[path := mkFile (fl_bytes f) mode]> d | None => d end
  | _ => d
  end.
Definition disk_after (d : Disk) (tr : list Event) : Disk := foldl disk_step d tr.
Definition read_disk (d : Disk) (path : str) : option str := fl_bytes <$> d !! path.

Lemma disk_after_app d a b : disk_after d (a ++ b) = disk_after (disk_after d a) b.
Proof. apply foldl_app. Qed.

Lemma disk_after_quiet d tr : quiet is_file tr -> disk_after d tr = d.
Proof.
  unfold quiet. revert d. induction tr as [|e tr IH]; intros d Hq; [done|]. cbn in Hq. apply orb_false_iff in Hq as [He Hq].
  cbn. rewrite IH by done. by destruct e.
Qed.

Lemma paths_differ cfg : cert_path cfg <> key_path cfg.
Proof. unfold cert_path, key_path. intros E%app_inv_head. vm_compute in E. discriminate E. Qed.

(** [write_secret]. *)
Lemma disk_secret d path bytes mode tr :
  disk_after d (EvWrite path bytes :: EvChmod path mode :: tr) = disk_after (<[path := mkFile bytes mode]> d) tr.
Proof. unfold disk_after. cbn [foldl disk_step]. rewrite lookup_insert_eq. cbn [fl_bytes]. by rewrite insert_insert_eq. Qed.

(** The disk once all file events of an issuance are done. *)
Lemma disk_written d cfg chain key :
  let d' := disk_after d (file_events cfg chain key) in
  d' !! cert_path cfg = Some (mkFile chain MODE_0600) /\ d' !! key_path cfg = Some (mkFile key MODE_0600).
Proof.
  cbv zeta. unfold file_events. change (disk_after d (EvMkdir _ :: ?t)) with (disk_after d t).
  rewrite !disk_secret. cbn. split; [|by rewrite lookup_insert_eq].
  rewrite lookup_insert_ne by (apply not_eq_sym, paths_differ). by rewrite lookup_insert_eq.
Qed.

(** No prefix of the file events touches another path. *)
Lemma disk_elsewhere d cfg chain key n path :
  path <> cert_path cfg -> path <> key_path cfg ->
  disk_after d (take n (file_events cfg chain key)) !! path = d !! path.
Proof.
  intros H1 H2. assert (forall d tr, (forall e, e ∈ tr -> e ∈ file_events cfg chain key) ->
    disk_after d tr !! path = d !! path) as Hd.
  { intros d0 tr. revert d0. induction tr as [|e tr IH]; intros d0 Hin; [done|]. cbn.
    rewrite IH by set_solver. assert (e ∈ file_events cfg chain key) as He by set_solver.
    unfold file_events in He. rewrite !elem_of_cons, elem_of_nil in He.
    destruct He as [->|[->|[->|[->|[->|[]]]]]]; cbn; try case_match; by rewrite ?lookup_insert_ne. }
  apply Hd. intros e He. apply elem_of_take in He as (i & He & _). by apply list_elem_of_lookup_2 in He.
Qed.

Lemma issuance_disk d cfg names :
  snd (try_issue cfg names) = Ok tt ->
  let d' := disk_after d (fst (try_issue cfg names)) in
  exists chain, ca_certificate = Some chain
    /\ d' !! cert_path cfg = Some (mkFile chain MODE_0600)
    /\ d' !! key_path cfg = Some (mkFile new_key_pem MODE_0600).
Proof.
  intros Hok. destruct (try_issue_files cfg names) as (net & n & chain & E & Hq & Hc & Hn).
  cbv zeta. rewrite E, disk_after_app, (disk_after_quiet d net Hq).
  rewrite (Hn Hok) in *. destruct (Hc ltac:(lia)) as (_ & _ & Hchain). exists chain.
  split; [done|]. apply disk_written.
Qed.

(** C36. On the disk, an attempt changes nothing before the CA has finalised the order
    and returned a chain, and never touches a file other than the certificate and key
    of its own directory; when it reports success these hold that chain and the new
    key, with mode 0600. *)
Theorem issuance_on_disk d cfg names :
  let d' := disk_after d (fst (try_issue cfg names)) in
  (ca_poll_ready <> Some true \/ ca_finalize = false \/ ca_certificate = None -> d' = d)
  /\ (forall path, path <> cert_path cfg -> path <> key_path cfg -> d' !! path = d !! path)
  /\ (snd (try_issue cfg names) = Ok tt ->
        exists chain, ca_certificate = Some chain
          /\ d' !! cert_path cfg = Some (mkFile chain MODE_0600)
          /\ d' !! key_path cfg = Some (mkFile new_key_pem MODE_0600)).
Proof.
  cbv zeta. destruct (try_issue_files cfg names) as (net & n & chain & E & Hq & Hc & Hn).
  rewrite E, disk_after_app, (disk_after_quiet d net Hq). split_and!.
  - intros Hno. destruct n as [|n]; [done|]. destruct (Hc ltac:(lia)) as (H1 & H2 & H3).
    destruct Hno as [?|[?|?]]; congruence.
  - intros path H1 H2. by apply disk_elsewhere.
  - intros Hok. pose proof (issuance_disk d cfg names Hok) as Hd. cbv zeta in Hd.
    by rewrite E, disk_after_app, (disk_after_quiet d net Hq) in Hd.
Qed.
End disk.

(** ** A finished issuance and the next reload *)

Section renewal.
Context {U : Unicode} {H : HttpLib} {N : IpNetLib} {R : RegexLib} {M : MaxMindDb} {T : Rustls} {L : Type}.
Context {A : AcmeEnv}.
Variable new_mode : Z.

(** A PEM pair that loads. *)
Definition loads (chain key : str) (certs : list CertificateDer) (signing : SigningKey) : Prop :=
  pem_certs chain = Some certs /\ certs <> []
  /\ exists k, pkcs8_private_keys key ≫= head = Some k /\ any_supported_type k = Some signing.

Lemma load_pair open cert_path key_path chain key certs signing :
  open cert_path = Some chain -> open key_path = Some key -> loads chain key certs signing ->
  load_certified_key open cert_path key_path = Ok (certs, signing).
Proof.
  intros Hc Hk (Hp & Hne & k & Hpk & Hs). unfold load_certified_key, load_certificate, load_private_key.
  rewrite Hc, Hk. cbn [ok_or res_bind]. rewrite Hp. cbn [ok_or res_bind].
  rewrite bool_decide_eq_false_2 by (by destruct certs). cbn [res_bind]. rewrite Hpk. cbn [res_bind]. by rewrite Hs.
Qed.

(** Renewal hot-swaps: after a successful issuance the reload it signals leaves a
    TLS listener of the block with an acceptor whose handshakes are served the new
    chain with the new key, and which answers acme-tls/1 handshakes; so it does
    whatever was on disk before. *)
Theorem renewal_reaches_listener d cfg names fs new_config (l l' : Listener (L := L)) block ssl certs signing :
  snd (try_issue cfg names) = Ok tt ->
  ls_acme l = Some cfg -> ls_is_tls l = true ->
  cfg_http new_config !! ls_idx l = Some block -> hb_ssl block = Some ssl ->
  f_open fs = read_disk (disk_after new_mode d (fst (try_issue cfg names))) ->
  (forall chain, ca_certificate = Some chain -> loads chain new_key_pem certs signing) ->
  listener_reload fs new_config l = Ok l' ->
  ls_acceptor l' = Some (mkAcceptor (tls_versions (ssl_protocols ssl)) (Resolver certs signing (ls_idx l))
                           (strs ["h2"; "http/1.1"; "acme-tls/1"]%string)).
Proof.
  intros Hok Ha Ht Hb Hs Hf Hload Hl.
  apply listener_reload_spec in Hl as [_ Hl]. rewrite Hb in Hl. destruct Hl as (_ & _ & _ & _ & Hacc & _).
  rewrite (Hacc ssl Ht Hs), Ha, Hf. unfold acceptor_for, build_tls_acceptor_acme.
  destruct (issuance_disk new_mode d cfg names Hok) as (chain & Hc & H1 & H2).
  rewrite (load_pair _ _ _ chain new_key_pem certs signing); [done| | |by apply Hload];
    unfold read_disk; [by rewrite H1|by rewrite H2].
Qed.

(** A reload between the two writes reads the new chain with the old key: they load,
    and the acceptor serves a pair that does not belong together. *)
Lemma torn_pair_gap d cfg chain old certs signing protocols store :
  read_disk d (key_path cfg) = Some old -> loads chain old certs signing ->
  exists n, (n < 5)%nat
    /\ build_tls_acceptor_acme (read_disk (disk_after new_mode d (take n (file_events cfg chain new_key_pem))))
         (cert_path cfg) (key_path cfg) protocols store
       = Ok (mkAcceptor (tls_versions protocols) (Resolver certs signing store)
               (strs ["h2"; "http/1.1"; "acme-tls/1"]%string)).
Proof.
  intros Hk Hl. exists 2%nat. split; [lia|]. unfold build_tls_acceptor_acme.
  rewrite (load_pair _ _ _ chain old certs signing); [done| | |done]; unfold read_disk; cbn.
  - by rewrite lookup_insert_eq.
  - rewrite lookup_insert_ne by apply paths_differ. exact Hk.
Qed.

(** A new key file has the default mode between its write and its chmod. *)
Lemma key_exposed_gap d cfg chain :
  exposed new_mode = true -> d !! key_path cfg = None ->
  exists f, disk_after new_mode d (take 4 (file_events cfg chain new_key_pem)) !! key_path cfg = Some f
    /\ fl_bytes f = new_key_pem /\ exposed (fl_mode f) = true.
Proof.
  intros Hm Hn. exists (mkFile new_key_pem new_mode). split; [|done].
  unfold file_events. cbn [take]. change (disk_after new_mode d (EvMkdir _ :: ?t)) with (disk_after new_mode d t).
  rewrite disk_secret. cbn. rewrite lookup_insert_eq.
  rewrite lookup_insert_ne by apply paths_differ. by rewrite Hn.
Qed.

(** Two managers with one certificate directory: what the first issued counts as the
    certificate of the second, which then issues nothing. *)
Lemma shared_directory_gap {E} open cfg1 cfg2 (try : nat -> res E unit * Z) :
  ac_cert_dir cfg1 = ac_cert_dir cfg2 -> has_usable_cert open cfg1 = true ->
  ensure_cert (has_usable_cert open cfg2) try = (Ok tt, []).
Proof.
  unfold has_usable_cert, cert_path, key_path. intros -> Hu. unfold ensure_cert. by rewrite Hu.
Qed.
End renewal.

(** ** Concrete inputs *)

#[local] Existing Instance id_unicode.
#[local] Existing Instance assoc_http.
#[local] Existing Instance cidr_nets.
#[local] Existing Instance literal_regex.
#[local] Existing Instance stored_gz.
#[local] Existing Instance one_file.
#[local] Existing Instance one_country.
#[local] Existing Instance text_tls.
#[local] Existing Instance demo_acme.

(** A TLS listener of an ACME block, with or without its certificate. *)
Definition managed (acceptor : option TlsAcceptor) : Listener :=
  mkListener (L := str) 0 true (Some demo_acme_config) acme_http TimeoutSettings_default "/log"
    (HandlerService_new acme_http true true TimeoutSettings_default) acceptor.
Definition no_files : Files := mkFiles (fun _ => None) (fun p => Some p).

Definition announced : list Event :=
  [EvAccount "https://ca" "mailto:a@b" true None; EvNewOrder [("a.example" : str)]; EvPublishHttp "tok" "tok.thumb"].
Definition published_world : World :=
  mkWorld (http01 (store_after (ChallengeStore_new _) (announced ++ [EvReady PickHttp "a.example" "tok"])))
    (fun _ _ => Elapsed) None (fun _ => true) 0 0.
Definition challenge_request : Parts :=
  mkParts assoc_http GET (mkUri None "/.well-known/acme-challenge/tok" None) HTTP_11 [].

Lemma challenge_answered_witness :
  exists r call,
    handle (fst (ls_handler (managed None))) (fun _ => 0) (fun _ _ => 0) published_world
      (snd (ls_handler (managed None))) challenge_request (mkIncoming [] Complete) (V4 (V4Octets 1 2 3 4))
    = (snd (ls_handler (managed None)), mkEffects (Some (r, call)) [] [] None)
    /\ r_status r = OK_200 /\ r_body r = ("tok.thumb" : str)
    /\ hm_get (r_headers r) "content-type" = Some ("application/octet-stream" : str).
Proof.
  refine (challenge_answered 0 demo_acme_config (managed None) [] (ChallengeStore_new _) announced PickHttp
    "a.example" "tok" (EvFinalize "csr" :: file_events demo_acme_config "chain" "key") _ _
    [] (EvFinalize "csr" :: file_events demo_acme_config "chain" "key") _ _ _ _ _ _ _ _ _ _ _ _).
  - apply (lives_start _ _ no_files acme_http true TimeoutSettings_default). reflexivity.
  - vm_compute. reflexivity.
  - reflexivity.
  - reflexivity.
  - reflexivity.
  - discriminate.
  - vm_decide.
Defined.

Definition renewed_files : Files :=
  mkFiles (read_disk (disk_after 420 ∅ (fst (try_issue demo_acme_config [])))) (fun p => Some p).
Definition renewed_acceptor : TlsAcceptor :=
  mkAcceptor [TLS13; TLS12] (Resolver [("chain" : str)] ("key" : str) 0%nat) (strs ["h2"; "http/1.1"; "acme-tls/1"]%string).

Lemma renewal_reaches_listener_witness : ls_acceptor (managed (Some renewed_acceptor)) = Some renewed_acceptor.
Proof.
  refine (renewal_reaches_listener 420 ∅ demo_acme_config [] renewed_files
    (mkConfig (mkGlobal default_worker_processes default_error_log None None None) [acme_http] [] None)
    (managed None) (managed (Some renewed_acceptor)) acme_http (mkSsl None None (Some demo_acme_config) [])
    [("chain" : str)] ("key" : str) _ _ _ _ _ _ _ _); try reflexivity.
  intros chain [= <-]. split_and!; [reflexivity|discriminate|]. exists ("key" : str). split; reflexivity.
Defined.

(** The default directory is the same for every block: a configuration with two ACME
    blocks passes validation, and the second is served the certificate of the first. *)
Definition acme_block (name : string) : HttpBlock :=
  mkHttp [mkListen 443 "https" None] (strs [name]) None
    (Some (mkSsl None None (Some (mkAcme true "a@b" default_acme_endpoint false [] default_challenge_types
                                     None None 30 None true None default_acme_cert_dir None)) []))
    true true [] [] None [] "/log" None None true true None None "any" None true false None None None None
    None None None [] None None None.
Definition as_root : Env := mkEnv (fun _ => true) (fun _ => None) true (fun _ => None) (fun _ => None) (fun _ => None).

Example default_directories_collide :
  Config_validate as_root (mkConfig (mkGlobal default_worker_processes default_error_log None None None)
                     [acme_block "a.example"; acme_block "b.example"] [] None) = Ok tt.
Proof. vm_compute. reflexivity. Qed.
