(* ===== verification/Renewal.v ===== *)
(** * The renewal task (src/src/server.rs, [acme_renewal_loop])

    The background task of an ACME block over time: it wakes, looks at the certificate
    on disk, issues when the certificate is inside its window, and signals a reload
    when that succeeded.  Theorem: it attempts nothing before the window opens, makes
    its first attempt within one pause of it, is certain to have made as many attempts
    before the expiry as the window has pauses, and signals a reload once for each
    success.  Gap: a certificate file that does not parse is never replaced. *)

From S2P Require Import Prelude.
From S2P Require Import Str.
From S2P Require Import Config.
From S2P Require Import Acme.
From S2P Require Import Server.
From S2P Require Import Issuance.

Section task.
Context {A : AcmeEnv} {E : Type}.
(** The mode of new files, and the expiry of a certificate file that parses. *)
Variable new_mode : Z.
Variable not_after : str -> option Z.
Variable cfg : AcmeConfig.

(** What the [select!] of one turn sees: the shutdown signal, or the end of the sleep
    at [now]; then [tr] and [issued] are the events and the outcome of the
    [issue_with_retry] that this turn would run. *)
Inductive Turn : Type :=
  | Told
  | Slept (now : Z) (tr : list Event) (issued : res E unit).

Inductive Act : Type :=
  | Attempt (now : Z)
  | SendReload (now : Z).

(** The disk the task leaves and what it did. *)
Fixpoint acme_renewal_loop (d : Disk) (turns : list Turn) : Disk * list Act :=
  match turns with
  | [] | Told :: _ => (d, [])
  | Slept now tr issued :: rest =>
      let renewal := needs_renewal cfg (read_disk d (cert_path cfg)) not_after now in
      let reload := if acme_renewal_tick renewal issued then [SendReload now] else [] in
      match renewal with
      | Ok true =>
          let '(d2, acts) := acme_renewal_loop (disk_after new_mode d tr) rest in
          (d2, Attempt now :: reload ++ acts)
      | _ => acme_renewal_loop d rest
      end
  end.

(** The certificate file of a disk, when it parses: its expiry. *)
Definition expiry (d : Disk) : option Z := read_disk d (cert_path cfg) ≫= not_after.
(** The window, in seconds. *)
Definition window : Z := ac_renewal_window cfg * 86400.
(** When a turn wakes. *)
Definition wakes (turns : list Turn) : list Z :=
  omap (fun x => match x with Slept now _ _ => Some now | Told => None end) turns.
Definition due (t now : Z) : Prop := t - now < window.
#[global] Instance due_dec t now : Decision (due t now) := Z_lt_dec _ _.
(** A turn whose issuance fails and leaves the certificate file alone. *)
Definition fails (x : Turn) : Prop :=
  match x with
  | Told => False
  | Slept _ tr issued => is_ok issued = false /\ forall d, expiry (disk_after new_mode d tr) = expiry d
  end.
(** A turn that finds the certificate [t] not yet due. *)
Definition idle (t : Z) (x : Turn) : Prop :=
  match x with Told => False | Slept now _ _ => ~ due t now end.

Lemma needs_renewal_due d t now :
  expiry d = Some t ->
  needs_renewal cfg (read_disk d (cert_path cfg)) not_after now = Ok (bool_decide (due t now)).
Proof.
  unfold expiry. intros (pem & -> & Hn)%bind_Some. unfold needs_renewal, due, window. rewrite Hn. f_equal.
  case_bool_decide; lia.
Qed.

(** One turn on a disk whose certificate expires at [t]. *)
Lemma turn_step d t now tr issued rest :
  expiry d = Some t ->
  acme_renewal_loop d (Slept now tr issued :: rest)
  = if bool_decide (due t now) then
      let r := acme_renewal_loop (disk_after new_mode d tr) rest in
      (fst r, Attempt now :: (if is_ok issued then [SendReload now] else []) ++ snd r)
    else acme_renewal_loop d rest.
Proof.
  intros Hd. cbn [acme_renewal_loop]. rewrite (needs_renewal_due d t now Hd).
  case_bool_decide; [|done]. destruct (acme_renewal_loop _ rest). unfold acme_renewal_tick.
  by destruct issued as [[]| |].
Qed.

(** Turns that all fail: an attempt at each wake-up inside the window, no reload, and
    the same expiry in the end. *)
Lemma loop_fails d t turns :
  expiry d = Some t -> Forall fails turns ->
  exists d', expiry d' = Some t /\ forall rest,
    let r := acme_renewal_loop d' rest in
    acme_renewal_loop d (turns ++ rest) = (fst r, map Attempt (filter (due t) (wakes turns)) ++ snd r).
Proof.
  intros Hd Hf. revert d Hd. induction Hf as [|[|now tr issued] turns Hx _ IH]; intros d Hd.
  - exists d. split; [done|]. intros rest. cbn. by destruct (acme_renewal_loop d rest).
  - destruct Hx.
  - destruct Hx as [Hi Hk]. unfold wakes. cbn [omap list_omap]. fold (wakes turns). rewrite filter_cons.
    destruct (decide (due t now)) as [Hdue|Hdue].
    + destruct (IH (disk_after new_mode d tr) ltac:(by rewrite Hk)) as (d' & Hd' & Hr).
      exists d'. split; [done|]. intros rest. cbv zeta. cbn [app]. rewrite (turn_step d t) by done.
      rewrite bool_decide_eq_true_2, Hr, Hi by done. done.
    + destruct (IH d Hd) as (d' & Hd' & Hr). exists d'. split; [done|]. intros rest. cbv zeta. cbn [app].
      rewrite (turn_step d t) by done. rewrite bool_decide_eq_false_2, Hr by done. done.
Qed.

(** Turns before the window: nothing. *)
Lemma loop_idle d t turns rest :
  expiry d = Some t -> Forall (idle t) turns ->
  acme_renewal_loop d (turns ++ rest) = acme_renewal_loop d rest.
Proof.
  intros Hd. induction 1 as [|[|now tr issued] turns Hx _ IH]; [done|destruct Hx|].
  cbn [app]. rewrite (turn_step d t) by done. by rewrite bool_decide_eq_false_2.
Qed.

(** ** Pauses *)

(** Times one after the other from [a], no further apart than [gap]. *)
Fixpoint paced (gap a : Z) (ts : list Z) : Prop :=
  match ts with [] => True | t :: r => a < t <= a + gap /\ paced gap t r end.

(** From a moment inside the window: [k] pauses before the expiry, [k] wake-ups. *)
Lemma paced_count gap t a ts k :
  paced gap a ts -> (exists x, x ∈ ts /\ t <= x) -> t - window <= a -> a + Z.of_nat k * gap < t ->
  (k <= length (filter (fun x => (x < t)%Z) (filter (due t) ts)))%nat.
Proof.
  revert a k. induction ts as [|x ts IH]; intros a k Hp (y & Hy & Hty) Ha Hk; [set_solver|].
  destruct Hp as [Hx Hp]. destruct k as [|k]; [lia|].
  assert (x < t) as Hxt by nia. assert (due t x) as Hd by (unfold due; lia).
  rewrite filter_cons_True, filter_cons_True by done. cbn [length]. apply le_n_S. apply (IH x); [done| |lia|lia].
  exists y. split; [|done]. apply elem_of_cons in Hy as [->|?]; [lia|done].
Qed.

(** From a moment before it. *)
Lemma paced_count_before gap t a ts k :
  paced gap a ts -> (exists x, x ∈ ts /\ t <= x) -> a <= t - window -> Z.of_nat k * gap < window ->
  (k <= length (filter (fun x => (x < t)%Z) (filter (due t) ts)))%nat.
Proof.
  revert a. induction ts as [|x ts IH]; intros a Hp (y & Hy & Hty) Ha Hk; [set_solver|].
  destruct Hp as [Hx Hp]. destruct (decide (due t x)) as [Hd|Hd].
  - destruct k as [|k]; [lia|]. unfold due in Hd. assert (x < t) as Hxt by nia.
    rewrite filter_cons_True, filter_cons_True by done. cbn [length]. apply le_n_S.
    apply (paced_count gap t x); [done| |lia|nia].
    exists y. split; [|done]. apply elem_of_cons in Hy as [->|?]; [lia|done].
  - rewrite filter_cons_False by done. unfold due in Hd. apply (IH x); [done| |lia|done].
    exists y. split; [|done]. apply elem_of_cons in Hy as [->|?]; [|done]. nia.
Qed.

(** The first wake-up inside the window comes within a pause of its opening. *)
Lemma paced_first gap t a ts x rest :
  paced gap a ts -> a <= t - window -> filter (due t) ts = x :: rest -> t - window < x <= t - window + gap.
Proof.
  revert a. induction ts as [|y ts IH]; intros a Hp Ha Hf; [done|]. destruct Hp as [Hy Hp].
  rewrite filter_cons in Hf. destruct (decide (due t y)) as [Hd|Hd]; unfold due in Hd.
  - injection Hf as <- _. lia.
  - apply (IH y); [done|lia|done].
Qed.

(** C38. Renewal is in time.  While the CA refuses, the task attempts an issuance at each
    wake-up inside the window and at no other, the first of them within one pause of
    the moment the window opens; a window longer than [k] pauses leaves room for [k]
    attempts before the certificate expires; nothing is reloaded.  The first success
    ends that: it is followed by one reload, and the task is idle while the new
    certificate is not due. *)
Theorem renewal_in_time gap start t d turns :
  expiry d = Some t -> Forall fails turns -> paced gap start (wakes turns) -> start <= t - window ->
  let '(d', acts) := acme_renewal_loop d turns in
  expiry d' = Some t
  /\ acts = map Attempt (filter (due t) (wakes turns))
  /\ (forall now rest, acts = Attempt now :: rest -> t - window < now <= t - window + gap)
  /\ (forall k, (exists x, x ∈ wakes turns /\ t <= x) -> Z.of_nat k * gap < window ->
        (k <= length (filter (fun x => (x < t)%Z) (filter (due t) (wakes turns))))%nat)
  /\ (forall now tr later t',
        due t now -> expiry (disk_after new_mode d' tr) = Some t' -> Forall (idle t') later ->
        acme_renewal_loop d (turns ++ Slept now tr (Ok tt) :: later)
        = (disk_after new_mode d' tr, acts ++ [Attempt now; SendReload now])).
Proof.
  intros Hd Hf Hp Hs. destruct (loop_fails d t turns Hd Hf) as (d' & Hd' & Hloop).
  pose proof (Hloop []) as E0. cbn in E0. rewrite !app_nil_r in E0. rewrite E0. split_and!; [done|done|..].
  - intros now rest Ha. destruct (filter (due t) (wakes turns)) as [|x l] eqn:Ex; [done|].
    injection Ha as -> _. by eapply paced_first.
  - intros k Hx Hk. by eapply paced_count_before.
  - intros now tr later t' Hdue He Hi. rewrite Hloop. cbv zeta. rewrite (turn_step d' t) by done.
    rewrite bool_decide_eq_true_2 by done. cbv zeta.
    pose proof (loop_idle _ t' later [] He Hi) as El. rewrite app_nil_r in El. by rewrite El.
Qed.

(** The comment above [needs_renewal] says an unreadable certificate warrants a new
    one; a file that is there and does not parse never gets one from this task. *)
Lemma garbled_never_renewed d pem turns :
  read_disk d (cert_path cfg) = Some pem -> not_after pem = None -> acme_renewal_loop d turns = (d, []).
Proof.
  intros Hp Hn. induction turns as [|[|now tr issued] turns IH]; [done..|]. cbn [acme_renewal_loop].
  unfold needs_renewal. by rewrite Hp, Hn.
Qed.
End task.

(** ** A concrete run *)

Section witness.
#[local] Existing Instance demo_acme.

(** The old certificate expires at 3000000, the new one at 9000000. *)
Definition demo_expiry (pem : str) : option Z := Some (if bool_decide (pem = "old") then 3000000 else 9000000).
Definition demo_disk : Disk := {[ cert_path demo_acme_config := mkFile "old" MODE_0600 ]}.
(** A CA that is out of service at every wake-up. *)
Definition refusing : list (Turn (E := unit)) :=
  map (fun now => Slept now [] (Err tt)) [300000; 1200000; 2100000; 2900000; 3500000].

Lemma renewal_in_time_witness :
  snd (acme_renewal_loop 420 demo_expiry demo_acme_config demo_disk refusing)
    = map Attempt [1200000; 2100000; 2900000; 3500000]
  /\ snd (acme_renewal_loop 420 demo_expiry demo_acme_config demo_disk
            (refusing ++ [Slept 3600000 (file_events demo_acme_config "new" "key") (Ok tt); Slept 4000000 [] (Err tt)]))
     = map Attempt [1200000; 2100000; 2900000; 3500000] ++ [Attempt 3600000; SendReload 3600000].
Proof.
  split; [vm_compute; reflexivity|].
  pose proof (renewal_in_time 420 demo_expiry demo_acme_config 1000000 0 3000000 demo_disk refusing) as Hr.
  assert (acme_renewal_loop 420 demo_expiry demo_acme_config demo_disk refusing
          = (demo_disk, map Attempt [1200000; 2100000; 2900000; 3500000])) as Ed by reflexivity.
  rewrite Ed in Hr.
  destruct Hr as (_ & _ & _ & _ & Hs).
  - vm_compute. reflexivity.
  - apply Forall_fmap, Forall_true. intros now. split; [done|]. by intros d.
  - vm_compute. split_and!; done.
  - vm_compute. done.
  - rewrite (Hs 3600000 _ _ 9000000); [reflexivity| | |].
    + vm_compute. reflexivity.
    + vm_compute. reflexivity.
    + apply Forall_singleton. vm_compute. congruence.
Defined.
End witness.
