(* ===== verification/HotSwap.v ===== *)
(** * A renewed certificate in the running server (src/src/server.rs, acme.rs)

    [System] leaves open what an accept loop finds in the files when it starts or
    installs a new configuration.  Here these are the files of a disk, and the disk
    is the one an issuance left behind.  Theorem: once the reload that a renewal sends
    has settled, every TLS listener of the block serves the new chain with the new
    key, whatever configuration changes, connections and signals come in between. *)

From S2P Require Import Prelude.
From S2P Require Import Str.
From S2P Require Import Net.
From S2P Require Import Extern.
From S2P Require Import Config.
From S2P Require Import Geoip.
From S2P Require Import Handler.
From S2P Require Import Tls.
From S2P Require Import Acme.
From S2P Require Import Listener.
From S2P Require Import Broadcast.
From S2P Require Import Server.
From S2P Require Import System.
From S2P Require Import Issuance.
From S2P Require Import Instances.

Section swap.
Context {U : Unicode} {H : HttpLib} {N : IpNetLib} {R : RegexLib} {M : MaxMindDb} {T : Rustls} {L : Type}.
Context {B : Broadcast} {BL : BroadcastLaws B} {A : AcmeEnv}.

(** The listeners of a server, of both kinds. *)
Abbreviation AnyListener := (Listener (L := L) + Listener.QuicListener (L := L))%type.
Abbreviation Running := (Sys (W := AnyListener)).

(** The disk that every loop reads from. *)
Variable d : Disk.

(** A loop that starts or installs a configuration does so from the disk. *)
Definition from_disk (p p' : Phase (W := AnyListener)) : Prop :=
  match p, p' with
  | Starting sd, Selecting w =>
      exists fs endpoint, f_open fs = read_disk d /\ rl_start fs endpoint sd = Some w
  | Installing w c, Selecting w' => exists fs, f_open fs = read_disk d /\ rl_reload fs c w = Some w'
  | _, _ => True
  end.
Definition disk_moves (y y' : Running) : Prop :=
  moves y y' /\ forall i l l', y_loops y !! i = Some l -> y_loops y' !! i = Some l' ->
    from_disk (lp_phase l) (lp_phase l').

(** The listener's acceptor is the one the files on disk give for the block. *)
Definition serves_disk (cfg : Config) (w : AnyListener) : Prop :=
  match w with
  | inl l => forall block ssl, ls_is_tls l = true -> cfg_http cfg !! ls_idx l = Some block -> hb_ssl block = Some ssl ->
               ls_acceptor l = acceptor_for (read_disk d) (ls_idx l) (ls_acme l) ssl
  | inr _ => True
  end.

(** So it is, or a reload is on its way. *)
Definition fresh_files (cfg : Config) (s : Signals) (l : Loop (W := AnyListener)) : Prop :=
  s = Swapped \/ (0 < backlog (lp_reload l))%nat
  \/ match lp_phase l with
     | Selecting w | BackingOff w => serves_disk cfg w
     | Installing _ c => c = cfg
     | Starting sd => cfg_http cfg !! sd_idx sd = Some (sd_block sd)
     | Reading _ | Ended => True
     end.
Definition all_fresh (y : Running) : Prop := Forall (fresh_files (y_config y) (y_signals y)) (y_loops y).

Lemma fresh_put (y : Running) i l :
  all_fresh y -> fresh_files (y_config y) (y_signals y) l -> all_fresh (put_loop i l y).
Proof. intros Hy Hl. by apply Forall_insert. Qed.

Lemma fresh_delivered cfg s (ls : list (Loop (W := AnyListener))) :
  Forall (fresh_files cfg s) (map (fun l => mkLoop (lp_phase l) (lp_shutdown l) (deliver (lp_reload l))) ls).
Proof. apply Forall_fmap, Forall_true. intros l. right. left. apply deliver_backlog. Qed.

Lemma start_serves cfg fs endpoint sd w :
  f_open fs = read_disk d -> rl_start (W := AnyListener) fs endpoint sd = Some w ->
  cfg_http cfg !! sd_idx sd = Some (sd_block sd) -> serves_disk cfg w.
Proof.
  intros Hf Hs Hb. cbn in Hs. destruct (sd_quic sd); apply fmap_Some in Hs as (l & Hl & ->); [done|].
  apply ok_of_Some in Hl. unfold listener_start in Hl. apply res_bind_ok in Hl as (lg & _ & [= <-]).
  intros block ssl Ht Hc Hs. cbn in *. rewrite Hb in Hc. injection Hc as <-. by rewrite Ht, Hs, Hf.
Qed.

Lemma reload_serves cfg fs w w' :
  f_open fs = read_disk d -> rl_reload (W := AnyListener) fs cfg w = Some w' -> serves_disk cfg w'.
Proof.
  intros Hf Hr. destruct w as [l|q]; cbn in Hr; apply fmap_Some in Hr as (l' & Hl & ->); [|done].
  apply ok_of_Some, listener_reload_spec in Hl as [Hi Hl]. injection Hi as E1 E2 E3.
  intros block ssl Ht Hc Hs. rewrite E1 in Hc. rewrite Hc in Hl. destruct Hl as (_ & _ & _ & _ & Ha & _).
  rewrite E2 in Ht. by rewrite (Ha ssl Ht Hs), Hf, E1, E3.
Qed.

(** A loop that moves to another phase with the same reload receiver. *)
Lemma fresh_phase cfg s (l : Loop (W := AnyListener)) p :
  fresh_files cfg s l ->
  (match lp_phase l with
   | Selecting w | BackingOff w => serves_disk cfg w
   | Installing _ c => c = cfg
   | Starting sd => cfg_http cfg !! sd_idx sd = Some (sd_block sd)
   | Reading _ | Ended => True
   end -> fresh_files cfg s (set_phase l p)) ->
  fresh_files cfg s (set_phase l p).
Proof. intros [Hs|[Hb|Hc]] Hp; [by left|by right; left|auto]. Qed.

Lemma moved_phase y i l l' :
  y_loops y !! i = Some l -> (forall j m m', y_loops y !! j = Some m -> <[i := l']> (y_loops y) !! j = Some m' ->
    from_disk (lp_phase m) (lp_phase m')) -> from_disk (lp_phase l) (lp_phase l').
Proof. intros Hi Hm. apply (Hm i l l' Hi). apply list_lookup_insert_eq. by apply lookup_lt_Some in Hi. Qed.

Lemma disk_step_fresh y y' : all_fresh y -> disk_moves y y' -> all_fresh y'.
Proof.
  intros Hy [[a Hs] Hd]. destruct Hs as [| |y Hw|y| | |? i o issued y|fs ep i l sd y Hi Hp|i l w rx y Hi Hp _|i l w rx y Hi Hp _ Hr
    |i l w y Hi Hp|fs i l w c y Hi Hp| | |i l w y Hi Hp|i l w y Hi Hp| | | |]; try done;
    try (pose proof (loop_at _ _ _ _ Hy Hi) as Hl).
  - (* sighup_swap *) apply Forall_true. intros l. by left.
  - (* sighup_send *) apply fresh_delivered.
  - (* sigterm *) apply Forall_fmap. eapply Forall_impl; [exact Hy|]. intros l [Hl|Hl]; [congruence|by right].
  - (* outside_shutdown *) by apply Forall_fmap.
  - apply fresh_delivered.
  - (* renewal_done *) destruct (acme_renewal_tick _ _); [apply fresh_delivered|done].
  - (* loop_start *) apply fresh_put; [done|]. apply fresh_phase; [done|]. rewrite Hp. intros Hc.
    right. right. pose proof (moved_phase _ _ _ _ Hi Hd) as Hm. rewrite Hp in Hm. cbn [set_phase lp_phase] in Hm |- *.
    destruct (rl_start fs ep sd) as [w|]; [|done]. destruct Hm as (fs' & ep' & Hf & Hst). by eapply start_serves.
  - (* arm_shutdown *) apply fresh_put; [done|]. right. by right.
  - (* arm_reload *) apply fresh_put; [done|]. right. by right.
  - (* reload_read *) apply fresh_put; [done|]. apply fresh_phase; [done|]. intros _. right. by right.
  - (* reload_install *) apply fresh_put; [done|]. apply fresh_phase; [done|]. rewrite Hp. intros ->.
    right. right. pose proof (moved_phase _ _ _ _ Hi Hd) as Hm. rewrite Hp in Hm. cbn [set_phase lp_phase] in Hm |- *.
    destruct (rl_reload fs (y_config y) w) as [w'|]; [|done]. destruct Hm as (fs' & Hf & Hr). by eapply reload_serves.
  - (* arm_accept_over *) apply (fresh_put (set_active _ y)); [done|]. apply fresh_phase; [done|].
    rewrite Hp. intros Hc. right. by right.
  - (* back_off *) apply (fresh_put (set_active _ y)); [done|]. apply fresh_phase; [done|].
    rewrite Hp. intros Hc. right. by right.
Qed.

(** No loop has a step of its own left. *)
Definition quiescent (y : Running) : Prop := forall y', ~ sstep Internal y y'.

Lemma quiescent_idle y i l w :
  quiescent y -> y_loops y !! i = Some l -> lp_phase l = Selecting w -> backlog (lp_reload l) = 0%nat.
Proof.
  intros Hq Hi Hp. destruct (recv (lp_shutdown l)) as [rx|] eqn:Es.
  { destruct (Hq _ (arm_shutdown i l w rx y Hi Hp Es)). }
  destruct (recv (lp_reload l)) as [rx|] eqn:Er.
  { destruct (Hq _ (arm_reload i l w rx y Hi Hp Es Er)). }
  by apply recv_none_backlog.
Qed.

Lemma settled_serves_disk y y' i l w :
  rtc disk_moves (send_reload y) y' -> quiescent y' -> y_signals y' <> Swapped ->
  y_loops y' !! i = Some l -> lp_phase l = Selecting w -> serves_disk (y_config y') w.
Proof.
  intros Hr Hq Hs Hi Hp. assert (all_fresh y') as Hf.
  { assert (all_fresh (send_reload y)) as H0 by apply fresh_delivered. revert H0. induction Hr; eauto using disk_step_fresh. }
  pose proof (Forall_lookup_1 _ _ _ _ Hf Hi) as [?|[Hb|Hc]]; [done| |by rewrite Hp in Hc].
  rewrite (quiescent_idle _ _ _ _ Hq Hi Hp) in Hb. lia.
Qed.
End swap.

Section renewal.
Context {U : Unicode} {H : HttpLib} {N : IpNetLib} {R : RegexLib} {M : MaxMindDb} {T : Rustls} {L : Type}.
Context {B : Broadcast} {BL : BroadcastLaws B} {A : AcmeEnv}.
Variable new_mode : Z.

(** C37. Renewal hot-swaps.  After a successful issuance and the reload it sends, the
    running server may do anything on that disk: serve, reload, be reconfigured, be
    told to stop.  Whenever its loops have nothing left to do and no reload is about to
    be sent, every TLS listener of the issuing manager whose block the configuration
    still has, with an ssl section, serves handshakes the new chain with the new key
    and answers acme-tls/1 handshakes from the challenge store of its block. *)
Theorem hot_swap acme names d0 certs signing (y y' : Sys (W := Listener (L := L) + Listener.QuicListener (L := L))) :
  snd (try_issue acme names) = Ok tt ->
  (forall chain, ca_certificate = Some chain -> loads chain new_key_pem certs signing) ->
  rtc (disk_moves (disk_after new_mode d0 (fst (try_issue acme names)))) (send_reload y) y' ->
  quiescent y' -> y_signals y' <> Swapped ->
  forall i l w block ssl,
    y_loops y' !! i = Some l -> lp_phase l = Selecting (inl w) ->
    ls_is_tls w = true -> ls_acme w = Some acme ->
    cfg_http (y_config y') !! ls_idx w = Some block -> hb_ssl block = Some ssl ->
    ls_acceptor w = Some (mkAcceptor (tls_versions (ssl_protocols ssl)) (Resolver certs signing (ls_idx w))
                            (strs ["h2"; "http/1.1"; "acme-tls/1"]%string)).
Proof.
  intros Hok Hload Hr Hq Hs i l w block ssl Hi Hp Ht Ha Hc Hb.
  pose proof (settled_serves_disk _ _ _ _ _ _ Hr Hq Hs Hi Hp) as Hw.
  rewrite (Hw block ssl Ht Hc Hb), Ha. unfold acceptor_for, build_tls_acceptor_acme.
  destruct (issuance_disk new_mode d0 acme names Hok) as (chain & Hca & H1 & H2).
  rewrite (load_pair _ _ _ chain new_key_pem certs signing); [done| | |by apply Hload];
    unfold read_disk; [by rewrite H1|by rewrite H2].
Qed.
End renewal.

(** ** A concrete server

    One TLS listener that started without a certificate; the first issuance. *)

#[local] Existing Instance id_unicode.
#[local] Existing Instance assoc_http.
#[local] Existing Instance cidr_nets.
#[local] Existing Instance literal_regex.
#[local] Existing Instance one_country.
#[local] Existing Instance text_tls.
#[local] Existing Instance demo_acme.
#[local] Existing Instance ring.
#[local] Existing Instance ring_laws.

Definition tls_config : Config :=
  mkConfig (mkGlobal default_worker_processes default_error_log None None None) [acme_http] [] None.
Definition tls_phase (acceptor : option TlsAcceptor)
    : Phase (W := Listener (L := str) + Listener.QuicListener (L := str)) := Selecting (inl (managed acceptor)).
Definition tls_server (p : Phase (W := Listener (L := str) + Listener.QuicListener (L := str))) (unread : nat)
    : Sys (W := Listener (L := str) + Listener.QuicListener (L := str)) :=
  mkSys tls_config Waiting [mkLoop (B := ring) p 0%nat unread] [] 0 [] false [].
Definition issued_disk : Disk := disk_after 420 ∅ (fst (try_issue demo_acme_config [])).

Lemma tls_server_quiet acceptor : quiescent (tls_server (tls_phase acceptor) 0).
Proof.
  intros y' Hs. inversion Hs as [| | | | | | |fs ep i l sd ? Hi Hp|i l w rx ? Hi Hp Hx|i l w rx ? Hi Hp _ Hx
    |i l w ? Hi Hp|fs i l w c ? Hi Hp| | | |i l w ? Hi Hp|i o rx ? Hi| | |]; subst; cbn in Hi;
    destruct i as [|[|i]]; try discriminate Hi; injection Hi as <-; first [discriminate Hp|discriminate Hx].
Qed.

Lemma tls_server_reloads :
  rtc (disk_moves issued_disk) (send_reload (tls_server (tls_phase None) 0))
    (tls_server (tls_phase (Some renewed_acceptor)) 0).
Proof.
  apply (rtc_l _ _ (tls_server (Reading (inl (managed None))) 0)).
  { split.
    - exists Internal. exact (arm_reload 0 (mkLoop (B := ring) (tls_phase None) 0%nat 1%nat) (inl (managed None)) 0%nat
        (tls_server (tls_phase None) 1) eq_refl eq_refl eq_refl eq_refl).
    - intros [|[|i]] l l'; cbn; try done. by intros [= <-] [= <-]. }
  apply (rtc_l _ _ (tls_server (Installing (inl (managed None)) tls_config) 0)).
  { split.
    - exists Internal. exact (reload_read 0 (mkLoop (B := ring) (Reading (inl (managed None))) 0%nat 0%nat) (inl (managed None))
        (tls_server (Reading (inl (managed None))) 0) eq_refl eq_refl).
    - intros [|[|i]] l l'; cbn; try done. by intros [= <-] [= <-]. }
  apply rtc_once. split.
  - exists Internal. exact (reload_install renewed_files 0
      (mkLoop (B := ring) (Installing (inl (managed None)) tls_config) 0%nat 0%nat) (inl (managed None)) tls_config
      (tls_server (Installing (inl (managed None)) tls_config) 0) eq_refl eq_refl).
  - intros [|[|i]] l l'; cbn; try done. intros [= <-] [= <-]. cbn. exists renewed_files. by split.
Qed.

Lemma hot_swap_witness : ls_acceptor (managed (Some renewed_acceptor)) = Some renewed_acceptor.
Proof.
  refine (hot_swap 420 demo_acme_config [] ∅ [("chain" : str)] ("key" : str) (tls_server (tls_phase None) 0)
    (tls_server (tls_phase (Some renewed_acceptor)) 0) _ _ tls_server_reloads (tls_server_quiet _) _
    0%nat (mkLoop (B := ring) (tls_phase (Some renewed_acceptor)) 0%nat 0%nat) (managed (Some renewed_acceptor))
    acme_http (mkSsl None None (Some demo_acme_config) []) _ _ _ _ _ _); try reflexivity; [|discriminate].
  intros chain [= <-]. split_and!; [reflexivity|discriminate|]. exists ("key" : str). split; reflexivity.
Defined.
