(* ===== verification/Serving.v ===== *)
(** * Services across reloads (src/src/server.rs, src/src/handler.rs)

    [System] keeps the listener a connection was accepted by as a value; [Flight] has
    the requests of one service.  A loop makes a new service, with balancer, sticky
    table and DNS cache of its own, when it starts and at each reload that has its
    block, and a connection holds on to the [Arc] of the one it was accepted under.
    Here the two run together: the services ever made are numbered, loops and
    connections point at them, and requests come in over connections.  Theorem: every
    request runs in the service of its connection, whose gauges stay exact and whose
    pools it is answered from, whatever reloads happen around it, and requests never
    hold the server up. *)

From S2P Require Import Prelude.
From S2P Require Import Str.
From S2P Require Import Net.
From S2P Require Import Extern.
From S2P Require Import Config.
From S2P Require Import Limits.
From S2P Require Import Balance.
From S2P Require Import AbSplit.
From S2P Require Import StaticFile.
From S2P Require Import Geoip.
From S2P Require Import Proxy.
From S2P Require Import Handler.
From S2P Require Import Entry.
From S2P Require Import Flight.
From S2P Require Import Tls.
From S2P Require Import Acme.
From S2P Require Import Listener.
From S2P Require Import Broadcast.
From S2P Require Import Server.
From S2P Require Import System.
From S2P Require Import Instances.

(** ** What a loop promises about the services it makes *)

Section promises.
Context {U : Unicode} {H : HttpLib} {N : IpNetLib} {R : RegexLib} {M : MaxMindDb} {T : Rustls} {L : Type}.

Class MakesServices (W : Type) {RW : Reloadable (L := L) W} : Prop := {
  rl_start_service : forall fs endpoint sd w,
    rl_start fs endpoint sd = Some w ->
    exists store is_tls timeouts, rl_service w = service (sd_block sd) store is_tls timeouts;
  rl_reload_service : forall fs cfg w w',
    rl_reload fs cfg w = Some w' ->
    match cfg_http cfg !! rl_idx w with
    | Some block => exists store is_tls timeouts, rl_service w' = service block store is_tls timeouts
    | None => rl_service w' = rl_service w
    end;
}.

#[global] Instance tcp_makes : MakesServices (Listener (L := L)).
Proof.
  split.
  - intros fs ep sd w Hw%ok_of_Some. apply res_bind_ok in Hw as (lg & _ & [= <-]). by eexists _, _, _.
  - intros fs cfg w w' Hw%ok_of_Some. cbn in Hw. unfold listener_reload in Hw. cbn [rl_idx tcp_reloadable].
    destruct (cfg_http cfg !! ls_idx w) as [b|]; [|by injection Hw as <-].
    apply res_bind_ok in Hw as (lg & _ & [= <-]). by eexists _, _, _.
Qed.
#[global] Instance quic_makes : MakesServices (Listener.QuicListener (L := L)).
Proof.
  split.
  - intros fs ep sd w Hw%ok_of_Some. cbn in Hw. unfold quic_start in Hw.
    apply res_bind_ok in Hw as (ssl & _ & Hw). apply res_bind_ok in Hw as (qc & _ & Hw).
    destruct ep; [|done]. apply res_bind_ok in Hw as (lg & _ & [= <-]). by eexists _, _, _.
  - intros fs cfg w w' Hw%ok_of_Some. cbn in Hw. unfold quic_reload in Hw. cbn [rl_idx quic_reloadable].
    destruct (cfg_http cfg !! ql_idx w) as [b|]; [|by injection Hw as <-].
    apply res_bind_ok in Hw as (lg & _ & [= <-]). by eexists _, _, _.
Qed.
#[global] Instance sum_makes {A B} {RA : Reloadable (L := L) A} {RB : Reloadable (L := L) B} {MA : MakesServices A} {MB : MakesServices B} :
  MakesServices (A + B).
Proof.
  split.
  - intros fs ep sd w Hw. cbn in Hw. destruct (sd_quic sd);
      apply fmap_Some in Hw as (x & Hx & ->); by apply rl_start_service in Hx.
  - intros fs cfg [a|b] w' Hw; cbn in Hw;
      apply fmap_Some in Hw as (x & Hx & ->); by apply rl_reload_service in Hx.
Qed.
End promises.

Section serving.
Context {U : Unicode} {H : HttpLib} {HL : HttpLaws H} {N : IpNetLib} {R : RegexLib} {G : GzLib} {F : FileSystem}.
Context {M : MaxMindDb} {T : Rustls} {L : Type}.
Context {W : Type} {RW : Reloadable (L := L) W} {RL : ReloadableLaws W} {MS : MakesServices W}.
Context {B : Broadcast} {BL : BroadcastLaws B}.
Variable hash_ip : IpAddr -> Z.
Variable hash_session : str -> str -> Z.

(** ** State *)

(** A service that was made, with what it was made from and its requests. *)
Record Generation : Type := mkGeneration {
  g_block : HttpBlock;
  g_store : bool;
  g_tls : bool;
  g_timeouts : TimeoutSettings;
  g_traffic : Traffic;
}.
Definition g_service (g : Generation) : HandlerService := service (g_block g) (g_store g) (g_tls g) (g_timeouts g).
Definition with_traffic (g : Generation) (t : Traffic) : Generation :=
  mkGeneration (g_block g) (g_store g) (g_tls g) (g_timeouts g) t.

(** [HandlerService::new]: nothing in flight, no counter moved, nothing cached. *)
Definition newborn (block : HttpBlock) (store is_tls : bool) (timeouts : TimeoutSettings) : Generation :=
  mkGeneration block store is_tls timeouts (mkTraffic (snd (HandlerService_new block store is_tls timeouts)) []).

(** [w_made]: the services in the order they were made.  [w_current]: the one each
    loop hands to the connections it accepts.  [w_conns]: the one each live connection
    was handed, in the order of [y_conns]. *)
Record World : Type := mkWorld {
  w_sys : Sys (W := W);
  w_made : list Generation;
  w_current : list (option nat);
  w_conns : list nat;
}.

(** The listener a loop holds. *)
Definition held (p : Phase (W := W)) : option W :=
  match p with
  | Selecting w | Reading w | Installing w _ | BackingOff w => Some w
  | Starting _ | Ended => None
  end.

(** The moves of a loop that run [HandlerService::new]. *)
Definition makes (p p' : Phase (W := W)) : bool :=
  match p, p' with
  | Starting _, Selecting _ => true
  | Installing w c, Selecting _ => bool_decide (is_Some (cfg_http c !! rl_idx w))
  | _, _ => false
  end.

(** What [HandlerService::new] made for the listener [w]. *)
Definition made_for (gen : Generation) (w : W) : Prop :=
  exists block store is_tls timeouts, gen = newborn block store is_tls timeouts /\ rl_service w = g_service gen.

(** ** Steps *)

Inductive wstep : World -> World -> Prop :=
  (* A loop starts or installs a configuration, and makes a service. *)
  | w_make y y' i l l' w gen gs cur cs :
      sstep Internal y y' -> y_loops y !! i = Some l -> y_loops y' !! i = Some l' ->
      makes (lp_phase l) (lp_phase l') = true -> held (lp_phase l') = Some w -> made_for gen w ->
      wstep (mkWorld y gs cur cs) (mkWorld y' (gs ++ [gen]) (<[i := Some (length gs)]> cur) cs)
  (* A connection is let in with the service of its loop. *)
  | w_let_in y i l w g gs cur cs :
      y_loops y !! i = Some l -> lp_phase l = Selecting w -> recv (lp_shutdown l) = None ->
      recv (lp_reload l) = None -> (MAX_CONNECTIONS <=? fst (fetch_add (y_active y))) = false ->
      cur !! i = Some (Some g) ->
      wstep (mkWorld y gs cur cs)
        (mkWorld (set_conns (w :: y_conns y) (set_active (snd (fetch_add (y_active y))) y)) gs cur (g :: cs))
  (* A connection ends. *)
  | w_close c1 w c2 y gs cur d1 g d2 :
      y_conns y = c1 ++ w :: c2 -> length c1 = length d1 ->
      wstep (mkWorld y gs cur (d1 ++ g :: d2))
        (mkWorld (set_conns (c1 ++ c2) (set_active (ConnectionGuard_drop (y_active y)) y)) gs cur (d1 ++ d2))
  (* Anything else the server does. *)
  | w_other a y y' gs cur cs :
      sstep a y y' -> y_conns y' = y_conns y ->
      (forall i l l', y_loops y !! i = Some l -> y_loops y' !! i = Some l' -> makes (lp_phase l) (lp_phase l') = false) ->
      wstep (mkWorld y gs cur cs) (mkWorld y' gs cur cs)
  (* A step of the requests of a service; one only arrives over a connection. *)
  | w_traffic y gs cur cs n gen t :
      gs !! n = Some gen ->
      tstep (g_block gen) (g_store gen) (g_tls gen) (g_timeouts gen) hash_ip hash_session (g_traffic gen) t ->
      (length (tr_flights t) <= length (tr_flights (g_traffic gen)))%nat \/ n ∈ cs ->
      wstep (mkWorld y gs cur cs) (mkWorld y (<[n := with_traffic gen t]> gs) cur cs).

Definition world_boot (cfg : Config) (tr : list RunEvent) : World :=
  let y : Sys (W := W) := boot cfg tr in mkWorld y [] (map (fun _ => None) (y_loops y)) [].

(** ** Invariant *)

(** The n-th service made is that of [w]. *)
Definition points_at (gs : list Generation) (n : nat) (w : W) : Prop :=
  exists gen, gs !! n = Some gen /\ g_service gen = rl_service w.
Definition loop_points (gs : list Generation) (l : Loop (W := W)) (c : option nat) : Prop :=
  forall w, held (lp_phase l) = Some w -> exists n, c = Some n /\ points_at gs n w.
Definition gen_ok (gen : Generation) : Prop :=
  traffic_ok (g_block gen) (g_store gen) (g_tls gen) (g_timeouts gen) (g_traffic gen)
  /\ Forall (in_block (g_block gen)) (tr_flights (g_traffic gen)).

Record world_ok (x : World) : Prop := mkWorldOk {
  wo_loops : Forall2 (loop_points (w_made x)) (y_loops (w_sys x)) (w_current x);
  wo_conns : Forall2 (points_at (w_made x)) (w_conns x) (y_conns (w_sys x));
  wo_made : Forall gen_ok (w_made x);
}.

Lemma points_grow gs gen n w : points_at gs n w -> points_at (gs ++ [gen]) n w.
Proof. intros (g & Hg & Hs). exists g. split; [by apply lookup_app_l_Some|done]. Qed.

Lemma points_new gs gen w : made_for gen w -> points_at (gs ++ [gen]) (length gs) w.
Proof. intros (? & ? & ? & ? & _ & Hs). exists gen. split; [apply list_lookup_middle; done|by rewrite Hs]. Qed.

Lemma points_traffic gs n gen t m w :
  gs !! n = Some gen -> points_at gs m w -> points_at (<[n := with_traffic gen t]> gs) m w.
Proof.
  intros Hn (g & Hg & Hs). destruct (decide (m = n)) as [->|Hne].
  - rewrite Hn in Hg. injection Hg as <-. exists (with_traffic gen t).
    split; [apply list_lookup_insert_eq; by apply lookup_lt_Some in Hn|done].
  - exists g. by rewrite list_lookup_insert_ne.
Qed.

Lemma loop_points_mono gs gs' l c :
  (forall n w, points_at gs n w -> points_at gs' n w) -> loop_points gs l c -> loop_points gs' l c.
Proof. intros Hg Hl w Hw. destruct (Hl w Hw) as (n & -> & Hn). exists n. auto. Qed.

Lemma newborn_ok block store is_tls timeouts : gen_ok (newborn block store is_tls timeouts).
Proof. split; [apply idle_ok|constructor]. Qed.

(** ** How a step of the server moves the loops *)

(** A phase that keeps to the service of the one before. *)
Definition keeps (p p' : Phase (W := W)) : Prop :=
  forall w', held p' = Some w' -> exists w, held p = Some w /\ rl_service w = rl_service w'.

Inductive loops_move (a : Label) (y y' : Sys (W := W)) : Prop :=
  | lm_still :
      map lp_phase (y_loops y') = map lp_phase (y_loops y) -> loops_move a y y'
  | lm_make i l l' w gen :
      a = Internal -> y_loops y !! i = Some l -> y_loops y' = <[i := l']> (y_loops y) ->
      makes (lp_phase l) (lp_phase l') = true -> held (lp_phase l') = Some w -> made_for gen w -> loops_move a y y'
  | lm_keep i l l' :
      y_loops y !! i = Some l -> y_loops y' = <[i := l']> (y_loops y) ->
      makes (lp_phase l) (lp_phase l') = false -> keeps (lp_phase l) (lp_phase l') -> loops_move a y y'.

Lemma keeps_held p p' : held p' = held p -> keeps p p'.
Proof. intros E w' Hw. exists w'. by rewrite <- E. Qed.
Lemma keeps_none p p' : held p' = None -> keeps p p'.
Proof. intros E w' Hw. congruence. Qed.

Lemma start_moves fs ep sd w : rl_start (W := W) fs ep sd = Some w -> exists gen, made_for gen w.
Proof.
  intros (store & tls & ts & E)%rl_start_service. exists (newborn (sd_block sd) store tls ts). by exists (sd_block sd), store, tls, ts.
Qed.

Lemma step_moves a y y' : sstep a y y' -> loops_move a y y'.
Proof.
  intros Hs. destruct Hs as [| |y Hw|y| | |? i o issued y|fs ep i l sd y Hi Hp|i l w rx y Hi Hp _|i l w rx y Hi Hp _ Hr
    |i l w y Hi Hp|fs i l w c y Hi Hp| |i l w y Hi Hp|i l w y Hi Hp|i l w y Hi Hp| | | |];
    try (apply lm_still; cbn; by rewrite ?map_map).
  - apply lm_still. destruct (acme_renewal_tick _ _); cbn; by rewrite ?map_map.
  - destruct (rl_start fs ep sd) as [w|] eqn:E.
    + destruct (start_moves _ _ _ _ E) as [gen Hg].
      eapply (lm_make _ _ _ i l _ w gen); [done|exact Hi|reflexivity|by rewrite Hp|done|done].
    + eapply (lm_keep _ _ _ i l); [exact Hi|reflexivity|by rewrite Hp|by apply keeps_none].
  - eapply (lm_keep _ _ _ i l); [exact Hi|reflexivity|by rewrite Hp|by apply keeps_none].
  - eapply (lm_keep _ _ _ i l); [exact Hi|reflexivity|by rewrite Hp|by apply keeps_held; rewrite Hp].
  - eapply (lm_keep _ _ _ i l); [exact Hi|reflexivity|by rewrite Hp|by apply keeps_held; rewrite Hp].
  - destruct (rl_reload fs c w) as [w'|] eqn:E.
    + pose proof (rl_reload_service _ _ _ _ E) as Hw. destruct (cfg_http c !! rl_idx w) as [b|] eqn:Eb.
      * destruct Hw as (store & tls & ts & Hw).
        eapply (lm_make _ _ _ i l _ w' (newborn b store tls ts)); [done|exact Hi|reflexivity| |done|by exists b, store, tls, ts].
        rewrite Hp. cbn. by rewrite Eb.
      * eapply (lm_keep _ _ _ i l); [exact Hi|reflexivity|rewrite Hp; cbn; by rewrite Eb|].
        rewrite Hp. intros w2 [= <-]. by exists w.
    + eapply (lm_keep _ _ _ i l); [exact Hi|reflexivity|by rewrite Hp|by apply keeps_none].
  - eapply (lm_keep _ _ _ i l); [exact Hi|reflexivity|by rewrite Hp|by apply keeps_held; rewrite Hp].
  - eapply (lm_keep _ _ _ i l); [exact Hi|reflexivity|by rewrite Hp|by apply keeps_held; rewrite Hp].
Qed.

(** A loop that makes no service keeps the one it has. *)
Lemma loops_kept gs y y' cur a :
  sstep a y y' ->
  (forall i l l', y_loops y !! i = Some l -> y_loops y' !! i = Some l' -> makes (lp_phase l) (lp_phase l') = false) ->
  Forall2 (loop_points gs) (y_loops y) cur -> Forall2 (loop_points gs) (y_loops y') cur.
Proof.
  intros Hs Hn Hl. destruct (step_moves _ _ _ Hs) as [E|i l l' w gen _ Hi E Hm _ _|i l l' Hi E _ Hk].
  - assert (Forall2 (fun p c => forall w, held p = Some w -> exists n, c = Some n /\ points_at gs n w)
              (map lp_phase (y_loops y)) cur) as Hp by by apply Forall2_fmap_l.
    rewrite <- E in Hp. by apply Forall2_fmap_l in Hp.
  - rewrite (Hn i l l') in Hm; [done|done|]. rewrite E. apply list_lookup_insert_eq. by apply lookup_lt_Some in Hi.
  - destruct (Forall2_lookup_l _ _ _ _ _ Hl Hi) as (c & Hc & Hp). rewrite E, <- (list_insert_id cur i c Hc).
    apply Forall2_insert; [done|]. intros w' Hw. destruct (Hk w' Hw) as (w & Hw0 & Es).
    destruct (Hp w Hw0) as (n & -> & g & Hg & Hgs). exists n. split; [done|]. exists g. by rewrite <- Es.
Qed.

(** One that makes a service points at it. *)
Lemma loops_made gs y y' cur i l l' w gen :
  sstep Internal y y' -> y_loops y !! i = Some l -> y_loops y' !! i = Some l' ->
  makes (lp_phase l) (lp_phase l') = true -> held (lp_phase l') = Some w -> made_for gen w ->
  Forall2 (loop_points gs) (y_loops y) cur ->
  Forall2 (loop_points (gs ++ [gen])) (y_loops y') (<[i := Some (length gs)]> cur).
Proof.
  intros Hs Hi Hi' Hm Hw Hg Hl.
  assert (y_loops y' = <[i := l']> (y_loops y)) as ->.
  { destruct (step_moves _ _ _ Hs) as [E|j m m' w0 g0 _ Hj E _ _ _|j m m' Hj E Hf _].
    - assert (lp_phase l' = lp_phase l) as Ep.
      { apply (f_equal (fun ps => ps !! i)) in E. rewrite !list_lookup_fmap, Hi, Hi' in E. by injection E. }
      rewrite Ep in Hm. by destruct (lp_phase l).
    - rewrite E in Hi' |- *. destruct (decide (i = j)) as [->|Hne].
      + rewrite list_lookup_insert_eq in Hi' by (by apply lookup_lt_Some in Hj). by injection Hi' as ->.
      + rewrite list_lookup_insert_ne, Hi in Hi' by done. injection Hi' as <-. by destruct (lp_phase l).
    - rewrite E in Hi' |- *. destruct (decide (i = j)) as [->|Hne].
      + rewrite list_lookup_insert_eq in Hi' by (by apply lookup_lt_Some in Hj). by injection Hi' as ->.
      + rewrite list_lookup_insert_ne, Hi in Hi' by done. injection Hi' as <-. by destruct (lp_phase l). }
  apply Forall2_insert.
  - eapply Forall2_impl; [exact Hl|]. intros m c. apply loop_points_mono. intros n w'. apply points_grow.
  - intros w' Hw'. rewrite Hw in Hw'. injection Hw' as <-. exists (length gs). split; [done|by apply points_new].
Qed.

(** Only accepting and closing touch the connections. *)
Lemma internal_conns y y' : sstep Internal y y' -> y_conns y' = y_conns y.
Proof. intros Hs. by inversion Hs. Qed.

Lemma wstep_ok x x' : world_ok x -> wstep x x' -> world_ok x'.
Proof.
  intros [Hl Hc Hm] Hs. destruct Hs as [y y' i l l' w gen gs cur cs Hs Hi Hi' Hmk Hw Hg|y i l w g gs cur cs Hi Hp Hsd Hr Ho Hcur
    |c1 w c2 y gs cur d1 g d2 Hcs Hlen|a y y' gs cur cs Hs Hcs Hn|y gs cur cs n gen t Hn Ht Ha];
    cbn [w_sys w_made w_current w_conns] in *; split; cbn [w_sys w_made w_current w_conns].
  - by eapply loops_made.
  - rewrite (internal_conns _ _ Hs). eapply Forall2_impl; [exact Hc|]. intros n w'. apply points_grow.
  - apply Forall_app. split; [done|]. constructor; [|done]. destruct Hg as (b & st & tls & ts & -> & _). apply newborn_ok.
  - done.
  - constructor; [|done]. destruct (Forall2_lookup_l _ _ _ _ _ Hl Hi) as (c & Hc' & Hpt). rewrite Hcur in Hc'. injection Hc' as <-.
    unfold loop_points in Hpt. rewrite Hp in Hpt. destruct (Hpt w eq_refl) as (n & [= <-] & Hn). done.
  - done.
  - done.
  - cbn. rewrite Hcs in Hc. apply Forall2_app_inv_r in Hc as (e1 & e2 & H1 & H2 & E).
    pose proof (Forall2_length _ _ _ H1) as Hle. apply app_inj_1 in E as [<- <-]; [|lia].
    apply Forall2_cons_inv_r in H2 as (? & ? & _ & H2 & E). injection E as -> ->. by apply Forall2_app.
  - done.
  - by eapply loops_kept.
  - by rewrite Hcs.
  - done.
  - eapply Forall2_impl; [exact Hl|]. intros m c. apply loop_points_mono. intros k w. by apply points_traffic.
  - eapply Forall2_impl; [exact Hc|]. intros k w. by apply points_traffic.
  - apply Forall_insert; [done|]. destruct (Forall_lookup_1 _ _ _ _ Hm Hn) as [Hg Hb].
    split; [by eapply tstep_ok|by eapply tstep_in_block].
Qed.

Lemma boot_ok cfg tr : world_ok (world_boot cfg tr).
Proof.
  split; [|constructor|constructor]. apply Forall2_fmap_r, Forall_Forall2_diag. apply Forall_fmap, Forall_true.
  intros sd w Hw. discriminate Hw.
Qed.

(** *** The server by itself *)

Lemma wstep_server x x' : wstep x x' -> rtc moves (w_sys x) (w_sys x').
Proof.
  intros Hs. destruct Hs; cbn [w_sys]; try apply rtc_refl; apply rtc_once.
  - by exists Internal.
  - exists LetIn. by eapply arm_accept_serve.
  - exists Close. by eapply conn_end.
  - by exists a.
Qed.

(** What the server can do by itself it can do with the requests. *)
Lemma server_free x a y' : world_ok x -> sstep a (w_sys x) y' -> exists x', wstep x x' /\ w_sys x' = y'.
Proof.
  intros [Hl Hc _] Hs. destruct x as [y gs cur cs]. cbn [w_sys w_made w_current w_conns] in *.
  assert (y_conns y' = y_conns y \/ y_conns y' <> y_conns y /\ (a = LetIn \/ a = Close)) as [Hcs|[Hne Ha]].
  { destruct Hs as [| | | | | |? i o issued y| | | | | | | | | | |c1 w c2 y Hcs| |]; try (by left).
    - left. by destruct (acme_renewal_tick _ _).
    - right. cbn. split; [|auto]. intros E. apply (f_equal length) in E. cbn in E. lia.
    - right. cbn. split; [|auto]. rewrite Hcs. intros E. apply (f_equal length) in E. rewrite !length_app in E. cbn in E. lia. }
  - destruct (step_moves _ _ _ Hs) as [E|i l l' w gen -> Hi E Hm Hw Hg|i l l' Hi E Hm _].
    + eexists. split; [eapply w_other; [exact Hs|done|]|done]. intros i l l' Hi Hi'.
      apply (f_equal (fun ps => ps !! i)) in E. rewrite !list_lookup_fmap, Hi, Hi' in E. injection E as ->. by destruct (lp_phase l).
    + eexists. split; [eapply (w_make y y' i l l' w gen); try done|done].
      rewrite E. apply list_lookup_insert_eq. by apply lookup_lt_Some in Hi.
    + eexists. split; [eapply w_other; [exact Hs|done|]|done]. intros j m m' Hj Hj'. rewrite E in Hj'.
      destruct (decide (j = i)) as [->|Hne].
      * rewrite list_lookup_insert_eq in Hj' by (by apply lookup_lt_Some in Hi). congruence.
      * rewrite list_lookup_insert_ne, Hj in Hj' by done. injection Hj' as <-. by destruct (lp_phase m).
  - destruct Hs as [| | | | | | | | | | | | |i l w y Hi Hp Hsd Hr Ho| | | |c1 w c2 y Hcs| |];
      try (by destruct Ha); try (by destruct Hne).
    + destruct (Forall2_lookup_l _ _ _ _ _ Hl Hi) as (c & Hcur & Hpt). unfold loop_points in Hpt. rewrite Hp in Hpt.
      destruct (Hpt w eq_refl) as (n & -> & _). eexists. split; [by eapply w_let_in|done].
    + rewrite Hcs in Hc. apply Forall2_app_inv_r in Hc as (d1 & e2 & H1 & H2 & ->).
      apply Forall2_cons_inv_r in H2 as (g & d2 & _ & _ & ->). apply Forall2_length in H1.
      eexists. split; [by eapply w_close|done].
Qed.

Definition world_reachable (cfg : Config) (tr : list RunEvent) : World -> Prop := rtc wstep (world_boot cfg tr).

Lemma world_inv cfg tr x : world_reachable cfg tr x -> world_ok x /\ reachable cfg tr (w_sys x).
Proof.
  intros Hr. assert (world_ok (world_boot cfg tr) /\ reachable cfg tr (w_sys (world_boot cfg tr))) as H0.
  { split; [apply boot_ok|apply rtc_refl]. }
  revert H0. unfold world_reachable in Hr. induction Hr as [|x0 x1 x2 Hs _ IH]; [done|]. intros [Hok Hre]. apply IH.
  split; [by eapply wstep_ok|]. eapply rtc_trans; [exact Hre|by apply wstep_server].
Qed.

(** C2. Requests across reloads.  However signals, reloads, connections and requests
    interleave, the server itself runs as it would without requests, and they never
    stop it from a step; each connection is served, from accept to close, by the one
    service its loop had when it was accepted, made from a block of a validated
    configuration; in every service ever made, replaced or not, a request
    whose servers' response bodies do not stall ends after a bounded number of its own
    steps; one that ended was sent to the permitted servers of a pool of that service's
    own block one after the other as long as they failed to connect, and has the
    outcome of the first that did not, or was given up with 403 or 502; and each
    in-flight gauge is the number of the service's requests awaiting that server. *)
Theorem services_across_reloads cfg tr x :
  was_validated cfg -> Z.of_nat (length tr) < 2 ^ 63 -> world_reachable cfg tr x ->
  reachable cfg tr (w_sys x)
  /\ (forall a y', sstep a (w_sys x) y' -> exists x', wstep x x' /\ w_sys x' = y')
  /\ Forall2 (fun n w => exists gen, w_made x !! n = Some gen /\ g_service gen = rl_service w /\ valid_block (g_block gen))
       (w_conns x) (y_conns (w_sys x))
  /\ (forall gen, gen ∈ w_made x ->
       (forall f, f ∈ tr_flights (g_traffic gen) ->
          ended_well (g_block gen) (g_store gen) (g_tls gen) (g_timeouts gen) f
          /\ forall sts, no_stalls (jb_client (fl_job f)) -> (2 * largest_pool (g_block gen) + 3 <= length sts)%nat ->
               exists r, fl_stage (among (g_block gen) (g_store gen) (g_tls gen) (g_timeouts gen) hash_ip hash_session sts f)
                         = Done r)
       /\ (forall name p i v, Z.of_nat (length (tr_flights (g_traffic gen))) < 2 ^ 64 ->
            pools (st_balancer (tr_state (g_traffic gen))) !! name = Some p -> inflight p !! i = Some v ->
            v = Z.of_nat (length (filter (awaiting name i) (tr_flights (g_traffic gen)))))).
Proof.
  intros Hv Hn [Hok Hr]%world_inv. split; [done|]. split; [intros a y' Hs; by eapply server_free|]. split.
  - destruct (system_inv _ _ _ Hv Hn Hr) as [_ _ _ (_ & _ & Hval)].
    apply Forall2_same_length_lookup. split; [apply (Forall2_length _ _ _ (wo_conns _ Hok))|].
    intros k n w Hk Hw. destruct (Forall2_lookup_lr _ _ _ _ _ _ (wo_conns _ Hok) Hk Hw) as (gen & Hg & Hs).
    exists gen. split; [done|]. split; [done|]. pose proof (Forall_lookup_1 _ _ _ _ Hval Hw) as Hb.
    assert (g_block gen = rl_block w) as -> by (unfold rl_block; by rewrite <- Hs). done.
  - intros gen Hin. destruct (proj1 (Forall_forall _ _) (wo_made _ Hok) gen Hin) as [Hg Hb]. split.
    + intros f Hf. split; [by eapply ok_ended|]. intros sts. apply in_block_ends. by apply (proj1 (Forall_forall _ _) Hb).
    + intros name p i v. by eapply ok_gauge.
Qed.

(** ** Services nobody points at *)

(** A service that no loop has and no connection holds. *)
Definition retired (n : nat) (x : World) : Prop :=
  (n < length (w_made x))%nat /\ (Some n ∉ w_current x) /\ n ∉ w_conns x.
Definition load_of (n : nat) (x : World) : nat :=
  match w_made x !! n with Some gen => length (tr_flights (g_traffic gen)) | None => 0 end.

Lemma elem_of_insert_list {A} (l : list A) i v u : u ∈ <[i := v]> l -> u = v \/ u ∈ l.
Proof.
  intros (j & Hj)%list_elem_of_lookup. apply list_lookup_insert_Some in Hj as [(_ & -> & _)|[_ Hj]]; [by left|].
  right. by apply list_elem_of_lookup_2 in Hj.
Qed.


Lemma requests_run y gs cur cs n gen t :
  gs !! n = Some gen -> n ∈ cs ->
  rtc (tstep (g_block gen) (g_store gen) (g_tls gen) (g_timeouts gen) hash_ip hash_session) (g_traffic gen) t ->
  rtc wstep (mkWorld y gs cur cs) (mkWorld y (<[n := with_traffic gen t]> gs) cur cs).
Proof.
  intros Hn Hc Hr. destruct gen as [b st tls ts t0]. cbn [g_block g_store g_tls g_timeouts g_traffic with_traffic] in *.
  revert gs Hn. induction Hr as [t0|t0 t1 t2 Ht _ IH]; intros gs Hn; [by rewrite list_insert_id|].
  eapply rtc_l; [eapply (w_traffic y gs cur cs n); [exact Hn|exact Ht|by right]|].
  pose proof (IH (<[n := mkGeneration b st tls ts t1]> gs)) as Hx. rewrite list_insert_insert_eq in Hx. apply Hx.
  apply list_lookup_insert_eq. by apply lookup_lt_Some in Hn.
Qed.
End serving.

(** ** A listener that is reloaded under a connection *)

#[local] Existing Instance id_unicode.
#[local] Existing Instance assoc_http.
#[local] Existing Instance assoc_laws.
#[local] Existing Instance cidr_nets.
#[local] Existing Instance literal_regex.
#[local] Existing Instance stored_gz.
#[local] Existing Instance one_file.
#[local] Existing Instance one_country.
#[local] Existing Instance text_tls.
#[local] Existing Instance ring.
#[local] Existing Instance ring_laws.

(** A block that proxies everything to one server; the reload changes the server. *)
Definition web_location (addr : str) : Location :=
  mkLocation "/" "prefix"
    (Config.mkHandler "proxy" None (Some (mkUpstream "u" [mkServer addr 1] "least-conn")) None None None).
Definition web_block (addr : str) : HttpBlock :=
  mkHttp [mkListen 80 "http" None] [] None None true false [web_location addr] [] None [] "/log" None None true true None
    None "any" None true false None None None None None None None [] None None None.
Definition web_config (addr : str) : Config :=
  mkConfig (mkGlobal default_worker_processes default_error_log (Some ("x.pid" : str)) None None) [web_block addr] [] None.
Definition old_server : str := "93.184.216.34:80".
Definition new_server : str := "93.184.216.35:80".
Definition web_env : Env :=
  mkEnv (fun _ => true) (fun _ => None) false (fun _ => Some ("x" : str)) (fun _ => None)
    (fun _ => Some (web_config new_server)).

Abbreviation TextListener := (Listener (L := str)).
Definition web_listener (addr : str) : TextListener :=
  mkListener 0 false None (web_block addr) TimeoutSettings_default ("/log" : str)
    (HandlerService_new (web_block addr) false false TimeoutSettings_default) None.
Definition web_service (addr : str) : Generation := newborn (web_block addr) false false TimeoutSettings_default.

(** The server with its one loop in the given phase and two connections at most. *)
Definition web_sys (cfg : Config) (sig : Signals) (p : Phase (W := TextListener)) (unread : nat) (active : Z)
    (conns : list TextListener) : Sys (W := TextListener) :=
  mkSys cfg sig [mkLoop (B := ring) p 0%nat unread] [] active conns false [].
Definition web_trace : list RunEvent := [EvServe (HttpListener false 0) (any_port 80)].

(** One request of the first connection, and where it awaits the server. *)
Definition web_job : Job :=
  mkJob (loc_handler (web_location old_server)) (mkRequest (get "/a") []) client_ip (fun _ _ => Elapsed).
Definition web_flight (k : nat) : State * Flight :=
  run_for (service (web_block old_server) false false TimeoutSettings_default) no_hash_ip no_hash k
    (tr_state (g_traffic (web_service old_server))) (mkFlight web_job [] Arrived).
Definition web_busy : Generation :=
  with_traffic (web_service old_server) (mkTraffic (fst (web_flight 3)) [snd (web_flight 3)]).
Abbreviation webstep := (wstep (W := TextListener) no_hash_ip no_hash).
Abbreviation web_reachable := (world_reachable (W := TextListener) no_hash_ip no_hash (web_config old_server) web_trace).

Lemma web_config_valid : was_validated (web_config old_server) /\ was_validated (web_config new_server).
Proof. split; exists web_env; vm_compute; reflexivity. Qed.

(** Started; one connection is in. *)
Definition web_started : World (W := TextListener) :=
  mkWorld (web_sys (web_config old_server) Waiting (Selecting (web_listener old_server)) 0 1 [web_listener old_server])
    [web_service old_server] [Some 0%nat] [0%nat].

Lemma reach_started : web_reachable web_started.
Proof.
  eapply rtc_l; [|apply rtc_once].
  - eapply (w_make _ _ _ _ 0%nat _ _ (web_listener old_server) (web_service old_server));
      [exact (loop_start (mkFiles (fun p => Some p) (fun _ => Some ("/log" : str))) true 0
         (mkLoop (B := ring) (Starting (mkSeed false 0 false (web_block old_server) None TimeoutSettings_default)) 0%nat 0%nat)
         _ (boot (web_config old_server) web_trace) eq_refl eq_refl)|reflexivity..|].
    by exists (web_block old_server), false, false, TimeoutSettings_default.
  - exact (w_let_in _ _ (web_sys (web_config old_server) Waiting (Selecting (web_listener old_server)) 0 0 [])
      0 _ _ 0 [web_service old_server] [Some 0%nat] [] eq_refl eq_refl eq_refl eq_refl eq_refl eq_refl).
Qed.

(** The connection's request awaits its server. *)
Definition web_waiting : World (W := TextListener) :=
  mkWorld (w_sys web_started) [web_busy] [Some 0%nat] [0%nat].

Lemma reach_waiting : web_reachable web_waiting.
Proof.
  eapply rtc_trans; [exact reach_started|].
  apply (requests_run no_hash_ip no_hash (w_sys web_started) [web_service old_server] [Some 0%nat] [0%nat] 0
    (web_service old_server) (g_traffic web_busy)); [done|by left|].
  eapply rtc_l; [|apply run_steps]. by eapply (t_arrive _ _ _ _ _ _ _ _ web_job (web_location old_server)); [left|].
Qed.

(** The configuration is replaced, the loop installs it, and a second connection is
    in under the new one. *)
Definition web_reloaded : World (W := TextListener) :=
  mkWorld (web_sys (web_config new_server) Waiting (Selecting (web_listener new_server)) 0 2
             [web_listener new_server; web_listener old_server])
    [web_busy; web_service new_server] [Some 1%nat] [1%nat; 0%nat].

(** A step of the server that makes no service. *)
Lemma web_other a (y y' : Sys (W := TextListener)) gs cur cs p p' :
  map lp_phase (y_loops y) = [p] -> map lp_phase (y_loops y') = [p'] -> makes p p' = false ->
  sstep a y y' -> y_conns y' = y_conns y ->
  webstep (mkWorld y gs cur cs) (mkWorld y' gs cur cs).
Proof.
  intros E E' Hm Hs Hc. eapply w_other; [exact Hs|exact Hc|]. intros i l l' Hi Hi'.
  apply (f_equal (fun ps => ps !! i)) in E, E'. rewrite list_lookup_fmap, Hi in E. rewrite list_lookup_fmap, Hi' in E'.
  destruct i; [|done]. injection E as ->. by injection E' as ->.
Qed.

Lemma web_reload : rtc webstep web_waiting web_reloaded.
Proof.
  set (old := web_listener old_server). set (c := web_config new_server).
  eapply rtc_l.
  { eapply web_other; [reflexivity| | |exact (sighup_swap web_env c (w_sys web_started) eq_refl eq_refl)|]; reflexivity. }
  eapply rtc_l.
  { eapply web_other; [reflexivity| | |exact (sighup_send (web_sys c Swapped (Selecting old) 0 1 [old]) eq_refl)|]; reflexivity. }
  eapply rtc_l.
  { eapply web_other; [reflexivity| | |exact (arm_reload 0 (mkLoop (B := ring) (Selecting old) 0%nat 1%nat) old 0%nat
      (web_sys c Waiting (Selecting old) 1 1 [old]) eq_refl eq_refl eq_refl eq_refl)|]; reflexivity. }
  eapply rtc_l.
  { eapply web_other; [reflexivity| | |exact (reload_read 0 (mkLoop (B := ring) (Reading old) 0%nat 0%nat) old
      (web_sys c Waiting (Reading old) 0 1 [old]) eq_refl eq_refl)|]; reflexivity. }
  eapply rtc_l; [|apply rtc_once].
  - eapply (w_make _ _ _ _ 0%nat _ _ (web_listener new_server) (web_service new_server));
      [exact (reload_install (mkFiles (fun p => Some p) (fun _ => Some ("/log" : str))) 0
         (mkLoop (B := ring) (Installing old c) 0%nat 0%nat) old c (web_sys c Waiting (Installing old c) 0 1 [old]) eq_refl eq_refl)
      |reflexivity..|].
    by exists (web_block new_server), false, false, TimeoutSettings_default.
  - exact (w_let_in _ _ (web_sys c Waiting (Selecting (web_listener new_server)) 0 1 [old])
      0 _ _ 1 [web_busy; web_service new_server] [Some 1%nat] [0%nat] eq_refl eq_refl eq_refl eq_refl eq_refl eq_refl).
Qed.

Lemma reach_reloaded : web_reachable web_reloaded.
Proof. eapply rtc_trans; [exact reach_waiting|exact web_reload]. Qed.

(** In the replaced service the request is still counted, and its connection is still
    served under the old block. *)
Lemma services_across_reloads_witness :
  1 = Z.of_nat (length (filter (awaiting "u" 0) (tr_flights (g_traffic web_busy))))
  /\ exists gen, w_made web_reloaded !! 0%nat = Some gen /\ g_service gen = rl_service (web_listener old_server)
       /\ valid_block (g_block gen).
Proof.
  pose proof (services_across_reloads no_hash_ip no_hash (web_config old_server) web_trace web_reloaded
    (proj1 web_config_valid) eq_refl reach_reloaded) as (_ & _ & Hc & Hg). split.
  - refine (proj2 (Hg web_busy (list_elem_of_here _ _)) "u" (mkPool 0 [1]) 0%nat 1 _ _ _); [cbn; lia|vm_compute; reflexivity..].
  - exact (Forall2_lookup_lr _ _ _ 1 _ _ Hc eq_refl eq_refl).
Defined.

(** A connection that stays open goes on under the old configuration: a request that
    arrives over it after the reload has settled is answered by a service whose block
    the configuration no longer has. *)
Theorem old_connection_gap :
  exists (x x' : World (W := TextListener)) n gen,
    was_validated (web_config old_server) /\ web_reachable x
    /\ settled (w_sys x) /\ y_signals (w_sys x) = Waiting
    /\ w_made x !! n = Some gen /\ webstep x x' /\ load_of n x' = S (load_of n x)
    /\ (forall i, cfg_http (y_config (w_sys x)) !! i <> Some (g_block gen)).
Proof.
  set (t := mkTraffic (tr_state (g_traffic web_busy)) (mkFlight web_job [] Arrived :: tr_flights (g_traffic web_busy))).
  exists web_reloaded, (mkWorld (w_sys web_reloaded) [with_traffic web_busy t; web_service new_server] [Some 1%nat] [1%nat; 0%nat]),
    0%nat, web_busy. split_and!; [apply web_config_valid|exact reach_reloaded| |done|done| |done|].
  - split; [|done]. constructor; [|constructor]. split; [done|]. by right.
  - apply (w_traffic _ _ _ [web_busy; web_service new_server] _ _ 0%nat web_busy); [done| |right; by right; left].
    by eapply (t_arrive _ _ _ _ _ _ _ _ web_job (web_location old_server)); [left|].
  - intros [|i] E; [|done]. apply (f_equal (option_map hb_locations)) in E. discriminate E.
Qed.

(** The old connection closes, and then its request is dropped. *)
Definition web_closed : World (W := TextListener) :=
  mkWorld (web_sys (web_config new_server) Waiting (Selecting (web_listener new_server)) 0 1 [web_listener new_server])
    [web_busy; web_service new_server] [Some 1%nat] [1%nat].
Definition web_dropped : Generation :=
  with_traffic web_busy (mkTraffic (release (fst (web_flight 3)) (snd (web_flight 3))) []).

Lemma reach_closed : web_reachable web_closed.
Proof.
  eapply rtc_r; [exact reach_reloaded|].
  exact (w_close _ _ [web_listener new_server] (web_listener old_server) [] (w_sys web_reloaded) _ _ [1%nat] 0%nat []
    eq_refl eq_refl).
Qed.

