(* ===== verification/Conformance.v ===== *)
(** * The program's unit tests

    The test modules of the crate, run on the definitions: each test is a boolean
    that makes its calls and evaluates its assertions, each property-based test a
    statement for all inputs of its generators.  Crates and the file system are
    concrete instances that behave as the tests need; what a test prepares (files, the
    answer of the system resolver, the instants of its calls) is written out.  The
    lemmas show that every one of them passes.  The tests of the crates alone
    (base64 decoding, certificate generation) are left out. *)

From S2P Require Import Prelude.
From S2P Require Import Str.
From S2P Require Import Net.
From S2P Require Import Extern.
From S2P Require Import Instances.
From S2P Require Import UpstreamFilter.
From S2P Require Import Config.
From S2P Require Import Headers.
From S2P Require Import RateLimit.
From S2P Require Import Balance.
From S2P Require Import Rewrite.
From S2P Require Import Resolver.
From S2P Require Import StaticFile.
From S2P Require Import Acme.
From S2P Require Import Server.

(** [assert!] and [assert_eq!]. *)
Definition all_hold (l : list bool) : bool := forallb id l.
Definition assert_eq {A} `{EqDecision A} (x y : A) : bool := bool_decide (x = y).
Definition assert_some {A} (o : option A) : bool := match o with Some _ => true | None => false end.
Definition assert_none {A} (o : option A) : bool := negb (assert_some o).
(** An address literal of a test. *)
Definition ip_of (s : str) : IpAddr := default (V4 (V4Octets 0 0 0 0)) (parse_ip s).

#[local] Existing Instance id_unicode.
#[local] Existing Instance assoc_http.
#[local] Existing Instance cidr_nets.

(** ** security/upstream_filter.rs *)

Definition loopback_rejected_when_no_allowlist : bool := is_err (is_upstream_allowed "127.0.0.1:9081" None).
Definition loopback_allowed_when_in_allowlist : bool :=
  is_ok (is_upstream_allowed "127.0.0.1:9081" (Some (strs ["127.0.0.0/8"]%string))).
Definition loopback_rejected_when_not_in_allowlist : bool :=
  is_err (is_upstream_allowed "127.0.0.1:9081" (Some (strs ["10.0.0.0/8"]%string))).
Definition private_range_rejected_when_no_allowlist : bool := is_err (is_upstream_allowed "192.168.1.10:80" None).
Definition public_ip_allowed : bool := is_ok (is_upstream_allowed "93.184.216.34:80" None).
Definition hostname_allowed : bool := is_ok (is_upstream_allowed "backend.internal:8080" None).
Definition ipv4_mapped_loopback_rejected : bool := all_hold
  [is_err (is_upstream_allowed "[::ffff:127.0.0.1]:80" None); is_err (is_upstream_allowed "::ffff:127.0.0.1" None)].
Definition ipv4_mapped_loopback_allowed_via_v4_allowlist : bool :=
  is_ok (is_upstream_allowed "[::ffff:127.0.0.1]:80" (Some (strs ["127.0.0.0/8"]%string))).
Definition bracketed_v6_loopback_rejected : bool := all_hold
  [is_err (is_upstream_allowed "[::1]:80" None); is_err (is_upstream_allowed "::1" None)].
Definition v6_unique_local_and_link_local_rejected : bool := all_hold
  [is_err (is_upstream_allowed "[fc00::1]:80" None); is_err (is_upstream_allowed "[fd12:3456::1]:80" None);
   is_err (is_upstream_allowed "[fe80::1]:80" None)].
Definition cgnat_and_zero_net_rejected : bool := all_hold
  [is_err (is_upstream_allowed "100.64.0.1:80" None); is_err (is_upstream_allowed "0.0.0.0:80" None)].
Definition test_split_host_port_forms : bool := all_hold
  [assert_eq (split_host_port "1.2.3.4:80") ("1.2.3.4" : str, Some 80);
   assert_eq (split_host_port "1.2.3.4") ("1.2.3.4" : str, None);
   assert_eq (split_host_port "[::1]:80") ("::1" : str, Some 80);
   assert_eq (split_host_port "[::1]") ("::1" : str, None);
   assert_eq (split_host_port "::1") ("::1" : str, None);
   assert_eq (split_host_port "host.example:8080") ("host.example" : str, Some 8080);
   assert_eq (split_host_port "host.example") ("host.example" : str, None)].

Theorem upstream_filter_tests :
  all_hold [loopback_rejected_when_no_allowlist; loopback_allowed_when_in_allowlist;
    loopback_rejected_when_not_in_allowlist; private_range_rejected_when_no_allowlist; public_ip_allowed;
    hostname_allowed; ipv4_mapped_loopback_rejected; ipv4_mapped_loopback_allowed_via_v4_allowlist;
    bracketed_v6_loopback_rejected; v6_unique_local_and_link_local_rejected; cgnat_and_zero_net_rejected;
    test_split_host_port_forms] = true.
Proof. vm_compute. reflexivity. Qed.

(** Refused without an allowlist, admitted with 127.0.0.0/8. *)
Definition gated_by_allowlist (addr : str) : bool := all_hold
  [is_err (is_upstream_allowed addr None); is_ok (is_upstream_allowed addr (Some (strs ["127.0.0.0/8"]%string)))].
Definition loopback_gated_by_allowlist (a b c port : Z) : bool :=
  gated_by_allowlist ("127." ++ show a ++ "." ++ show b ++ "." ++ show c ++ ":" ++ show port).
Definition mapped_loopback_gated_by_allowlist (c port : Z) : bool :=
  gated_by_allowlist ("[::ffff:127.0.0." ++ show c ++ "]:" ++ show port).

Lemma show_loopback a b c : show_ipv4 (V4Octets 127 a b c) = "127." ++ show a ++ "." ++ show b ++ "." ++ show c.
Proof. done. Qed.

Definition loopback_nets : list IpNetwork := [(V4 (V4Octets 127 0 0 0), 8)].

Lemma loopback_net a b c :
  is_u8 a -> is_u8 b -> is_u8 c ->
  parse_networks (Some (strs ["127.0.0.0/8"]%string)) = loopback_nets
  /\ in_cidr (V4 (V4Octets 127 0 0 0)) (V4 (V4Octets 127 a b c)) 8 = true.
Proof.
  unfold is_u8, U8_MAX. intros. split; [vm_compute; reflexivity|]. cbn [in_cidr octets]. unfold bits_of. cbn [foldl].
  apply Z.eqb_eq. change (2 ^ (32 - 8)) with 16777216. change (2 ^ 8) with 256.
  rewrite <- (Z.div_unique _ 16777216 127 (a * 65536 + b * 256 + c)) by lia. reflexivity.
Qed.

Lemma loopback_wf a b c : is_u8 a -> is_u8 b -> is_u8 c -> Forall is_u8 (octets (V4Octets 127 a b c)).
Proof. unfold is_u8, U8_MAX. intros. cbn [octets]. repeat (apply Forall_cons_2; [lia|]). by apply Forall_nil_2. Qed.

(** A loopback address in any of its forms. *)
Lemma gated_addr addr host ip a b c :
  split_host_port addr = host -> parse_ip (fst host) = Some ip -> canonical ip = V4 (V4Octets 127 a b c) ->
  is_u8 a -> is_u8 b -> is_u8 c -> gated_by_allowlist addr = true.
Proof.
  intros Hs Hp Hc Ha Hb Hd. destruct (loopback_net a b c Ha Hb Hd) as [Hn Hin].
  assert (is_restricted ip = true) as Hr by (by rewrite is_restricted_canonical, Hc).
  unfold gated_by_allowlist, is_upstream_allowed. destruct host as [h p]. rewrite Hs. cbn [fst] in Hp. rewrite Hp, Hn.
  assert (ip_allowed ip loopback_nets = true) as ->.
  { apply ip_allowed_spec. right. eexists. split; [by left|]. right. by rewrite Hc. }
  unfold ip_allowed. by rewrite Hr.
Qed.

(** Both property-based tests, on the whole of their generators. *)
Theorem upstream_filter_prop_tests :
  (forall a b c port, is_u8 a -> is_u8 b -> 1 <= c <= 254 -> 1 <= port <= 65535 ->
     loopback_gated_by_allowlist a b c port = true)
  /\ (forall c port, 1 <= c <= 254 -> 1 <= port <= 65535 -> mapped_loopback_gated_by_allowlist c port = true).
Proof.
  split.
  - intros a b c port Ha Hb Hc Hp. assert (is_u8 c) as Hc' by (unfold is_u8, U8_MAX; lia).
    pose proof (loopback_wf a b c Ha Hb Hc') as Hw.
    unfold loopback_gated_by_allowlist.
    replace ("127." ++ show a ++ "." ++ show b ++ "." ++ show c ++ ":" ++ show port)
      with (show_ipv4 (V4Octets 127 a b c) ++ ":" ++ show port) by (rewrite show_loopback; by rewrite <- !app_assoc).
    eapply gated_addr; [apply split_plain_port|apply parse_show_ipv4| |..]; try done.
    + apply show_ipv4_not_elem; [done|u8_lia|done].
    + unfold is_u16, U16_MAX. lia.
  - intros c port Hc Hp. assert (is_u8 c) as Hc' by (unfold is_u8, U8_MAX; lia).
    assert (is_u8 0) as H0 by done. pose proof (loopback_wf 0 0 c H0 H0 Hc') as Hw.
    unfold mapped_loopback_gated_by_allowlist.
    change ("[::ffff:127.0.0." ++ show c ++ "]:" ++ show port)
      with ("[" ++ ("::ffff:" ++ show_ipv4 (V4Octets 127 0 0 c)) ++ "]:" ++ show port).
    eapply (gated_addr _ _ _ 0 0 c); [apply split_bracket_port|apply parse_ip_mapped| |..];
      [..|unfold canonical; by rewrite to_ipv4_to_ipv6_mapped| | |]; try done.
    + rewrite elem_of_app. intros [Hin|Hin]; [vm_compute in Hin; set_solver|]. revert Hin.
      apply show_ipv4_not_elem; [done|u8_lia|done].
    + unfold is_u16, U16_MAX. lia.
Qed.

(** ** security/headers.rs *)

(** A header map with the pairs appended; the instance keeps them in order. *)
Definition hm (pairs : list (string * string)) : list (str * str) :=
  map (fun '(k, v) => (list_ascii_of_string k, list_ascii_of_string v)) pairs.
Definition get (h : list (str * str)) (k : string) : option str := hm_get (HttpLib := assoc_http) h (k : str).

Definition connection_nominated_headers_are_stripped : bool :=
  let h := strip_hop_by_hop (hm [("connection", "close, x-internal-secret"); ("x-internal-secret", "token");
                                 ("x-kept", "yes")]%string) in
  all_hold [assert_none (get h "x-internal-secret"); assert_none (get h "connection");
            assert_eq (get h "x-kept") (Some ("yes" : str))].
Definition nomination_cannot_remove_host_or_content_length : bool :=
  let h := strip_hop_by_hop (hm [("connection", "host, content-length"); ("host", "example.com");
                                 ("content-length", "5")]%string) in
  all_hold [assert_some (get h "host"); assert_some (get h "content-length")].
Definition standard_hop_by_hop_removed : bool :=
  let h := strip_hop_by_hop (hm [("transfer-encoding", "chunked"); ("keep-alive", "timeout=5"); ("upgrade", "h2c");
                                 ("proxy-authorization", "Basic xxx")]%string) in
  (hm_len h =? 0)%nat.
Definition untrusted_client_attribution_rewritten : bool :=
  let h := apply_forwarding_policy (hm [("x-forwarded-for", "1.2.3.4"); ("x-real-ip", "1.2.3.4");
                                        ("x-forwarded-proto", "https")]%string)
             (ip_of "203.0.113.7") "http" None [] in
  all_hold [assert_eq (get h "x-forwarded-for") (Some ("203.0.113.7" : str));
            assert_eq (get h "x-real-ip") (Some ("203.0.113.7" : str));
            assert_eq (get h "x-forwarded-proto") (Some ("http" : str))].
Definition trusted_proxy_xff_appended : bool :=
  let h := apply_forwarding_policy (hm [("x-forwarded-for", "1.2.3.4")]%string) (ip_of "10.0.0.1") "https" None
             (option_list (IpNetwork_parse "10.0.0.0/8")) in
  assert_eq (get h "x-forwarded-for") (Some ("1.2.3.4, 10.0.0.1" : str)).
Definition forwarded_host_set_from_original : bool :=
  let h := apply_forwarding_policy hm_new (ip_of "203.0.113.7") "https" (Some ("example.com" : str)) [] in
  assert_eq (get h "x-forwarded-host") (Some ("example.com" : str)).

Theorem headers_tests :
  all_hold [connection_nominated_headers_are_stripped; nomination_cannot_remove_host_or_content_length;
    standard_hop_by_hop_removed; untrusted_client_attribution_rewritten; trusted_proxy_xff_appended;
    forwarded_host_set_from_original] = true.
Proof. vm_compute. reflexivity. Qed.

(** ** security/rate_limit.rs

    The calls are a nanosecond apart. *)

Definition from_secs (s : Z) : Z := s * 1000000000.
Definition from_millis (ms : Z) : Z := ms * 1000000.

Definition under_limit_not_terminated : bool :=
  forallb negb (snd (record_all (ResetTracker_new 10 (from_secs 3) 0) (map Z.of_nat (seq 1 5)))).
Definition burst_over_limit_terminated : bool :=
  default false (last (snd (record_all (ResetTracker_new 10 (from_secs 3) 0) (map Z.of_nat (seq 1 15))))).
Definition window_expiry_resets_count : bool :=
  forallb negb (snd (record_all (ResetTracker_new 2 (from_millis 10) 0) [1; 2; 3 + from_millis 20])).

Theorem rate_limit_tests :
  all_hold [under_limit_not_terminated; burst_over_limit_terminated; window_expiry_resets_count] = true.
Proof. vm_compute. reflexivity. Qed.

(** ** balance.rs *)

Definition upstream (strategy : string) (weights : list Z) : UpstreamRef :=
  mkUpstream "test"
    (imap (fun i w => mkServer ("10.0.0." ++ show (Z.of_nat i + 1) ++ ":80") w) weights) strategy.
Definition balancer_for (u : UpstreamRef) : Balancer := for_upstream u.

Section balance_tests.
(** Whatever the hash function. *)
Variable hash_ip : IpAddr -> Z.

Definition round_robin_rotates_evenly : bool :=
  let u := upstream "round-robin" [1; 1] in
  assert_eq (picks hash_ip (balancer_for u) u (ip_of "203.0.113.1") 4) [0; 1; 0; 1]%nat.
Definition round_robin_honors_weights : bool :=
  let u := upstream "round-robin" [3; 1] in
  let picked := picks hash_ip (balancer_for u) u (ip_of "203.0.113.1") 8 in
  all_hold [assert_eq (length (filter (fun i => i = 0%nat) picked)) 6%nat;
            assert_eq (length (filter (fun i => i = 1%nat) picked)) 2%nat].
Definition ip_hash_is_sticky_per_client : bool :=
  let u := upstream "ip-hash" [1; 1; 1] in
  match picks hash_ip (balancer_for u) u (ip_of "203.0.113.77") 11 with
  | first :: rest => forallb (fun i => (i =? first)%nat) rest
  | [] => false
  end.
Definition least_conn_prefers_idle_server : bool :=
  let u := upstream "least-conn" [1; 1] in
  let '(b, _busy) := track (balancer_for u) u 0 in
  assert_eq (head (snd (candidates hash_ip b u (ip_of "203.0.113.1")))) (Some 1%nat).
Definition inflight_guard_releases_on_drop : bool :=
  let u := upstream "least-conn" [1; 1] in
  let '(b, busy) := track (balancer_for u) u 0 in
  assert_eq (head (snd (candidates hash_ip (drop_guard b busy) u (ip_of "203.0.113.1")))) (Some 0%nat).
Definition candidates_cover_every_server_once : bool :=
  let u := upstream "round-robin" [1; 2; 3] in
  assert_eq (stable_sort (fun a b => (b <? a)%nat)
               (snd (candidates hash_ip (balancer_for u) u (ip_of "203.0.113.1")))) [0; 1; 2]%nat.

(** A selection that leaves the balancer alone is repeated. *)
Lemma picks_same b u ip order x k :
  candidates hash_ip b u ip = (b, order) -> head order = Some x -> picks hash_ip b u ip k = replicate k x.
Proof. intros Hc Hx. induction k as [|k IH]; [done|]. cbn [picks replicate]. by rewrite Hc, Hx, IH. Qed.

Lemma ip_hash_sticks : ip_hash_is_sticky_per_client = true.
Proof.
  unfold ip_hash_is_sticky_per_client.
  erewrite picks_same; [|reflexivity|unfold ring_order; cbn [length imap seq map head]; reflexivity].
  cbn [replicate]. apply forallb_forall. intros i Hi. apply Nat.eqb_eq.
  repeat (destruct Hi as [<-|Hi]; [reflexivity|]). destruct Hi.
Qed.

Theorem balance_tests :
  all_hold [round_robin_rotates_evenly; round_robin_honors_weights; ip_hash_is_sticky_per_client;
    least_conn_prefers_idle_server; inflight_guard_releases_on_drop; candidates_cover_every_server_once] = true.
Proof. unfold all_hold. cbn [forallb]. rewrite ip_hash_sticks. vm_compute. reflexivity. Qed.
End balance_tests.

(** ** rewrite.rs *)

(** Anchored patterns: a literal, alone or followed by a group that captures the rest;
    [$1] in a replacement stands for the capture. *)
Definition anchored_regex : RegexLib := {|
  Regex := str * bool;
  Regex_new s :=
    match strip_prefix "^" s with
    | None => None
    | Some t =>
        match strip_prefix (rev "(.*)$") (rev t), strip_prefix (rev "$") (rev t) with
        | Some l, _ => Some (rev l, true)
        | None, Some l => Some (rev l, false)
        | None, None => None
        end
    end;
  is_match r s := if snd r then starts_with s (fst r) else bool_decide (s = fst r);
  regex_replace r s rep :=
    match strip_prefix (fst r) s with
    | Some rest => if snd r then replace rep "$1" rest else if bool_decide (rest = []) then rep else s
    | None => s
    end;
|}.

Section rewrite_tests.
#[local] Existing Instance anchored_regex.

Definition rule (pattern replacement flag : string) : RewriteRule := mkRewrite pattern replacement flag.
Definition internal_rewrite : bool :=
  match Rewrite.apply (RewriteEngine_new [rule "^/old/(.*)$" "/new/$1" "break"]) "/old/page" with
  | Some (Internal p) => assert_eq p ("/new/page" : str)
  | _ => false
  end.
Definition redirect_flags_map_to_statuses : bool :=
  match Rewrite.apply (RewriteEngine_new [rule "^/moved$" "/here" "permanent"]) "/moved" with
  | Some (Redirect target status) => all_hold [assert_eq target ("/here" : str); status =? 301]
  | _ => false
  end.
Definition no_match_passes_through : bool :=
  assert_none (Rewrite.apply (RewriteEngine_new [rule "^/old$" "/new" "break"]) "/other").

Theorem rewrite_tests :
  all_hold [internal_rewrite; redirect_flags_map_to_statuses; no_match_passes_through] = true.
Proof. vm_compute. reflexivity. Qed.
End rewrite_tests.

(** ** resolver.rs

    The system resolver answers an address literal with the address itself, at port 0. *)

Definition literal_answer (host : str) : option (list SocketAddr) :=
  option_map (fun ip => [mkSocketAddr ip 0]) (parse_ip host).
Definition test_resolver (networks : list string) (ttl : Z) : PinningResolver :=
  mkResolver (omap IpNetwork_parse (strs networks)) ttl.
(** A lookup of [127.0.0.1] on an empty cache, from instant 0 to instant 1. *)
Definition lookup_loopback (r : PinningResolver) : Cache * res ResolveError (list SocketAddr) :=
  resolve_checked r ∅ "127.0.0.1" 0 (literal_answer "127.0.0.1") 1.

Definition loopback_literal_rejected_without_allowlist : bool :=
  match snd (lookup_loopback (test_resolver [] (from_secs 30))) with
  | Err (PermissionDenied _ _) => true
  | _ => false
  end.
Definition loopback_literal_allowed_with_allowlist : bool :=
  match snd (lookup_loopback (test_resolver ["127.0.0.0/8"]%string (from_secs 30))) with
  | Ok addrs => negb (bool_decide (addrs = []))
  | _ => false
  end.
Definition vetted_answers_are_cached : bool :=
  let '(cache, result) := lookup_loopback (test_resolver ["127.0.0.0/8"]%string (from_secs 30)) in
  all_hold [is_ok result; assert_some (snd (cached cache "127.0.0.1" 2))].
Definition expired_entries_are_dropped : bool :=
  let '(cache, result) := lookup_loopback (test_resolver ["127.0.0.0/8"]%string (from_millis 1)) in
  all_hold [is_ok result; assert_none (snd (cached cache "127.0.0.1" (1 + from_millis 10)))].

Theorem resolver_tests :
  all_hold [loopback_literal_rejected_without_allowlist; loopback_literal_allowed_with_allowlist;
    vetted_answers_are_cached; expired_entries_are_dropped] = true.
Proof. vm_compute. reflexivity. Qed.

(** ** static_file.rs *)

(** A temporary root with regular files, and links that lead out of it. *)
Definition temp_root : str := "/tmp/flexd-test".
Definition temp_fs (files : list (string * string)) (links : list string) : FileSystem := {|
  File := str;
  open_dir root := bool_decide (root = temp_root);
  openat2 root rel :=
    match find_first (fun f => bool_decide (list_ascii_of_string (fst f) = rel)) files with
    | Some f => inl (list_ascii_of_string (snd f))
    | None => inr (if bool_decide (rel ∈ strs links) then EXDEV else ENOENT)
    end;
  canonicalize p := Some p;
  file_open _ := None;
  file_is_file _ := Some true;
  read_to_end f := Some f;
  real_path _ := temp_root;
|}.
Definition serve (F : FileSystem) (path : string) : res Z Response := serve_file (F := F) temp_root path.
Definition status_of (r : res Z Response) : option Z := match r with Ok resp => Some (r_status resp) | _ => None end.
Definition unwrap_err (r : res Z Response) : option Z := match r with Err e => Some e | _ => None end.

Definition serves_regular_file : bool :=
  assert_eq (status_of (serve (temp_fs [("index.html", "<h1>hi</h1>")]%string []) "/index.html")) (Some OK_200).
Definition rejects_dotdot_traversal : bool :=
  let F := temp_fs [] [] in
  all_hold [assert_eq (unwrap_err (serve F "/../etc/passwd")) (Some FORBIDDEN);
            assert_eq (unwrap_err (serve F "/%2e%2e/etc/passwd")) (Some FORBIDDEN)].
Definition symlink_escape_blocked : bool :=
  assert_eq (unwrap_err (serve (temp_fs [] ["leak.txt"]%string) "/leak.txt")) (Some FORBIDDEN).
Definition missing_file_is_404 : bool :=
  assert_eq (unwrap_err (serve (temp_fs [] []) "/nope.txt")) (Some NOT_FOUND).

Theorem static_file_tests :
  all_hold [serves_regular_file; rejects_dotdot_traversal; symlink_escape_blocked; missing_file_is_404] = true.
Proof. vm_compute. reflexivity. Qed.

(** ** acme.rs *)

Section acme_tests.
#[local] Existing Instance demo_acme.
Let new : ChallengeStore CertKey := ChallengeStore_new CertKey.

Definition store_roundtrip_http01 : bool :=
  let store := put_http01 new "tok" "tok.thumb" in
  all_hold [assert_none (get_http01 new "tok"); assert_eq (get_http01 store "tok") (Some ("tok.thumb" : str));
            assert_none (get_http01 store "missing")].
Definition store_debug_redacts_secrets : bool :=
  let dbg := fmt CertKey (put_http01 new "tok" "super-secret-keyauth") in
  all_hold [negb (contains dbg "super-secret-keyauth"); contains dbg "http01_pending"].
Definition tls_alpn_cert_rejects_bad_digest_len : bool :=
  is_err (build_tls_alpn_cert "example.com" (replicate 16 (byte 0))).
Definition resolver_serves_default_without_acme_alpn : bool :=
  all_hold [is_ok (build_tls_alpn_cert "default.example" (replicate 32 (byte 1))); negb (has_tls_alpn new)].
Definition prop_http01_store_roundtrip (token auth : str) : bool :=
  let store := put_http01 new token auth in
  all_hold [assert_eq (get_http01 store token) (Some auth); assert_none (get_http01 store (token ++ "x"))].

Theorem acme_tests :
  all_hold [store_roundtrip_http01; store_debug_redacts_secrets; tls_alpn_cert_rejects_bad_digest_len;
    resolver_serves_default_without_acme_alpn] = true
  /\ (forall token auth, prop_http01_store_roundtrip token auth = true).
Proof.
  split; [vm_compute; reflexivity|]. intros token auth. unfold prop_http01_store_roundtrip, get_http01, put_http01.
  cbn [http01]. rewrite lookup_insert_eq, lookup_insert_ne.
  - unfold assert_eq. by rewrite bool_decide_eq_true_2.
  - intros E. apply (f_equal length) in E. rewrite length_app in E. cbn in E. lia.
Qed.
End acme_tests.
