(* ===== verification/Integration.v ===== *)
(** * The program's integration tests (src/tests/integration.rs)

    The tests of the whole handler and of the whole server, run on the definitions,
    in the manner of [Conformance]: each test is a boolean that prepares what the
    source prepares, makes the calls and evaluates the assertions.  A mock upstream is
    the function from requests to answers that its program amounts to; the TOML a test
    hands to [toml::from_str] is written as the value it stands for, with the serde
    defaults of config.rs.  The lemmas show that every one of them passes.  The echoing
    of bytes through an open tunnel is tokio's copy and is left out. *)

From S2P Require Import Prelude.
From S2P Require Import Str.
From S2P Require Import Net.
From S2P Require Import Extern.
From S2P Require Import Instances.
From S2P Require Import Config.
From S2P Require Import Balance.
From S2P Require Import StaticFile.
From S2P Require Import Geoip.
From S2P Require Import Proxy.
From S2P Require Import Handler.
From S2P Require Import Wire.
From S2P Require Import Tls.
From S2P Require Import Acme.
From S2P Require Import Listener.
From S2P Require Import Broadcast.
From S2P Require Import Server.
From S2P Require Import System.
From S2P Require Import Conformance.

#[local] Existing Instance id_unicode.
#[local] Existing Instance assoc_http.
#[local] Existing Instance cidr_nets.
#[local] Existing Instance anchored_regex.
#[local] Existing Instance one_country.

(** ** What the tests are built from *)

Definition CLIENT : IpAddr := ip_of "198.51.100.7".

(** An upstream of the tests: [EchoHeaders marker] answers with the marker and the
    request head it received, [Raw] with a given response. *)
Inductive Mock : Type :=
  | EchoHeaders (marker : string)
  | Raw (headers : list (string * string)) (body : string).

(** The request head as it is on the wire. *)
Definition head_of (rq : UpstreamRequest) : str :=
  let p := ureq_parts rq in
  method_as_str (p_method p) ++ " " ++ default [] (uri_path_and_query (p_uri p)) ++ " HTTP/1.1" ++ CRLF
  ++ concat (map (fun '(k, v) => k ++ ": " ++ v ++ CRLF) (hm_iter (p_headers p))) ++ CRLF.

Definition mock_upstream (mode : Mock) (rq : UpstreamRequest) : Answer :=
  match mode with
  | EchoHeaders marker =>
      let body := marker ++ [byte 10] ++ head_of rq in
      Proxy.Answered 200 [("content-length" : str, show (Z.of_nat (length body))); ("connection" : str, "close" : str)] (mkIncoming body Complete)
  | Raw headers body => Proxy.Answered 200 (hm headers) (mkIncoming (body : str) Complete)
  end.

(** The mocks that listen, by address; a connection to any other is refused. *)
Definition network (mocks : list (string * Mock)) (attempt : nat) (rq : UpstreamRequest) : Answer :=
  match uri_authority (p_uri (ureq_parts rq)) ≫= fun a =>
          find_first (fun m => bool_decide (list_ascii_of_string (fst m) = a)) mocks with
  | Some (_, mode) => mock_upstream mode rq
  | None => ClientError true
  end.

Definition make_handler (block : HttpBlock) (is_tls : bool) : HandlerService * State :=
  HandlerService_new block false is_tls TimeoutSettings_default.

Definition request (method : Method) (path : string) (headers : list (string * string)) (body : string) : Request :=
  mkRequest (mkParts assoc_http method (default (mkUri None [] None) (Uri_parse path)) HTTP_11 (hm headers)) body.

(** What the blocks of the tests set; everything else is the serde default. *)
Definition test_block (policy : string) (root : option str) (locations : list Location) (rewrites : list RewriteRule)
    (max_body hsts : option Z) (trusted networks : option (list str)) : HttpBlock :=
  mkHttp [mkListen 0 default_tcp None] (strs ["test.local"]%string) root None true false locations rewrites None []
    default_access_log None max_body true true None None policy None true false None None trusted networks
    None None None [] None hsts None.
Definition plain_block : HttpBlock := test_block "any" None [] [] None None None None.

Definition proxy_block (servers : list string) (strategy : string) (trusted : option (list str)) : HttpBlock :=
  test_block "any" None
    [mkLocation "/" "prefix" (Config.mkHandler "proxy" None
       (Some (mkUpstream "pool" (map (fun a => mkServer a default_weight) (strs servers)) strategy)) None None None)]
    [] None None trusted (Some (strs ["127.0.0.0/8"]%string)).

(** Requests one after the other at one handler, with the state they share. *)
Section calls.
Context {G : GzLib} {F : FileSystem}.

Definition handle_collected (mocks : list (string * Mock)) (h : HandlerService * State) (rq : Request)
    : (HandlerService * State) * option Response :=
  let '(st, _, r) := Handler.handle_collected (fst h) no_hash_ip no_hash (network mocks) (snd h) rq CLIENT in
  ((fst h, st), r).

Fixpoint handle_all (mocks : list (string * Mock)) (h : HandlerService * State) (rqs : list Request) : list (option Response) :=
  match rqs with
  | [] => []
  | rq :: r => let '(h, resp) := handle_collected mocks h rq in resp :: handle_all mocks h r
  end.
Definition call (mocks : list (string * Mock)) (block : HttpBlock) (is_tls : bool) (rq : Request) : option Response :=
  snd (handle_collected mocks (make_handler block is_tls) rq).
End calls.

Definition status_is (r : option Response) (status : Z) : bool := assert_eq (option_map r_status r) (Some status).
Definition body_string (r : option Response) : str := default [] (option_map r_body r).
Definition first_line (s : str) : str := default [] (head (split s (byte 10))).
Definition header (r : option Response) (k : string) : option str := r ≫= fun r => hm_get (r_headers r) k.
Definition test_get (path : string) : Request := request GET path [("host", "test.local")]%string "".

(** ** Load balancing and failover *)

Section handler_tests.
#[local] Existing Instance stored_gz.
#[local] Instance no_files : FileSystem := temp_fs [] [].

Definition round_robin_rotates_across_upstreams : bool :=
  let mocks := [("127.0.0.1:9001", EchoHeaders "upstream-a"); ("127.0.0.1:9002", EchoHeaders "upstream-b")]%string in
  let handler := make_handler (proxy_block ["127.0.0.1:9001"; "127.0.0.1:9002"]%string "round-robin" None) false in
  let responses := handle_all mocks handler (replicate 4 (test_get "/")) in
  match map (fun r => first_line (body_string r)) responses with
  | [s0; s1; s2; s3] =>
      all_hold [forallb (fun r => status_is r OK_200) responses; assert_eq s0 s2; assert_eq s1 s3; negb (assert_eq s0 s1)]
  | _ => false
  end.
Definition failover_skips_dead_upstream : bool :=
  let mocks := [("127.0.0.1:9002", EchoHeaders "live")]%string in
  let handler := make_handler (proxy_block ["127.0.0.1:9001"; "127.0.0.1:9002"]%string "round-robin" None) false in
  forallb (fun r => status_is r OK_200 && starts_with (body_string r) "live")
    (handle_all mocks handler (replicate 3 (test_get "/"))).
Definition all_upstreams_down_yields_502 : bool :=
  status_is (call [] (proxy_block ["127.0.0.1:9001"]%string "round-robin" None) false (test_get "/")) BAD_GATEWAY.

(** ** Forwarded request headers *)

Definition echo : list (string * Mock) := [("127.0.0.1:9001", EchoHeaders "echo")]%string.
Definition host_preserved_and_attribution_stamped : bool :=
  let resp := call echo (proxy_block ["127.0.0.1:9001"]%string "round-robin" None) false
    (request GET "/" [("host", "test.local"); ("x-forwarded-for", "1.2.3.4"); ("x-real-ip", "1.2.3.4");
       ("x-geoip-country", "XX"); ("connection", "x-secret"); ("x-secret", "leak")]%string "") in
  let head := to_ascii_lowercase (body_string resp) in
  all_hold [status_is resp OK_200; contains head "host: test.local"; contains head "x-forwarded-for: 198.51.100.7";
    negb (contains head "1.2.3.4"); contains head "x-real-ip: 198.51.100.7"; contains head "x-forwarded-proto: http";
    negb (contains head "x-secret"); negb (contains head "x-geoip-country")].
Definition trusted_proxy_xff_is_appended_not_replaced : bool :=
  let resp := call echo (proxy_block ["127.0.0.1:9001"]%string "round-robin" (Some (strs ["198.51.100.0/24"]%string))) false
    (request GET "/" [("host", "test.local"); ("x-forwarded-for", "1.2.3.4")]%string "") in
  contains (to_ascii_lowercase (body_string resp)) "x-forwarded-for: 1.2.3.4, 198.51.100.7".

(** ** Upstream responses *)

Definition answered_raw (headers : list (string * string)) (body : string) : option Response :=
  call [("127.0.0.1:9001"%string, Raw headers body)] (proxy_block ["127.0.0.1:9001"]%string "round-robin" None) false (test_get "/").
Definition response_hop_by_hop_and_nominated_stripped : bool :=
  let resp := answered_raw [("content-length", "2"); ("connection", "x-hop"); ("x-hop", "leak");
    ("keep-alive", "timeout=5"); ("x-kept", "yes")]%string "ok" in
  all_hold [status_is resp OK_200; assert_none (header resp "connection"); assert_none (header resp "keep-alive");
    assert_none (header resp "x-hop"); assert_eq (header resp "x-kept") (Some ("yes" : str))].
Definition multiple_set_cookie_headers_survive : bool :=
  match answered_raw [("content-length", "2"); ("set-cookie", "a=1"); ("set-cookie", "b=2")]%string "ok" with
  | Some resp => assert_eq (length (hm_get_all (r_headers resp) "set-cookie")) 2%nat
  | None => false
  end.
Definition upstream_cl_te_response_rejected : bool :=
  status_is (answered_raw [("content-length", "5"); ("transfer-encoding", "chunked")]%string "hello") BAD_GATEWAY.

(** ** Request limits and framing *)

Definition zeros (n : nat) : string := string_of_list_ascii (replicate n (byte 0)).
Definition oversized_body_rejected : bool :=
  status_is (call [] (test_block "any" None [] [] (Some 1024) None None None) false
    (request POST "/" [("host", "test.local")]%string (zeros 4096))) PAYLOAD_TOO_LARGE.
Definition request_cl_te_rejected : bool :=
  status_is (call [] plain_block false (request POST "/"
    [("host", "test.local"); ("content-length", "5"); ("transfer-encoding", "chunked")]%string "hello")) BAD_REQUEST.
Definition encoded_traversal_rejected : bool :=
  status_is (call [] plain_block false (test_get "/%2e%2e%2fetc/passwd")) BAD_REQUEST.
Definition disallowed_method_rejected : bool :=
  status_is (call [] plain_block false (request TRACE "/" [("host", "test.local")]%string "")) METHOD_NOT_ALLOWED.

(** ** Host policy, locations, rewrites, HSTS *)

Definition strict_host_policy_enforced : bool :=
  let block := test_block "strict" None
    [mkLocation "/" "prefix" (Config.mkHandler "return" None None (Some ("ok" : str)) (Some 200) None)] [] None None None None in
  match handle_all [] (make_handler block false)
          [test_get "/"; request GET "/" [("host", "evil.example")]%string ""; request GET "/" [] ""] with
  | [ok; bad; missing] => all_hold [status_is ok OK_200; status_is bad BAD_REQUEST; status_is missing BAD_REQUEST]
  | _ => false
  end.
Definition deny_location_and_return_location : bool :=
  let block := test_block "any" None
    [mkLocation "/admin" "prefix" (Config.mkHandler "deny" None None None None None);
     mkLocation "/teapot" "exact"
       (Config.mkHandler "return" None None (Some ("short and stout" : str)) (Some 418) None)] [] None None None None in
  match handle_all [] (make_handler block false) [test_get "/admin/panel"; test_get "/teapot"] with
  | [denied; teapot] => all_hold [status_is denied FORBIDDEN; status_is teapot 418]
  | _ => false
  end.
Definition hsts_present_on_tls_block : bool :=
  assert_eq (header (call [] (test_block "any" None [] [] None (Some 63072000) None None) true (test_get "/nope"))
               "strict-transport-security")
    (Some ("max-age=63072000; includeSubDomains" : str)).

Theorem handler_integration_tests :
  all_hold [round_robin_rotates_across_upstreams; failover_skips_dead_upstream; all_upstreams_down_yields_502;
    host_preserved_and_attribution_stamped; trusted_proxy_xff_is_appended_not_replaced;
    response_hop_by_hop_and_nominated_stripped; multiple_set_cookie_headers_survive; upstream_cl_te_response_rejected;
    oversized_body_rejected; request_cl_te_rejected; encoded_traversal_rejected; disallowed_method_rejected;
    strict_host_policy_enforced; deny_location_and_return_location; hsts_present_on_tls_block] = true.
Proof. vm_compute. reflexivity. Qed.
End handler_tests.

(** ** The decompression limit

    A decoder that inflates the tests' bomb, about a kilobyte as flate2 packs it, to
    the 1 MiB of zeros it was made from. *)

Definition bomb : string := zeros 1051.
Definition bomb_gz : GzLib := {|
  gz_decode s :=
    if bool_decide (s = list_ascii_of_string bomb) then (replicate (Z.to_nat (1024 * 1024)) (byte 0), false) else (s, false);
|}.

Section decompression_tests.
#[local] Existing Instance bomb_gz.
#[local] Instance nothing : FileSystem := temp_fs [] [].

Definition gzip_bomb_rejected : bool :=
  status_is (call [] plain_block false
    (request POST "/" [("host", "test.local"); ("content-encoding", "gzip")]%string bomb)) PAYLOAD_TOO_LARGE.

Theorem decompression_integration_tests : gzip_bomb_rejected = true.
Proof. vm_compute. reflexivity. Qed.
End decompression_tests.

(** ** Rewrites into a root *)

Section rewrite_integration.
#[local] Existing Instance stored_gz.
#[local] Instance new_page : FileSystem := temp_fs [("new.html", "<p>fresh</p>")]%string [].

Definition rewrite_redirect_and_internal : bool :=
  let block := test_block "any" (Some temp_root) []
    [mkRewrite "^/moved$" "/elsewhere" "permanent"; mkRewrite "^/old.html$" "/new.html" "break"] None None None None in
  match handle_all [] (make_handler block false) [test_get "/moved"; test_get "/old.html"] with
  | [redirect; internal] =>
      all_hold [status_is redirect MOVED_PERMANENTLY; assert_eq (header redirect "location") (Some ("/elsewhere" : str));
        status_is internal OK_200; contains (body_string internal) "fresh"]
  | _ => false
  end.

Theorem rewrite_integration_tests : rewrite_redirect_and_internal = true.
Proof. vm_compute. reflexivity. Qed.
End rewrite_integration.

(** ** CONNECT and the bare-LF screen, on a whole server

    A configuration that validates is started; the client talks to the first listener
    that startup serves.  The system gives the socket bound at port 0 the port 8080. *)

Section server_tests.
#[local] Existing Instance stored_gz.
#[local] Existing Instance text_tls.
#[local] Instance empty_root : FileSystem := temp_fs [] [].

Definition echo_port : Z := 7777.
Definition echo_tcp_server : SocketAddr := mkSocketAddr (ip_of "127.0.0.1") echo_port.

Definition connect_config (allow_connect : bool) : Config :=
  mkConfig (mkGlobal default_worker_processes default_error_log None None None)
    [mkHttp [mkListen 0 "tcp" (Some ("127.0.0.1" : str))] (strs ["tunnel.local"]%string) None None true false [] [] None []
       "/tmp/flexd-it.log" None None true true None None "any" None true allow_connect
       (Some (mkUpstream "tunnel" [mkServer "127.0.0.1:7777" default_weight] default_round_robin))
       (Some (strs ["127.0.0.1:7777"]%string)) None (Some (strs ["127.0.0.0/8"]%string))
       None None None [] None None None] [] None.

Definition as_user : Env := mkEnv (fun _ => true) (fun _ => None) false (fun _ => None) (fun _ => None) (fun _ => None).
Definition test_files : Files (L := str) := mkFiles (fun _ => None) Some.

(** The address the server is bound to, and the listener that serves there. *)
Definition spawn_server (config : Config) : option (SocketAddr * Listener (L := str)) :=
  match Config_validate as_user config, run always always always always (fun l => l) config with
  | Ok _, (tr, Ok _) =>
      addr ← head (bound_addrs always (fun a => Some (mkSocketAddr (sa_ip a) 8080)) tr);
      sd ← head (omap (seed_of config) tr);
      l ← rl_start (W := Listener (L := str)) test_files true sd;
      Some (addr, l)
  | _, _ => None
  end.

Definition connect_request (target : string) : Parts :=
  mkParts assoc_http CONNECT (default (mkUri None [] None) (Uri_parse target)) HTTP_11 (hm [("host"%string, target)]).
(** The status the client reads and where the tunnel leads. *)
Definition connect (config : Config) (target : string) : option (Z * option SocketAddr) :=
  '(_, l) ← spawn_server config;
  let '(_, eff) := handle (fst (ls_handler l)) no_hash_ip no_hash
                     (mkWorld ∅ no_client None (fun a => bool_decide (a = echo_tcp_server)) 0 0) (snd (ls_handler l))
                     (connect_request target) (mkIncoming [] Complete) CLIENT in
  '(resp, _) ← ef_response eff;
  Some (r_status resp, ef_tunnel eff).

Definition connect_tunnel_end_to_end : bool :=
  assert_eq (connect (connect_config true) "127.0.0.1:7777") (Some (OK_200, Some echo_tcp_server)).
Definition connect_disallowed_target_403 : bool :=
  assert_eq (connect (connect_config true) "127.0.0.1:1") (Some (FORBIDDEN, None)).
Definition connect_denied_405_when_disabled : bool :=
  assert_eq (connect (connect_config false) "127.0.0.1:7777") (Some (METHOD_NOT_ALLOWED, None)).
Definition bare_lf_request_rejected : bool :=
  match spawn_server (connect_config false) with
  | Some (_, l) =>
      assert_none (ls_acceptor l)
      && match serve_http1_with_bare_lf_check tt
                 (PeekBytes ("GET / HTTP/1.1" ++ [LF] ++ "Host: tunnel.local" ++ [LF; LF])) with
         | Answered response => starts_with response "HTTP/1.1 400"
         | _ => false
         end
  | None => false
  end.

Theorem server_integration_tests :
  all_hold [connect_tunnel_end_to_end; connect_disallowed_target_403; connect_denied_405_when_disabled;
    bare_lf_request_rejected] = true.
Proof. vm_compute. reflexivity. Qed.
End server_tests.
